(* ===== verification/_CoqProject ===== *)
-Q . S2P
Prelude.v
PyData.v
RadixKey.v
Allocator.v
AllocKernel.v
AllocatorInv.v
SwaAllocator.v
RadixTree.v
RadixInv.v
RadixContent.v
RadixOps.v
RadixInsert.v
RadixEvict.v
RadixSession.v
ReqCache.v
ReqCacheInv.v
ReqAlloc.v
ReqLife.v
BatchAlloc.v
WriteKernel.v
Finish.v
Delayer.v
PrefillAdder.v
ScheduleBatch.v
BatchInv.v
ServeInv.v
ServeOps.v
Room.v
ServeReach.v
ExtendInv.v
MemCheck.v
RatioInv.v
DecodeInv.v
ResultInv.v
ServeLoop.v
PrefillAdderInv.v
PassInv.v
PassIdle.v
SchedulePolicy.v
SchedulePolicyInv.v
Scheduler.v
Load.v
NoDelay.v
QueueInv.v
SchedulerInv.v
AbortInv.v
LaunchInv.v
PassStep.v
LoopInv.v
Server.v
RadixSystem.v
AllocatorProps.v
Samples.v
RadixProps.v
ReqProps.v
SchedProps.v
BatchSamples.v
ServeProps.v
BatchProps.v
LoopProps.v
