(* ===== verification/Prelude.v ===== *)
(** * The KV cache and the scheduler of the SGLang runtime

    This library models the part of python/sglang/srt (under src/) that decides
    which key-value slots of the GPU memory belong to whom, and which requests run:
    the allocators of KV slots, the radix tree that shares prefixes between
    requests, the accounting of a request's slots from its admission to its
    release, the batches they run in, the scheduler's admission, ordering and delay
    of prefills, and the event loop around them, from the arrival of a request to its
    last token.  It proves that no slot is lost or handed out twice, that the tree
    finds the longest cached prefix, that a batch that is admitted can be allocated,
    that the event loop never raises, loses no request, and gets to the end of its
    work.

    ** The program and its files

    - [Prelude]: results with Python exceptions, slices, common prefixes, pages,
      permutations by counting, tactics and hints.
    - [PyData]: dictionaries in insertion order, tuples in lexicographic order,
      [heapq] as an interface ([HeapQ], [HeapQLaws]) with one instance, the
      stable [sort].
    - [RadixKey]: class [RadixKey] of mem_cache/radix_cache.py.
    - [Allocator]: the classes of mem_cache/allocator/ base.py, token.py,
      paged.py and mamba.py, the kernels of mem_cache/triton_ops/allocator.py and
      [get_num_new_pages] of utils/common.py.  [AllocKernel] relates kernels and
      reference loop; [AllocatorInv] has the step relations of the two allocators
      and their invariants.
    - [RadixTree]: class [RadixCache] and [TreeNode] of mem_cache/radix_cache.py
      with mem_cache/evict_policy.py, utils.py, events.py and
      session_radix_cache.py.  [RadixInv] has the invariant of the tree, shape,
      locks and counters; [RadixContent] the abstract content ([cached]);
      [RadixOps], [RadixInsert], [RadixEvict] and [RadixSession] what each
      operation does to both; [RadixSystem] the step relation of the cache with
      its clients.
    - [ReqCache]: the KV accounting of [Req] (managers/schedule_batch.py),
      [ReqToTokenPool] (mem_cache/memory_pool.py), [cache_finished_req] and
      [cache_unfinished_req], the chunk caches (mem_cache/chunk_cache.py) and the
      helpers of mem_cache/common.py.  [ReqCacheInv] and [ReqAlloc] prove what
      they do to slots, locks and rows; [ReqLife] what admission and release do to
      one request.  [BatchAlloc] has the allocation of a whole batch
      ([alloc_for_extend], [alloc_for_decode]); [WriteKernel] the kernel
      [write_req_to_token_pool_triton] of mem_cache/triton_ops/common.py, which writes
      the rows as the torch loop of [write_cache_indices] does.
    - [ScheduleBatch]: class [ScheduleBatch] of managers/schedule_batch.py,
      [update_running_batch] and the merge of prefill batches of
      managers/scheduler.py, managers/scheduler_components/
      new_token_ratio_tracker.py and batch_result_processor.py.  [BatchInv] has the
      invariant of a batch's columns; [ServeInv] and [ServeOps] the invariant that
      ties cache, row table and all requests that hold slots, and that every step
      keeps it; [Room] the slots that are free or can be evicted; [ServeReach] the
      step relation of these steps.  [ExtendInv], [DecodeInv], [ResultInv] and
      [RatioInv] prove that preparing a prefill, a decode step with retraction, the
      results of a forward pass and the token ratio do what they should; [ServeLoop]
      puts them together to whole rounds.
    - [MemCheck]: the self checks of managers/scheduler_components/
      invariant_checker.py, and that they stay silent.
    - [Finish]: the stop conditions of [Req] (managers/schedule_batch.py).
    - [SwaAllocator]: the hybrid allocator of mem_cache/allocator/swa.py.
    - [Delayer]: managers/prefill_delayer.py, min_free_slots_delayer.py,
      scheduler_input_blocker.py, scheduler_recv_skipper.py and
      utils/poll_based_barrier.py, a module each.
    - [PrefillAdder]: class [PrefillAdder] of managers/schedule_policy.py and the
      admission loop of managers/scheduler.py, over the interface [PrefixCache],
      which [PrefillAdderInv] states laws for and proves for the radix cache.
      [PassInv] proves what a pass over the whole queue leaves, [PassIdle] that an idle
      server admits the first request.
    - [SchedulePolicy], [SchedulePolicyInv]: class [SchedulePolicy] of
      managers/schedule_policy.py.
    - [Scheduler]: the state of class [Scheduler] of managers/scheduler.py and its
      operations: requests come in ([handle_generate_request] with its limits,
      priorities and queue bound) and are aborted ([abort_request] and the two
      timeouts), [get_next_batch_to_run] with all it calls,
      [process_batch_result], [on_idle] and an iteration of [event_loop_normal].
      [QueueInv], [SchedulerInv], [AbortInv], [LaunchInv], [PassStep] and [LoopInv]
      take the iteration apart: the queue, the invariant between two iterations and
      what comes ahead of the prefill pass, aborts, the launch of a prefill batch, the
      pass, the decode batch and the whole iteration.  [Load] is the measure an
      iteration lowers; [NoDelay] shows that a server without a prefill delayer stays
      so.
    - [Server]: the server as a state machine whose events are requests, aborts and
      iterations, its reachable states, and that it gets to the end of its work.
    - [Samples], [BatchSamples]: small concrete systems.  [AllocatorProps],
      [RadixProps], [ReqProps], [SchedProps], [ServeProps], [BatchProps],
      [LoopProps]: the theorems about the program, each with a concrete instance.

    ** How code became definitions

    A method that mutates its object takes the state and returns the new one in
    the monad [result], whose [Raise] carries the Python exception; an [assert] is
    [py_assert].  The tree is a finite map from node identities to nodes, so
    aliasing of nodes is kept; what only metrics and events read (access times, hit
    counts, hashes, session tags) is a second map.  Tensors of slots are lists of
    [Z]; a store outside of an index range is written out where the code can reach
    it.  Token and page arithmetic is in [Z] or [nat]; the block hashes are 64-bit
    and wrapped explicitly.  Floats of budgets and estimates are exact
    rationals; their rounding is not modelled.

    Parameters stand for what is outside: the clock ([monotonic],
    [perf_counter]), the variable SGLANG_RADIX_FORCE_MISS ([force_miss]), the native
    hash, the result of collectives ([gather], [peers]), [random.shuffle], the memory a kernel reads past its input
    ([junk]) and the order its programs run in ([grid]).  Their laws are the
    classes [EnvLaws], [HeapQLaws] and hypotheses of the theorems, and the
    concrete instances show that they can hold.

    Loops that are not structural take fuel, which the callers compute: the length
    of a key bounds the descent of a lookup or an insertion, the number of nodes
    bounds climbs, traversals and evictions, the length of two keys the galloping
    comparison.  The theorems state that the operations return [Ok], so the fuel
    is enough.  The recursion limit of Python is not modelled.

    ** What the theorems show

    [RadixProps]: lookups, insertions, evictions and locks refine operations on
    the map of cached prefixes; slots and locks are conserved; every reachable
    state keeps the invariant.  [AllocatorProps]: the kernels equal the reference
    loop, and free, pending and live slots partition the pool.  [ReqProps]: a
    request's slots end up in the tree or in the allocator exactly once.
    [SchedProps]: admission fits the memory, ordering permutes the queue,
    preemption is justified, delays are bounded, input is not reordered.
    [ServeProps]: the kernel that writes rows, every branch of the stop conditions, and
    the hybrid allocator for pages of one token.  [BatchProps]: over any interleaving of
    the steps of all requests every slot has one owner, and a prefill or decode round never raises and leaves
    a batch that is ready for the next one; who is retracted; columns that follow
    the requests.  These hold for pages of one token, without speculative decoding
    and, for whole rounds, without overlap; prefill rounds are of requests that fit rows
    and pool.  They use the law [KVPoolSlots], which the token allocator meets; the paged
    one, which frees whole pages, has theorems of its own.  The forward pass
    is any list of one token per request, the stop conditions any predicate.

    [LoopProps] is about the server as a whole, in all states it reaches from its
    start: no event raises ([serving_never_raises]); a request that arrived is held,
    has finished or is reported as aborted ([no_request_is_lost]); every slot is free,
    cached or owned by one request ([server_slots_partition]); requests are distinct
    and what waits fits the pools ([server_state_typed]); without arrivals finitely
    many iterations leave nothing to do ([server_drains]), so that every request is
    answered ([every_request_answered]), with a bound on the number of iterations.  The
    last two follow from a measure: an iteration reduces the tokens that may still be
    produced, or with the same tokens the input that is still to be computed, or it
    only takes finished requests out of
    the running batch.  The servers these theorems are about ([server_ok],
    [plain_server]) have pages of one token, the radix cache, any positive chunk size and
    any schedule policy, but no speculative decoding, no mixed chunks, no preemption by priority, no truncation alignment and no overlap; the
    bounds of queue and batch are positive, the stop conditions are any that end a request
    at its number of new tokens, and progress asks that there is no prefill delayer.  What
    arrives are generation requests with a non-empty input and an identity no held request
    has; embedding requests are modelled ([handle_embedding_request]) but are no event.

    Four theorems state defects of the code: [insert_sort_misplaces_largest],
    [release_session_sends_no_event], [preempted_request_is_lost] (why
    [no_request_is_lost] asks for no preemption) and [long_input_never_admitted]
    (with pages of more than six tokens, whatever prefix of the input is cached).

    With the queue trigger of the prefill delayer on, the decision of a rank also
    depends on its own clock; [ranks_decide_alike] therefore asks for it to be off.

    ** Not modelled

    Hierarchical, unified and mamba radix caches (asynchronous copies by a cache
    controller), the sliding-window radix cache, the overlapped and the pipelined
    event loop, pausing, flushing and data-parallel synchronisation, model execution,
    sampling, speculative drafts, tokenizers, servers and sockets, metrics and
    logging.  Inside the modelled classes: CPU copies of KV data, pretty printing,
    multimodal inputs, sessions of the intake, grammars, LoRA, disaggregation and
    HiSparse branches. *)

From stdpp Require Import base gmap strings list fin_maps sorting.
From Stdlib Require Import ZArith Lia.

Declare Scope py_scope.
Delimit Scope py_scope with py.
Open Scope py_scope.

Global Arguments Nat.div : simpl never.
Global Arguments Nat.modulo : simpl never.
Global Arguments Nat.sub : simpl nomatch.
Global Arguments Nat.ltb : simpl never.

(** * Errors *)

(** The exceptions the modelled code raises, and the exhaustion of a loop's
    fuel, which the theorems show does not happen. *)
Inductive exn :=
  | IndexError | ValueError | KeyError | TypeError | AssertionError | RuntimeError
  | AttributeError | NotImplementedError | OutOfFuel.

Global Instance exn_eq_dec : EqDecision exn.
Proof. solve_decision. Defined.

(** The outcome of a call that may raise. *)
Inductive result (A : Type) :=
  | Ok (a : A)
  | Raise (e : exn).
Arguments Ok {A} a.
Arguments Raise {A} e.

Global Instance result_eq_dec `{EqDecision A} : EqDecision (result A).
Proof. solve_decision. Defined.

Definition rbind {A B} (m : result A) (k : A → result B) : result B :=
  match m with
  | Ok a => k a
  | Raise e => Raise e
  end.

Notation "'let!' x ':=' m 'in' k" := (rbind m (λ x, k))
  (at level 10, x pattern, m at level 100, k at level 200) : py_scope.

(** A Python [assert]. *)
Definition py_assert (b : bool) : result unit :=
  if b then Ok () else Raise AssertionError.

(** An operation on [None] where an object is needed, or a missing object. *)
Definition of_option {A} (e : exn) (o : option A) : result A :=
  match o with Some a => Ok a | None => Raise e end.

Lemma rbind_Ok {A B} (m : result A) (k : A → result B) b :
  rbind m k = Ok b ↔ ∃ a, m = Ok a ∧ k a = Ok b.
Proof.
  destruct m as [a|e]; simpl; split; [eauto| |done|].
  - by intros (? & [= ->] & ?).
  - by intros (? & ? & ?).
Qed.

Lemma of_option_Ok {A} e (o : option A) a : of_option e o = Ok a ↔ o = Some a.
Proof. destruct o; naive_solver. Qed.

Lemma py_assert_Ok b u : py_assert b = Ok u ↔ b = true.
Proof. destruct b, u; naive_solver. Qed.

(** [inv_ok] opens every successful bind of the context. *)
Ltac inv_ok :=
  repeat match goal with
  | H : rbind _ _ = Ok _ |- _ =>
      let a := fresh "ra" in let Ha := fresh "Hra" in apply rbind_Ok in H as (a & Ha & H)
  | H : of_option _ _ = Ok _ |- _ => apply of_option_Ok in H
  | H : py_assert _ = Ok _ |- _ => apply py_assert_Ok in H
  | H : Ok _ = Ok _ |- _ => injection H as H
  | H : Raise _ = Ok _ |- _ => discriminate H
  end; simplify_eq/=.

(** [same_run] identifies the outcomes of two equations for one call. *)
Ltac same_run :=
  match goal with
  | H1 : ?x = Ok _, H2 : ?x = Ok _ |- _ => rewrite H1 in H2; simplify_eq
  end.

(** * Python slices *)

(** [slice a b l] is [l[a:b]] for non-negative bounds. *)
Definition slice {A} (a b : nat) (l : list A) : list A := take (b - a) (drop a l).

(** [l[:stop]]; a negative bound counts from the end. *)
Definition py_take {A} (stop : Z) (l : list A) : list A :=
  take (Z.to_nat (if (stop <? 0)%Z then (Z.of_nat (length l) + stop)%Z else stop)) l.

Lemma py_take_nat {A} n (l : list A) : py_take (Z.of_nat n) l = take n l.
Proof. unfold py_take. destruct (Z.ltb_spec (Z.of_nat n) 0); [lia|]. by rewrite Nat2Z.id. Qed.

(** * Longest common prefix *)

Section lcp.
Context {A : Type} `{EqDecision A}.
Implicit Types l : list A.

(** Reference definition: the number of leading positions on which two
    sequences agree. *)
Fixpoint lcp l1 l2 : nat :=
  match l1, l2 with
  | x :: l1, y :: l2 => if decide (x = y) then S (lcp l1 l2) else 0
  | _, _ => 0
  end.

Lemma lcp_le_l l1 l2 : lcp l1 l2 ≤ length l1.
Proof.
  revert l2; induction l1 as [|x l1 IH]; intros [|y l2]; simpl; try lia.
  case_decide; [specialize (IH l2)|]; lia.
Qed.

Lemma lcp_comm l1 l2 : lcp l1 l2 = lcp l2 l1.
Proof.
  revert l2; induction l1 as [|x l1 IH]; intros [|y l2]; simpl; try done.
  repeat case_decide; congruence.
Qed.

Lemma lcp_le_r l1 l2 : lcp l1 l2 ≤ length l2.
Proof. rewrite lcp_comm. apply lcp_le_l. Qed.

(** A prefix agrees exactly up to the longest common prefix. *)
Lemma lcp_take l1 l2 n :
  n ≤ length l1 → n ≤ length l2 → take n l1 = take n l2 ↔ n ≤ lcp l1 l2.
Proof.
  revert l2 n; induction l1 as [|x l1 IH]; intros [|y l2] [|n]; simpl; intros;
    try (split; [lia|done]); try lia.
  case_decide as Hxy.
  - subst. rewrite <-Nat.succ_le_mono, <-(IH l2 n) by lia.
    split; [by intros [=]|by intros ->].
  - split; [congruence|lia].
Qed.

Lemma lcp_prefix l1 l2 : l1 `prefix_of` l2 → lcp l1 l2 = length l1.
Proof.
  intros [k ->]. induction l1 as [|x l1 IH]; simpl; [done|].
  rewrite decide_True by done. by rewrite IH.
Qed.

Lemma lcp_length_prefix l1 l2 : lcp l1 l2 = length l1 → l1 `prefix_of` l2.
Proof.
  intros Hl. pose proof (lcp_le_r l1 l2).
  assert (Ht : take (length l1) l1 = take (length l1) l2) by (apply lcp_take; lia).
  exists (drop (length l1) l2). rewrite take_ge in Ht by done.
  rewrite Ht at 1. by rewrite take_drop.
Qed.

(** Beyond an agreeing prefix, a slice comparison decides the rest. *)
Lemma slice_eq_lcp l1 l2 a b :
  a ≤ b → b ≤ length l1 → b ≤ length l2 → a ≤ lcp l1 l2 →
  slice a b l1 = slice a b l2 ↔ b ≤ lcp l1 l2.
Proof.
  intros Hab H1 H2 Ha. rewrite <-(lcp_take l1 l2 b) by done.
  apply lcp_take in Ha; [|lia..]. unfold slice.
  rewrite <-(take_drop a (take b l1)), <-(take_drop a (take b l2)).
  rewrite !take_take, !(Nat.min_l a b), Ha, <-!skipn_firstn_comm by done.
  split; [by intros ->|]. apply app_inv_head.
Qed.

Lemma lcp_drop l1 l2 n :
  n ≤ lcp l1 l2 → lcp (drop n l1) (drop n l2) = lcp l1 l2 - n.
Proof.
  revert l1 l2; induction n as [|n IH]; intros [|x l1] [|y l2]; simpl; try lia.
  case_decide; intros; [|lia]. rewrite IH by lia. lia.
Qed.

Lemma lcp_app_same l l1 l2 : lcp (l ++ l1) (l ++ l2) = length l + lcp l1 l2.
Proof. induction l as [|x l IH]; simpl; [done|]. rewrite decide_True by done. lia. Qed.

Lemma lcp_app_lt l1 l2 l3 : lcp l1 l2 < length l1 → lcp (l1 ++ l3) l2 = lcp l1 l2.
Proof.
  revert l2; induction l1 as [|x l1 IH]; intros [|y l2]; simpl; try lia.
  case_decide; [|done]. intros. rewrite IH by lia. done.
Qed.

Lemma lcp_nil_r l : lcp l [] = 0.
Proof. by destruct l. Qed.
End lcp.

(** Round down to a multiple of the page size. *)
Definition page_floor (ps n : nat) : nat := n / ps * ps.

Lemma page_floor_le ps n : page_floor ps n ≤ n.
Proof. unfold page_floor. rewrite Nat.mul_comm. apply Nat.Div0.mul_div_le. Qed.

Lemma page_floor_1 n : page_floor 1 n = n.
Proof. unfold page_floor. rewrite Nat.div_1_r. lia. Qed.

Lemma page_floor_add ps m n : (ps | m) → 1 ≤ ps → page_floor ps (m + n) = m + page_floor ps n.
Proof.
  intros [q ->] Hps. unfold page_floor. rewrite Nat.div_add_l by lia. lia.
Qed.

Lemma aligned_pos ps n : 1 ≤ ps → (ps | n) → 0 < n → ps ≤ n.
Proof. intros Hps [q ->] Hn. destruct q; lia. Qed.

Lemma aligned_sub ps a b : (ps | a) → (ps | b) → (ps | b - a).
Proof. intros [p ->] [q ->]. exists (q - p). nia. Qed.

Lemma page_floor_divide ps n : (ps | page_floor ps n).
Proof. by exists (n / ps). Qed.

Lemma page_floor_greatest ps n k : 1 ≤ ps → (ps | k) → k ≤ n → k ≤ page_floor ps n.
Proof.
  intros Hps [q ->] Hk. unfold page_floor. apply Nat.mul_le_mono_r.
  apply Nat.div_le_lower_bound; lia.
Qed.

Lemma page_floor_id ps n : 1 ≤ ps → (ps | n) → page_floor ps n = n.
Proof.
  intros Hps Hn. pose proof (page_floor_le ps n). pose proof (page_floor_greatest ps n n Hps Hn).
  lia.
Qed.

(** * Folds *)

Lemma foldl_ext_in {A B} (f g : A → B → A) l a :
  (∀ a x, x ∈ l → f a x = g a x) → foldl f a l = foldl g a l.
Proof.
  revert a; induction l as [|x l IH]; intros a Hfg; simpl; [done|].
  rewrite Hfg by set_solver. apply IH. intros. apply Hfg. set_solver.
Qed.

(** A fold whose steps commute on distinct elements does not depend on the
    order. *)
Lemma foldl_perm {A B} (f : A → B → A) l1 l2 a :
  NoDup l1 → (∀ a x y, x ∈ l1 → y ∈ l1 → x ≠ y → f (f a x) y = f (f a y) x) →
  l1 ≡ₚ l2 → foldl f a l1 = foldl f a l2.
Proof.
  intros Hnd Hc Hp. revert a.
  induction Hp as [|x l1 l2 Hp IH|x y l|l1 l2 l3 Hp1 IH1 Hp2 IH2]; intros a; simpl.
  - done.
  - apply NoDup_cons in Hnd as [_ Hnd]. apply IH; [done|].
    intros. apply Hc; set_solver.
  - apply NoDup_cons in Hnd as [Hy _]. rewrite (Hc a y x) by set_solver. done.
  - rewrite IH1 by done. apply IH2; [by rewrite <-Hp1|].
    intros b x y Hx Hy. apply Hc; by rewrite Hp1.
Qed.

Lemma bind_ext_in {A B} (f g : A → list B) l :
  (∀ x, x ∈ l → f x = g x) → l ≫= f = l ≫= g.
Proof.
  induction l as [|x l IH]; intros Hfg; [done|]. csimpl.
  rewrite Hfg by set_solver. f_equal. apply IH. set_solver.
Qed.

Lemma elem_of_concat {A} (x : A) ls : x ∈ concat ls ↔ ∃ l, x ∈ l ∧ l ∈ ls.
Proof.
  rewrite list_elem_of_In, in_concat. setoid_rewrite list_elem_of_In. naive_solver.
Qed.

Global Instance concat_perm {A} : Proper ((≡ₚ) ==> (≡ₚ)) (@concat A).
Proof.
  intros l k Hp. induction Hp as [|x l k _ IH|x y l|l k m _ IH1 _ IH2]; cbn; [done| | |by etrans].
  - by rewrite IH.
  - rewrite !app_assoc. by rewrite (Permutation_app_comm y).
Qed.

Lemma Forall2_impl_r {A B} (R S : A → B → Prop) l k :
  Forall2 R l k → (∀ x y, y ∈ k → R x y → S x y) → Forall2 S l k.
Proof.
  induction 1 as [|x y l k Hxy H IH]; intros HS; constructor.
  - apply HS; [by left|done].
  - apply IH. intros. apply HS; [by right|done].
Qed.

(** * Permutations by counting *)

(** The multiplicity of [x] in [l]; two lists are permutations exactly when all
    multiplicities agree, which [solve_perm] decides by linear arithmetic. *)
Section pcount.
Context {A : Type} `{EqDecision A}.

Definition delta (a x : A) : nat := if decide (a = x) then 1 else 0.
Fixpoint pcount (x : A) (l : list A) : nat :=
  match l with
  | [] => 0
  | a :: l => delta a x + pcount x l
  end.

Lemma pcount_app x l1 l2 : pcount x (l1 ++ l2) = pcount x l1 + pcount x l2.
Proof. induction l1; simpl; lia. Qed.
Lemma pcount_cons x a l : pcount x (a :: l) = delta a x + pcount x l.
Proof. done. Qed.
Lemma pcount_nil x : pcount x [] = 0.
Proof. done. Qed.

Lemma pcount_count_occ x l : pcount x l = count_occ (decide_rel (=)) l x.
Proof.
  induction l as [|a l IH]; [done|]. simpl. rewrite IH. unfold delta, decide.
  destruct (decide_rel (=) a x); lia.
Qed.

Lemma perm_pcount l1 l2 : l1 ≡ₚ l2 ↔ ∀ x, pcount x l1 = pcount x l2.
Proof.
  rewrite (Permutation_count_occ (decide_rel (=))).
  by setoid_rewrite pcount_count_occ.
Qed.

Lemma pcount_pos x l : x ∈ l ↔ 0 < pcount x l.
Proof.
  rewrite pcount_count_occ, list_elem_of_In. rewrite (count_occ_In (decide_rel (=))). lia.
Qed.

Lemma NoDup_pcount l : NoDup l ↔ ∀ x, pcount x l ≤ 1.
Proof.
  rewrite NoDup_ListNoDup, (NoDup_count_occ (decide_rel (=))).
  by setoid_rewrite pcount_count_occ.
Qed.

Lemma delta_eq a : delta a a = 1.
Proof. unfold delta. by rewrite decide_True. Qed.
Lemma delta_ne a x : a ≠ x → delta a x = 0.
Proof. intros. unfold delta. by rewrite decide_False. Qed.

Lemma pcount_notin x l : x ∉ l → pcount x l = 0.
Proof. rewrite pcount_pos. lia. Qed.
Lemma pcount_NoDup_in x l : NoDup l → x ∈ l → pcount x l = 1.
Proof. rewrite NoDup_pcount, pcount_pos. intros Hn Hx. specialize (Hn x). lia. Qed.
End pcount.

Global Opaque delta.

Ltac perm_hyps x :=
  repeat match goal with
  | H : ?l1 ≡ₚ ?l2 |- _ =>
      let H' := fresh "Hcnt" in
      pose proof (proj1 (perm_pcount l1 l2) H x) as H'; clear H
  end.

Create Rewrite HintDb perm.
#[export] Hint Rewrite @pcount_app @pcount_cons @pcount_nil : perm.

Ltac pcount_simpl := cbn [pcount] in *; autorewrite with perm in *.

(** Closes a permutation goal by counting, using the permutations of the
    context. *)
Ltac solve_perm :=
  apply perm_pcount; let x := fresh "x" in intros x; perm_hyps x;
  autorewrite with perm in *; lia.

(** * Hints *)

(** Facts on pages and prefixes that arithmetic goals come down to. *)
Create HintDb py discriminated.
#[export] Hint Resolve page_floor_le page_floor_divide page_floor_id aligned_sub : py.
#[export] Hint Resolve lcp_le_l lcp_le_r lcp_prefix : py.
#[export] Hint Resolve Nat.divide_0_r prefix_nil : py.

(** [py_run] computes the administrative steps of a run. *)
Ltac py_run := cbn [rbind of_option py_assert negb andb orb].
