(* ===== verification/PyData.v ===== *)
(** Python data the models share: insertion-ordered dicts, lexicographic tuple
    comparison and the contract of [heapq]. *)

From stdpp Require Import base gmap list strings.
From Stdlib Require Import Sorted ZArith Lia.
From S2P Require Import Prelude.

(** ** Insertion-ordered dicts *)

Section dict.
Context {K V : Type} `{EqDecision K}.
Implicit Types d : list (K * V).

(** [d.get(k)] *)
Fixpoint dict_get (k : K) d : option V :=
  match d with
  | [] => None
  | (k', v) :: d => if decide (k = k') then Some v else dict_get k d
  end.

(** [d[k] = v]: an existing key keeps its position. *)
Fixpoint dict_set (k : K) (v : V) d : list (K * V) :=
  match d with
  | [] => [(k, v)]
  | (k', v') :: d => if decide (k = k') then (k', v) :: d else (k', v') :: dict_set k v d
  end.

(** [d.pop(k, None)] *)
Fixpoint dict_del (k : K) d : list (K * V) :=
  match d with
  | [] => []
  | (k', v') :: d => if decide (k = k') then d else (k', v') :: dict_del k d
  end.

Lemma dict_get_elem k v d : dict_get k d = Some v → (k, v) ∈ d.
Proof.
  induction d as [|[k' v'] d IH]; simpl; [done|]. case_decide; simplify_eq; set_solver.
Qed.

Lemma dict_elem_get k v d : NoDup d.*1 → (k, v) ∈ d → dict_get k d = Some v.
Proof.
  induction d as [|[k' v'] d IH]; simpl; [set_solver|].
  intros [Hk Hnd]%NoDup_cons [Heq|Hin]%elem_of_cons.
  - simplify_eq. by rewrite decide_True.
  - rewrite decide_False; [auto|]. intros ->. apply Hk.
    apply list_elem_of_fmap. by exists (k', v).
Qed.

Lemma dict_get_None k d : dict_get k d = None ↔ k ∉ d.*1.
Proof.
  induction d as [|[k' v'] d IH]; simpl; [set_solver|].
  case_decide; subst; [split; [done|set_solver]|]. rewrite IH. set_solver.
Qed.

Lemma dict_set_keys_old k v d : k ∈ d.*1 → (dict_set k v d).*1 = d.*1.
Proof.
  induction d as [|[k' v'] d IH]; simpl; [set_solver|].
  case_decide; simpl; [done|]. intros Hk. f_equal. apply IH. set_solver.
Qed.

Lemma dict_set_new k v d : k ∉ d.*1 → dict_set k v d = d ++ [(k, v)].
Proof.
  induction d as [|[k' v'] d IH]; simpl; [done|]. intros Hk.
  rewrite decide_False by set_solver. f_equal. apply IH. set_solver.
Qed.

Lemma dict_set_NoDup k v d : NoDup d.*1 → NoDup (dict_set k v d).*1.
Proof.
  intros Hnd. destruct (decide (k ∈ d.*1)) as [Hk|Hk].
  - by rewrite dict_set_keys_old.
  - rewrite dict_set_new, fmap_app by done. apply NoDup_app. split_and!; [done| |apply NoDup_singleton].
    set_solver.
Qed.

Lemma elem_of_dict_set k v d k' v' :
  NoDup d.*1 → (k', v') ∈ dict_set k v d ↔ (k' = k ∧ v' = v) ∨ (k' ≠ k ∧ (k', v') ∈ d).
Proof.
  induction d as [|[k1 v1] d IH]; simpl.
  { intros _. rewrite list_elem_of_singleton. split; [naive_solver|].
    intros [[-> ->]|[? ?%not_elem_of_nil]]; done. }
  intros [Hk Hnd]%NoDup_cons. case_decide as Hd.
  - subst k1. rewrite !elem_of_cons. split.
    + intros [[= -> ->]|Hin]; [by left|]. right. split; [|by right].
      intros ->. apply Hk, list_elem_of_fmap. by exists (k, v').
    + intros [[-> ->]|[Hne [[= -> ->]|Hin]]]; [by left|done|by right].
  - rewrite !elem_of_cons, IH by done. naive_solver.
Qed.

Lemma elem_of_dict_del k d k' v' :
  NoDup d.*1 → (k', v') ∈ dict_del k d ↔ k' ≠ k ∧ (k', v') ∈ d.
Proof.
  induction d as [|[k1 v1] d IH]; simpl; [set_solver|].
  intros [Hk Hnd]%NoDup_cons. case_decide as Hd.
  - subst k1. rewrite elem_of_cons. split.
    + intros Hin. split; [|by right]. intros ->. apply Hk, list_elem_of_fmap. by exists (k, v').
    + intros [Hne [[= -> ->]|Hin]]; done.
  - rewrite !elem_of_cons, IH by done. naive_solver.
Qed.

Lemma dict_del_NoDup k d : NoDup d.*1 → NoDup (dict_del k d).*1.
Proof.
  induction d as [|[k1 v1] d IH]; simpl; [done|].
  intros [Hk Hnd]%NoDup_cons. case_decide; [done|]. simpl. apply NoDup_cons. split; [|auto].
  intros ((k2 & v2) & -> & Hin)%list_elem_of_fmap. apply elem_of_dict_del in Hin as [_ Hin]; [|done].
  apply Hk, list_elem_of_fmap. by exists (k2, v2).
Qed.

Lemma dict_del_nil k d : NoDup d.*1 → dict_del k d = [] ↔ ∀ k' v', (k', v') ∈ d → k' = k.
Proof.
  intros Hnd. split.
  - intros Hd k' v' Hin. destruct (decide (k' = k)) as [|Hne]; [done|].
    assert ((k', v') ∈ dict_del k d) as Hx by (by apply elem_of_dict_del).
    rewrite Hd in Hx. by apply not_elem_of_nil in Hx.
  - intros Hall. destruct (dict_del k d) as [|[k' v'] d'] eqn:E; [done|].
    assert ((k', v') ∈ dict_del k d) as Hx by (rewrite E; by left).
    apply elem_of_dict_del in Hx as [Hne Hin]; [|done]. by apply Hall in Hin.
Qed.
End dict.

(** ** Tuples of numbers compared lexicographically *)

Fixpoint lex_ltb (a b : list Z) : bool :=
  match a, b with
  | x :: a, y :: b => (x <? y)%Z || ((x =? y)%Z && lex_ltb a b)
  | [], _ :: _ => true
  | _, [] => false
  end.

Lemma lex_ltb_irrefl a : lex_ltb a a = false.
Proof. induction a as [|x a IH]; simpl; [done|]. rewrite Z.ltb_irrefl, Z.eqb_refl, IH. done. Qed.

Lemma lex_ltb_trans a b c : lex_ltb a b = true → lex_ltb b c = true → lex_ltb a c = true.
Proof.
  revert b c; induction a as [|x a IH]; intros [|y b] [|z c]; simpl; try done.
  rewrite !orb_true_iff, !andb_true_iff, !Z.ltb_lt, !Z.eqb_eq.
  intros [?|[-> ?]] [?|[-> ?]]; [left; lia|left; lia|left; lia|right; eauto].
Qed.

(** Not below is transitive: ties are equal keys. *)
Lemma lex_ltb_false_trans a b c :
  lex_ltb b a = false → lex_ltb c b = false → lex_ltb c a = false.
Proof.
  revert b c; induction a as [|x a IH]; intros [|y b] [|z c]; simpl; try done.
  rewrite !orb_false_iff, !andb_false_iff, !Z.ltb_ge, !Z.eqb_neq.
  intros [H1 H1'] [H2 H2']. split; [lia|].
  destruct (Z.eq_dec z x) as [->|Hne]; [right|by left].
  destruct H1' as [?|H1']; [lia|]. destruct H2' as [?|H2']; [lia|]. by apply (IH b c).
Qed.

Lemma lex_total a b : lex_ltb a b = false → lex_ltb b a = false → a = b.
Proof.
  revert b; induction a as [|x a IH]; intros [|y b]; simpl; try done.
  rewrite !orb_false_iff, !andb_false_iff, !Z.ltb_ge, !Z.eqb_neq. intros [? Hab] [? Hba].
  assert (x = y) as <- by lia. f_equal. apply IH; [by destruct Hab|by destruct Hba].
Qed.

(** ** The contract of [heapq] *)

(** The documented behaviour: [heappop] returns a smallest item of the heap;
    [heapify] and [heappush] keep the items.  Ties may be broken in any way, so
    what is proved against this interface holds for every heap implementation
    and for every iteration order of the set the heap is built from. *)
Class HeapQ := {
  heap_ok : ∀ {A}, (A → A → bool) → list A → Prop;
  heapify : ∀ {A}, (A → A → bool) → list A → list A;
  heappush : ∀ {A}, (A → A → bool) → list A → A → list A;
  heappop : ∀ {A}, (A → A → bool) → list A → option (A * list A);
}.

(** A comparison for which "not smaller" is transitive. *)
Definition weak_order {A} (lt : A → A → bool) : Prop :=
  (∀ a, lt a a = false) ∧
  (∀ a b c, lt a b = true → lt b c = true → lt a c = true) ∧
  (∀ a b c, lt b a = false → lt c b = false → lt c a = false).

Class HeapQLaws `{HeapQ} := {
  heapify_ok : ∀ {A} (lt : A → A → bool) l,
    weak_order lt → heap_ok lt (heapify lt l) ∧ heapify lt l ≡ₚ l;
  heappush_ok : ∀ {A} (lt : A → A → bool) h x,
    weak_order lt → heap_ok lt h → heap_ok lt (heappush lt h x) ∧ heappush lt h x ≡ₚ x :: h;
  heappop_nil : ∀ {A} (lt : A → A → bool) h,
    heap_ok lt h → heappop lt h = None ↔ h = [];
  heappop_ok : ∀ {A} (lt : A → A → bool) h x h',
    weak_order lt → heap_ok lt h → heappop lt h = Some (x, h') →
    heap_ok lt h' ∧ h ≡ₚ x :: h' ∧ ∀ y, y ∈ h → lt y x = false;
}.

(** A reference implementation: the heap is the list of its items, and [heappop]
    extracts the first smallest one. *)
Fixpoint extract_min {A} (lt : A → A → bool) (x : A) (l : list A) : A * list A :=
  match l with
  | [] => (x, [])
  | y :: l =>
      if lt y x then let '(m, r) := extract_min lt y l in (m, x :: r)
      else let '(m, r) := extract_min lt x l in (m, y :: r)
  end.

Global Instance list_heapq : HeapQ := {|
  heap_ok _ _ _ := True;
  heapify _ _ l := l;
  heappush _ _ h x := x :: h;
  heappop _ lt h := match h with [] => None | x :: h => Some (extract_min lt x h) end;
|}.

Lemma extract_min_spec {A} (lt : A → A → bool) x l m r :
  weak_order lt → extract_min lt x l = (m, r) →
  x :: l ≡ₚ m :: r ∧ (∀ y, y ∈ x :: l → lt y m = false) .
Proof.
  intros (Hirr & Htr & Hw). revert x m r; induction l as [|y l IH]; intros x m r; simpl.
  { intros [= <- <-]. split; [done|]. intros y ->%list_elem_of_singleton. apply Hirr. }
  destruct (lt y x) eqn:E.
  - destruct (extract_min lt y l) as [m' r'] eqn:Em. intros [= <- <-].
    apply IH in Em as [Hp Hmin]. split; [by rewrite Hp, Permutation_swap|].
    intros z [->|Hz]%elem_of_cons; [|auto].
    assert (Hy : lt y m' = false) by (apply Hmin; by left).
    apply (Hw m' y x); [done|]. destruct (lt x y) eqn:E'; [|done].
    pose proof (Htr y x y E E') as Hc. by rewrite Hirr in Hc.
  - destruct (extract_min lt x l) as [m' r'] eqn:Em. intros [= <- <-].
    apply IH in Em as [Hp Hmin]. split.
    + rewrite Permutation_swap, Hp. apply Permutation_swap.
    + intros z [->|[->|Hz]%elem_of_cons]%elem_of_cons; [apply Hmin; by left| |apply Hmin; by right].
      eapply (Hw m' x); [apply Hmin; by left|done].
Qed.

Global Instance list_heapq_laws : HeapQLaws.
Proof.
  split; simpl.
  - done.
  - done.
  - intros A lt [|x h] _; split; done.
  - intros A lt [|x h] y h' Hw _; [done|]. intros [= He].
    destruct (extract_min_spec lt x h y h' Hw He). done.
Qed.

Lemma weak_order_lex {A} (key : A → list Z) : weak_order (λ a b, lex_ltb (key a) (key b)).
Proof.
  split_and!.
  - intros a. apply lex_ltb_irrefl.
  - intros a b c. apply lex_ltb_trans.
  - intros a b c. apply lex_ltb_false_trans.
Qed.

(** ** [list.sort] *)

(** Python sorts with [<] only, stably: an item moves behind a later one exactly
    when the later one is smaller. *)
Section py_sort.
Context {A : Type} (lt : A → A → bool).

Fixpoint sort_insert (x : A) (l : list A) : list A :=
  match l with
  | [] => [x]
  | y :: l => if lt y x then y :: sort_insert x l else x :: y :: l
  end.

Definition py_sort (l : list A) : list A := foldr sort_insert [] l.

Lemma sort_insert_perm x l : sort_insert x l ≡ₚ x :: l.
Proof.
  induction l as [|y l IH]; simpl; [done|]. destruct (lt y x); [|done].
  rewrite IH. apply Permutation_swap.
Qed.

Lemma py_sort_perm l : py_sort l ≡ₚ l.
Proof. induction l as [|x l IH]; simpl; [done|]. by rewrite sort_insert_perm, IH. Qed.

(** No item is smaller than an earlier one. *)
Definition sorted_by (l : list A) : Prop :=
  StronglySorted (λ x y, lt y x = false) l.

Hypothesis Hlt : weak_order lt.

Lemma sort_insert_sorted x l : sorted_by l → sorted_by (sort_insert x l).
Proof.
  destruct Hlt as (Hirr & Htr & Hw). induction 1 as [|y l Hl IH Hy]; simpl; [repeat constructor|].
  destruct (lt y x) eqn:E.
  - constructor; [done|]. apply Forall_forall. intros z. rewrite sort_insert_perm.
    intros [->|Hz]%elem_of_cons; [|by eapply Forall_forall in Hy].
    destruct (lt x y) eqn:E'; [|done]. pose proof (Htr _ _ _ E E') as Hc. by rewrite Hirr in Hc.
  - constructor; [by constructor|]. constructor; [done|]. eapply Forall_impl; [exact Hy|].
    intros z Hz. by eapply Hw.
Qed.

Lemma py_sort_sorted l : sorted_by (py_sort l).
Proof. induction l as [|x l IH]; simpl; [constructor|by apply sort_insert_sorted]. Qed.

(** Items that compare equal keep their order. *)
Definition tie (x y : A) : bool := negb (lt x y) && negb (lt y x).

Lemma sort_insert_stable k x l :
  filter (λ y, tie k y) (sort_insert x l) = filter (λ y, tie k y) (x :: l).
Proof.
  destruct Hlt as (Hirr & Htr & Hw). induction l as [|y l IH]; simpl; [done|].
  destruct (lt y x) eqn:E; [|done]. rewrite filter_cons, IH, !filter_cons.
  unfold tie. repeat case_decide; try done. exfalso.
  destruct (lt k y) eqn:E1, (lt y k) eqn:E2, (lt k x) eqn:E3, (lt x k) eqn:E4; try done.
  by rewrite (Hw x k y E3 E2) in E.
Qed.

Lemma py_sort_stable k l : filter (λ y, tie k y) (py_sort l) = filter (λ y, tie k y) l.
Proof.
  induction l as [|x l IH]; simpl; [done|]. rewrite sort_insert_stable, !filter_cons, IH. done.
Qed.
End py_sort.
