(* ===== verification/RadixKey.v ===== *)
(** The lookup key of the prefix cache: class [RadixKey] of
    src/python/sglang/srt/mem_cache/radix_cache.py.

    A key is a view over an array of token ids: its logical units are the
    tokens, or the overlapping bigrams of tokens when [is_bigram] is set, and
    [limit] caps the raw tokens without copying.  The operations follow the
    class; [units] is the reference reading of a key as a list of logical
    units, and the theorems relate slicing, matching and dict keys to it. *)

From stdpp Require Import base gmap strings list.
From Stdlib Require Import ZArith Lia.
From S2P Require Import Prelude.

(** ** Data *)

Record RadixKey := mkKey {
  token_ids : list Z;
  extra_key : option string;
  is_bigram : bool;
  limit : option nat;
}.

(** A logical unit, as [__iter__] yields it. *)
Inductive key_unit :=
  | Tok (t : Z)
  | Bigram (t u : Z).

(** The dict key of [child_key]: an int, a tuple of ints, a pair, or a tuple
    of pairs. *)
Inductive plain_key :=
  | PInt (t : Z)
  | PTuple (ts : list Z)
  | PPair (t u : Z)
  | PPairs (ps : list (Z * Z)).

(** The plain key alone, or a tuple of the namespace and the plain key. *)
Definition child_key_t : Type := option string * plain_key.

(** An index expression [key[i]] or [key[start:stop:step]]. *)
Inductive key_index :=
  | KInt (i : Z)
  | KSlice (start stop step : option Z).

Global Instance key_unit_eq_dec : EqDecision key_unit.
Proof. solve_decision. Defined.
Global Instance plain_key_eq_dec : EqDecision plain_key.
Proof. solve_decision. Defined.
Global Instance child_key_eq_dec : EqDecision child_key_t.
Proof. solve_decision. Defined.
Global Instance RadixKey_eq_dec : EqDecision RadixKey.
Proof. solve_decision. Defined.

(** ** Operations *)

Definition raw_len (k : RadixKey) : nat :=
  let n := length (token_ids k) in
  match limit k with
  | Some l => if l <? n then l else n
  | None => n
  end.

Definition raw_token_ids (k : RadixKey) : list Z :=
  let n := raw_len k in
  let t := token_ids k in
  if n =? length t then t else take n t.

(** [__len__] *)
Definition key_len (k : RadixKey) : nat :=
  let n := raw_len k in
  if is_bigram k then (if 0 <? n then n - 1 else 0) else n.

(** [__iter__]; indices are in range, see [key_iter_units]. *)
Definition key_iter (k : RadixKey) : list key_unit :=
  let t := token_ids k in
  let n := raw_len k in
  if is_bigram k then
    (λ i, Bigram (nth i t 0%Z) (nth (i + 1) t 0%Z)) <$> seq 0 (if 0 <? n then n - 1 else 0)
  else if n =? length t then Tok <$> t
  else (λ i, Tok (nth i t 0%Z)) <$> seq 0 n.

(** Python's [slice(start, stop, step).indices(len)] for step 1; any other
    step raises [ValueError] in [__getitem__]. *)
Definition clamp_index (len : nat) (default : nat) (i : option Z) : nat :=
  match i with
  | None => default
  | Some i => if (i <? 0)%Z then Z.to_nat (i + Z.of_nat len) else Nat.min (Z.to_nat i) len
  end.

Definition slice_indices (len : nat) (start stop : option Z) : nat * nat :=
  (clamp_index len 0 start, clamp_index len len stop).

(** The slice of a key between two clamped bounds. *)
Definition key_slice (k : RadixKey) (start stop : nat) : RadixKey :=
  if is_bigram k then
    let raw := if start <? stop then slice start (stop + 1) (token_ids k) else [] in
    mkKey raw (extra_key k) true None
  else mkKey (slice start stop (token_ids k)) (extra_key k) false None.

(** [__getitem__] *)
Definition getitem (k : RadixKey) (idx : key_index) : result RadixKey :=
  let! (start, stop, step) :=
    match idx with
    | KInt i =>
        let i := if (i <? 0)%Z then (i + Z.of_nat (key_len k))%Z else i in
        if (i <? 0)%Z || (Z.of_nat (key_len k) <=? i)%Z then Raise IndexError
        else Ok (Some i, Some (i + 1)%Z, None)
    | KSlice start stop step => Ok (start, stop, step)
    end in
  match step with
  | None | Some 1%Z =>
      let '(start, stop) := slice_indices (key_len k) start stop in
      Ok (key_slice k start stop)
  | Some _ => Raise ValueError
  end.

(** [key[:n]] and [key[n:]], the two slices the tree code takes. *)
Definition key_upto (k : RadixKey) (n : nat) : result RadixKey :=
  getitem k (KSlice None (Some (Z.of_nat n)) None).
Definition key_from (k : RadixKey) (n : nat) : result RadixKey :=
  getitem k (KSlice (Some (Z.of_nat n)) None None).

Definition page_aligned (k : RadixKey) (page_size : nat) : result RadixKey :=
  if page_size =? 1 then Ok k
  else
    let aligned_len := page_floor page_size (key_len k) in
    key_upto k aligned_len.

(** Flips the bigram flag; the value is truncated to the bigram count. *)
Definition maybe_to_bigram_view (k : RadixKey) (is_eagle : bool)
    (value : option (list Z)) : RadixKey * option (list Z) :=
  if is_eagle && negb (is_bigram k) then
    let k := mkKey (token_ids k) (extra_key k) true (limit k) in
    (k, match value with Some v => Some (take (key_len k) v) | None => None end)
  else (k, value).

Definition check_compatible (k other : RadixKey) : result unit :=
  if decide (extra_key k = extra_key other) then Ok () else Raise ValueError.

(** The binary search inside the first diverging window of [match]. *)
Fixpoint match_bsearch (fuel : nat) (t0 t1 : list Z) (lo hi : nat) : option nat :=
  match fuel with
  | 0 => None
  | S fuel =>
      if 1 <? hi - lo then
        let mid := (lo + hi) / 2 in
        if decide (slice lo mid t0 = slice lo mid t1)
        then match_bsearch fuel t0 t1 mid hi
        else match_bsearch fuel t0 t1 lo mid
      else Some lo
  end.

(** The galloping loop of [match]: windows of doubling size. *)
Fixpoint match_gallop (fuel : nat) (t0 t1 : list Z) (n lo step : nat) : option nat :=
  match fuel with
  | 0 => None
  | S fuel =>
      if lo <? n then
        let hi := if lo + step <? n then lo + step else n in
        if decide (slice lo hi t0 ≠ slice lo hi t1)
        then match_bsearch (S n) t0 t1 lo hi
        else match_gallop fuel t0 t1 n hi (step * 2)
      else Some n
  end.

(** [match] *)
Definition key_match (k other : RadixKey) (page_size : nat) : result nat :=
  let! _ := check_compatible k other in
  let t0 := token_ids k in
  let t1 := token_ids other in
  let n := Nat.min (length t0) (length t1) in
  let! matched_tokens := of_option OutOfFuel (match_gallop (S n) t0 t1 n 0 1) in
  if is_bigram k then
    let matched := Nat.min (Nat.min (matched_tokens - 1) (key_len k)) (key_len other) in
    Ok (if 1 <? page_size then page_floor page_size matched else matched)
  else
    let matched_tokens := Nat.min (Nat.min matched_tokens (key_len k)) (key_len other) in
    if page_size =? 1 then Ok matched_tokens else Ok (page_floor page_size matched_tokens).

(** The pairs [(t[j], t[j+1]) for j in range(n)]; an index past the end raises. *)
Fixpoint bigram_pairs (t : list Z) (j n : nat) : result (list (Z * Z)) :=
  match n with
  | 0 => Ok []
  | S n =>
      let! a := of_option IndexError (t !! j) in
      let! b := of_option IndexError (t !! (j + 1)) in
      let! l := bigram_pairs t (S j) n in
      Ok ((a, b) :: l)
  end.

Definition child_key (k : RadixKey) (page_size : nat) : result child_key_t :=
  let t := token_ids k in
  let! plain :=
    if is_bigram k then
      if page_size =? 1 then
        let! a := of_option IndexError (t !! 0) in
        let! b := of_option IndexError (t !! 1) in
        Ok (PPair a b)
      else let! l := bigram_pairs t 0 page_size in Ok (PPairs l)
    else if page_size =? 1 then
      let! a := of_option IndexError (t !! 0) in Ok (PInt a)
    else Ok (PTuple (take page_size t)) in
  Ok (extra_key k, plain).

(** ** Reference reading of a key *)

Definition bigrams (l : list Z) : list key_unit := zip_with Bigram l (tail l).

(** The logical units of a key. *)
Definition units (k : RadixKey) : list key_unit :=
  let r := take (raw_len k) (token_ids k) in
  if is_bigram k then bigrams r else Tok <$> r.

(** ** Lemmas on the reference reading *)

Lemma bigrams_cons x y l : bigrams (x :: y :: l) = Bigram x y :: bigrams (y :: l).
Proof. done. Qed.

Lemma length_bigrams l : length (bigrams l) = length l - 1.
Proof. unfold bigrams. rewrite length_zip_with. destruct l; cbn [tail length]; lia. Qed.

Lemma lookup_bigrams l i x y :
  l !! i = Some x → l !! (i + 1) = Some y → bigrams l !! i = Some (Bigram x y).
Proof.
  intros Hx Hy. unfold bigrams. apply lookup_zip_with_Some. exists x, y.
  split_and!; [done..|]. rewrite Nat.add_1_r in Hy. by destruct l.
Qed.

Lemma bigrams_take l n : bigrams (take (S n) l) = take n (bigrams l).
Proof.
  revert n; induction l as [|x [|y l] IH]; intros [|n]; try done.
  cbn [take]. rewrite !bigrams_cons. cbn [take]. f_equal. apply (IH n).
Qed.

Lemma bigrams_drop l n : bigrams (drop n l) = drop n (bigrams l).
Proof.
  revert l; induction n as [|n IH]; intros [|x [|y l]]; try done.
  - simpl. by rewrite drop_nil.
  - rewrite bigrams_cons. simpl. apply IH.
Qed.

Lemma lcp_bigrams l1 l2 : lcp (bigrams l1) (bigrams l2) = lcp l1 l2 - 1.
Proof.
  revert l2; induction l1 as [|x1 [|y1 l1] IH]; intros [|x2 [|y2 l2]];
    try (simpl; try case_decide; done).
  rewrite !bigrams_cons. cbn [lcp]. specialize (IH (y2 :: l2)).
  cbn [lcp] in IH. repeat case_decide; simplify_eq; lia.
Qed.

Lemma lcp_Tok l1 l2 : lcp (Tok <$> l1) (Tok <$> l2) = lcp l1 l2.
Proof.
  revert l2; induction l1 as [|x l1 IH]; intros [|y l2]; simpl; try done.
  repeat case_decide; simplify_eq; auto.
Qed.

Lemma lcp_take_take {A} `{EqDecision A} (l1 l2 : list A) a b :
  lcp (take a l1) (take b l2) = Nat.min (Nat.min (lcp l1 l2) a) b.
Proof.
  revert l2 a b; induction l1 as [|x l1 IH]; intros [|y l2] [|a] [|b]; simpl;
    try done; try lia; case_decide; try lia.
  rewrite IH. lia.
Qed.

Lemma raw_len_le k : raw_len k ≤ length (token_ids k).
Proof. unfold raw_len. destruct (limit k); [|done]. case_match eqn:E; [apply Nat.ltb_lt in E|]; lia. Qed.

Lemma key_len_bigram k : is_bigram k = true → key_len k = raw_len k - 1.
Proof. unfold key_len. intros ->. destruct (raw_len k); simpl; lia. Qed.

Lemma key_len_plain k : is_bigram k = false → key_len k = raw_len k.
Proof. unfold key_len. by intros ->. Qed.

Lemma length_units k : length (units k) = key_len k.
Proof.
  pose proof (raw_len_le k). unfold units. destruct (is_bigram k) eqn:E.
  - rewrite length_bigrams, length_take, key_len_bigram by done. lia.
  - rewrite length_fmap, length_take, key_len_plain by done. lia.
Qed.

(** [__iter__] yields the logical units. *)
Lemma key_iter_units k : key_iter k = units k.
Proof.
  pose proof (raw_len_le k) as Hle. apply list_eq. intros i.
  unfold key_iter, units. destruct (is_bigram k) eqn:E.
  - destruct (decide (i < raw_len k - 1)) as [Hi|Hi].
    + rewrite list_lookup_fmap.
      rewrite (lookup_seq_lt 0) by (destruct (raw_len k); simpl; lia).
      destruct (lookup_lt_is_Some_2 (token_ids k) i) as [x Hx]; [lia|].
      destruct (lookup_lt_is_Some_2 (token_ids k) (i + 1)) as [y Hy]; [lia|].
      cbn. rewrite (nth_lookup_Some _ _ _ _ Hx), (nth_lookup_Some _ _ _ _ Hy).
      symmetry. apply lookup_bigrams; rewrite lookup_take_lt by lia; done.
    + rewrite !lookup_ge_None_2; [done|..].
      * rewrite length_bigrams, length_take. lia.
      * rewrite length_fmap, length_seq. destruct (raw_len k); simpl; lia.
  - destruct (Nat.eqb_spec (raw_len k) (length (token_ids k))) as [->|Hne].
    { by rewrite take_ge. }
    destruct (decide (i < raw_len k)) as [Hi|Hi].
    + rewrite !list_lookup_fmap, lookup_seq_lt, lookup_take_lt by lia.
      destruct (lookup_lt_is_Some_2 (token_ids k) i) as [x Hx]; [lia|].
      cbn. by rewrite (nth_lookup_Some _ _ _ _ Hx), Hx.
    + rewrite !lookup_ge_None_2; [done|..].
      * rewrite length_fmap, length_take. lia.
      * rewrite length_fmap, length_seq. lia.
Qed.

Lemma units_nolimit l e b :
  units (mkKey l e b None) = if b then bigrams l else Tok <$> l.
Proof. unfold units. cbn. by rewrite firstn_all. Qed.

(** Slicing a key slices its units. *)
Lemma units_key_slice k a b :
  b ≤ key_len k → units (key_slice k a b) = slice a b (units k).
Proof.
  intros Hb. pose proof (raw_len_le k) as Hle. unfold key_slice.
  destruct (is_bigram k) eqn:E; rewrite units_nolimit; unfold units; rewrite E.
  - rewrite key_len_bigram in Hb by done. destruct (Nat.ltb_spec a b) as [Hab|Hab].
    + unfold slice. replace (b + 1 - a) with (S (b - a)) by lia.
      rewrite bigrams_take, bigrams_drop.
      destruct (raw_len k) as [|n] eqn:En; [lia|].
      rewrite bigrams_take, skipn_firstn_comm, take_take. f_equal. lia.
    + unfold slice. replace (b - a) with 0 by lia. done.
  - rewrite key_len_plain in Hb by done. unfold slice.
    rewrite <-fmap_drop, <-fmap_take, skipn_firstn_comm, take_take.
    do 2 f_equal. lia.
Qed.

Lemma key_slice_extra k a b : extra_key (key_slice k a b) = extra_key k.
Proof. unfold key_slice. by destruct (is_bigram k). Qed.
Lemma key_slice_bigram k a b : is_bigram (key_slice k a b) = is_bigram k.
Proof. unfold key_slice. by destruct (is_bigram k). Qed.
Lemma key_slice_limit k a b : limit (key_slice k a b) = None.
Proof. unfold key_slice. by destruct (is_bigram k). Qed.

Lemma key_upto_slice k n : n ≤ key_len k → key_upto k n = Ok (key_slice k 0 n).
Proof.
  intros Hn. unfold key_upto, getitem. simpl.
  destruct (Z.ltb_spec (Z.of_nat n) 0) as [Hlt|]; [lia|].
  rewrite Nat2Z.id, Nat.min_l by done. done.
Qed.

Lemma key_from_slice k n : n ≤ key_len k → key_from k n = Ok (key_slice k n (key_len k)).
Proof.
  intros Hn. unfold key_from, getitem. simpl.
  destruct (Z.ltb_spec (Z.of_nat n) 0) as [Hlt|]; [lia|].
  rewrite Nat2Z.id, Nat.min_l by done. done.
Qed.

(** ** The galloping match computes the longest common prefix *)

Lemma match_bsearch_lcp fuel t0 t1 lo hi :
  hi - lo < fuel → hi ≤ length t0 → hi ≤ length t1 →
  lo ≤ lcp t0 t1 → lcp t0 t1 < hi →
  match_bsearch fuel t0 t1 lo hi = Some (lcp t0 t1).
Proof.
  revert lo hi; induction fuel as [|fuel IH]; intros lo hi Hf H0 H1 Hlo Hhi; [lia|].
  cbn [match_bsearch].
  destruct (Nat.ltb_spec 1 (hi - lo)) as [Hgap|Hgap]; [|f_equal; lia].
  set (mid := (lo + hi) / 2).
  assert (Hmid : lo < mid < hi).
  { subst mid. split; [apply Nat.div_le_lower_bound|apply Nat.Div0.div_lt_upper_bound]; lia. }
  assert (slice lo mid t0 = slice lo mid t1 ↔ mid ≤ lcp t0 t1) as Hs
    by (apply slice_eq_lcp; lia).
  case_decide as Hd; apply IH; try lia.
  - by apply Hs.
  - destruct (decide (mid ≤ lcp t0 t1)); [by apply Hs in l|lia].
Qed.

Lemma match_gallop_lcp fuel t0 t1 n lo step :
  n = Nat.min (length t0) (length t1) →
  n - lo < fuel → 1 ≤ step → lo ≤ lcp t0 t1 → lo ≤ n →
  match_gallop fuel t0 t1 n lo step = Some (lcp t0 t1).
Proof.
  intros Hn. pose proof (lcp_le_l t0 t1) as Hl0. pose proof (lcp_le_r t0 t1) as Hl1.
  revert lo step; induction fuel as [|fuel IH]; intros lo step Hf Hs Hlo Hln; [lia|].
  cbn [match_gallop]. destruct (Nat.ltb_spec lo n) as [Hlt|Hge]; [|f_equal; lia].
  set (hi := if lo + step <? n then lo + step else n).
  assert (Hhi : lo < hi ≤ n) by (subst hi; destruct (Nat.ltb_spec (lo + step) n); lia).
  assert (slice lo hi t0 = slice lo hi t1 ↔ hi ≤ lcp t0 t1) as Hsl
    by (apply slice_eq_lcp; lia).
  case_decide as Hd.
  - apply match_bsearch_lcp; try lia.
    destruct (decide (hi ≤ lcp t0 t1)) as [Hc|]; [by apply Hsl in Hc|lia].
  - apply IH; try lia. apply Hsl.
    done.
Qed.

(** The length of the common prefix of two keys, in logical units and rounded
    down to whole pages. *)
Definition units_match (ps : nat) (k1 k2 : RadixKey) : nat :=
  page_floor ps (lcp (units k1) (units k2)).

Lemma lcp_units k1 k2 :
  is_bigram k1 = is_bigram k2 →
  lcp (units k1) (units k2) =
    Nat.min (Nat.min (if is_bigram k1 then lcp (token_ids k1) (token_ids k2) - 1
                      else lcp (token_ids k1) (token_ids k2)) (key_len k1)) (key_len k2).
Proof.
  intros Hb. unfold units. rewrite <-Hb. destruct (is_bigram k1) eqn:E.
  - rewrite lcp_bigrams, lcp_take_take, !key_len_bigram by congruence. lia.
  - rewrite lcp_Tok, lcp_take_take, !key_len_plain by congruence. lia.
Qed.

Lemma key_match_lcp k1 k2 ps :
  1 ≤ ps → extra_key k1 = extra_key k2 → is_bigram k1 = is_bigram k2 →
  key_match k1 k2 ps = Ok (units_match ps k1 k2).
Proof.
  intros Hps He Hb. unfold key_match, check_compatible.
  rewrite decide_True by done. cbn [rbind].
  rewrite match_gallop_lcp by lia. cbn [rbind of_option].
  unfold units_match. rewrite lcp_units by done.
  destruct (is_bigram k1) eqn:E.
  - destruct (Nat.ltb_spec 1 ps); [done|]. replace ps with 1 by lia.
    by rewrite page_floor_1.
  - destruct (Nat.eqb_spec ps 1) as [->|]; [|done]. by rewrite page_floor_1.
Qed.

(** ** Dict keys stand for the first page of a key *)

Definition plain_units (p : plain_key) : list key_unit :=
  match p with
  | PInt t => [Tok t]
  | PTuple ts => Tok <$> ts
  | PPair t u => [Bigram t u]
  | PPairs l => (λ '(t, u), Bigram t u) <$> l
  end.

Definition plain_shape (bigram : bool) (ps : nat) (p : plain_key) : bool :=
  match p with
  | PInt _ => negb bigram && (ps =? 1)
  | PTuple _ => negb bigram && negb (ps =? 1)
  | PPair _ _ => bigram && (ps =? 1)
  | PPairs _ => bigram && negb (ps =? 1)
  end.

Lemma plain_units_inj b ps p1 p2 :
  plain_shape b ps p1 = true → plain_shape b ps p2 = true →
  plain_units p1 = plain_units p2 → p1 = p2.
Proof.
  destruct p1, p2; destruct b; simpl; try discriminate; destruct (ps =? 1);
    try discriminate; intros _ _ Heq; simplify_eq; try done; f_equal.
  - apply list_fmap_eq_inj in Heq; [done|]. by intros ?? [=].
  - apply list_fmap_eq_inj in Heq; [done|]. by intros [??] [??] [=-> ->].
Qed.

Lemma bigram_pairs_ok t j n :
  j + n < length t ∨ n = 0 →
  ∃ l, bigram_pairs t j n = Ok l ∧
    (λ '(t, u), Bigram t u) <$> l = take n (drop j (bigrams t)).
Proof.
  revert j; induction n as [|n IH]; intros j Hj; simpl; [by eexists|].
  destruct (lookup_lt_is_Some_2 t j) as [x Hx]; [lia|].
  destruct (lookup_lt_is_Some_2 t (j + 1)) as [y Hy]; [lia|].
  destruct (IH (S j)) as (l & -> & Hl); [lia|].
  rewrite Hx, Hy. cbn [rbind of_option]. eexists; split; [done|].
  rewrite (drop_S _ (Bigram x y) j) by (by apply lookup_bigrams). simpl. by f_equal.
Qed.

Lemma child_key_units k ps :
  1 ≤ ps → ps ≤ key_len k →
  ∃ p, child_key k ps = Ok (extra_key k, p) ∧
    plain_shape (is_bigram k) ps p = true ∧ plain_units p = take ps (units k).
Proof.
  intros Hps Hlen. pose proof (raw_len_le k) as Hraw. unfold child_key, units.
  destruct (is_bigram k) eqn:E.
  - rewrite key_len_bigram in Hlen by done.
    destruct (raw_len k) as [|n] eqn:En; [lia|].
    rewrite bigrams_take, take_take, Nat.min_l by lia.
    destruct (Nat.eqb_spec ps 1) as [->|Hne].
    + destruct (lookup_lt_is_Some_2 (token_ids k) 0) as [x Hx]; [lia|].
      destruct (lookup_lt_is_Some_2 (token_ids k) 1) as [y Hy]; [lia|].
      rewrite Hx, Hy. eexists; split_and!; [done..|].
      pose proof (lookup_bigrams _ 0 x y Hx Hy) as Hb.
      destruct (bigrams (token_ids k)) as [|z l]; simplify_eq/=. done.
    + destruct (bigram_pairs_ok (token_ids k) 0 ps) as (l & -> & Hl); [lia|].
      eexists; split_and!; [done| |done]. simpl. by apply negb_true_iff, Nat.eqb_neq.
  - rewrite key_len_plain in Hlen by done.
    rewrite <-fmap_take, take_take, Nat.min_l by done.
    destruct (Nat.eqb_spec ps 1) as [->|Hne].
    + destruct (token_ids k) as [|x t]; [simpl in *; lia|]. by eexists.
    + eexists; split_and!; [done| |done]. simpl. by apply negb_true_iff, Nat.eqb_neq.
Qed.

(** Two keys fall under the same dict key exactly when they have the same
    namespace and agree on the first page. *)
Lemma child_key_eq k1 k2 ps :
  1 ≤ ps → ps ≤ key_len k1 → ps ≤ key_len k2 → is_bigram k1 = is_bigram k2 →
  child_key k1 ps = child_key k2 ps ↔
    extra_key k1 = extra_key k2 ∧ take ps (units k1) = take ps (units k2).
Proof.
  intros Hps H1 H2 Hb.
  destruct (child_key_units k1 ps) as (p1 & -> & Hs1 & <-); [done..|].
  destruct (child_key_units k2 ps) as (p2 & -> & Hs2 & <-); [done..|].
  rewrite Hb in Hs1. split; [naive_solver|]. intros [-> Heq].
  do 2 f_equal. by eapply plain_units_inj.
Qed.
