(* ===== verification/Allocator.v ===== *)
(** KV-slot allocators: src/python/sglang/srt/mem_cache/allocator/base.py,
    token.py, paged.py, mamba.py, the Triton kernels of
    mem_cache/triton_ops/allocator.py and [get_num_new_pages] of
    utils/common.py.

    Tensors are lists of integers.  Contents that the code leaves undefined
    (a fresh [torch.empty] buffer, a kernel load past the end of the free list)
    come from an arbitrary function [junk], which every theorem quantifies
    over. *)

From stdpp Require Import base gmap list sorting.
From Stdlib Require Import ZArith Lia.
From S2P Require Import Prelude.

Open Scope Z_scope.

(** ** Tensor helpers *)

Definition torch_arange (start stop : Z) : list Z := seqZ start (stop - start).
Definition torch_sort (l : list Z) : list Z := merge_sort Z.le l.
(** [torch.unique]: the distinct values in increasing order. *)
Definition torch_unique (l : list Z) : list Z := remove_dups (torch_sort l).
Definition torch_sum (l : list Z) : Z := foldr Z.add 0 l.
Fixpoint cumsum_from (acc : Z) (l : list Z) : list Z :=
  match l with
  | [] => []
  | x :: l => (acc + x) :: cumsum_from (acc + x) l
  end.
Definition torch_cumsum (l : list Z) : list Z := cumsum_from 0 l.
(** [out[a:b] = vals] with [length vals = b - a]: position [j] of the buffer takes
    [vals[j - a]] when it lies in the slice. *)
Definition overwrite (a : nat) (vals out : list Z) : list Z :=
  imap (λ j x, if (a <=? j)%nat && (j <? a + length vals)%nat
               then nth (j - a) vals x else x) out.
Definition nthZ (l : list Z) (i : Z) (d : Z) : Z := nth (Z.to_nat i) l d.
(** [l[a:b]] for integer bounds that are non-negative where the code uses it. *)
Definition sliceZ (a b : Z) (l : list Z) : list Z := slice (Z.to_nat a) (Z.to_nat b) l.

(** ** BaseTokenToKVPoolAllocator *)

Record Allocator := mkAlloc {
  al_size : Z;
  al_page_size : Z;
  need_sort : bool;
  debug_mode : bool;
  free_pages : list Z;
  release_pages : list Z;
  is_not_in_free_group : bool;
  free_group : list (list Z);
}.

Definition set_free_pages (st : Allocator) l :=
  mkAlloc (al_size st) (al_page_size st) (need_sort st) (debug_mode st) l
    (release_pages st) (is_not_in_free_group st) (free_group st).
Definition set_release_pages (st : Allocator) l :=
  mkAlloc (al_size st) (al_page_size st) (need_sort st) (debug_mode st) (free_pages st)
    l (is_not_in_free_group st) (free_group st).
Definition set_group (st : Allocator) b g :=
  mkAlloc (al_size st) (al_page_size st) (need_sort st) (debug_mode st) (free_pages st)
    (release_pages st) b g.

Definition base_available_size (st : Allocator) : Z :=
  (Z.of_nat (length (free_pages st)) + Z.of_nat (length (release_pages st)))
  * al_page_size st.

Definition backup_state (st : Allocator) : list Z * list Z :=
  (free_pages st, release_pages st).
Definition restore_state (st : Allocator) (s : list Z * list Z) : Allocator :=
  set_release_pages (set_free_pages st s.1) s.2.

Definition free_group_begin (st : Allocator) : Allocator := set_group st false [].

(** [free_group_end] calls the subclass's [free]. *)
Definition free_group_end (free : Allocator → list Z → result Allocator)
    (st : Allocator) : result Allocator :=
  let st := set_group st true (free_group st) in
  match free_group st with
  | [] => Ok st
  | _ => free st (concat (free_group st))
  end.

Definition merge_and_sort_free (st : Allocator) : Allocator :=
  if 0 <? Z.of_nat (length (release_pages st)) then
    set_release_pages
      (set_free_pages st (torch_sort (free_pages st ++ release_pages st))) []
  else st.

(** [if self.need_sort and short: self.merge_and_sort_free()], in front of every
    allocation. *)
Definition maybe_merge (st : Allocator) (short : bool) : Allocator :=
  if need_sort st && short then merge_and_sort_free st else st.

(** ** TokenToKVPoolAllocator *)

Definition token_clear (st : Allocator) : Allocator :=
  mkAlloc (al_size st) (al_page_size st) (need_sort st) (debug_mode st)
    (torch_arange 1 (al_size st + 1)) [] true [].

Definition token_init (size : Z) (need_sort : bool) : Allocator :=
  token_clear (mkAlloc size 1 need_sort false [] [] true []).

Definition token_available_size (st : Allocator) : Z :=
  Z.of_nat (length (free_pages st)) + Z.of_nat (length (release_pages st)).

Definition token_alloc (st : Allocator) (need_size : Z) : option (list Z) * Allocator :=
  let st := maybe_merge st (Z.of_nat (length (free_pages st)) <? need_size) in
  if Z.of_nat (length (free_pages st)) <? need_size then (None, st)
  else
    let select_index := take (Z.to_nat need_size) (free_pages st) in
    (Some select_index, set_free_pages st (drop (Z.to_nat need_size) (free_pages st))).

Definition token_free (st : Allocator) (free_index : list Z) : result Allocator :=
  if Z.of_nat (length free_index) =? 0 then Ok st
  else if is_not_in_free_group st then
    if need_sort st then Ok (set_release_pages st (release_pages st ++ free_index))
    else Ok (set_free_pages st (free_pages st ++ free_index))
  else Ok (set_group st (is_not_in_free_group st) (free_group st ++ [free_index])).

(** ** [get_num_new_pages] *)

Definition get_num_new_pages (seq_lens : list Z) (page_size : Z)
    (prefix_lens : option (list Z)) (decode : bool) : result Z :=
  match prefix_lens, decode with
  | Some prefix_lens, false =>
      let num_pages_after := (λ s, (s + page_size - 1) / page_size) <$> seq_lens in
      let num_pages_before := (λ s, (s + page_size - 1) / page_size) <$> prefix_lens in
      Ok (torch_sum (zip_with Z.sub num_pages_after num_pages_before))
  | _, _ =>
      let! _ := py_assert decode in
      Ok (torch_sum ((λ s, if s mod page_size =? 1 then 1 else 0) <$> seq_lens))
  end.

(** ** The reference routine [alloc_extend_naive] *)

Section naive.
Context (prefix_lens seq_lens last_loc free_pages : list Z) (page_size : Z).

(** One iteration of the loop over requests. *)
Definition alloc_extend_naive_step (out : list Z) (i : nat) : list Z :=
  let extend_lens := zip_with Z.sub seq_lens prefix_lens in
  let end_pos := torch_cumsum extend_lens in
  let start_pos := zip_with Z.sub end_pos extend_lens in
  let num_new_pages :=
    zip_with (λ s p, (s + page_size - 1) / page_size - (p + page_size - 1) / page_size)
      seq_lens prefix_lens in
  let num_full_new_pages :=
    zip_with (λ s p, s / page_size - (p + page_size - 1) / page_size)
      seq_lens prefix_lens in
  let need_page := zip_with Z.sub num_new_pages num_full_new_pages in
  let end_new_pages := torch_cumsum num_new_pages in
  let start_new_pages := zip_with Z.sub end_new_pages num_new_pages in
  let pos_in_page := torch_arange 0 page_size in
  let at_ l := nth i l 0 in
  let num1 :=
    Z.min (at_ seq_lens) ((at_ prefix_lens + page_size - 1) / page_size * page_size)
    - at_ prefix_lens in
  let out :=
    if negb (num1 =? 0) then
      overwrite (Z.to_nat (at_ start_pos))
        ((λ o, at_ last_loc + 1 + o) <$> take (Z.to_nat num1) pos_in_page) out
    else out in
  if at_ prefix_lens + num1 =? at_ seq_lens then out
  else
  let num2 :=
    (at_ seq_lens / page_size - (at_ prefix_lens + page_size - 1) / page_size)
    * page_size in
  let out :=
    if negb (num2 =? 0) then
      let pages :=
        (λ p, p * page_size) <$>
          sliceZ (at_ start_new_pages) (at_ end_new_pages - at_ need_page) free_pages in
      overwrite (Z.to_nat (at_ start_pos + num1))
        (mjoin ((λ p, (λ o, p + o) <$> pos_in_page) <$> pages)) out
    else out in
  if at_ prefix_lens + num1 + num2 =? at_ seq_lens then out
  else
  let num3 := at_ seq_lens - at_ seq_lens / page_size * page_size in
  if negb (num3 =? 0) then
    overwrite (Z.to_nat (at_ end_pos - num3))
      ((λ o, nthZ free_pages (at_ end_new_pages - 1) 0 * page_size + o) <$>
         take (Z.to_nat num3) pos_in_page) out
  else out.

Definition alloc_extend_naive (out : list Z) : list Z :=
  foldl alloc_extend_naive_step out (seq 0 (length prefix_lens)).
End naive.

(** ** The Triton kernels *)

(** A masked vector store: lane [o] of [0 .. lanes) writes [f o] at [base + o]
    when its mask holds. *)
Definition tl_store (base : Z) (lanes : nat) (f : Z → Z) (mask : Z → bool)
    (out : list Z) : list Z :=
  foldl (λ out (o : nat),
    if mask (Z.of_nat o)
    then <[Z.to_nat (base + Z.of_nat o) := f (Z.of_nat o)]> out else out)
    out (seq 0 lanes).

Definition BLOCK_EXTEND : nat := 4096.

Section kernels.
(** [free_page i] is the load of lane [i] of the free list: an arbitrary word
    past its end. *)
Context (free_page : Z → Z) (page_size : Z).

(** One program of the grid of [alloc_extend_kernel].  The lanes that
    [load_offset <= pid] masks out of the two loads contribute nothing to the
    sums. *)
Definition alloc_extend_kernel (pre_lens_ptr seq_lens_ptr last_loc_ptr : list Z)
    (pid : nat) (out : list Z) : list Z :=
  let seq_lens := take (S pid) seq_lens_ptr in
  let pre_lens := take (S pid) pre_lens_ptr in
  let extend_lens := zip_with Z.sub seq_lens pre_lens in
  let seq_len := nth pid seq_lens_ptr 0 in
  let pre_len := nth pid pre_lens_ptr 0 in
  let extend_len := seq_len - pre_len in
  let sum_extend_lens := torch_sum extend_lens in
  let output_start_loc := sum_extend_lens - extend_len in
  let num_new_pages :=
    zip_with (λ s p, (s + page_size - 1) / page_size - (p + page_size - 1) / page_size)
      seq_lens pre_lens in
  let num_page_start_loc_self :=
    (seq_len + page_size - 1) / page_size - (pre_len + page_size - 1) / page_size in
  let sum_num_new_pages := torch_sum num_new_pages in
  let new_page_start_loc := sum_num_new_pages - num_page_start_loc_self in
  (* Part 1: fill the old partial page *)
  let last_loc := nth pid last_loc_ptr 0 in
  let num_part1 :=
    Z.min seq_len ((pre_len + page_size - 1) / page_size * page_size) - pre_len in
  let out :=
    tl_store output_start_loc (Z.to_nat page_size)
      (λ o, last_loc + 1 + o) (λ o, o <? num_part1) out in
  if pre_len + num_part1 =? seq_len then out
  else
  (* Part 2: fill the new full pages *)
  let num_part2 :=
    seq_len / page_size * page_size
    - (pre_len + page_size - 1) / page_size * page_size in
  let num_blocks := (num_part2 + Z.of_nat BLOCK_EXTEND - 1) / Z.of_nat BLOCK_EXTEND in
  let out :=
    foldl (λ out (block_id : nat),
      let offset o := Z.of_nat block_id * Z.of_nat BLOCK_EXTEND + o in
      tl_store (output_start_loc + num_part1 + Z.of_nat block_id * Z.of_nat BLOCK_EXTEND)
        BLOCK_EXTEND
        (λ o, free_page (new_page_start_loc + offset o / page_size) * page_size
              + offset o mod page_size)
        (λ o, offset o <? num_part2) out)
      out (seq 0 (Z.to_nat num_blocks)) in
  if pre_len + num_part1 + num_part2 =? seq_len then out
  else
  (* Part 3: fill the new partial page *)
  let num_part3 := seq_len - seq_len / page_size * page_size in
  let start_loc := free_page (new_page_start_loc + num_page_start_loc_self - 1) in
  tl_store (output_start_loc + num_part1 + num_part2) (Z.to_nat page_size)
    (λ o, start_loc * page_size + o) (λ o, o <? num_part3) out.

(** One program of the grid of [alloc_decode_kernel]. *)
Definition alloc_decode_kernel (seq_lens_ptr last_loc_ptr : list Z)
    (pid : nat) (out : list Z) : list Z :=
  let seq_lens := take (S pid) seq_lens_ptr in
  let seq_len := nth pid seq_lens_ptr 0 in
  let pre_len := seq_len - 1 in
  let num_new_pages :=
    (λ s, (s + page_size - 1) / page_size - (s - 1 + page_size - 1) / page_size)
      <$> seq_lens in
  let num_page_start_loc_self :=
    (seq_len + page_size - 1) / page_size - (pre_len + page_size - 1) / page_size in
  let sum_num_new_pages := torch_sum num_new_pages in
  let new_page_start_loc := sum_num_new_pages - num_page_start_loc_self in
  if num_page_start_loc_self =? 0 then
    let last_loc := nth pid last_loc_ptr 0 in
    <[pid := last_loc + 1]> out
  else
    let page := free_page new_page_start_loc in
    <[pid := page * page_size]> out.
End kernels.

(** ** PagedTokenToKVPoolAllocator *)

Definition num_pages (st : Allocator) : Z := al_size st / al_page_size st.

Definition paged_clear (st : Allocator) : Allocator :=
  mkAlloc (al_size st) (al_page_size st) (need_sort st) (debug_mode st)
    (torch_arange 1 (num_pages st + 1)) [] true [].

Definition paged_init (size page_size : Z) (need_sort debug_mode : bool) : Allocator :=
  paged_clear (mkAlloc size page_size need_sort debug_mode [] [] true []).

(** [out_pages[:, None] * page_size + arange(page_size)], flattened. *)
Definition expand_pages (page_size : Z) (pages : list Z) : list Z :=
  mjoin ((λ p, (λ o, p * page_size + o) <$> torch_arange 0 page_size) <$> pages).

Definition paged_alloc (st : Allocator) (need_size : Z)
    : result (option (list Z) * Allocator) :=
  let! _ :=
    if debug_mode st then py_assert (need_size mod al_page_size st =? 0) else Ok () in
  let num_pages := need_size / al_page_size st in
  let st := maybe_merge st (Z.of_nat (length (free_pages st)) <? num_pages) in
  if Z.of_nat (length (free_pages st)) <? num_pages then Ok (None, st)
  else
    let out_pages := take (Z.to_nat num_pages) (free_pages st) in
    Ok (Some (expand_pages (al_page_size st) out_pages),
        set_free_pages st (drop (Z.to_nat num_pages) (free_pages st))).

(** A load at lane [i] of a tensor. *)
Definition load_or (junk : Z → Z) (l : list Z) (i : Z) : Z :=
  if (0 <=? i) && (i <? Z.of_nat (length l)) then nthZ l i 0 else junk i.

Definition paged_alloc_extend (junk : Z → Z) (grid : nat → list nat) (st : Allocator)
    (prefix_lens seq_lens last_loc : list Z) (extend_num_tokens : Z)
    (num_new_pages : option Z) : result (option (list Z) * Allocator) :=
  let ps := al_page_size st in
  let! _ :=
    if debug_mode st then
      py_assert (forallb id (zip_with (λ l p, (l + 1) mod ps =? p mod ps)
                               last_loc prefix_lens))
    else Ok () in
  let bs := length prefix_lens in
  let st :=
    maybe_merge st
      (Z.of_nat (length (free_pages st)) <? extend_num_tokens / ps + Z.of_nat bs + 1) in
  let out_indices := junk <$> torch_arange 0 extend_num_tokens in
  let out_indices :=
    foldl (λ out pid,
      alloc_extend_kernel (load_or junk (free_pages st)) ps prefix_lens seq_lens last_loc
        pid out) out_indices (grid bs) in
  let! _ :=
    if debug_mode st then
      py_assert (Nat.eqb (length (torch_unique out_indices)) (length out_indices))
    else Ok () in
  let! num_new_pages :=
    match num_new_pages with
    | Some n => Ok n
    | None => get_num_new_pages seq_lens ps (Some prefix_lens) false
    end in
  if Z.of_nat (length (free_pages st)) <? num_new_pages then Ok (None, st)
  else
    Ok (Some out_indices,
        set_free_pages st (drop (Z.to_nat num_new_pages) (free_pages st))).

Definition paged_alloc_decode (junk : Z → Z) (grid : nat → list nat) (st : Allocator)
    (seq_lens last_loc : list Z) : result (option (list Z) * Allocator) :=
  let ps := al_page_size st in
  let! _ :=
    if debug_mode st then
      py_assert (forallb id (zip_with (λ l s, (l + 2) mod ps =? s mod ps)
                               last_loc seq_lens))
    else Ok () in
  let bs := length seq_lens in
  let st := maybe_merge st (Z.of_nat (length (free_pages st)) <? Z.of_nat bs) in
  let out_indices := junk <$> torch_arange 0 (Z.of_nat bs) in
  let out_indices :=
    foldl (λ out pid,
      alloc_decode_kernel (load_or junk (free_pages st)) ps seq_lens last_loc pid out)
      out_indices (grid bs) in
  let! _ :=
    if debug_mode st then
      py_assert (Nat.eqb (length (torch_unique out_indices)) (length out_indices))
    else Ok () in
  let! num_new_pages := get_num_new_pages seq_lens ps None true in
  if Z.of_nat (length (free_pages st)) <? num_new_pages then Ok (None, st)
  else
    Ok (Some out_indices,
        set_free_pages st (drop (Z.to_nat num_new_pages) (free_pages st))).

Definition paged_free (st : Allocator) (free_index : list Z) : result Allocator :=
  if Z.of_nat (length free_index) =? 0 then Ok st
  else
    let st :=
      if is_not_in_free_group st then
        let free_page_indices := torch_unique ((λ i, i / al_page_size st) <$> free_index) in
        if need_sort st
        then set_release_pages st (free_page_indices ++ release_pages st)
        else set_free_pages st (free_page_indices ++ free_pages st)
      else set_group st (is_not_in_free_group st) (free_group st ++ [free_index]) in
    let! _ :=
      if debug_mode st then
        py_assert (Nat.eqb (length (torch_unique (free_pages st))) (length (free_pages st)))
      else Ok () in
    Ok st.

(** ** MambaSlotAllocator *)

Record MambaAlloc := mkMamba {
  mb_size : Z;
  free_slots : list Z;
  alloc_iter : option (list Z);
}.

Definition mamba_clear (st : MambaAlloc) : MambaAlloc :=
  mkMamba (mb_size st) (torch_arange 1 (mb_size st + 1)) (alloc_iter st).
Definition mamba_init (size : Z) : MambaAlloc := mamba_clear (mkMamba size [] None).
Definition mamba_available_size (st : MambaAlloc) : Z := Z.of_nat (length (free_slots st)).
Definition schedulable_available_size (st : MambaAlloc) : Z := mamba_available_size st.

Definition mamba_do_alloc (st : MambaAlloc) (need_size : Z) : option (list Z) * MambaAlloc :=
  if Z.of_nat (length (free_slots st)) <? need_size then (None, st)
  else
    (Some (take (Z.to_nat need_size) (free_slots st)),
     mkMamba (mb_size st) (drop (Z.to_nat need_size) (free_slots st)) (alloc_iter st)).

Definition mamba_free (st : MambaAlloc) (free_index : list Z) : MambaAlloc :=
  if Z.of_nat (length free_index) =? 0 then st
  else mkMamba (mb_size st) (free_slots st ++ free_index) (alloc_iter st).

Definition alloc_group_begin (st : MambaAlloc) (num_reqs : Z) : MambaAlloc :=
  let st := mkMamba (mb_size st) (free_slots st) None in
  if 0 <? num_reqs then
    match mamba_do_alloc st num_reqs with
    | (Some result, st) => mkMamba (mb_size st) (free_slots st) (Some result)
    | (None, st) => st
    end
  else st.

Definition alloc_group_end (st : MambaAlloc) : MambaAlloc :=
  let st :=
    match alloc_iter st with
    | Some (_ :: _ as remaining) => mamba_free st remaining
    | _ => st
    end in
  mkMamba (mb_size st) (free_slots st) None.

Definition mamba_alloc (st : MambaAlloc) (need_size : Z) : option (list Z) * MambaAlloc :=
  match alloc_iter st with
  | Some (slot :: rest) =>
      if need_size =? 1
      then (Some [slot], mkMamba (mb_size st) (free_slots st) (Some rest))
      else mamba_do_alloc st need_size
  | _ => mamba_do_alloc st need_size
  end.
