(* ===== verification/AllocKernel.v ===== *)
(** The extend and decode kernels of the paged allocator agree with the
    reference routine and with a per-position specification.

    [req_loc] says where token position [p] of a request is stored: in the page
    the request already owns while that page has room, then in fresh pages taken
    in order from the free list, at offset [p mod page_size]. *)

From stdpp Require Import base gmap list sorting.
From Stdlib Require Import ZArith Lia.
From S2P Require Import Prelude.
From S2P Require Import Allocator.

Open Scope Z_scope.

(** ** Buffers *)

Lemma length_overwrite a vals out : length (overwrite a vals out) = length out.
Proof. apply length_imap. Qed.

Lemma lookup_overwrite a vals out j :
  overwrite a vals out !! j =
    if decide (a ≤ j < a + length vals)%nat
    then (match out !! j with Some _ => vals !! (j - a)%nat | None => None end)
    else out !! j.
Proof.
  unfold overwrite. rewrite list_lookup_imap.
  destruct (out !! j) as [x|] eqn:Hx; cbn; [|by case_decide].
  destruct (Nat.leb_spec a j), (Nat.ltb_spec j (a + length vals)); cbn;
    case_decide; try lia; try done.
  destruct (lookup_lt_is_Some_2 vals (j - a)%nat) as [y Hy]; [lia|].
  by rewrite Hy, (nth_lookup_Some _ _ _ _ Hy).
Qed.

Lemma overwrite_nil a out : overwrite a [] out = out.
Proof. apply list_eq. intros j. rewrite lookup_overwrite. case_decide; [simpl in *; lia|done]. Qed.

Lemma overwrite_comm a1 v1 a2 v2 out :
  (a1 + length v1 ≤ a2)%nat →
  overwrite a1 v1 (overwrite a2 v2 out) = overwrite a2 v2 (overwrite a1 v1 out).
Proof.
  intros Hd. apply list_eq. intros j. rewrite !lookup_overwrite.
  repeat case_decide; try lia; done.
Qed.

(** Two adjacent writes are one write. *)
Lemma overwrite_app a v1 v2 out :
  overwrite (a + length v1) v2 (overwrite a v1 out) = overwrite a (v1 ++ v2) out.
Proof.
  apply list_eq. intros j. rewrite !lookup_overwrite, length_app.
  destruct (out !! j) eqn:Hj; repeat case_decide; try lia; try done.
  - rewrite lookup_app_r by lia. f_equal. lia.
  - by rewrite lookup_app_l by lia.
Qed.

Lemma overwrite_full vals out : length vals = length out → overwrite 0 vals out = vals.
Proof.
  intros Hl. apply list_eq. intros j. rewrite lookup_overwrite.
  destruct (decide (j < length out)%nat) as [Hj|Hj].
  - rewrite decide_True by lia. destruct (lookup_lt_is_Some_2 out j Hj) as [x ->].
    by rewrite Nat.sub_0_r.
  - rewrite decide_False by lia. rewrite !lookup_ge_None_2; [done|lia..].
Qed.

Lemma insert_overwrite a x out : <[a := x]> out = overwrite a [x] out.
Proof.
  apply list_eq. intros j. rewrite lookup_overwrite. cbn [length].
  case_decide as Hd.
  - replace j with a by lia. rewrite Nat.sub_diag.
    destruct (decide (a < length out)%nat) as [Hl|Hl].
    + destruct (lookup_lt_is_Some_2 out a Hl) as [y ->].
      by rewrite list_lookup_insert_eq.
    + rewrite list_insert_ge, lookup_ge_None_2 by lia. done.
  - by rewrite list_lookup_insert_ne by lia.
Qed.

(** A masked store of a prefix of the lanes. *)
Lemma tl_store_prefix base lanes f k out :
  0 ≤ base → 0 ≤ k →
  tl_store base lanes f (λ o, o <? k) out =
    overwrite (Z.to_nat base) (f <$> seqZ 0 (Z.min k (Z.of_nat lanes))) out.
Proof.
  intros Hb Hk. unfold tl_store. induction lanes as [|lanes IH].
  { cbn. rewrite Z.min_r by lia. by rewrite overwrite_nil. }
  rewrite seq_S, foldl_app, IH. cbn.
  destruct (Z.ltb_spec (Z.of_nat lanes) k) as [Hlt|Hge].
  - rewrite !Z.min_r by lia. rewrite insert_overwrite.
    replace (Z.to_nat (base + Z.of_nat lanes)) with
      (Z.to_nat base + length (f <$> seqZ 0 (Z.of_nat lanes)))%nat
      by (rewrite length_fmap, length_seqZ; lia).
    rewrite overwrite_app. f_equal.
    replace (Z.of_nat (S lanes)) with (Z.of_nat lanes + 1) by lia.
    rewrite seqZ_app by lia. by rewrite fmap_app.
  - rewrite !Z.min_l by lia. done.
Qed.

(** A loop over blocks of lanes. *)
Lemma blocks_overwrite (B : nat) base (f : Z → Z) n2 b out :
  0 ≤ base → 0 ≤ n2 →
  foldl (λ out (block_id : nat),
      tl_store (base + Z.of_nat block_id * Z.of_nat B) B
        (λ o, f (Z.of_nat block_id * Z.of_nat B + o))
        (λ o, Z.of_nat block_id * Z.of_nat B + o <? n2) out)
    out (seq 0 b) =
  overwrite (Z.to_nat base)
    (f <$> seqZ 0 (Z.min n2 (Z.of_nat b * Z.of_nat B))) out.
Proof.
  intros Hb Hn.
  assert (Hmask : ∀ c k out, 0 ≤ c → 0 ≤ k →
    tl_store (base + c) B (λ o, f (c + o)) (λ o, c + o <? k) out =
    overwrite (Z.to_nat (base + c))
      ((λ o, f (c + o)) <$> seqZ 0 (Z.min (Z.max 0 (k - c)) (Z.of_nat B))) out).
  { intros c k out' Hc Hk'. rewrite <-tl_store_prefix by lia. unfold tl_store.
    apply foldl_ext_in. intros o' x _.
    destruct (Z.ltb_spec (c + Z.of_nat x) k), (Z.ltb_spec (Z.of_nat x) (Z.max 0 (k - c)));
      try lia; done. }
  induction b as [|b IH].
  { cbn. rewrite Z.min_r by lia. by rewrite overwrite_nil. }
  rewrite seq_S, foldl_app, IH. cbn [foldl]. rewrite Hmask by lia.
  cbn [Nat.add]. set (c := Z.of_nat b * Z.of_nat B).
  destruct (Z.le_gt_cases n2 c) as [Hle|Hgt].
  - rewrite (Z.max_l 0) by lia. rewrite (Z.min_l 0) by lia. cbn. rewrite overwrite_nil.
    do 3 f_equal. lia.
  - rewrite (Z.max_r 0) by lia. rewrite (Z.min_r n2 c) by lia.
    replace (Z.to_nat (base + c)) with (Z.to_nat base + length (f <$> seqZ 0 c))%nat
      by (rewrite length_fmap, length_seqZ; lia).
    rewrite overwrite_app. f_equal.
    replace (Z.min n2 (Z.of_nat (S b) * Z.of_nat B)) with
      (c + Z.min (n2 - c) (Z.of_nat B)) by lia.
    rewrite seqZ_app by lia. rewrite fmap_app. f_equal.
    replace (0 + c) with (c + 0) by lia. rewrite <-fmap_add_seqZ, <-list_fmap_compose. apply list_fmap_ext. intros i x _. cbn. f_equal.
Qed.

(** ** The specification of one request *)

Definition pages_of (ps n : Z) : Z := (n + ps - 1) / ps.

(** The slot of token position [p] of a request that owns [pre] tokens, whose
    last token is at [last], and whose fresh pages start at [np] in the free
    list. *)
Definition req_loc (fp : Z → Z) (ps pre last np p : Z) : Z :=
  if p <? pages_of ps pre * ps then last + 1 + (p - pre)
  else fp (np + (p / ps - pages_of ps pre)) * ps + p mod ps.

Definition req_locs (fp : Z → Z) (ps pre seq last np : Z) : list Z :=
  req_loc fp ps pre last np <$> seqZ pre (seq - pre).

Lemma pages_of_bounds ps n :
  0 < ps → (pages_of ps n - 1) * ps < n ≤ pages_of ps n * ps.
Proof.
  intros Hps. unfold pages_of.
  pose proof (Z.div_mod (n + ps - 1) ps ltac:(lia)) as Hd.
  pose proof (Z.mod_pos_bound (n + ps - 1) ps Hps). nia.
Qed.

(** The quotient and the remainder at a known page. *)
Lemma div_mod_at ps q r : 0 < ps → 0 ≤ r < ps → (q * ps + r) / ps = q ∧ (q * ps + r) mod ps = r.
Proof.
  intros Hps Hr. rewrite Z.add_comm. split.
  - rewrite Z.div_add by lia. rewrite Z.div_small by lia. lia.
  - rewrite Z.mod_add by lia. by apply Z.mod_small.
Qed.

Lemma pages_of_unique ps n q : 0 < ps → (q - 1) * ps < n ≤ q * ps → pages_of ps n = q.
Proof. intros Hps Hn. pose proof (pages_of_bounds ps n Hps). nia. Qed.

Lemma fmap_seqZ_shift {A} (f : Z → A) m n : f <$> seqZ m n = (λ o, f (m + o)) <$> seqZ 0 n.
Proof.
  replace m with (m + 0) at 1 by lia. rewrite <-fmap_add_seqZ, <-list_fmap_compose. done.
Qed.

Lemma fmap_seqZ_ext {A} (f g : Z → A) m n :
  (∀ p, m ≤ p < m + n → f p = g p) → f <$> seqZ m n = g <$> seqZ m n.
Proof.
  intros Hfg. apply list_fmap_ext. intros i x Hx%list_elem_of_lookup_2.
  apply elem_of_seqZ in Hx. auto.
Qed.

Lemma fmap_seqZ_split {A} (f : Z → A) a m b :
  a ≤ m ≤ b → f <$> seqZ a (b - a) = (f <$> seqZ a (m - a)) ++ (f <$> seqZ m (b - m)).
Proof.
  intros Hm. replace (b - a) with ((m - a) + (b - m)) by lia.
  rewrite seqZ_app by lia. rewrite fmap_app. do 3 f_equal. lia.
Qed.

Section request.
Context (fp : Z → Z) (ps pre seq last np : Z).
Hypothesis Hps : 0 < ps.
Hypothesis Hlen : 0 ≤ pre ≤ seq.
Abbreviation A := (pages_of ps pre).
Abbreviation B := (seq / ps).
Abbreviation loc := (req_loc fp ps pre last np).

Lemma div_seq_bounds : B * ps ≤ seq < (B + 1) * ps.
Proof.
  pose proof (Z.div_mod seq ps ltac:(lia)). pose proof (Z.mod_pos_bound seq ps Hps). nia.
Qed.

(** Part 1 of the routines: the old partial page. *)
Lemma req_locs_part1 n :
  0 ≤ n → pre + n ≤ A * ps →
  loc <$> seqZ pre n = (λ o, last + 1 + o) <$> seqZ 0 n.
Proof.
  intros Hn Hle. rewrite fmap_seqZ_shift. apply fmap_seqZ_ext. intros p Hp.
  unfold req_loc. destruct (Z.ltb_spec (pre + p) (A * ps)); lia.
Qed.

(** Part 2: whole fresh pages. *)
Lemma req_locs_part2 n :
  loc <$> seqZ (A * ps) n = (λ o, fp (np + o / ps) * ps + o mod ps) <$> seqZ 0 n.
Proof.
  rewrite fmap_seqZ_shift. apply fmap_seqZ_ext. intros p Hp. unfold req_loc.
  destruct (Z.ltb_spec (A * ps + p) (A * ps)); [lia|].
  rewrite (Z.add_comm (A * ps) p), Z.div_add, Z.mod_add by lia.
  do 3 f_equal. lia.
Qed.

(** Part 3: the last, partial fresh page. *)
Lemma req_locs_part3 :
  A * ps ≤ B * ps → B * ps < seq →
  loc <$> seqZ (B * ps) (seq - B * ps) =
    (λ o, fp (np + (pages_of ps seq - A) - 1) * ps + o) <$> seqZ 0 (seq - B * ps).
Proof.
  intros HAB Hlt. pose proof div_seq_bounds as HB.
  rewrite (pages_of_unique ps seq (B + 1)) by nia.
  rewrite fmap_seqZ_shift. apply fmap_seqZ_ext. intros p Hp. unfold req_loc.
  destruct (Z.ltb_spec (B * ps + p) (A * ps)); [lia|].
  destruct (div_mod_at ps B p) as [-> ->]; [nia..|]. do 3 f_equal. lia.
Qed.

(** The three writes of a request, at its start position, are its slots. *)
Lemma req_locs_one : seq ≤ A * ps →
  req_locs fp ps pre seq last np = (λ o, last + 1 + o) <$> seqZ 0 (seq - pre).
Proof. intros. apply req_locs_part1; lia. Qed.

Lemma req_locs_two : A * ps < seq → B * ps = seq →
  req_locs fp ps pre seq last np =
    ((λ o, last + 1 + o) <$> seqZ 0 (A * ps - pre)) ++
    ((λ o, fp (np + o / ps) * ps + o mod ps) <$> seqZ 0 (B * ps - A * ps)).
Proof.
  intros Hlt HB. pose proof (pages_of_bounds ps pre Hps). unfold req_locs.
  rewrite (fmap_seqZ_split _ pre (A * ps) seq) by lia. f_equal.
  - apply req_locs_part1; lia.
  - rewrite HB. apply req_locs_part2.
Qed.

Lemma req_locs_three : A * ps < seq → B * ps ≠ seq →
  req_locs fp ps pre seq last np =
    (((λ o, last + 1 + o) <$> seqZ 0 (A * ps - pre)) ++
     ((λ o, fp (np + o / ps) * ps + o mod ps) <$> seqZ 0 (B * ps - A * ps))) ++
    ((λ o, fp (np + (pages_of ps seq - A) - 1) * ps + o) <$> seqZ 0 (seq - B * ps)).
Proof.
  intros Hlt HB. pose proof (pages_of_bounds ps pre Hps). pose proof div_seq_bounds.
  assert (A < B + 1) by nia. assert (A * ps ≤ B * ps) by nia. unfold req_locs.
  rewrite (fmap_seqZ_split _ pre (B * ps) seq) by lia. f_equal.
  - rewrite (fmap_seqZ_split _ pre (A * ps) (B * ps)) by lia. f_equal.
    + apply req_locs_part1; lia.
    + apply req_locs_part2.
  - apply req_locs_part3; lia.
Qed.
End request.

(** ** Batches *)

(** Where the slots of request [i] start in the output, and where its fresh
    pages start in the free list. *)
Definition start_of (f : Z → Z → Z) (seq_lens pre_lens : list Z) (i : nat) : Z :=
  torch_sum (zip_with f (take i seq_lens) (take i pre_lens)).
Definition out_start := start_of Z.sub.
Definition page_start (ps : Z) := start_of (λ s p, pages_of ps s - pages_of ps p).

Lemma torch_sum_app l1 l2 : torch_sum (l1 ++ l2) = torch_sum l1 + torch_sum l2.
Proof. induction l1 as [|x l1 IH]; simpl; [done|]. unfold torch_sum in *. simpl. lia. Qed.

Lemma start_of_S f seqs pres i s p :
  seqs !! i = Some s → pres !! i = Some p →
  start_of f seqs pres (S i) = start_of f seqs pres i + f s p.
Proof.
  intros Hs Hp. unfold start_of.
  rewrite (take_S_r _ _ s), (take_S_r _ _ p) by done.
  rewrite zip_with_app.
  - rewrite torch_sum_app. cbn. lia.
  - rewrite !length_take. apply lookup_lt_Some in Hs, Hp. lia.
Qed.

(** A well-formed extend batch: as many prefix lengths as sequence lengths, and
    no prefix longer than its sequence. *)
Record extend_batch (pres seqs lasts : list Z) : Prop := {
  eb_seqs : length seqs = length pres;
  eb_lasts : length lasts = length pres;
  eb_len : ∀ i p s, pres !! i = Some p → seqs !! i = Some s → 0 ≤ p ≤ s;
}.

Lemma start_of_nonneg f seqs pres i :
  (∀ j p s, pres !! j = Some p → seqs !! j = Some s → 0 ≤ f s p) →
  length seqs = length pres →
  (i ≤ length pres)%nat → 0 ≤ start_of f seqs pres i.
Proof.
  intros Hf Hl. induction i as [|i IH]; intros Hi; [done|].
  destruct (lookup_lt_is_Some_2 pres i) as [p Hp]; [lia|].
  destruct (lookup_lt_is_Some_2 seqs i) as [s Hs]; [lia|].
  rewrite (start_of_S _ _ _ _ s p) by done. specialize (IH ltac:(lia)).
  specialize (Hf _ _ _ Hp Hs). lia.
Qed.

Lemma start_of_mono f seqs pres i j :
  (∀ j p s, pres !! j = Some p → seqs !! j = Some s → 0 ≤ f s p) →
  length seqs = length pres →
  (i ≤ j ≤ length pres)%nat → start_of f seqs pres i ≤ start_of f seqs pres j.
Proof.
  intros Hf Hl [Hij Hj]. induction Hij as [|j Hij IH]; [lia|].
  destruct (lookup_lt_is_Some_2 pres j) as [p Hp]; [lia|].
  destruct (lookup_lt_is_Some_2 seqs j) as [s Hs]; [lia|].
  rewrite (start_of_S _ _ _ _ s p) by done. specialize (IH ltac:(lia)).
  specialize (Hf _ _ _ Hp Hs). lia.
Qed.

Lemma lookup_cumsum_from acc l i x :
  l !! i = Some x → cumsum_from acc l !! i = Some (acc + torch_sum (take (S i) l)).
Proof.
  revert acc i; induction l as [|y l IH]; intros acc [|i] Hx; simplify_eq/=.
  - unfold torch_sum. simpl. by rewrite Z.add_0_r.
  - rewrite (IH _ _ Hx). unfold torch_sum. simpl. f_equal. lia.
Qed.

(** The [i]-th entry of the running sums of a per-request quantity. *)
Lemma nth_cumsum f seqs pres i s p :
  seqs !! i = Some s → pres !! i = Some p →
  nth i (torch_cumsum (zip_with f seqs pres)) 0 = start_of f seqs pres i + f s p.
Proof.
  intros Hs Hp. apply nth_lookup_Some. unfold torch_cumsum.
  erewrite lookup_cumsum_from by (rewrite lookup_zip_with, Hs; simpl; by rewrite Hp).
  rewrite <-(start_of_S _ _ _ _ _ _ Hs Hp). unfold start_of.
  by rewrite <-zip_with_take.
Qed.

Lemma nth_zip_with (f : Z → Z → Z) l1 l2 i x y :
  l1 !! i = Some x → l2 !! i = Some y → nth i (zip_with f l1 l2) 0 = f x y.
Proof.
  intros Hx Hy. apply nth_lookup_Some. by rewrite lookup_zip_with, Hx; simpl; rewrite Hy.
Qed.

(** The entry of the running sums, less its own share. *)
Lemma nth_cumsum_start f seqs pres i s p :
  seqs !! i = Some s → pres !! i = Some p →
  nth i (zip_with Z.sub (torch_cumsum (zip_with f seqs pres)) (zip_with f seqs pres)) 0 =
    start_of f seqs pres i.
Proof.
  intros Hs Hp.
  assert (zip_with f seqs pres !! i = Some (f s p)) as Hz
    by (rewrite lookup_zip_with, Hs; simpl; by rewrite Hp).
  rewrite (nth_zip_with _ _ _ _ _ _ (lookup_cumsum_from 0 _ _ _ Hz) Hz).
  pose proof (nth_cumsum f _ _ _ _ _ Hs Hp) as Hn. unfold torch_cumsum in Hn.
  rewrite (nth_lookup_Some _ _ _ _ (lookup_cumsum_from 0 _ _ _ Hz)) in Hn. lia.
Qed.

(** Expanding consecutive pages of a free list. *)
Lemma expand_seqZ (ps : Z) (g : Z → Z) (n : Z) :
  0 < ps → 0 ≤ n →
  mjoin ((λ p, (λ o, p + o) <$> torch_arange 0 ps) <$>
           ((λ p, p * ps) <$> (g <$> seqZ 0 n))) =
    (λ o, g (o / ps) * ps + o mod ps) <$> seqZ 0 (n * ps).
Proof.
  intros Hps Hn. rewrite <-(Z2Nat.id n Hn). generalize (Z.to_nat n) as m. clear n Hn.
  intros n. induction n as [|n IH]; [done|].
  rewrite seqZ_S, !fmap_app, join_app. rewrite IH. cbn.
  replace (Z.of_nat (S n) * ps) with (Z.of_nat n * ps + ps) by lia.
  rewrite seqZ_app, fmap_app by lia. f_equal. rewrite app_nil_r.
  unfold torch_arange. rewrite Z.sub_0_r.
  rewrite (fmap_seqZ_shift _ (0 + _)). apply fmap_seqZ_ext. intros o Ho.
  rewrite !Z.add_0_l. destruct (div_mod_at ps (Z.of_nat n) o) as [-> ->]; lia.
Qed.

Lemma sliceZ_seqZ a n l :
  0 ≤ a → 0 ≤ n → a + n ≤ Z.of_nat (length l) →
  sliceZ a (a + n) l = (λ o, nthZ l (a + o) 0) <$> seqZ 0 n.
Proof.
  intros Ha Hn Hl. unfold sliceZ, slice. apply list_eq. intros i.
  destruct (decide (Z.of_nat i < n)) as [Hi|Hi].
  - rewrite lookup_take_lt, lookup_drop, list_lookup_fmap, lookup_seqZ_lt by lia.
    destruct (lookup_lt_is_Some_2 l (Z.to_nat a + i)%nat) as [x Hx]; [lia|].
    rewrite Hx. cbn. unfold nthZ. f_equal.
    replace (Z.to_nat (a + (0 + Z.of_nat i))) with (Z.to_nat a + i)%nat by lia.
    by rewrite (nth_lookup_Some _ _ _ _ Hx).
  - rewrite !lookup_ge_None_2; [done|..].
    + rewrite length_fmap, length_seqZ. lia.
    + rewrite length_take. lia.
Qed.

Section batch.
Context (fp : Z → Z) (ps : Z) (pres seqs lasts : list Z).
Hypothesis Hps : 0 < ps.
Hypothesis HB : extend_batch pres seqs lasts.

(** The slots of request [i]. *)
Definition batch_locs (i : nat) : list Z :=
  req_locs fp ps (nth i pres 0) (nth i seqs 0) (nth i lasts 0) (page_start ps seqs pres i).

Lemma out_start_nonneg i : (i ≤ length pres)%nat → 0 ≤ out_start seqs pres i.
Proof.
  destruct HB as [H1 H2 H3]. apply start_of_nonneg; [|done].
  intros j p s Hp Hs. specialize (H3 _ _ _ Hp Hs). lia.
Qed.

Lemma length_batch_locs i p s :
  pres !! i = Some p → seqs !! i = Some s →
  Z.of_nat (length (batch_locs i)) = s - p.
Proof.
  intros Hp Hs. pose proof (eb_len _ _ _ HB _ _ _ Hp Hs).
  unfold batch_locs, req_locs. rewrite length_fmap, length_seqZ.
  rewrite (nth_lookup_Some _ _ _ _ Hp), (nth_lookup_Some _ _ _ _ Hs). lia.
Qed.

(** One program of the extend grid writes exactly the slots of its request. *)
Lemma alloc_extend_kernel_spec pid out :
  (pid < length pres)%nat →
  alloc_extend_kernel fp ps pres seqs lasts pid out =
    overwrite (Z.to_nat (out_start seqs pres pid)) (batch_locs pid) out.
Proof.
  intros Hpid. pose proof (out_start_nonneg pid ltac:(lia)) as Hst.
  destruct HB as [Hls Hll Hle].
  destruct (lookup_lt_is_Some_2 pres pid) as [p Hp]; [lia|].
  destruct (lookup_lt_is_Some_2 seqs pid) as [s Hs]; [lia|].
  specialize (Hle _ _ _ Hp Hs).
  unfold alloc_extend_kernel, batch_locs.
  rewrite (nth_lookup_Some _ _ _ _ Hp), (nth_lookup_Some _ _ _ _ Hs).
  change (torch_sum (zip_with Z.sub (take (S pid) seqs) (take (S pid) pres)))
    with (start_of Z.sub seqs pres (S pid)).
  change (torch_sum (zip_with (λ s p, (s + ps - 1) / ps - (p + ps - 1) / ps)
      (take (S pid) seqs) (take (S pid) pres)))
    with (page_start ps seqs pres (S pid)).
  unfold page_start. rewrite !(start_of_S _ _ _ _ s p) by done.
  fold (page_start ps) out_start. fold (pages_of ps p) (pages_of ps s).
  set (st := out_start seqs pres pid) in *. set (np := page_start ps seqs pres pid).
  set (last := nth pid lasts 0).
  replace (st + (s - p) - (s - p)) with st by lia.
  replace (np + (pages_of ps s - pages_of ps p) - (pages_of ps s - pages_of ps p))
    with np by lia.
  pose proof (pages_of_bounds ps p Hps) as HA. pose proof (div_seq_bounds ps s Hps) as HBd.
  set (A := pages_of ps p) in *. set (B := s / ps) in *.
  rewrite tl_store_prefix by lia.
  destruct (Z.eqb_spec (p + (Z.min s (A * ps) - p)) s) as [E1|E1].
  { rewrite req_locs_one by lia. do 4 f_equal. lia. }
  assert (A * ps < s) as HAs by lia. assert (A < B + 1) by nia.
  assert (A * ps ≤ B * ps) by nia.
  replace (Z.min s (A * ps) - p) with (A * ps - p) by lia.
  rewrite (blocks_overwrite BLOCK_EXTEND (st + (A * ps - p))
             (λ o, fp (np + o / ps) * ps + o mod ps)) by lia.
  replace (Z.min (B * ps - A * ps) _) with (B * ps - A * ps).
  2:{ set (n2 := B * ps - A * ps) in *. set (K := Z.of_nat BLOCK_EXTEND).
      assert (0 < K) by (subst K; unfold BLOCK_EXTEND; lia).
      pose proof (pages_of_bounds K n2 ltac:(done)) as Hk. unfold pages_of in Hk.
      assert (0 ≤ (n2 + K - 1) / K) by (apply Z.div_pos; lia). nia. }
  replace (Z.min (A * ps - p) (Z.of_nat (Z.to_nat ps))) with (A * ps - p) by nia.
  replace (Z.to_nat (st + (A * ps - p))) with
    (Z.to_nat st + length ((λ o, last + 1 + o)%Z <$> seqZ 0 (A * ps - p)%Z))%nat
    by (rewrite length_fmap, length_seqZ; lia).
  rewrite overwrite_app.
  destruct (Z.eqb_spec (p + (A * ps - p) + (B * ps - A * ps)) s) as [E2|E2].
  { rewrite req_locs_two by lia. done. }
  rewrite tl_store_prefix by lia.
  replace (Z.min (s - B * ps) (Z.of_nat (Z.to_nat ps))) with (s - B * ps) by lia.
  rewrite req_locs_three by lia. rewrite <-(overwrite_app _ (_ ++ _)).
  rewrite length_app, !length_fmap, !length_seqZ. f_equal. lia.
Qed.
End batch.

Lemma take_arange n ps : 0 ≤ n ≤ ps → take (Z.to_nat n) (torch_arange 0 ps) = seqZ 0 n.
Proof.
  intros Hn. unfold torch_arange. replace (ps - 0) with (n + (ps - n)) by lia.
  rewrite seqZ_app by lia. apply take_app_length'. rewrite length_seqZ. done.
Qed.

Lemma guarded_overwrite {f : Z → Z} a n l out :
  l = f <$> seqZ 0 n →
  (if negb (n =? 0) then overwrite a l out else out) = overwrite a (f <$> seqZ 0 n) out.
Proof. intros ->. destruct (Z.eqb_spec n 0) as [->|]; [|done]. cbn. by rewrite overwrite_nil. Qed.

Lemma pages_of_mono ps p s : 0 < ps → p ≤ s → pages_of ps p ≤ pages_of ps s.
Proof. intros. apply Z.div_le_mono; lia. Qed.

(** Whole pages never exceed the rounded-up page count. *)
Lemma div_le_pages_of ps s : 0 < ps → s / ps ≤ pages_of ps s.
Proof. intros. apply Z.div_le_mono; lia. Qed.

(** One iteration of the reference routine writes the same slots, provided the
    free list holds the fresh pages of the batch. *)
Lemma alloc_extend_naive_step_spec ps pres seqs lasts free i out :
  0 < ps → extend_batch pres seqs lasts → (i < length pres)%nat →
  page_start ps seqs pres (length pres) ≤ Z.of_nat (length free) →
  alloc_extend_naive_step pres seqs lasts free ps out i =
    overwrite (Z.to_nat (out_start seqs pres i))
      (batch_locs (λ j, nthZ free j 0) ps pres seqs lasts i) out.
Proof.
  intros Hps HB Hi Hfree. pose proof (out_start_nonneg pres seqs lasts HB i ltac:(lia)) as Hst.
  destruct HB as [Hls Hll Hle].
  destruct (lookup_lt_is_Some_2 pres i) as [p Hp]; [lia|].
  destruct (lookup_lt_is_Some_2 seqs i) as [s Hs]; [lia|].
  pose proof (Hle _ _ _ Hp Hs) as Hle1.
  unfold alloc_extend_naive_step, batch_locs.
  rewrite (nth_lookup_Some _ _ _ _ Hp), (nth_lookup_Some _ _ _ _ Hs).
  rewrite !(nth_cumsum_start _ _ _ _ _ _ Hs Hp), !(nth_cumsum _ _ _ _ _ _ Hs Hp).
  erewrite (nth_zip_with Z.sub) by
    (rewrite lookup_zip_with, Hs; cbn; rewrite Hp; cbn; reflexivity).
  fold out_start. fold (pages_of ps p) (pages_of ps s).
  change (start_of (λ s p, (s + ps - 1) / ps - (p + ps - 1) / ps) seqs pres i)
    with (page_start ps seqs pres i).
  set (st := out_start seqs pres i) in *. set (np := page_start ps seqs pres i).
  set (last := nth i lasts 0).
  pose proof (pages_of_bounds ps p Hps) as HA. pose proof (div_seq_bounds ps s Hps) as HBd.
  assert (Hpg : np + (s / ps - pages_of ps p) ≤ Z.of_nat (length free)).
  { pose proof (div_le_pages_of ps s Hps).
    assert (page_start ps seqs pres (S i) ≤ page_start ps seqs pres (length pres)) as Hm.
    { apply start_of_mono; [|done|lia]. intros j p' s' Hp' Hs'.
      pose proof (Hle _ _ _ Hp' Hs'). pose proof (pages_of_mono ps p' s' Hps). lia. }
    unfold page_start in Hm at 1. rewrite (start_of_S _ _ _ _ s p) in Hm by done.
    fold (page_start ps) in Hm. fold np in Hm. lia. }
  assert (Hnp : 0 ≤ np).
  { apply start_of_nonneg; [|done|lia]. intros j p' s' Hp' Hs'.
    pose proof (Hle _ _ _ Hp' Hs'). pose proof (pages_of_mono ps p' s' Hps). lia. }
  set (A := pages_of ps p) in *. set (B := s / ps) in *.
  rewrite (guarded_overwrite (f := λ o, last + 1 + o) _ (_ - p))
    by (rewrite take_arange by lia; done).
  destruct (Z.eqb_spec (p + (Z.min s (A * ps) - p)) s) as [E1|E1].
  { rewrite req_locs_one by lia. do 3 f_equal. lia. }
  assert (A * ps < s) as HAs by lia. assert (A < B + 1) by nia.
  assert (A * ps ≤ B * ps) by nia.
  replace (Z.min s (A * ps) - p) with (A * ps - p) by lia.
  replace (np + (pages_of ps s - A) - (pages_of ps s - A - (B - A))) with (np + (B - A)) by lia.
  rewrite sliceZ_seqZ by lia.
  rewrite !expand_seqZ by lia.
  rewrite (guarded_overwrite (f := λ o, nthZ free (np + o / ps) 0 * ps + o mod ps)) by done.
  replace (Z.to_nat (st + (A * ps - p))) with
    (Z.to_nat st + length ((λ o, last + 1 + o)%Z <$> seqZ 0 (A * ps - p)%Z))%nat
    by (rewrite length_fmap, length_seqZ; lia).
  rewrite overwrite_app.
  replace ((B - A) * ps) with (B * ps - A * ps) by lia.
  destruct (Z.eqb_spec (p + (A * ps - p) + (B * ps - A * ps)) s) as [E2|E2].
  { rewrite req_locs_two by lia. done. }
  rewrite take_arange by lia.
  rewrite (guarded_overwrite
    (f := λ o, nthZ free (np + (pages_of ps s - A) - 1) 0 * ps + o)) by done.
  rewrite req_locs_three by lia. rewrite <-(overwrite_app _ (_ ++ _)).
  rewrite length_app, !length_fmap, !length_seqZ. f_equal. lia.
Qed.

(** ** The whole grid *)

Section grid.
Context (ps : Z) (pres seqs lasts : list Z).
Hypothesis Hps : 0 < ps.
Hypothesis HB : extend_batch pres seqs lasts.
Abbreviation bs := (length pres).

(** The slots of the batch, request by request. *)
Definition batch_spec (fp : Z → Z) : list Z := seq 0 bs ≫= batch_locs fp ps pres seqs lasts.

Lemma batch_lookup i :
  (i < bs)%nat → ∃ p s, pres !! i = Some p ∧ seqs !! i = Some s ∧ 0 ≤ p ≤ s.
Proof.
  intros Hi. destruct HB as [Hls _ Hle].
  destruct (lookup_lt_is_Some_2 pres i) as [p Hp]; [lia|].
  destruct (lookup_lt_is_Some_2 seqs i) as [s Hs]; [lia|]. eauto 10.
Qed.

Lemma out_start_S fp i :
  (i < bs)%nat →
  out_start seqs pres (S i) =
    out_start seqs pres i + Z.of_nat (length (batch_locs fp ps pres seqs lasts i)).
Proof.
  intros (p & s & Hp & Hs & _)%batch_lookup.
  rewrite (length_batch_locs _ _ _ _ lasts HB _ _ _ Hp Hs).
  by apply start_of_S.
Qed.

(** Writing the requests in order fills the buffer from its start. *)
Lemma overwrite_seq fp n out :
  (n ≤ bs)%nat →
  foldl (λ out i, overwrite (Z.to_nat (out_start seqs pres i))
                    (batch_locs fp ps pres seqs lasts i) out) out (seq 0 n) =
    overwrite 0 (seq 0 n ≫= batch_locs fp ps pres seqs lasts) out ∧
  Z.of_nat (length (seq 0 n ≫= batch_locs fp ps pres seqs lasts)) = out_start seqs pres n.
Proof.
  induction n as [|n IH]; intros Hn.
  { cbn. split; [by rewrite overwrite_nil|done]. }
  destruct IH as [IH1 IH2]; [lia|].
  rewrite seq_S, foldl_app, bind_app. cbn -[out_start]. rewrite app_nil_r, IH1.
  rewrite (out_start_S fp) by lia. rewrite length_app, <-IH2, Nat2Z.inj_add.
  split; [|done]. rewrite Nat2Z.id, <-overwrite_app. done.
Qed.

Lemma batch_segments fp i j :
  (i < j)%nat → (j < bs)%nat →
  (Z.to_nat (out_start seqs pres i) + length (batch_locs fp ps pres seqs lasts i) ≤
    Z.to_nat (out_start seqs pres j))%nat.
Proof.
  intros Hij Hj. pose proof (out_start_nonneg _ _ _ HB i ltac:(lia)).
  assert (out_start seqs pres (S i) ≤ out_start seqs pres j) as Hm.
  { destruct HB as [Hls _ Hle]. apply start_of_mono; [|done|lia].
    intros k p s Hp Hs. specialize (Hle _ _ _ Hp Hs). lia. }
  rewrite (out_start_S fp) in Hm by lia. lia.
Qed.

(** Programs write disjoint segments, so the grid may run in any order. *)
Lemma grid_any_order fp order out :
  order ≡ₚ seq 0 bs →
  Z.of_nat (length out) = out_start seqs pres bs →
  foldl (λ out pid, alloc_extend_kernel fp ps pres seqs lasts pid out) out order =
    batch_spec fp.
Proof.
  intros Hord Hout.
  assert (foldl (λ out pid, alloc_extend_kernel fp ps pres seqs lasts pid out) out order =
    foldl (λ out i, overwrite (Z.to_nat (out_start seqs pres i))
             (batch_locs fp ps pres seqs lasts i) out) out order) as ->.
  { apply foldl_ext_in. intros a x Hx. apply alloc_extend_kernel_spec; [done..|].
    rewrite Hord in Hx. apply elem_of_seq in Hx. lia. }
  rewrite (foldl_perm _ order (seq 0 bs)).
  - destruct (overwrite_seq fp bs out) as [-> Hlen]; [done|].
    apply overwrite_full, Nat2Z.inj. rewrite Hout. exact Hlen.
  - rewrite Hord. apply NoDup_seq.
  - intros a x y Hx Hy Hne. rewrite Hord in Hx, Hy.
    apply elem_of_seq in Hx, Hy.
    destruct (decide (x < y)%nat).
    + symmetry. apply overwrite_comm, batch_segments; lia.
    + apply overwrite_comm, batch_segments; lia.
  - done.
Qed.

(** The reference routine, when the free list is long enough. *)
Lemma naive_spec free out :
  page_start ps seqs pres bs ≤ Z.of_nat (length free) →
  Z.of_nat (length out) = out_start seqs pres bs →
  alloc_extend_naive pres seqs lasts free ps out = batch_spec (λ j, nthZ free j 0).
Proof.
  intros Hfree Hout. unfold alloc_extend_naive.
  erewrite foldl_ext_in.
  2:{ intros a x Hx. apply elem_of_seq in Hx.
      apply alloc_extend_naive_step_spec; [done..|lia|done]. }
  destruct (overwrite_seq (λ j, nthZ free j 0) bs out) as [-> Hlen]; [done|].
  apply overwrite_full, Nat2Z.inj. rewrite Hout. exact Hlen.
Qed.

(** The slots depend on the free list only through the pages they use. *)
Lemma page_start_S i p s :
  pres !! i = Some p → seqs !! i = Some s →
  page_start ps seqs pres (S i) =
    page_start ps seqs pres i + (pages_of ps s - pages_of ps p).
Proof. intros. unfold page_start. by rewrite (start_of_S _ _ _ _ s p). Qed.

Lemma page_start_mono i j :
  (i ≤ j ≤ bs)%nat → 0 ≤ page_start ps seqs pres i ≤ page_start ps seqs pres j.
Proof.
  intros Hij. destruct HB as [Hls _ Hle].
  assert (Hf : ∀ j p s, pres !! j = Some p → seqs !! j = Some s →
    0 ≤ pages_of ps s - pages_of ps p).
  { intros k p s Hp Hs. specialize (Hle _ _ _ Hp Hs).
    pose proof (pages_of_mono ps p s Hps). lia. }
  split; [apply start_of_nonneg|apply start_of_mono]; (done || lia).
Qed.

(** The fresh page of a position past the owned pages. *)
Lemma fresh_page_bounds p s pos :
  p ≤ s → pages_of ps p * ps ≤ pos < s →
  0 ≤ pos / ps - pages_of ps p < pages_of ps s - pages_of ps p.
Proof.
  intros Hle Hpos. pose proof (pages_of_bounds ps s Hps).
  pose proof (div_seq_bounds ps pos Hps). nia.
Qed.

Lemma batch_spec_ext fp1 fp2 :
  (∀ j, 0 ≤ j < page_start ps seqs pres bs → fp1 j = fp2 j) →
  batch_spec fp1 = batch_spec fp2.
Proof.
  intros Hfp. unfold batch_spec. apply bind_ext_in. intros i Hi.
  apply elem_of_seq in Hi. destruct (batch_lookup i) as (p & s & Hp & Hs & Hle); [lia|].
  unfold batch_locs, req_locs.
  rewrite (nth_lookup_Some _ _ _ _ Hp), (nth_lookup_Some _ _ _ _ Hs).
  apply fmap_seqZ_ext. intros pos Hpos. unfold req_loc.
  destruct (Z.ltb_spec pos (pages_of ps p * ps)) as [|Hge]; [done|].
  pose proof (fresh_page_bounds p s pos ltac:(lia) ltac:(lia)) as Hb.
  pose proof (page_start_mono i (S i) ltac:(lia)) as Hm0.
  pose proof (page_start_mono (S i) bs ltac:(lia)) as Hm1.
  rewrite (page_start_S _ _ _ Hp Hs) in Hm1. rewrite Hfp; [done|lia].
Qed.
End grid.

(** ** Layout of the slots *)

(** The page and the offset of a position's slot: in the page of the last
    token while it has room, else in a fresh page; the offset in the page is the
    position's. *)
Lemma req_loc_own fp ps pre last np pos :
  0 < ps → (last + 1) mod ps = pre mod ps → pre ≤ pos < pages_of ps pre * ps →
  pre mod ps ≠ 0 ∧ req_loc fp ps pre last np pos / ps = last / ps ∧
  req_loc fp ps pre last np pos mod ps = pos mod ps.
Proof.
  intros Hps Hal Hpos. pose proof (pages_of_bounds ps pre Hps) as HA.
  set (A := pages_of ps pre) in *.
  assert (Hr : ∃ r, 0 < r < ps ∧ pre = (A - 1) * ps + r) by (exists (pre - (A - 1) * ps); lia).
  destruct Hr as (r & Hr & Hpre).
  destruct (div_mod_at ps (A - 1) r) as [_ Hm]; [lia..|]. rewrite <-Hpre in Hm.
  pose proof (Z.div_mod (last + 1) ps ltac:(lia)) as Hd. rewrite Hal, Hm in Hd.
  set (q := (last + 1) / ps) in *.
  split; [lia|]. unfold req_loc. fold A. destruct (Z.ltb_spec pos (A * ps)); [|lia].
  replace (last + 1 + (pos - pre)) with (q * ps + (r + (pos - pre))) by lia.
  destruct (div_mod_at ps q (r + (pos - pre))) as [-> ->]; [lia..|].
  replace last with (q * ps + (r - 1)) by lia.
  destruct (div_mod_at ps q (r - 1)) as [-> _]; [lia..|].
  split; [done|]. replace pos with ((A - 1) * ps + (r + (pos - pre))) at 2 by lia.
  by destruct (div_mod_at ps (A - 1) (r + (pos - pre))) as [_ ->]; [lia..|].
Qed.

Lemma req_loc_fresh fp ps pre last np pos :
  0 < ps → pages_of ps pre * ps ≤ pos →
  req_loc fp ps pre last np pos / ps = fp (np + (pos / ps - pages_of ps pre)) ∧
  req_loc fp ps pre last np pos mod ps = pos mod ps.
Proof.
  intros Hps Hpos. unfold req_loc.
  destruct (Z.ltb_spec pos (pages_of ps pre * ps)); [lia|].
  apply div_mod_at; [done|]. by apply Z.mod_pos_bound.
Qed.

(** What the callers of [alloc_extend] guarantee of a batch: each request's last
    slot is at the end of its prefix, partly filled pages belong to one request
    each and are not free, and the free list has no duplicates. *)
Record pages_ok (ps : Z) (pres seqs lasts free : list Z) : Prop := {
  po_aligned : ∀ i p l, pres !! i = Some p → lasts !! i = Some l → (l + 1) mod ps = p mod ps;
  po_own : ∀ i j pi pj li lj,
    pres !! i = Some pi → pres !! j = Some pj →
    lasts !! i = Some li → lasts !! j = Some lj →
    pi mod ps ≠ 0 → pj mod ps ≠ 0 → li / ps = lj / ps → i = j;
  po_free : ∀ i p l, pres !! i = Some p → lasts !! i = Some l → p mod ps ≠ 0 → l / ps ∉ free;
  po_nodup : NoDup free;
}.

Section distinct.
Context (ps : Z) (pres seqs lasts free : list Z).
Hypothesis Hps : 0 < ps.
Hypothesis HB : extend_batch pres seqs lasts.
Hypothesis HP : pages_ok ps pres seqs lasts free.
Abbreviation bs := (length pres).
Hypothesis Hfree : page_start ps seqs pres bs ≤ Z.of_nat (length free).
Abbreviation fp := (λ j, nthZ free j 0).

Lemma elem_batch_locs i x :
  (i < bs)%nat → x ∈ batch_locs fp ps pres seqs lasts i →
  ∃ p s l pos, pres !! i = Some p ∧ seqs !! i = Some s ∧ lasts !! i = Some l ∧
    p ≤ pos < s ∧ x = req_loc fp ps p l (page_start ps seqs pres i) pos.
Proof.
  intros Hi Hx. destruct (batch_lookup pres seqs lasts HB i Hi) as (p & s & Hp & Hs & _).
  destruct (lookup_lt_is_Some_2 lasts i) as [l Hl]; [rewrite (eb_lasts _ _ _ HB); lia|].
  unfold batch_locs, req_locs in Hx.
  rewrite (nth_lookup_Some _ _ _ _ Hp), (nth_lookup_Some _ _ _ _ Hs),
    (nth_lookup_Some _ _ _ _ Hl) in Hx.
  apply list_elem_of_fmap in Hx as (pos & -> & Hpos%elem_of_seqZ).
  exists p, s, l, pos. split_and!; (done || lia).
Qed.

(** Fresh pages of the batch are distinct entries of the free list. *)
Lemma fresh_index i p s pos :
  pres !! i = Some p → seqs !! i = Some s → pages_of ps p * ps ≤ pos < s →
  page_start ps seqs pres i ≤ page_start ps seqs pres i + (pos / ps - pages_of ps p)
    < page_start ps seqs pres (S i) ∧ page_start ps seqs pres (S i) ≤ Z.of_nat (length free)
  ∧ 0 ≤ page_start ps seqs pres i.
Proof.
  intros Hp Hs Hpos. pose proof (lookup_lt_Some _ _ _ Hp).
  pose proof (eb_len _ _ _ HB _ _ _ Hp Hs).
  pose proof (fresh_page_bounds ps Hps p s pos ltac:(lia) ltac:(lia)).
  pose proof (page_start_mono ps pres seqs lasts Hps HB (S i) bs ltac:(lia)).
  pose proof (page_start_mono ps pres seqs lasts Hps HB i (S i) ltac:(lia)).
  rewrite (page_start_S ps pres seqs i p s Hp Hs) in *. lia.
Qed.

Lemma nthZ_inj j k :
  0 ≤ j < Z.of_nat (length free) → 0 ≤ k < Z.of_nat (length free) → fp j = fp k → j = k.
Proof.
  intros Hj Hk Heq. unfold nthZ in Heq.
  destruct (lookup_lt_is_Some_2 free (Z.to_nat j)) as [x Hx]; [lia|].
  destruct (lookup_lt_is_Some_2 free (Z.to_nat k)) as [y Hy]; [lia|].
  rewrite (nth_lookup_Some _ _ _ _ Hx), (nth_lookup_Some _ _ _ _ Hy) in Heq. subst y.
  pose proof (NoDup_lookup _ _ _ _ (po_nodup _ _ _ _ _ HP) Hx Hy). lia.
Qed.

Lemma fp_elem j : 0 ≤ j < Z.of_nat (length free) → fp j ∈ free.
Proof.
  intros Hj. destruct (lookup_lt_is_Some_2 free (Z.to_nat j)) as [x Hx]; [lia|].
  unfold nthZ. rewrite (nth_lookup_Some _ _ _ _ Hx). by eapply list_elem_of_lookup_2.
Qed.

(** The slot of a position: owned or fresh page, and its offset. *)
Lemma slot_cases i p s l pos :
  pres !! i = Some p → seqs !! i = Some s → lasts !! i = Some l → p ≤ pos < s →
  let x := req_loc fp ps p l (page_start ps seqs pres i) pos in
  x mod ps = pos mod ps ∧
  ((pos < pages_of ps p * ps ∧ p mod ps ≠ 0 ∧ x / ps = l / ps ∧ x / ps ∉ free) ∨
   (pages_of ps p * ps ≤ pos ∧ ∃ k, k = page_start ps seqs pres i + (pos / ps - pages_of ps p) ∧
      page_start ps seqs pres i ≤ k < page_start ps seqs pres (S i) ∧
      0 ≤ k < Z.of_nat (length free) ∧ x / ps = fp k)).
Proof.
  intros Hp Hs Hl Hpos x. subst x.
  destruct (Z.lt_ge_cases pos (pages_of ps p * ps)) as [Hlt|Hge].
  - destruct (req_loc_own fp ps p l (page_start ps seqs pres i) pos) as (Hm & Hpg & Ho);
      [done|by eapply po_aligned|lia|].
    split; [done|]. left. split_and!; [done..|]. rewrite Hpg. by eapply po_free.
  - destruct (req_loc_fresh fp ps p l (page_start ps seqs pres i) pos) as (Hpg & Ho); [lia..|].
    pose proof (fresh_index i p s pos Hp Hs ltac:(lia)) as (? & ? & ?).
    split; [done|]. right. split; [done|]. eexists. split_and!; [done|lia..|done].
Qed.

Lemma same_page_pos a b : a / ps = b / ps → a mod ps = b mod ps → a = b.
Proof. intros Hd Hm. rewrite (Z.div_mod a ps), (Z.div_mod b ps) by lia. congruence. Qed.

(** Segments of the free list taken by different requests do not overlap. *)
Lemma segment_unique i j k :
  (i < bs)%nat → (j < bs)%nat →
  page_start ps seqs pres i ≤ k < page_start ps seqs pres (S i) →
  page_start ps seqs pres j ≤ k < page_start ps seqs pres (S j) → i = j.
Proof.
  intros Hi Hj H1 H2. destruct (Nat.lt_trichotomy i j) as [Hlt|[->|Hlt]]; [|done|].
  - pose proof (page_start_mono ps pres seqs lasts Hps HB (S i) j ltac:(lia)). lia.
  - pose proof (page_start_mono ps pres seqs lasts Hps HB (S j) i ltac:(lia)). lia.
Qed.

Lemma slot_inj i j pi si li a pj sj lj b :
  pres !! i = Some pi → seqs !! i = Some si → lasts !! i = Some li → pi ≤ a < si →
  pres !! j = Some pj → seqs !! j = Some sj → lasts !! j = Some lj → pj ≤ b < sj →
  req_loc fp ps pi li (page_start ps seqs pres i) a =
    req_loc fp ps pj lj (page_start ps seqs pres j) b → i = j ∧ a = b.
Proof.
  intros Hpi Hsi Hli Ha Hpj Hsj Hlj Hb Heq.
  pose proof (lookup_lt_Some _ _ _ Hpi). pose proof (lookup_lt_Some _ _ _ Hpj).
  destruct (slot_cases _ _ _ _ _ Hpi Hsi Hli Ha) as [Hm1 Hc1].
  destruct (slot_cases _ _ _ _ _ Hpj Hsj Hlj Hb) as [Hm2 Hc2].
  rewrite Heq in Hm1, Hc1. cbn zeta in *.
  destruct Hc1 as [(? & ? & Hg1 & Hnf1)|(Hge1 & k1 & Hk1 & Hr1 & Hb1 & Hg1)],
    Hc2 as [(? & ? & Hg2 & Hnf2)|(Hge2 & k2 & Hk2 & Hr2 & Hb2 & Hg2)].
  - assert (i = j) as <- by (eapply po_own; eauto; congruence). simplify_eq.
    split; [done|]. unfold req_loc in Heq.
    destruct (Z.ltb_spec a (pages_of ps pi * ps)), (Z.ltb_spec b (pages_of ps pi * ps)); lia.
  - exfalso. apply Hnf1. rewrite Hg2. by apply fp_elem.
  - exfalso. apply Hnf2. rewrite Hg1. by apply fp_elem.
  - assert (k1 = k2) as Hk by (apply nthZ_inj; [done..|congruence]). 
    assert (i = j) as <- by (eapply (segment_unique i j k1); congruence). simplify_eq.
    split; [done|]. apply same_page_pos; [lia|congruence].
Qed.

Lemma batch_spec_NoDup : NoDup (batch_spec ps pres seqs lasts fp).
Proof.
  apply NoDup_bind; [..|apply NoDup_seq].
  - intros i j x Hi%elem_of_seq Hj%elem_of_seq Hxi Hxj.
    apply elem_batch_locs in Hxi as (pi & si & li & a & ? & ? & ? & ? & ->); [|lia].
    apply elem_batch_locs in Hxj as (pj & sj & lj & b & ? & ? & ? & ? & ?); [|lia].
    by eapply (slot_inj i j).
  - intros i Hi%elem_of_seq.
    destruct (batch_lookup pres seqs lasts HB i) as (p & s & Hp & Hs & _); [lia|].
    destruct (lookup_lt_is_Some_2 lasts i) as [l Hl]; [rewrite (eb_lasts _ _ _ HB); lia|].
    unfold batch_locs, req_locs.
    rewrite (nth_lookup_Some _ _ _ _ Hp), (nth_lookup_Some _ _ _ _ Hs),
      (nth_lookup_Some _ _ _ _ Hl).
    apply NoDup_fmap_2_strong; [|apply NoDup_seqZ].
    intros a b Ha%elem_of_seqZ Hb%elem_of_seqZ Heq.
    eapply (slot_inj i i); [eauto..|exact Heq]; lia.
Qed.

(** Every page the batch writes is the page of a request's last token or one
    of the fresh pages, which are the first of the free list. *)
Lemma batch_spec_pages x :
  x ∈ batch_spec ps pres seqs lasts fp →
  x / ps ∈ take (Z.to_nat (page_start ps seqs pres bs)) free ∨
  ∃ i p l, pres !! i = Some p ∧ lasts !! i = Some l ∧ p mod ps ≠ 0 ∧ x / ps = l / ps.
Proof.
  intros (i & Hx & Hi%elem_of_seq)%list_elem_of_bind.
  apply elem_batch_locs in Hx as (p & s & l & pos & Hp & Hs & Hl & Hpos & ->); [|lia].
  destruct (slot_cases _ _ _ _ _ Hp Hs Hl Hpos) as [_ [(? & ? & ? & ?)|(? & k & ? & Hk & Hb & ->)]].
  - right. eauto 10.
  - left. pose proof (page_start_mono ps pres seqs lasts Hps HB (S i) bs ltac:(lia)).
    destruct (lookup_lt_is_Some_2 free (Z.to_nat k)) as [y Hy]; [lia|].
    unfold nthZ. rewrite (nth_lookup_Some _ _ _ _ Hy).
    apply list_elem_of_lookup. exists (Z.to_nat k). rewrite lookup_take_lt by lia. done.
Qed.
End distinct.

(** ** Decode is extension by one token *)

Section decode.
Context (fp : Z → Z) (ps : Z) (seqs lasts : list Z).
Hypothesis Hps : 0 < ps.
Hypothesis Hseqs : Forall (λ s, 1 ≤ s) seqs.
Hypothesis Hlasts : length lasts = length seqs.
Abbreviation pres := ((λ s, s - 1) <$> seqs).

Lemma decode_batch : extend_batch pres seqs lasts.
Proof.
  split; rewrite ?length_fmap; [done..|]. intros i p s Hp Hs.
  rewrite list_lookup_fmap, Hs in Hp. simplify_eq/=.
  rewrite Forall_lookup in Hseqs. specialize (Hseqs _ _ Hs). cbn in Hseqs. lia.
Qed.

Lemma decode_out_start i : (i ≤ length seqs)%nat → out_start seqs pres i = Z.of_nat i.
Proof.
  clear Hlasts Hseqs Hps. induction i as [|i IH]; intros Hi; [done|].
  destruct (lookup_lt_is_Some_2 seqs i) as [s Hs]; [lia|].
  unfold out_start. rewrite (start_of_S _ _ _ _ s (s - 1)).
  - fold out_start. rewrite IH by lia. lia.
  - done.
  - by rewrite list_lookup_fmap, Hs.
Qed.

Lemma alloc_decode_kernel_extend pid out :
  (pid < length seqs)%nat →
  alloc_decode_kernel fp ps seqs lasts pid out =
    alloc_extend_kernel fp ps pres seqs lasts pid out.
Proof.
  intros Hpid. rewrite alloc_extend_kernel_spec;
    [|done|apply decode_batch|rewrite length_fmap; done].
  rewrite decode_out_start, Nat2Z.id by lia.
  destruct (lookup_lt_is_Some_2 seqs pid) as [s Hs]; [lia|].
  assert (Hp : pres !! pid = Some (s - 1)) by (by rewrite list_lookup_fmap, Hs).
  unfold alloc_decode_kernel, batch_locs, req_locs.
  rewrite (nth_lookup_Some _ _ _ _ Hs), (nth_lookup_Some _ _ _ _ Hp).
  replace (s - (s - 1)) with 1 by lia. rewrite seqZ_cons, seqZ_nil by lia.
  cbn [fmap list_fmap].
  assert (torch_sum ((λ s, (s + ps - 1) / ps - (s - 1 + ps - 1) / ps) <$> take (S pid) seqs) =
    page_start ps seqs pres (S pid)) as ->.
  { unfold page_start, start_of. rewrite <-fmap_take, zip_with_fmap_r.
    f_equal. generalize (take (S pid) seqs). intros l.
    induction l as [|x l IH]; [done|]. csimpl. by f_equal. }
  unfold page_start. rewrite (start_of_S _ _ _ _ s (s - 1)) by done.
  fold (page_start ps). fold (pages_of ps (s - 1)) (pages_of ps s).
  replace (page_start ps seqs pres pid + (pages_of ps s - pages_of ps (s - 1))
    - (pages_of ps s - pages_of ps (s - 1))) with (page_start ps seqs pres pid) by lia.
  rewrite !insert_overwrite. unfold req_loc.
  pose proof (pages_of_bounds ps (s - 1) Hps) as Hb1.
  pose proof (pages_of_bounds ps s Hps) as Hb2.
  set (A := pages_of ps (s - 1)) in *. set (C := pages_of ps s) in *.
  destruct (Z.ltb_spec (s - 1) (A * ps)) as [Hlt|Hge].
  - assert (C = A) as -> by (apply pages_of_unique; lia).
    rewrite Z.sub_diag. cbn. do 2 f_equal. lia.
  - assert (s - 1 = A * ps + 0) as Heq by lia.
    assert (C = A + 1) as -> by (apply pages_of_unique; nia).
    destruct (Z.eqb_spec (A + 1 - A) 0); [lia|].
    rewrite Heq. destruct (div_mod_at ps A 0) as [-> ->]; [lia..|].
    rewrite Z.sub_diag, !Z.add_0_r. done.
Qed.
End decode.
