(* ===== verification/AllocatorInv.v ===== *)
(** Safety of the KV allocators over their whole life: step relations for the
    token and the paged allocator, and the invariant that every slot (page) is
    in exactly one of the free list, the release list, the pending free group
    and the hands of the clients. *)

From stdpp Require Import base gmap list sorting relations.
From Stdlib Require Import ZArith Lia.
From S2P Require Import Prelude.
From S2P Require Import Allocator.
From S2P Require Import AllocKernel.

Open Scope Z_scope.

(** ** Sorting and deduplication *)

Lemma torch_sort_perm l : torch_sort l ≡ₚ l.
Proof. apply merge_sort_Permutation. Qed.

Lemma elem_of_torch_unique x l : x ∈ torch_unique l ↔ x ∈ l.
Proof. unfold torch_unique. by rewrite elem_of_remove_dups, torch_sort_perm. Qed.

Lemma NoDup_torch_unique l : NoDup (torch_unique l).
Proof. apply NoDup_remove_dups. Qed.

Lemma torch_unique_app l1 l2 :
  (∀ x, x ∈ l1 → x ∉ l2) →
  torch_unique (l1 ++ l2) ≡ₚ torch_unique l1 ++ torch_unique l2.
Proof.
  intros Hd. apply NoDup_Permutation.
  - apply NoDup_torch_unique.
  - apply NoDup_app. split_and!; [apply NoDup_torch_unique| |apply NoDup_torch_unique].
    intros x. rewrite !elem_of_torch_unique. apply Hd.
  - intros x. by rewrite elem_of_app, !elem_of_torch_unique, elem_of_app.
Qed.

Lemma torch_unique_NoDup l : NoDup l → length (torch_unique l) = length l.
Proof.
  intros Hnd. assert (torch_unique l ≡ₚ l) as ->; [|done].
  apply NoDup_Permutation; [apply NoDup_torch_unique|done|].
  intros x. apply elem_of_torch_unique.
Qed.

(** ** What a state holds *)

(** Slots handed back during an open free group. *)
Definition pending (st : Allocator) : list Z :=
  if is_not_in_free_group st then [] else concat (free_group st).

(** Entries of the two lists. *)
Definition held (st : Allocator) : list Z := free_pages st ++ release_pages st.

Lemma merge_held st : held (merge_and_sort_free st) ≡ₚ held st.
Proof.
  unfold merge_and_sort_free, held. case_match; [|done]. cbn.
  by rewrite torch_sort_perm, app_nil_r.
Qed.

Lemma merge_free_all st : free_pages (merge_and_sort_free st) ≡ₚ held st.
Proof.
  unfold merge_and_sort_free, held. destruct (Z.ltb_spec 0 (Z.of_nat (length (release_pages st)))).
  - cbn. by rewrite torch_sort_perm.
  - destruct (release_pages st); [by rewrite app_nil_r|simpl in *; lia].
Qed.

Lemma merge_same st :
  pending (merge_and_sort_free st) = pending st ∧
  al_size (merge_and_sort_free st) = al_size st ∧
  al_page_size (merge_and_sort_free st) = al_page_size st ∧
  need_sort (merge_and_sort_free st) = need_sort st ∧
  debug_mode (merge_and_sort_free st) = debug_mode st ∧
  is_not_in_free_group (merge_and_sort_free st) = is_not_in_free_group st.
Proof. unfold merge_and_sort_free. destruct (0 <? _); by split_and!. Qed.

Lemma maybe_merge_held st b : held (maybe_merge st b) ≡ₚ held st.
Proof. unfold maybe_merge. destruct (_ && _); [apply merge_held|done]. Qed.

Lemma maybe_merge_same st b :
  pending (maybe_merge st b) = pending st ∧
  al_size (maybe_merge st b) = al_size st ∧
  al_page_size (maybe_merge st b) = al_page_size st ∧
  need_sort (maybe_merge st b) = need_sort st ∧
  debug_mode (maybe_merge st b) = debug_mode st ∧
  is_not_in_free_group (maybe_merge st b) = is_not_in_free_group st.
Proof. unfold maybe_merge. destruct (_ && _); [apply merge_same|done]. Qed.

(** Taking a prefix of the free list. *)
Lemma held_take st n :
  held st ≡ₚ take n (free_pages st) ++ held (set_free_pages st (drop n (free_pages st))).
Proof. unfold held. cbn. by rewrite app_assoc, take_drop. Qed.

(** ** Token allocator *)

Lemma token_alloc_held st n o st' :
  token_alloc st n = (o, st') →
  held st ≡ₚ default [] o ++ held st' ∧ pending st' = pending st ∧
  al_size st' = al_size st ∧ need_sort st' = need_sort st ∧
  is_not_in_free_group st' = is_not_in_free_group st.
Proof.
  unfold token_alloc.
  destruct (maybe_merge_same st (Z.of_nat (length (free_pages st)) <? n)) as (? & ? & ? & ? & ? & ?).
  rewrite <-(maybe_merge_held st (Z.of_nat (length (free_pages st)) <? n)).
  set (st1 := maybe_merge st _) in *.
  case_match; intros; simplify_eq/=; [done|].
  split_and!; try done. apply held_take.
Qed.

Lemma token_free_held st idx st' :
  token_free st idx = Ok st' →
  held st' ++ pending st' ≡ₚ idx ++ held st ++ pending st ∧
  al_size st' = al_size st ∧ need_sort st' = need_sort st.
Proof.
  unfold token_free. destruct (Z.eqb_spec (Z.of_nat (length idx)) 0) as [Hz|Hz].
  { intros [= <-]. destruct idx; [done|simpl in *; lia]. }
  unfold held, pending. destruct (is_not_in_free_group st) eqn:Eg;
    [destruct (need_sort st) eqn:Es|]; intros [= <-]; cbn; rewrite ?Eg, ?Es; (split; [|done]).
  - rewrite !app_nil_r. rewrite app_assoc. by rewrite (Permutation_app_comm idx).
  - rewrite !app_nil_r. rewrite (Permutation_app_comm (free_pages st) idx).
    by rewrite <-app_assoc.
  - rewrite concat_app. cbn. rewrite app_nil_r, app_assoc.
    by rewrite (Permutation_app_comm _ idx).
Qed.

(** The operations a client performs, with the slots it holds.  It frees only
    slots it holds, opens no free group inside another, and restores a backup
    only to undo the allocation it made since. *)
Inductive token_step : Allocator * list Z → Allocator * list Z → Prop :=
  | ts_alloc st live n o st' :
      token_alloc st n = (o, st') → token_step (st, live) (st', live ++ default [] o)
  | ts_free st live idx live' st' :
      live ≡ₚ idx ++ live' → token_free st idx = Ok st' →
      token_step (st, live) (st', live')
  | ts_group_begin st live :
      is_not_in_free_group st = true → token_step (st, live) (free_group_begin st, live)
  | ts_group_end st live st' :
      is_not_in_free_group st = false → free_group_end token_free st = Ok st' →
      token_step (st, live) (st', live)
  | ts_rollback st live n o st' :
      token_alloc st n = (o, st') →
      token_step (st, live) (restore_state st' (backup_state st), live)
  | ts_clear st live : token_step (st, live) (token_clear st, []).

(** Every slot of [1 .. size] is in exactly one place. *)
Definition token_inv (size : Z) (s : Allocator * list Z) : Prop :=
  al_size s.1 = size ∧ held s.1 ++ pending s.1 ++ s.2 ≡ₚ torch_arange 1 (size + 1) ∧
  (need_sort s.1 = false → release_pages s.1 = []).

Lemma token_alloc_release st n o st' :
  token_alloc st n = (o, st') → need_sort st = false → release_pages st = [] →
  release_pages st' = [].
Proof.
  unfold token_alloc, maybe_merge. intros Ht Hs Hr. rewrite Hs in Ht. cbn in Ht.
  case_match; by simplify_eq/=.
Qed.

Lemma token_free_release st idx st' :
  token_free st idx = Ok st' → need_sort st = false → release_pages st = [] →
  release_pages st' = [].
Proof.
  unfold token_free. intros Ht Hs Hr. rewrite Hs in Ht. by repeat case_match; simplify_eq/=.
Qed.

Lemma group_end_held st st' :
  is_not_in_free_group st = false → free_group_end token_free st = Ok st' →
  held st' ++ pending st' ≡ₚ held st ++ pending st ∧ al_size st' = al_size st ∧
  need_sort st' = need_sort st ∧
  (need_sort st = false → release_pages st = [] → release_pages st' = []).
Proof.
  intros Hg. unfold free_group_end. cbn. set (st1 := set_group st true (free_group st)).
  destruct (free_group st) as [|g gs] eqn:Eg.
  { intros [= <-]. unfold held, pending. cbn. rewrite Hg, Eg. done. }
  intros Hf. pose proof (token_free_release _ _ _ Hf) as Hr.
  apply token_free_held in Hf as (Hp & Hs & Hn).
  split_and!; [|done..]. rewrite Hp. unfold held, pending. cbn. rewrite Hg, Eg, app_nil_r.
  apply Permutation_app_comm.
Qed.

Lemma token_step_inv size s s' : token_step s s' → token_inv size s → token_inv size s'.
Proof.
  unfold token_inv. intros Hs (Hsz & Hp & Hr).
  destruct Hs as [st live n o st' Ha|st live idx live' st' Hl Hf|st live Hg|
    st live st' Hg Hf|st live n o st' Ha|st live]; cbn in *.
  - pose proof (token_alloc_release _ _ _ _ Ha) as Hr'.
    apply token_alloc_held in Ha as (Hh & -> & -> & Hn & _).
    split_and!; [done| |rewrite Hn; auto]. clear Hr'. solve_perm.
  - pose proof (token_free_release _ _ _ Hf) as Hr'.
    apply token_free_held in Hf as (Hh & -> & Hn).
    split_and!; [done| |rewrite Hn; auto]. clear Hr'. solve_perm.
  - split_and!; [done| |done]. rewrite <-Hp. unfold held, pending. cbn. by rewrite Hg.
  - apply group_end_held in Hf as (Hh & -> & -> & Hr'); [|done].
    split_and!; [done| |auto]. clear Hr'. solve_perm.
  - apply token_alloc_held in Ha as (_ & Hpd & Hsz' & Hn & Hg).
    split_and!; [congruence| |intros ?; apply Hr; congruence].
    rewrite <-Hp. unfold held at 1. cbn. fold (held st).
    assert (pending (restore_state st' (backup_state st)) = pending st) as ->; [|done].
    rewrite <-Hpd. done.
  - split_and!; [done| |done]. rewrite Hsz. unfold held, pending. cbn. by rewrite !app_nil_r.
Qed.

Lemma token_init_inv size ns : token_inv size (token_init size ns, []).
Proof.
  unfold token_inv, token_init, token_clear, held, pending. cbn.
  split_and!; [done| |done]. by rewrite !app_nil_r.
Qed.

Lemma token_reach_inv size ns s :
  rtc token_step (token_init size ns, []) s → token_inv size s.
Proof.
  intros Hr. pose proof (token_init_inv size ns) as Hi.
  induction Hr; eauto using token_step_inv.
Qed.

Lemma elem_of_arange x a b : x ∈ torch_arange a b ↔ a ≤ x < b.
Proof. unfold torch_arange. rewrite elem_of_seqZ. lia. Qed.

Lemma NoDup_arange a b : NoDup (torch_arange a b).
Proof. apply NoDup_seqZ. Qed.

Lemma length_arange a b : length (torch_arange a b) = Z.to_nat (b - a).
Proof. apply length_seqZ. Qed.

(** What the invariant says about the slots of the clients. *)
Lemma partition_safe free pend live lo hi :
  free ++ pend ++ live ≡ₚ torch_arange lo hi →
  NoDup live ∧ (∀ x, x ∈ live → lo ≤ x < hi) ∧ (∀ x, x ∈ live → x ∉ free).
Proof.
  intros Hp. pose proof (NoDup_arange lo hi) as Hnd. rewrite <-Hp in Hnd.
  apply NoDup_app in Hnd as (_ & Hd & Hnd). apply NoDup_app in Hnd as (_ & _ & Hnd).
  split_and!; [done| |].
  - intros x Hx. apply elem_of_arange. rewrite <-Hp. set_solver.
  - intros x Hx Hf. apply (Hd x Hf). set_solver.
Qed.

(** Allocation fails only when fewer slots than needed are available. *)
Lemma token_alloc_None st n st' :
  (need_sort st = false → release_pages st = []) → token_alloc st n = (None, st') →
  token_available_size st < n.
Proof.
  intros Hr. unfold token_alloc, token_available_size. cbn zeta.
  destruct (Z.ltb_spec (Z.of_nat (length (free_pages (maybe_merge st
    (Z.of_nat (length (free_pages st)) <? n))))) n) as [Hlt|]; [intros _|done].
  revert Hlt. unfold maybe_merge. destruct (need_sort st); cbn [andb].
  - destruct (Z.ltb_spec (Z.of_nat (length (free_pages st))) n); [|lia].
    pose proof (Permutation_length (merge_free_all st)) as Hm.
    unfold held in Hm. rewrite length_app in Hm. lia.
  - rewrite Hr by done. cbn. lia.
Qed.

Lemma token_alloc_Some st n sel st' :
  0 ≤ n → token_alloc st n = (Some sel, st') → Z.of_nat (length sel) = n.
Proof.
  intros Hn. unfold token_alloc. cbn zeta.
  set (st1 := maybe_merge _ _).
  destruct (Z.ltb_spec (Z.of_nat (length (free_pages st1))) n); intros [= <- _].
  rewrite length_take. lia.
Qed.

(** ** Paged allocator *)

Definition page_list (ps : Z) (idx : list Z) : list Z := (λ i, i / ps) <$> idx.

(** Pages handed back during an open free group. *)
Definition pending_pages (st : Allocator) : list Z :=
  torch_unique (page_list (al_page_size st) (pending st)).

Lemma expand_pages_pages ps pages :
  0 < ps → torch_unique (page_list ps (expand_pages ps pages)) ≡ₚ torch_unique pages.
Proof.
  intros Hps. apply NoDup_Permutation; [apply NoDup_torch_unique..|].
  intros x. rewrite !elem_of_torch_unique. unfold page_list, expand_pages.
  rewrite list_elem_of_fmap. setoid_rewrite list_elem_of_join. split.
  - intros (y & -> & l & Hy & Hl). apply list_elem_of_fmap in Hl as (p & -> & Hp).
    apply list_elem_of_fmap in Hy as (o & -> & Ho%elem_of_arange).
    by destruct (div_mod_at ps p o) as [-> _].
  - intros Hx. exists (x * ps + 0). split; [by destruct (div_mod_at ps x 0) as [-> _]; [lia..|]|].
    eexists. split; [|apply list_elem_of_fmap; by exists x].
    apply list_elem_of_fmap. exists 0. split; [done|]. apply elem_of_arange. lia.
Qed.

(** The pages a successful allocation adds to what a client holds: those of the
    returned slots that it did not hold before. *)
Definition new_pages (ps : Z) (live out : list Z) : list Z :=
  list_difference (torch_unique (page_list ps out)) live.

(** The page counts of [get_num_new_pages]. *)
Lemma get_num_new_pages_extend ps pres seqs :
  get_num_new_pages seqs ps (Some pres) false =
    Ok (page_start ps seqs pres (Nat.min (length seqs) (length pres))).
Proof.
  unfold get_num_new_pages, page_start, start_of. do 2 f_equal.
  rewrite <-zip_with_take, take_ge by (rewrite length_zip_with; lia).
  rewrite zip_with_fmap_l, zip_with_fmap_r. done.
Qed.

(** In a decode step every request grows by one token: the special case counts
    the requests whose new token opens a page. *)
Lemma decode_opens_page ps s :
  1 < ps → 1 ≤ s → (if s mod ps =? 1 then 1 else 0) = pages_of ps s - pages_of ps (s - 1).
Proof.
  intros Hps Hs. pose proof (Z.div_mod (s - 1) ps ltac:(lia)) as Hd.
  pose proof (Z.mod_pos_bound (s - 1) ps ltac:(lia)) as Hm.
  set (q := (s - 1) / ps) in *. set (r := (s - 1) mod ps) in *.
  rewrite (pages_of_unique ps s (q + 1)) by nia.
  destruct (Z.eq_dec r 0) as [Hr|Hr].
  - rewrite (pages_of_unique ps (s - 1) q) by nia.
    replace s with (q * ps + 1) by lia. destruct (div_mod_at ps q 1) as [_ ->]; [lia..|].
    cbn. lia.
  - rewrite (pages_of_unique ps (s - 1) (q + 1)) by nia.
    destruct (Z.eqb_spec (s mod ps) 1) as [H1|]; [|lia].
    exfalso. apply Hr. subst r. rewrite Zminus_mod, H1, (Z.mod_small 1 ps) by lia. done.
Qed.

Lemma get_num_new_pages_decode ps seqs :
  1 < ps → Forall (λ s, 1 ≤ s) seqs →
  get_num_new_pages seqs ps None true =
    Ok (page_start ps seqs ((λ s, s - 1) <$> seqs) (length seqs)).
Proof.
  intros Hps Hall. unfold get_num_new_pages, page_start, start_of. cbn. f_equal.
  rewrite !take_ge by (rewrite ?length_fmap; done).
  rewrite zip_with_fmap_r. f_equal.
  induction Hall as [|s seqs Hs Hall IH]; [done|]. csimpl.
  f_equal; [by apply decode_opens_page|exact IH].
Qed.

Lemma segment_exists f seqs pres n k :
  length seqs = length pres → (n ≤ length pres)%nat →
  0 ≤ k < start_of f seqs pres n →
  ∃ i, (i < n)%nat ∧ start_of f seqs pres i ≤ k < start_of f seqs pres (S i).
Proof.
  intros Hl. induction n as [|n IH]; intros Hn Hk.
  { change (start_of f seqs pres 0) with 0 in Hk. lia. }
  destruct (Z.lt_ge_cases k (start_of f seqs pres n)) as [Hlt|Hge].
  - destruct IH as (i & Hi & Hb); [lia..|]. exists i. split; [lia|done].
  - exists n. lia.
Qed.

(** Every fresh page counted for a batch receives a slot. *)
Lemma fresh_page_used ps pres seqs lasts fp k :
  0 < ps → extend_batch pres seqs lasts →
  0 ≤ k < page_start ps seqs pres (length pres) →
  ∃ x, x ∈ batch_spec ps pres seqs lasts fp ∧ x / ps = fp k.
Proof.
  intros Hps HB Hk.
  destruct (segment_exists _ _ _ _ _ (eb_seqs _ _ _ HB) ltac:(done) Hk) as (i & Hi & Hseg).
  fold (page_start ps) in Hseg.
  destruct (batch_lookup pres seqs lasts HB i Hi) as (p & s & Hp & Hs & Hle).
  unfold page_start in Hseg at 2. rewrite (start_of_S _ _ _ _ s p) in Hseg by done.
  fold (page_start ps) in Hseg.
  set (np := page_start ps seqs pres i) in *. set (A := pages_of ps p) in *.
  pose proof (pages_of_bounds ps p Hps). pose proof (pages_of_bounds ps s Hps).
  set (pos := (k - np + A) * ps + 0).
  exists (req_loc fp ps p (nth i lasts 0) np pos). split.
  - apply list_elem_of_bind. exists i. split; [|apply elem_of_seq; lia].
    unfold batch_locs, req_locs. fold np.
    rewrite (nth_lookup_Some _ _ _ _ Hp), (nth_lookup_Some _ _ _ _ Hs).
    apply list_elem_of_fmap. exists pos. split; [done|]. apply elem_of_seqZ.
    subst pos. nia.
  - destruct (req_loc_fresh fp ps p (nth i lasts 0) np pos) as [-> _]; [done|subst pos; nia|].
    destruct (div_mod_at ps (k - np + A) 0) as [Hq _]; [lia..|]. fold pos in Hq.
    rewrite Hq. f_equal. fold A. lia.
Qed.

(** The element of a bind at a position of the segment of [i]. *)
Lemma lookup_bind_seq {A} (f : nat → list A) n i k :
  (i < n)%nat → (k < length (f i))%nat →
  (seq 0 n ≫= f) !! (length (seq 0 i ≫= f) + k)%nat = f i !! k.
Proof.
  intros Hi Hk. replace n with (i + S (n - i - 1))%nat by lia.
  rewrite seq_app, bind_app, lookup_app_r by lia. cbn [seq]. csimpl.
  rewrite lookup_app_l by lia. f_equal. lia.
Qed.

(** The slot of a token has the offset of the token in its page. *)
Lemma batch_spec_offset ps pres seqs lasts fp i p s l pos :
  0 < ps → extend_batch pres seqs lasts → pres !! i = Some p → seqs !! i = Some s →
  lasts !! i = Some l → (l + 1) mod ps = p mod ps → p ≤ pos < s →
  ∃ x, batch_spec ps pres seqs lasts fp !! Z.to_nat (out_start seqs pres i + (pos - p)) = Some x ∧
    x mod ps = pos mod ps.
Proof.
  intros Hps HB Hp Hs Hl Hal Hpos. pose proof (lookup_lt_Some _ _ _ Hp) as Hi.
  destruct (overwrite_seq ps pres seqs lasts HB fp i [] ltac:(lia)) as [_ Hlen].
  pose proof (length_batch_locs fp ps pres seqs lasts HB i p s Hp Hs) as Hli.
  exists (req_loc fp ps p l (page_start ps seqs pres i) pos). split.
  - replace (Z.to_nat (out_start seqs pres i + (pos - p))) with
      (length (seq 0 i ≫= batch_locs fp ps pres seqs lasts) + Z.to_nat (pos - p))%nat by lia.
    unfold batch_spec. rewrite lookup_bind_seq by lia. unfold batch_locs, req_locs.
    rewrite (nth_lookup_Some _ _ _ _ Hp), (nth_lookup_Some _ _ _ _ Hs), (nth_lookup_Some _ _ _ _ Hl).
    rewrite list_lookup_fmap, lookup_seqZ_lt by lia. cbn. do 2 f_equal. lia.
  - destruct (Z.lt_ge_cases pos (pages_of ps p * ps)).
    + apply req_loc_own; (done || lia).
    + apply req_loc_fresh; (done || lia).
Qed.

Section paged.
Context (junk : Z → Z) (grid : nat → list nat).
Hypothesis Hgrid : ∀ n, grid n ≡ₚ seq 0 n.

(** The guarantees of a caller of [alloc_extend] that holds the pages [live]:
    the page of the last token of a request with a partly filled page is one of
    its pages, and is not shared with another request of the batch. *)
Record extend_call (ps : Z) (live pres seqs lasts : list Z) : Prop := {
  ec_batch : extend_batch pres seqs lasts;
  ec_aligned : ∀ i p l, pres !! i = Some p → lasts !! i = Some l →
    (l + 1) mod ps = p mod ps;
  ec_own : ∀ i j pi pj li lj,
    pres !! i = Some pi → pres !! j = Some pj →
    lasts !! i = Some li → lasts !! j = Some lj →
    pi mod ps ≠ 0 → pj mod ps ≠ 0 → li / ps = lj / ps → i = j;
  ec_live : ∀ i p l, pres !! i = Some p → lasts !! i = Some l →
    p mod ps ≠ 0 → l / ps ∈ live;
}.

Inductive paged_step : Allocator * list Z → Allocator * list Z → Prop :=
  | pg_alloc st live n out st' :
      paged_alloc st n = Ok (Some out, st') →
      paged_step (st, live) (st', live ++ new_pages (al_page_size st) live out)
  | pg_alloc_fail st live n st' :
      paged_alloc st n = Ok (None, st') → paged_step (st, live) (st', live)
  | pg_extend st live pres seqs lasts out st' :
      extend_call (al_page_size st) live pres seqs lasts →
      paged_alloc_extend junk grid st pres seqs lasts
        (out_start seqs pres (length pres)) None = Ok (Some out, st') →
      paged_step (st, live) (st', live ++ new_pages (al_page_size st) live out)
  | pg_extend_fail st live pres seqs lasts n m st' :
      paged_alloc_extend junk grid st pres seqs lasts n m = Ok (None, st') →
      paged_step (st, live) (st', live)
  | pg_decode st live seqs lasts out st' :
      Forall (λ s, 1 ≤ s) seqs →
      extend_call (al_page_size st) live ((λ s, s - 1) <$> seqs) seqs lasts →
      paged_alloc_decode junk grid st seqs lasts = Ok (Some out, st') →
      paged_step (st, live) (st', live ++ new_pages (al_page_size st) live out)
  | pg_decode_fail st live seqs lasts st' :
      paged_alloc_decode junk grid st seqs lasts = Ok (None, st') →
      paged_step (st, live) (st', live)
  | pg_free st live idx live' st' :
      live ≡ₚ torch_unique (page_list (al_page_size st) idx) ++ live' →
      paged_free st idx = Ok st' → paged_step (st, live) (st', live')
  | pg_group_begin st live :
      is_not_in_free_group st = true → paged_step (st, live) (free_group_begin st, live)
  | pg_group_end st live st' :
      is_not_in_free_group st = false → free_group_end paged_free st = Ok st' →
      paged_step (st, live) (st', live)
  | pg_clear st live : paged_step (st, live) (paged_clear st, []).

Definition paged_inv (size ps : Z) (s : Allocator * list Z) : Prop :=
  al_size s.1 = size ∧ al_page_size s.1 = ps ∧
  held s.1 ++ pending_pages s.1 ++ s.2 ≡ₚ torch_arange 1 (size / ps + 1).

(** A fresh prefix of the free list, as the clients see it. *)
Lemma new_pages_fresh ps live out fresh :
  0 < ps → NoDup fresh → (∀ x, x ∈ fresh → x ∉ live) →
  (∀ x, x ∈ page_list ps out → x ∈ fresh ∨ x ∈ live) →
  (∀ x, x ∈ fresh → x ∈ page_list ps out) →
  new_pages ps live out ≡ₚ fresh.
Proof.
  intros Hps Hnd Hdis Hsub Hsup. unfold new_pages. apply NoDup_Permutation; [|done|].
  - apply NoDup_list_difference, NoDup_torch_unique.
  - intros x. rewrite list_elem_of_difference, elem_of_torch_unique.
    split; [|naive_solver]. intros [Hx Hl]. naive_solver.
Qed.

Lemma held_fresh st size ps live n :
  paged_inv size ps (st, live) →
  NoDup (take n (free_pages st)) ∧ (∀ x, x ∈ take n (free_pages st) → x ∉ live) ∧
  (∀ x, x ∈ live → x ∉ free_pages st) ∧ NoDup (free_pages st).
Proof.
  intros (_ & _ & Hp). cbn in Hp. pose proof (NoDup_arange 1 (size / ps + 1)) as Hnd.
  rewrite <-Hp in Hnd. unfold held in Hnd. rewrite <-app_assoc in Hnd.
  apply NoDup_app in Hnd as (Hf & Hd & _).
  assert (take n (free_pages st) ⊆ free_pages st) as Hsub by apply subseteq_take.
  split_and!; [|set_solver..|done]. by eapply sublist_NoDup; [|apply sublist_take].
Qed.

(** Handing a fresh prefix of the free list to the clients keeps the partition. *)
Lemma take_fresh_inv st live size ps n fresh :
  paged_inv size ps (st, live) → fresh ≡ₚ take n (free_pages st) →
  paged_inv size ps (set_free_pages st (drop n (free_pages st)), live ++ fresh).
Proof.
  intros (Hsz & Hpsz & Hp) Hf. unfold paged_inv in *. cbn [fst snd] in *. split_and!; [done..|].
  pose proof (held_take st n) as Hh.
  change (pending_pages (set_free_pages st (drop n (free_pages st))))
    with (pending_pages st). solve_perm.
Qed.

Lemma maybe_merge_inv size ps st live b :
  paged_inv size ps (st, live) → paged_inv size ps (maybe_merge st b, live).
Proof.
  intros (Hsz & Hpsz & Hp). unfold paged_inv, pending_pages in *. cbn in *.
  destruct (maybe_merge_same st b) as (-> & -> & -> & _).
  split_and!; [done..|]. by rewrite maybe_merge_held.
Qed.

Lemma paged_alloc_inv size ps st live n out st' :
  0 < ps → paged_inv size ps (st, live) → paged_alloc st n = Ok (Some out, st') →
  paged_inv size ps (st', live ++ new_pages ps live out).
Proof.
  intros Hps Hi Ha. unfold paged_alloc in Ha. inv_ok. cbn zeta in *.
  destruct Hi as (Hsz & Hpsz & Hp). cbn in Hpsz. rewrite Hpsz in *.
  set (k := n / ps) in *.
  set (st1 := maybe_merge st _) in *.
  assert (Hi1 : paged_inv size ps (st1, live)) by (by apply maybe_merge_inv).
  destruct (Z.ltb_spec (Z.of_nat (length (free_pages st1))) k); [done|]. simplify_eq/=.
  assert (al_page_size st1 = al_page_size st) as -> by apply maybe_merge_same.
  apply take_fresh_inv; [done|].
  destruct (held_fresh _ _ _ _ (Z.to_nat k) Hi1) as (Hnd & Hdis & _ & _).
  set (fresh := take _ _) in *.
  assert (Hpg : ∀ x, x ∈ page_list (al_page_size st) (expand_pages (al_page_size st) fresh)
    ↔ x ∈ fresh).
  { intros y. rewrite <-(elem_of_torch_unique y fresh), <-expand_pages_pages by done.
    by rewrite elem_of_torch_unique. }
  apply new_pages_fresh; [done..| |].
  - intros y Hy. left. by apply Hpg.
  - intros y Hy. by apply Hpg.
Qed.

(** The core of [alloc_extend] and [alloc_decode]. *)
Lemma extend_core size ps st live pres seqs lasts :
  0 < ps → paged_inv size ps (st, live) → extend_call ps live pres seqs lasts →
  page_start ps seqs pres (length pres) ≤ Z.of_nat (length (free_pages st)) →
  let out := batch_spec ps pres seqs lasts (load_or junk (free_pages st)) in
  NoDup out ∧
  paged_inv size ps
    (set_free_pages st (drop (Z.to_nat (page_start ps seqs pres (length pres))) (free_pages st)),
     live ++ new_pages ps live out).
Proof.
  intros Hps Hi [HB Hal Hown Hlive] Hlen out.
  assert (out = batch_spec ps pres seqs lasts (λ j, nthZ (free_pages st) j 0)) as ->.
  { apply (batch_spec_ext ps pres seqs lasts Hps HB). intros j Hj. unfold load_or.
    destruct (Z.leb_spec 0 j), (Z.ltb_spec j (Z.of_nat (length (free_pages st)))); (done || lia). }
  set (n := Z.to_nat (page_start ps seqs pres (length pres))).
  destruct (held_fresh _ _ _ _ n Hi) as (Hnd & Hdis & Hlf & Hnf).
  assert (HP : pages_ok ps pres seqs lasts (free_pages st)) by (split; eauto).
  split; [by apply batch_spec_NoDup|].
  apply take_fresh_inv; [done|]. apply new_pages_fresh; [done..| |].
  - intros x (y & -> & Hy)%list_elem_of_fmap.
    apply (batch_spec_pages ps pres seqs lasts (free_pages st) Hps HB HP Hlen) in Hy
      as [Hy|(i & p & l & Hp & Hl & Hm & ->)]; [by left|right; eauto].
  - intros x (k & Hk)%list_elem_of_lookup. apply lookup_take_Some in Hk as [Hk Hkn].
    destruct (fresh_page_used ps pres seqs lasts (λ j, nthZ (free_pages st) j 0) (Z.of_nat k))
      as (y & Hy & Hyk); [done..|subst n; lia|].
    apply list_elem_of_fmap. exists y. split; [|done]. rewrite Hyk. unfold nthZ.
    by rewrite Nat2Z.id, (nth_lookup_Some _ _ _ _ Hk).
Qed.

Lemma paged_extend_inv size ps st live pres seqs lasts out st' :
  0 < ps → paged_inv size ps (st, live) → extend_call ps live pres seqs lasts →
  paged_alloc_extend junk grid st pres seqs lasts
    (out_start seqs pres (length pres)) None = Ok (Some out, st') →
  NoDup out ∧ paged_inv size ps (st', live ++ new_pages ps live out).
Proof.
  intros Hps Hi Hc Ha. pose proof (ec_batch _ _ _ _ _ Hc) as HB.
  unfold paged_alloc_extend in Ha.
  rewrite get_num_new_pages_extend, (eb_seqs _ _ _ HB), Nat.min_id in Ha.
  inv_ok. cbn zeta in *.
  destruct Hi as (Hsz & Hpsz & Hp). cbn in Hpsz. rewrite Hpsz in *.
  set (st1 := maybe_merge st _) in *.
  assert (Hi1 : paged_inv size ps (st1, live)) by (by apply maybe_merge_inv).
  match type of Ha with (if _ <? ?n then _ else _) = _ =>
    destruct (Z.ltb_spec (Z.of_nat (length (free_pages st1))) n) as [|Hlen]; [done|] end.
  simplify_eq.
  rewrite (grid_any_order (al_page_size st) pres seqs lasts Hps HB).
  - by apply extend_core.
  - apply Hgrid.
  - rewrite length_fmap, length_arange. pose proof (out_start_nonneg _ _ _ HB (length pres)).
    lia.
Qed.

(** The slots of a successful extension. *)
Lemma paged_extend_out st pres seqs lasts out st' :
  0 < al_page_size st → extend_batch pres seqs lasts →
  paged_alloc_extend junk grid st pres seqs lasts
    (out_start seqs pres (length pres)) None = Ok (Some out, st') →
  ∃ fp, out = batch_spec (al_page_size st) pres seqs lasts fp.
Proof.
  intros Hps HB Ha. unfold paged_alloc_extend in Ha. inv_ok. cbn zeta in *. case_match; [done|].
  simplify_eq. rewrite (grid_any_order (al_page_size st) pres seqs lasts Hps HB); [by eexists|apply Hgrid|].
  rewrite length_fmap, length_arange. pose proof (out_start_nonneg _ _ _ HB (length pres)). lia.
Qed.

Lemma paged_decode_inv size ps st live seqs lasts out st' :
  1 < ps → paged_inv size ps (st, live) → Forall (λ s, 1 ≤ s) seqs →
  extend_call ps live ((λ s, s - 1) <$> seqs) seqs lasts →
  paged_alloc_decode junk grid st seqs lasts = Ok (Some out, st') →
  NoDup out ∧ paged_inv size ps (st', live ++ new_pages ps live out).
Proof.
  intros Hps Hi Hseqs Hc Ha. pose proof (ec_batch _ _ _ _ _ Hc) as HB.
  pose proof Hi as (_ & Hpsz & _). cbn in Hpsz.
  unfold paged_alloc_decode in Ha. rewrite Hpsz in Ha.
  rewrite get_num_new_pages_decode in Ha by done. inv_ok. cbn zeta in *.
  set (st1 := maybe_merge st _) in *.
  assert (Hi1 : paged_inv size (al_page_size st) (st1, live)) by (by apply maybe_merge_inv).
  match type of Ha with (if _ <? ?n then _ else _) = _ =>
    destruct (Z.ltb_spec (Z.of_nat (length (free_pages st1))) n) as [|Hlen]; [done|] end.
  simplify_eq. set (pres := (λ s, s - 1) <$> seqs) in *.
  assert (Hlp : length seqs = length pres) by (subst pres; by rewrite length_fmap).
  assert (Hll : length lasts = length seqs) by (rewrite Hlp; apply HB).
  rewrite (foldl_ext_in _ (λ out pid, alloc_extend_kernel (load_or junk (free_pages st1))
    (al_page_size st) pres seqs lasts pid out)).
  2:{ intros a pid Hpid. rewrite Hgrid in Hpid. apply elem_of_seq in Hpid.
      apply alloc_decode_kernel_extend; [lia|done|done|lia]. }
  rewrite Hlp in Hlen |- *.
  rewrite (grid_any_order (al_page_size st) pres seqs lasts ltac:(lia) HB).
  - apply extend_core; (done || lia).
  - apply Hgrid.
  - rewrite length_fmap, length_arange, <-Hlp.
    subst pres. rewrite decode_out_start by done. lia.
Qed.

Lemma paged_free_inv size ps st live idx live' st' :
  paged_inv size ps (st, live) → live ≡ₚ torch_unique (page_list ps idx) ++ live' →
  paged_free st idx = Ok st' → paged_inv size ps (st', live').
Proof.
  intros (Hsz & Hpsz & Hp) Hl Hf. cbn [fst snd] in *. unfold paged_free in Hf.
  destruct (Z.eqb_spec (Z.of_nat (length idx)) 0) as [Hz|_].
  { simplify_eq. destruct idx; [|simpl in *; lia]. split_and!; [done..|]. cbn [fst snd].
    cbn in Hl. by rewrite <-Hl. }
  rewrite Hpsz in Hf. fold (page_list ps idx) in Hf. inv_ok.
  destruct (is_not_in_free_group st) eqn:Eg; [destruct (need_sort st) eqn:Es|].
  - split_and!; [done..|]. cbn [fst snd]. unfold held in *. cbn.
    change (pending_pages (set_release_pages st _)) with (pending_pages st). solve_perm.
  - split_and!; [done..|]. cbn [fst snd]. unfold held in *. cbn.
    change (pending_pages (set_free_pages st _)) with (pending_pages st). solve_perm.
  - split_and!; [done..|]. cbn [fst snd]. set (ps := al_page_size st) in *.
    change (held (set_group st _ _)) with (held st).
    assert (pending_pages (set_group st false (free_group st ++ [idx])) ≡ₚ
      pending_pages st ++ torch_unique (page_list ps idx)) as ->; [|solve_perm].
    unfold pending_pages, pending. cbn. rewrite Eg, concat_app. cbn. rewrite app_nil_r.
    fold ps. unfold page_list. rewrite fmap_app. apply torch_unique_app.
    intros x Hx1 Hx2.
    assert (Hu1 : x ∈ pending_pages st).
    { unfold pending_pages, pending. rewrite Eg. by apply elem_of_torch_unique. }
    assert (Hu2 : x ∈ torch_unique (page_list ps idx)) by (by apply elem_of_torch_unique).
    pose proof (NoDup_arange 1 (al_size st / ps + 1)) as Hnd. rewrite <-Hp, Hl in Hnd.
    apply NoDup_app in Hnd as (_ & _ & Hnd). apply NoDup_app in Hnd as (_ & Hd & _).
    apply (Hd x Hu1). set_solver.
Qed.

Lemma paged_group_end_inv size ps st live st' :
  paged_inv size ps (st, live) → is_not_in_free_group st = false →
  free_group_end paged_free st = Ok st' → paged_inv size ps (st', live).
Proof.
  intros (Hsz & Hpsz & Hp) Hg Hf. unfold free_group_end in Hf. cbn in Hf.
  set (st1 := set_group st true (free_group st)) in *.
  destruct (free_group st) as [|g gs] eqn:Eg.
  { simplify_eq. split_and!; [done..|]. cbn [fst snd] in *.
    unfold pending_pages, pending in Hp. rewrite Hg, Eg in Hp. done. }
  assert (Hi1 : paged_inv size ps (st1, pending_pages st ++ live)).
  { split_and!; [done..|]. cbn [fst snd] in *.
    change (held st1) with (held st). rewrite <-Hp. done. }
  eapply paged_free_inv; [exact Hi1| |exact Hf].
  cbn in Hpsz. unfold pending_pages, pending. rewrite Hg, Eg, Hpsz. done.
Qed.

Lemma paged_step_inv size ps s s' :
  1 < ps → paged_step s s' → paged_inv size ps s → paged_inv size ps s'.
Proof.
  intros Hps Hs Hi. pose proof Hi as (_ & Hpsz & _).
  destruct Hs as [st live n out st' Ha|st live n st' Ha|st live pres seqs lasts out st' Hc Ha
    |st live pres seqs lasts n m st' Ha|st live seqs lasts out st' Hq Hc Ha
    |st live seqs lasts st' Ha|st live idx live' st' Hl Ha|st live Hg|st live st' Hg Ha|st live];
    cbn in Hpsz; rewrite ?Hpsz in *.
  - eapply paged_alloc_inv; (done || lia).
  - unfold paged_alloc in Ha. inv_ok. cbn zeta in *.
    match type of Ha with (if ?b then _ else _) = _ => destruct b end; simplify_eq.
    by apply maybe_merge_inv.
  - eapply paged_extend_inv; (done || lia).
  - unfold paged_alloc_extend in Ha. inv_ok. cbn zeta in *.
    match type of Ha with (if ?b then _ else _) = _ => destruct b end; simplify_eq.
    by apply maybe_merge_inv.
  - eapply paged_decode_inv; (done || lia).
  - unfold paged_alloc_decode in Ha. inv_ok. cbn zeta in *.
    match type of Ha with (if ?b then _ else _) = _ => destruct b end; simplify_eq.
    by apply maybe_merge_inv.
  - by eapply paged_free_inv.
  - destruct Hi as (? & ? & Hp). split_and!; [done..|]. rewrite <-Hp. cbn [fst snd].
    unfold pending_pages, pending. cbn. by rewrite Hg.
  - by eapply paged_group_end_inv.
  - destruct Hi as (Hsz & ? & _). split_and!; [done..|]. cbn in *.
    unfold held, pending_pages, pending, num_pages. cbn. rewrite app_nil_r, Hsz, Hpsz.
    by rewrite app_nil_r.
Qed.

Lemma paged_init_inv size ps ns dbg : paged_inv size ps (paged_init size ps ns dbg, []).
Proof.
  split_and!; [done..|]. unfold held, pending_pages, pending, paged_init, num_pages. cbn.
  by rewrite !app_nil_r.
Qed.

Lemma paged_reach_inv size ps ns dbg s :
  1 < ps → rtc paged_step (paged_init size ps ns dbg, []) s → paged_inv size ps s.
Proof.
  intros Hps Hr. pose proof (paged_init_inv size ps ns dbg) as Hi.
  induction Hr; eauto using paged_step_inv.
Qed.
End paged.
