(* ===== verification/SwaAllocator.v ===== *)
(** The allocators for sliding-window attention of mem_cache/allocator/swa.py:
    class [SWATokenToKVPoolAllocator], which pairs every slot of the full pool with
    one of the window pool through an index mapping, and class
    [PureSWATokenToKVPoolAllocator] for models whose layers all slide.  The
    invariant of the token-granular pair: every slot of either pool has exactly
    one owner, and the mapping is positive only on slots in use. *)

From stdpp Require Import base gmap list relations.
From Stdlib Require Import ZArith Lia.
From S2P Require Import Prelude.
From S2P Require Import Allocator.
From S2P Require Import AllocKernel.
From S2P Require Import AllocatorInv.

Open Scope Z_scope.

(** ** SWATokenToKVPoolAllocator *)

Record SwaAlloc := mkSwa {
  sw_size_full : Z;
  sw_size_swa : Z;
  sw_page_size : Z;
  full_attn : Allocator;
  swa_attn : Allocator;
  (** one entry per slot of the full pool, and -1 at the end *)
  full_to_swa : list Z;
  sw_not_in_group : bool;
  sw_group : list (list Z);
}.

Definition set_allocs (f w : Allocator) (m : list Z) (st : SwaAlloc) : SwaAlloc :=
  mkSwa (sw_size_full st) (sw_size_swa st) (sw_page_size st) f w m (sw_not_in_group st) (sw_group st).
Definition set_swa_group (b : bool) (g : list (list Z)) (st : SwaAlloc) : SwaAlloc :=
  mkSwa (sw_size_full st) (sw_size_swa st) (sw_page_size st) (full_attn st) (swa_attn st)
    (full_to_swa st) b g.

(** [m[i]] and [m[i] = v] on a tensor: negative indices count from the end. *)
Definition tensor_index {A} (m : list A) (i : Z) : option nat :=
  let i := if i <? 0 then i + Z.of_nat (length m) else i in
  if (0 <=? i) && (i <? Z.of_nat (length m)) then Some (Z.to_nat i) else None.

Fixpoint tensor_gather {A} (m : list A) (idx : list Z) : result (list A) :=
  match idx with
  | [] => Ok []
  | i :: idx =>
      let! k := of_option IndexError (tensor_index m i) in
      let! x := of_option IndexError (m !! k) in
      let! xs := tensor_gather m idx in
      Ok (x :: xs)
  end.

Fixpoint tensor_scatter {A} (m : list A) (ivs : list (Z * A)) : result (list A) :=
  match ivs with
  | [] => Ok m
  | (i, v) :: ivs =>
      let! k := of_option IndexError (tensor_index m i) in
      tensor_scatter (<[k := v]> m) ivs
  end.

Section swa.
(** What kernels read past the free list, and the order of their programs. *)
Context (junk : Z → Z) (grid : nat → list nat).

(** The methods of the two inner allocators: token-granular for pages of one
    token, paged otherwise. *)
Definition inner_clear (page_size : Z) : Allocator → Allocator :=
  if page_size =? 1 then token_clear else paged_clear.
Definition inner_available (page_size : Z) : Allocator → Z :=
  if page_size =? 1 then token_available_size else base_available_size.
Definition inner_free (page_size : Z) : Allocator → list Z → result Allocator :=
  if page_size =? 1 then token_free else paged_free.

Definition swa_clear (st : SwaAlloc) : SwaAlloc :=
  let n := (length (full_to_swa st) - 1)%nat in
  set_swa_group true []
    (set_allocs (inner_clear (sw_page_size st) (full_attn st)) (inner_clear (sw_page_size st) (swa_attn st))
      (replicate n 0 ++ drop n (full_to_swa st)) st).

Definition swa_init (size size_swa page_size : Z) (need_sort debug_mode : bool) : SwaAlloc :=
  let inner n :=
    if page_size =? 1 then token_init n need_sort else paged_init n page_size need_sort debug_mode in
  swa_clear (mkSwa size size_swa page_size (inner size) (inner size_swa)
    (replicate (Z.to_nat (size + page_size)) 0 ++ [-1]) true []).

Definition full_available_size (st : SwaAlloc) : Z := inner_available (sw_page_size st) (full_attn st).
Definition swa_available_size (st : SwaAlloc) : Z := inner_available (sw_page_size st) (swa_attn st).
Definition swa_pair_available_size (st : SwaAlloc) : Z :=
  Z.min (full_available_size st) (swa_available_size st).

Definition translate_loc_from_full_to_swa (st : SwaAlloc) (kv_indices : list Z) : result (list Z) :=
  tensor_gather (full_to_swa st) kv_indices.

Definition set_full_to_swa_mapping (full_indices swa_indices : list Z) (st : SwaAlloc)
    : result SwaAlloc :=
  if (length full_indices =? 0)%nat then Ok st
  else
    let! _ := py_assert (length full_indices =? length swa_indices)%nat in
    let! m := tensor_scatter (full_to_swa st) (zip full_indices swa_indices) in
    Ok (set_allocs (full_attn st) (swa_attn st) m st).

Definition swa_alloc (st : SwaAlloc) (need_size : Z) : result (option (list Z) * SwaAlloc) :=
  let! _ := py_assert (sw_page_size st =? 1) in
  if full_available_size st <? need_size then Ok (None, st)
  else if swa_available_size st <? need_size then Ok (None, st)
  else
    let '(alloc_full_indices, f) := token_alloc (full_attn st) need_size in
    let '(alloc_swa_indices, w) := token_alloc (swa_attn st) need_size in
    let! fi := of_option AssertionError alloc_full_indices in
    let! wi := of_option AssertionError alloc_swa_indices in
    let! st := set_full_to_swa_mapping fi wi (set_allocs f w (full_to_swa st) st) in
    Ok (Some fi, st).

Definition new_pages_available (st : SwaAlloc) (num_full_pages num_swa_pages : Z) : bool :=
  (num_full_pages <=? full_available_size st / sw_page_size st) &&
  (num_swa_pages <=? swa_available_size st / sw_page_size st).

Definition swa_alloc_extend (st : SwaAlloc) (prefix_lens seq_lens last_loc : list Z)
    (extend_num_tokens : Z) : result (option (list Z) * SwaAlloc) :=
  let! _ := py_assert (1 <? sw_page_size st) in
  let! num_new_pages := get_num_new_pages seq_lens (sw_page_size st) (Some prefix_lens) false in
  if negb (new_pages_available st num_new_pages num_new_pages) then Ok (None, st)
  else
    let! swa_last_loc := translate_loc_from_full_to_swa st last_loc in
    let! (alloc_full_indices, f) := paged_alloc_extend junk grid (full_attn st) prefix_lens seq_lens
      last_loc extend_num_tokens (Some num_new_pages) in
    let! (alloc_swa_indices, w) := paged_alloc_extend junk grid (swa_attn st) prefix_lens seq_lens
      swa_last_loc extend_num_tokens (Some num_new_pages) in
    let! fi := of_option AssertionError alloc_full_indices in
    let! wi := of_option AssertionError alloc_swa_indices in
    let! st := set_full_to_swa_mapping fi wi (set_allocs f w (full_to_swa st) st) in
    Ok (Some fi, st).

(** Full slots for the whole extension, window slots for its tail only. *)
Definition swa_alloc_extend_swa_tail (st : SwaAlloc) (prefix_lens seq_lens last_loc : list Z)
    (extend_num_tokens swa_tail_len : Z) : result (option (list Z) * SwaAlloc) :=
  let! _ := py_assert (1 <? sw_page_size st) in
  let! _ := py_assert (length seq_lens =? 1)%nat in
  let! _ := py_assert (length prefix_lens =? 1)%nat in
  let! _ := py_assert ((0 <=? swa_tail_len) && (swa_tail_len <=? extend_num_tokens)) in
  let! num_full_pages := get_num_new_pages seq_lens (sw_page_size st) (Some prefix_lens) false in
  let num_swa_pages := (swa_tail_len + sw_page_size st - 1) / sw_page_size st in
  if negb (new_pages_available st num_full_pages num_swa_pages) then Ok (None, st)
  else
    let! (alloc_full_indices, f) := paged_alloc_extend junk grid (full_attn st) prefix_lens seq_lens
      last_loc extend_num_tokens (Some num_full_pages) in
    let! fi := of_option AssertionError alloc_full_indices in
    let st := set_allocs f (swa_attn st) (full_to_swa st) st in
    if swa_tail_len =? 0 then Ok (Some fi, st)
    else
      let! (alloc_swa_indices, w) := paged_alloc_extend junk grid (swa_attn st) [0] [swa_tail_len] [-1]
        swa_tail_len (Some num_swa_pages) in
      let! wi := of_option AssertionError alloc_swa_indices in
      let cut := (length fi - Z.to_nat swa_tail_len)%nat in
      let! st := set_full_to_swa_mapping (drop cut fi) wi
        (set_allocs (full_attn st) w (full_to_swa st) st) in
      if swa_tail_len <? extend_num_tokens then
        let! m := tensor_scatter (full_to_swa st) ((λ i, (i, 0)) <$> take cut fi) in
        Ok (Some fi, set_allocs (full_attn st) (swa_attn st) m st)
      else Ok (Some fi, st).

Definition swa_alloc_decode (st : SwaAlloc) (seq_lens last_loc : list Z)
    : result (option (list Z) * SwaAlloc) :=
  let! _ := py_assert (1 <? sw_page_size st) in
  let! swa_last_loc := translate_loc_from_full_to_swa st last_loc in
  let! (alloc_full_indices, f) := paged_alloc_decode junk grid (full_attn st) seq_lens last_loc in
  let! (alloc_swa_indices, w) := paged_alloc_decode junk grid (swa_attn st) seq_lens swa_last_loc in
  let st := set_allocs f w (full_to_swa st) st in
  match alloc_full_indices, alloc_swa_indices with
  | Some fi, Some wi =>
      let! m := tensor_scatter (full_to_swa st) (zip fi wi) in
      Ok (Some fi, set_allocs f w m st)
  | _, _ => Ok (None, st)
  end.

Definition expand_to_full_pages (page_size : Z) (indices : list Z) : list Z :=
  expand_pages page_size (torch_unique ((λ i, i / page_size) <$> indices)).

Definition free_swa (st : SwaAlloc) (free_index : list Z) : result SwaAlloc :=
  if (length free_index =? 0)%nat then Ok st
  else
    let mapping_indices :=
      if sw_page_size st =? 1 then free_index else expand_to_full_pages (sw_page_size st) free_index in
    let! swa_indices := tensor_gather (full_to_swa st) mapping_indices in
    let! w := inner_free (sw_page_size st) (swa_attn st) (filter (λ i, 0 < i) swa_indices) in
    let! m := tensor_scatter (full_to_swa st) ((λ i, (i, 0)) <$> mapping_indices) in
    Ok (set_allocs (full_attn st) w m st).

Definition swa_free (st : SwaAlloc) (free_index : list Z) : result SwaAlloc :=
  if (length free_index =? 0)%nat then Ok st
  else
    let! st :=
      if sw_not_in_group st then
        let! f := inner_free (sw_page_size st) (full_attn st) free_index in
        free_swa (set_allocs f (swa_attn st) (full_to_swa st) st) free_index
      else Ok (set_swa_group (sw_not_in_group st) (sw_group st ++ [free_index]) st) in
    let! _ := py_assert (full_available_size st <=? al_size (full_attn st)) in
    let! _ := py_assert (swa_available_size st <=? al_size (swa_attn st)) in
    Ok st.

Definition swa_group_begin (st : SwaAlloc) : SwaAlloc := set_swa_group false [] st.
Definition swa_group_end (st : SwaAlloc) : result SwaAlloc :=
  let st := set_swa_group true (sw_group st) st in
  match sw_group st with [] => Ok st | _ => swa_free st (concat (sw_group st)) end.

Definition swa_backup_state (st : SwaAlloc) : (list Z * list Z) * (list Z * list Z) :=
  (backup_state (full_attn st), backup_state (swa_attn st)).
Definition swa_restore_state (st : SwaAlloc) (s : (list Z * list Z) * (list Z * list Z)) : SwaAlloc :=
  set_allocs (restore_state (full_attn st) s.1) (restore_state (swa_attn st) s.2) (full_to_swa st) st.
End swa.

(** ** PureSWATokenToKVPoolAllocator *)

(** One token allocator serves both pools; the mapping is the identity. *)
Record PureSwa := mkPure {
  pu_alloc : Allocator;
  pu_not_in_group : bool;
  pu_group : list (list Z);
}.

Definition pure_init (size_swa : Z) (need_sort : bool) : PureSwa :=
  mkPure (token_init size_swa need_sort) true [].
Definition pure_clear (st : PureSwa) : PureSwa := mkPure (token_clear (pu_alloc st)) true [].
Definition pure_available_size (st : PureSwa) : Z := token_available_size (pu_alloc st).

Definition pure_alloc (st : PureSwa) (need_size : Z) : option (list Z) * PureSwa :=
  let '(o, a) := token_alloc (pu_alloc st) need_size in
  (o, mkPure a (pu_not_in_group st) (pu_group st)).

Definition pure_free_swa (st : PureSwa) (free_index : list Z) : result PureSwa :=
  if (length free_index =? 0)%nat then Ok st
  else
    let! a := token_free (pu_alloc st) (filter (λ i, 0 < i) free_index) in
    Ok (mkPure a (pu_not_in_group st) (pu_group st)).

Definition pure_free (st : PureSwa) (free_index : list Z) : result PureSwa :=
  if (length free_index =? 0)%nat then Ok st
  else
    let! st :=
      if pu_not_in_group st then pure_free_swa st free_index
      else Ok (mkPure (pu_alloc st) (pu_not_in_group st) (pu_group st ++ [free_index])) in
    let! _ := py_assert (pure_available_size st <=? al_size (pu_alloc st)) in
    Ok st.

Definition pure_group_begin (st : PureSwa) : PureSwa := mkPure (pu_alloc st) false [].
Definition pure_group_end (st : PureSwa) : result PureSwa :=
  let st := mkPure (pu_alloc st) true (pu_group st) in
  let! st := match pu_group st with [] => Ok st | _ => pure_free st (concat (pu_group st)) end in
  Ok (mkPure (pu_alloc st) (pu_not_in_group st) []).

(** * The invariant of the token-granular pair *)

(** ** Tensor reads and writes *)

Definition in_tensor {A} (m : list A) (i : Z) : Prop := 0 ≤ i < Z.of_nat (length m).

Lemma tensor_index_in {A} (m : list A) i : in_tensor m i → tensor_index m i = Some (Z.to_nat i).
Proof.
  intros [H0 H1]. unfold tensor_index. rewrite (proj2 (Z.ltb_ge i 0) H0). cbn zeta.
  by rewrite (proj2 (Z.leb_le 0 i) H0), (proj2 (Z.ltb_lt _ _) H1).
Qed.

Lemma filter_insert (P : Z → Prop) `{∀ x, Decision (P x)} m k v w :
  m !! k = Some v → filter P m ++ filter P [w] ≡ₚ filter P [v] ++ filter P (<[k := w]> m).
Proof.
  intros Hk. rewrite <-(take_drop_middle m k v Hk) at 1.
  rewrite (insert_take_drop m k w) by (by eapply lookup_lt_Some).
  rewrite !(filter_app P), !(filter_cons P). change (filter P []) with (@nil Z).
  repeat case_decide; solve_perm.
Qed.

(** A read returns what is stored at each index. *)
Lemma gather_ok m idx :
  Forall (in_tensor m) idx →
  ∃ old, tensor_gather m idx = Ok old ∧
    ∀ v : Z, v ∈ old → ∃ i, i ∈ idx ∧ m !! Z.to_nat i = Some v.
Proof.
  induction 1 as [|i idx Hi _ (old & Hg & Ho)]; cbn [tensor_gather].
  { exists []. split; [done|]. by intros v Hv%not_elem_of_nil. }
  rewrite tensor_index_in by done. cbn.
  destruct (lookup_lt_is_Some_2 m (Z.to_nat i)) as [v Hv]; [unfold in_tensor in *; lia|].
  rewrite Hv. cbn. rewrite Hg. cbn. exists (v :: old). split; [done|].
  intros w [->|Hw]%elem_of_cons; [set_solver|]. destruct (Ho w Hw) as (j & ? & ?). set_solver.
Qed.

(** A write elsewhere does not change a read. *)
Lemma gather_insert m idx i (v : Z) :
  Forall (in_tensor m) idx → i ∉ idx → 0 ≤ i →
  tensor_gather (<[Z.to_nat i := v]> m) idx = tensor_gather m idx.
Proof.
  intros Hin Hi H0. induction Hin as [|j idx Hj _ IH]; [done|]. apply not_elem_of_cons in Hi as [Hne Hi].
  cbn [tensor_gather]. rewrite !tensor_index_in; [|done|by unfold in_tensor in *; rewrite length_insert].
  cbn. rewrite list_lookup_insert_ne by (unfold in_tensor in *; lia). by rewrite IH.
Qed.

(** A write through distinct indices in range: what is stored afterwards, and the
    balance of the entries that satisfy [P]. *)
Lemma scatter_ok (P : Z → Prop) `{∀ x, Decision (P x)} m ivs :
  NoDup ivs.*1 → Forall (in_tensor m) ivs.*1 →
  ∃ m' old, tensor_scatter m ivs = Ok m' ∧ tensor_gather m ivs.*1 = Ok old ∧
    length m' = length m ∧ (∀ k, Z.of_nat k ∉ ivs.*1 → m' !! k = m !! k) ∧
    (∀ i v, (i, v) ∈ ivs → m' !! Z.to_nat i = Some v) ∧
    filter P m ++ filter P ivs.*2 ≡ₚ filter P old ++ filter P m'.
Proof.
  revert m. induction ivs as [|[i w] ivs IH]; intros m Hnd Hin; rewrite ?fmap_cons in *;
    cbn [fst snd tensor_scatter tensor_gather] in *.
  { exists m, []. split_and!; try done; [|by rewrite app_nil_r].
    by intros ? ? ?%not_elem_of_nil. }
  apply NoDup_cons in Hnd as [Hi Hnd]. apply Forall_cons in Hin as [Hii Hin].
  rewrite tensor_index_in by done. py_run.
  destruct (lookup_lt_is_Some_2 m (Z.to_nat i)) as [v Hv]; [unfold in_tensor in *; lia|].
  destruct (IH (<[Z.to_nat i := w]> m)) as (m' & old & Hs & Hg & Hl & Hout & Hsome & Hp); [done| |].
  { eapply Forall_impl; [done|]. unfold in_tensor. intros x. by rewrite length_insert. }
  rewrite gather_insert in Hg; [|done..|apply Hii]. rewrite length_insert in Hl.
  exists m', (v :: old). rewrite Hs, Hv, Hg. py_run. split_and!; try done.
  - intros k Hk%not_elem_of_cons. rewrite Hout by tauto. apply list_lookup_insert_ne.
    unfold in_tensor in *. lia.
  - intros j u [[= -> ->]|Hj]%elem_of_cons; [|by eapply Hsome].
    rewrite Hout by (by rewrite Z2Nat.id by apply Hii).
    rewrite list_lookup_insert_eq; [done|]. unfold in_tensor in *. lia.
  - pose proof (filter_insert P m (Z.to_nat i) v w Hv) as Hq. clear -Hp Hq.
    rewrite !(filter_cons P) in *. change (filter P []) with (@nil Z) in *.
    repeat case_decide; solve_perm.
Qed.

(** ** The client's view *)

(** Slots handed back during an open free group. *)
Definition swa_pending (st : SwaAlloc) : list Z :=
  if sw_not_in_group st then [] else concat (sw_group st).

(** What a cache does with the pair: it frees slots it holds, gives up the window
    part of slots it keeps, and opens no group inside another. *)
Inductive swa_step : SwaAlloc * list Z → SwaAlloc * list Z → Prop :=
  | ss_alloc st live n o st' :
      0 ≤ n → swa_alloc st n = Ok (o, st') → swa_step (st, live) (st', live ++ default [] o)
  | ss_free st live idx live' st' :
      live ≡ₚ idx ++ live' → swa_free st idx = Ok st' → swa_step (st, live) (st', live')
  | ss_free_swa st live idx live' st' :
      live ≡ₚ idx ++ live' → free_swa st idx = Ok st' → swa_step (st, live) (st', live)
  | ss_group_begin st live :
      sw_not_in_group st = true → swa_step (st, live) (swa_group_begin st, live)
  | ss_group_end st live st' :
      sw_not_in_group st = false → swa_group_end st = Ok st' → swa_step (st, live) (st', live)
  | ss_clear st live : swa_step (st, live) (swa_clear st, []).

Record mapping_ok (size : Z) (m : list Z) (owned : list Z) : Prop := {
  mo_len : length m = S (Z.to_nat (size + 1));
  mo_last : m !! Z.to_nat (size + 1) = Some (-1);
  mo_range : ∀ k v, (k < Z.to_nat (size + 1))%nat → m !! k = Some v →
    0 ≤ v ∧ (0 < v → Z.of_nat k ∈ owned);
}.

Record swa_inv (size size_swa : Z) (s : SwaAlloc * list Z) : Prop := {
  si_page : sw_page_size s.1 = 1;
  si_full : token_inv size (full_attn s.1, swa_pending s.1 ++ s.2);
  si_swa : token_inv size_swa (swa_attn s.1, filter (λ v, 0 < v) (full_to_swa s.1));
  si_open : is_not_in_free_group (full_attn s.1) = true ∧ is_not_in_free_group (swa_attn s.1) = true;
  si_map : mapping_ok size (full_to_swa s.1) (swa_pending s.1 ++ s.2);
}.

Lemma token_free_open st idx st' :
  is_not_in_free_group st = true → token_free st idx = Ok st' → is_not_in_free_group st' = true.
Proof. unfold token_free. intros Hg Hf. rewrite Hg in Hf. by repeat case_match; simplify_eq/=. Qed.

Lemma token_free_total st idx : ∃ st', token_free st idx = Ok st'.
Proof. unfold token_free. repeat case_match; eauto. Qed.

Lemma token_inv_available size st live : 0 ≤ size → token_inv size (st, live) → token_available_size st ≤ al_size st.
Proof.
  intros H0 (Hsz & Hp & _). cbn in *. apply Permutation_length in Hp. revert Hp.
  unfold held, token_available_size. rewrite !length_app, length_arange. lia.
Qed.

(** The slots of a pair lie in the mapping. *)
Lemma owned_in_tensor size m owned idx :
  mapping_ok size m owned → (∀ x, x ∈ idx → 1 ≤ x < size + 1) → Forall (in_tensor m) idx.
Proof.
  intros Hm Hr. apply Forall_forall. intros x Hx. specialize (Hr x Hx).
  unfold in_tensor. rewrite (mo_len _ _ _ Hm). lia.
Qed.

(** Overwriting entries of owned slots. *)
Lemma mapping_ok_scatter size m owned ivs m' owned' :
  mapping_ok size m owned → (∀ x, x ∈ ivs.*1 → 1 ≤ x < size + 1) →
  length m' = length m → (∀ k, Z.of_nat k ∉ ivs.*1 → m' !! k = m !! k) →
  (∀ i v, (i, v) ∈ ivs → m' !! Z.to_nat i = Some v ∧ 0 ≤ v ∧ (0 < v → i ∈ owned')) →
  (∀ x, x ∈ owned → x ∈ ivs.*1 ∨ x ∈ owned') →
  mapping_ok size m' owned'.
Proof.
  intros [Hlen Hlast Hrange] Hr Hl Hout Hin Hsub. split; [congruence| |].
  - rewrite Hout; [done|]. intros Hx%Hr. lia.
  - intros k v Hk Hv. destruct (decide (Z.of_nat k ∈ ivs.*1)) as [Hx|Hx].
    + pose proof Hx as ([i w] & Hi & Hiw)%list_elem_of_fmap. cbn in Hi. subst i.
      apply Hin in Hiw as (Hw & H0 & Ho). rewrite Nat2Z.id in Hw. simplify_eq. done.
    + rewrite Hout in Hv by done. apply Hrange in Hv as [H0 Ho]; [|done].
      split; [done|]. intros Hp. destruct (Hsub _ (Ho Hp)); [done|done].
Qed.

Lemma fst_zeros (idx : list Z) : ((λ i, (i, 0)) <$> idx).*1 = idx.
Proof. induction idx; csimpl; congruence. Qed.

Lemma filter_pos_zeros (idx : list Z) : filter (λ v, 0 < v) ((λ i, (i, 0)) <$> idx).*2 = [].
Proof. induction idx as [|i idx IH]; [done|]. rewrite !fmap_cons, filter_cons. by case_decide. Qed.

(** Giving back the window part of slots never fails. *)
Lemma free_swa_ok size size_swa st owned idx :
  sw_page_size st = 1 →
  token_inv size_swa (swa_attn st, filter (λ v, 0 < v) (full_to_swa st)) →
  is_not_in_free_group (swa_attn st) = true →
  mapping_ok size (full_to_swa st) owned → NoDup idx → (∀ x, x ∈ idx → 1 ≤ x < size + 1) →
  ∃ w m, free_swa st idx = Ok (set_allocs (full_attn st) w m st) ∧
    token_inv size_swa (w, filter (λ v, 0 < v) m) ∧ is_not_in_free_group w = true ∧
    ∀ owned', (∀ x, x ∈ owned → x ∈ idx ∨ x ∈ owned') → mapping_ok size m owned'.
Proof.
  intros Hps Hti Hop Hm Hnd Hr. unfold free_swa. destruct idx as [|i0 idx0] eqn:Ei.
  { exists (swa_attn st), (full_to_swa st). split_and!; [by destruct st|done..|].
    intros owned' Hs. destruct Hm as [? ? Hv]. split; [done..|]. intros k v Hk Hl.
    destruct (Hv k v Hk Hl) as [? Ho]. split; [done|]. intros Hp. set_solver. }
  rewrite <-Ei in *. rewrite (proj2 (Nat.eqb_neq _ _)) by (by rewrite Ei). clear i0 idx0 Ei.
  rewrite Hps. cbn -[tensor_gather filter].
  destruct (scatter_ok (λ v, 0 < v) (full_to_swa st) ((λ i, (i, 0)) <$> idx))
    as (m' & old & Hs & Hg & Hl & Hout & Hin & Hp); rewrite ?fst_zeros in *; [done|by eapply owned_in_tensor|].
  rewrite filter_pos_zeros, app_nil_r in Hp. rewrite Hg. py_run.
  destruct (token_free_total (swa_attn st) (filter (λ v, 0 < v) old)) as [w Hw].
  unfold inner_free. cbn [Z.eqb Pos.eqb]. rewrite Hw, Hs. py_run. exists w, m'. split_and!; [done| | |].
  - eapply token_step_inv; [eapply ts_free; [exact Hp|exact Hw]|exact Hti].
  - by eapply token_free_open.
  - intros owned' Hsub.
    apply (mapping_ok_scatter size (full_to_swa st) owned ((λ i, (i, 0)) <$> idx)); rewrite ?fst_zeros; try done.
    intros i v Hi. split; [by apply Hin|]. apply list_elem_of_fmap in Hi as (? & [= -> ->] & _). done.
Qed.

Lemma swa_inv_owned size size_swa st live :
  swa_inv size size_swa (st, live) →
  NoDup (swa_pending st ++ live) ∧ (∀ x, x ∈ swa_pending st ++ live → 1 ≤ x < size + 1) ∧
  ∀ x, x ∈ swa_pending st ++ live → x ∉ held (full_attn st).
Proof. intros [_ (_ & Hp & _) _ _ _]. by eapply partition_safe. Qed.

(** Freeing slots the client holds never fails. *)
Lemma swa_free_ok size size_swa st live idx live' :
  0 ≤ size → 0 ≤ size_swa → swa_inv size size_swa (st, live) → live ≡ₚ idx ++ live' →
  ∃ st', swa_free st idx = Ok st' ∧ swa_inv size size_swa (st', live').
Proof.
  intros H0 H0' Hi Hl. destruct (swa_inv_owned _ _ _ _ Hi) as (Hnd & Hr & _).
  destruct Hi as [Hps Hfull Hswa [Hof Hos] Hm]. cbn in *. unfold swa_free.
  destruct idx as [|i0 idx0] eqn:Ei.
  { exists st. split; [done|]. cbn in Hl. split; cbn; try done; [|].
    - destruct Hfull as (? & Hp & ?). split_and!; [done| |done]. cbn in *. by rewrite <-Hl.
    - destruct Hm as [? ? Hv]. split; [done..|]. by setoid_rewrite <-Hl. }
  rewrite <-Ei in *. rewrite (proj2 (Nat.eqb_neq _ _)) by (by rewrite Ei). clear i0 idx0 Ei.
  setoid_rewrite Hl in Hr. rewrite Hl in Hnd. apply NoDup_app in Hnd as (_ & _ & Hnd). apply NoDup_app in Hnd as (Hndi & _ & _).
  unfold full_available_size, swa_available_size, inner_available, inner_free. rewrite Hps. cbn [Z.eqb Pos.eqb].
  destruct (sw_not_in_group st) eqn:Eg.
  - destruct (token_free_total (full_attn st) idx) as [f Hf]. rewrite Hf. py_run.
    assert (Hfi : token_inv size (f, live')).
    { eapply token_step_inv; [eapply ts_free; [|exact Hf]|exact Hfull]. unfold swa_pending. by rewrite Eg. }
    destruct (free_swa_ok size size_swa (set_allocs f (swa_attn st) (full_to_swa st) st)
      (swa_pending st ++ live) idx) as (w & m & -> & Hwi & Hwo & Hmi); try done.
    { intros x Hx. apply Hr. set_solver. }
    cbn. rewrite Hps. cbn [Z.eqb Pos.eqb].
    rewrite (proj2 (Z.leb_le _ _) (token_inv_available _ _ _ H0 Hfi)).
    rewrite (proj2 (Z.leb_le _ _) (token_inv_available _ _ _ H0' Hwi)). py_run.
    eexists. split; [done|]. split; unfold swa_pending in *; cbn; rewrite ?Eg in *; try done.
    + split; [exact (token_free_open _ _ _ Hof Hf)|done].
    + apply Hmi. intros x Hx. cbn in *. rewrite Hl in Hx. set_solver.
  - py_run. unfold set_swa_group. cbn. rewrite Hps. cbn [Z.eqb Pos.eqb].
    rewrite (proj2 (Z.leb_le _ _) (token_inv_available _ _ _ H0 Hfull)).
    rewrite (proj2 (Z.leb_le _ _) (token_inv_available _ _ _ H0' Hswa)). py_run.
    eexists. split; [done|].
    assert (Hperm : concat (sw_group st ++ [idx]) ++ live' ≡ₚ concat (sw_group st) ++ live).
    { rewrite concat_app, Hl. cbn. by rewrite app_nil_r, <-app_assoc. }
    split; unfold swa_pending in *; cbn; rewrite ?Eg in *; try done.
    + destruct Hfull as (? & Hp & ?). split_and!; [done| |done]. cbn in *. by rewrite Hperm.
    + destruct Hm as [? ? Hv]. split; [done..|]. by setoid_rewrite Hperm.
Qed.

Lemma swa_group_end_ok size size_swa st live :
  0 ≤ size → 0 ≤ size_swa → swa_inv size size_swa (st, live) → sw_not_in_group st = false →
  ∃ st', swa_group_end st = Ok st' ∧ swa_inv size size_swa (st', live).
Proof.
  intros H0 H0' Hi Hg. unfold swa_group_end. cbn -[swa_free].
  assert (Hi' : swa_inv size size_swa (set_swa_group true (sw_group st) st, concat (sw_group st) ++ live)).
  { destruct Hi as [? Hf ? ? Hm]. unfold swa_pending in *. cbn in *. rewrite Hg in *. by split. }
  destruct (swa_free_ok _ _ _ _ (concat (sw_group st)) live H0 H0' Hi' (reflexivity _)) as (st' & Hf & Hi2).
  destruct (sw_group st) as [|g gs] eqn:Eg; [|by exists st'].
  eexists. split; [done|]. exact Hi2.
Qed.

Lemma set_mapping_scatter fi wi st :
  length fi = length wi →
  set_full_to_swa_mapping fi wi st =
    let! m := tensor_scatter (full_to_swa st) (zip fi wi) in
    Ok (set_allocs (full_attn st) (swa_attn st) m st).
Proof.
  intros Hl. unfold set_full_to_swa_mapping. destruct fi as [|i fi].
  - by destruct st.
  - rewrite <-Hl, Nat.eqb_refl. done.
Qed.

Lemma filter_pos_id (l : list Z) hi : (∀ x, x ∈ l → 1 ≤ x < hi) → filter (λ v, 0 < v) l = l.
Proof.
  induction l as [|x l IH]; intros Hl; [done|]. rewrite filter_cons, decide_True by (pose proof (Hl x); set_solver by lia).
  rewrite IH; [done|set_solver].
Qed.

(** Pairing fresh slots of the two pools. *)
Lemma pair_fresh size hi m owned fi wi :
  mapping_ok size m owned → NoDup fi → length fi = length wi →
  (∀ x, x ∈ fi → 1 ≤ x < size + 1 ∧ x ∉ owned) → (∀ v, v ∈ wi → 1 ≤ v < hi) →
  ∃ m', tensor_scatter m (zip fi wi) = Ok m' ∧
    filter (λ v, 0 < v) m ++ wi ≡ₚ filter (λ v, 0 < v) m' ∧ mapping_ok size m' (owned ++ fi) ∧
    ∀ x, x ∈ fi → ∃ v, m' !! Z.to_nat x = Some v ∧ v ∈ wi.
Proof.
  intros Hm Hnd Hlen Hfi Hwi.
  assert (Hz1 : (zip fi wi).*1 = fi) by (apply fst_zip; lia).
  assert (Hz2 : (zip fi wi).*2 = wi) by (apply snd_zip; lia).
  assert (Hin : Forall (in_tensor m) fi) by (eapply owned_in_tensor; [done|naive_solver]).
  destruct (scatter_ok (λ v, 0 < v) m (zip fi wi)) as (m' & old & Hs & Hg & Hl & Hout & Hst & Hp);
    rewrite ?Hz1, ?Hz2 in *; [done..|]. exists m'.
  assert (Hzip : ∀ i v, (i, v) ∈ zip fi wi → i ∈ fi ∧ v ∈ wi).
  { intros i v Hiv. split; [rewrite <-Hz1|rewrite <-Hz2]; apply list_elem_of_fmap; by exists (i, v). }
  split_and!; [done| | |].
  - rewrite (filter_pos_id wi hi Hwi) in Hp. rewrite Hp.
    assert (filter (λ v, 0 < v) old = []) as ->; [|done].
    destruct (gather_ok m fi Hin) as (old' & Hg' & Hold). rewrite Hg in Hg'. simplify_eq.
    apply elem_of_nil_inv. intros v [Hpos Hv]%list_elem_of_filter. destruct (Hold v Hv) as (i & Hi & Hiv).
    destruct (Hfi i Hi) as [Hr Ho]. destruct (mo_range _ _ _ Hm (Z.to_nat i) v) as [_ Hown]; [lia|done|].
    apply Ho. rewrite <-(Z2Nat.id i) by lia. auto.
  - apply (mapping_ok_scatter size m owned (zip fi wi)); rewrite ?Hz1; try done; [naive_solver| |set_solver].
    intros i v Hiv. destruct (Hzip i v Hiv) as [Hi Hv]. specialize (Hwi v Hv). split; [by apply Hst|].
    split; [lia|set_solver].
  - intros x Hx. rewrite <-Hz1 in Hx. apply list_elem_of_fmap in Hx as ([i v] & -> & Hiv).
    exists v. split; [by apply Hst|by eapply Hzip].
Qed.

(** An allocation takes as many slots of either pool or none, and never fails. *)
Lemma swa_alloc_ok size size_swa st live n :
  0 ≤ n → swa_inv size size_swa (st, live) →
  ∃ o st', swa_alloc st n = Ok (o, st') ∧ swa_inv size size_swa (st', live ++ default [] o) ∧
    (o = None ↔ swa_pair_available_size st < n) ∧
    ∀ sel, o = Some sel → Z.of_nat (length sel) = n ∧
      ∀ x, x ∈ sel → ∃ v, full_to_swa st' !! Z.to_nat x = Some v ∧ 1 ≤ v < size_swa + 1.
Proof.
  intros Hn Hi. destruct (swa_inv_owned _ _ _ _ Hi) as (_ & _ & Hheld). pose proof Hi as [Hps Hfull Hswa [Hof Hos] Hm].
  cbn in *. unfold swa_alloc, swa_pair_available_size, full_available_size, swa_available_size, inner_available.
  rewrite Hps. cbn [Z.eqb Pos.eqb py_assert rbind].
  destruct (Z.ltb_spec (token_available_size (full_attn st)) n) as [?|Ha].
  { exists None, st. cbn. rewrite app_nil_r. split_and!; [done..|split; [lia|done]|done]. }
  destruct (Z.ltb_spec (token_available_size (swa_attn st)) n) as [?|Hb].
  { exists None, st. cbn. rewrite app_nil_r. split_and!; [done..|split; [lia|done]|done]. }
  destruct (token_alloc (full_attn st) n) as [[fi|] f] eqn:Ef.
  2:{ apply token_alloc_None in Ef; [lia|apply Hfull]. }
  destruct (token_alloc (swa_attn st) n) as [[wi|] w] eqn:Ew.
  2:{ apply token_alloc_None in Ew; [lia|apply Hswa]. }
  py_run.
  pose proof (token_alloc_Some _ _ _ _ Hn Ef) as Hlf. pose proof (token_alloc_Some _ _ _ _ Hn Ew) as Hlw.
  pose proof (token_step_inv size _ _ (ts_alloc _ _ _ _ _ Ef) Hfull) as Hfull'.
  pose proof (token_step_inv size_swa _ _ (ts_alloc _ _ _ _ _ Ew) Hswa) as Hswa'. cbn in Hfull', Hswa'.
  pose proof (token_alloc_held _ _ _ _ Ef) as (Hh & _ & _ & _ & Hof').
  pose proof (token_alloc_held _ _ _ _ Ew) as (_ & _ & _ & _ & Hos'). cbn in Hh.
  destruct (partition_safe _ _ _ _ _ (proj1 (proj2 Hfull'))) as (Hnd' & Hr' & _). cbn in Hnd', Hr'.
  destruct (partition_safe _ _ _ _ _ (proj1 (proj2 Hswa'))) as (_ & Hrw & _). cbn in Hrw.
  apply NoDup_app in Hnd' as (_ & _ & Hndf).
  rewrite set_mapping_scatter by lia.
  destruct (pair_fresh size (size_swa + 1) (full_to_swa st) (swa_pending st ++ live) fi wi)
    as (m' & Hs & Hp & Hm' & Hpair); try done; [lia| |set_solver|].
  { intros x Hx. split; [set_solver|]. intros Ho. apply (Hheld x Ho). rewrite Hh. set_solver. }
  cbn -[tensor_scatter]. rewrite Hs. py_run.
  exists (Some fi). eexists. split; [done|]. cbn. split_and!; [|split; [done|lia]|].
  - rewrite <-app_assoc in Hfull', Hm'. split; cbn; try done.
    + destruct Hswa' as (? & Hq & ?). split_and!; [done| |done]. cbn. by rewrite <-Hp.
    + split; congruence.
  - intros sel [= <-]. split; [done|]. intros x Hx. destruct (Hpair x Hx) as (v & ? & ?).
    exists v. split; [done|]. set_solver.
Qed.

(** The mapping after [clear]. *)
Lemma filter_pos_cleared n : filter (λ v, 0 < v) (replicate n 0 ++ [-1]) = [].
Proof. induction n as [|n IH]; [done|]. cbn [replicate app]. rewrite filter_cons. by case_decide. Qed.

Lemma mapping_ok_cleared size : mapping_ok size (replicate (Z.to_nat (size + 1)) 0 ++ [-1]) [].
Proof.
  set (n := Z.to_nat (size + 1)). split; fold n.
  - rewrite length_app, length_replicate. cbn. lia.
  - rewrite lookup_app_r, length_replicate, Nat.sub_diag by (by rewrite length_replicate). done.
  - intros k v Hk Hv. rewrite lookup_app_l in Hv by (by rewrite length_replicate).
    apply lookup_replicate in Hv as [-> _]. lia.
Qed.

Lemma swa_cleared_inv size size_swa st :
  sw_page_size st = 1 → al_size (full_attn st) = size → al_size (swa_attn st) = size_swa →
  length (full_to_swa st) = S (Z.to_nat (size + 1)) →
  full_to_swa st !! Z.to_nat (size + 1) = Some (-1) →
  swa_inv size size_swa (swa_clear st, []).
Proof.
  intros Hps Hf Hw Hlen Hlast. set (n := Z.to_nat (size + 1)) in *.
  assert (Hc : full_to_swa (swa_clear st) = replicate n 0 ++ [-1]).
  { cbn. rewrite Hlen. cbn [Nat.sub]. rewrite Nat.sub_0_r. f_equal.
    rewrite (drop_S _ _ _ Hlast), drop_ge by lia. done. }
  assert (Ht : ∀ a, token_inv (al_size a) (token_clear a, [])).
  { intros a. split_and!; [done| |done]. unfold held, pending. cbn. by rewrite !app_nil_r. }
  split; cbn [fst snd]; rewrite ?Hc.
  - done.
  - cbn. unfold inner_clear. rewrite Hps, <-Hf. apply Ht.
  - rewrite filter_pos_cleared. cbn. unfold inner_clear. rewrite Hps, <-Hw. apply Ht.
  - cbn. unfold inner_clear. by rewrite Hps.
  - apply mapping_ok_cleared.
Qed.

Lemma swa_init_inv size size_swa ns dbg : swa_inv size size_swa (swa_init size size_swa 1 ns dbg, []).
Proof.
  pose proof (mapping_ok_cleared size) as [? ? _]. by apply swa_cleared_inv.
Qed.

Lemma swa_step_inv size size_swa s s' :
  0 ≤ size → 0 ≤ size_swa → swa_step s s' → swa_inv size size_swa s → swa_inv size size_swa s'.
Proof.
  intros H0 H0' Hs Hi.
  destruct Hs as [st live n o st' Hn Ha|st live idx live' st' Hl Hf|st live idx live' st' Hl Hf|st live Hg
    |st live st' Hg Hf|st live].
  - destruct (swa_alloc_ok _ _ _ _ _ Hn Hi) as (? & ? & ? & ? & _). by same_run.
  - destruct (swa_free_ok _ _ _ _ _ _ H0 H0' Hi Hl) as (? & ? & ?). by same_run.
  - destruct (swa_inv_owned _ _ _ _ Hi) as (Hnd & Hr & _). destruct Hi as [Hps Hfull Hswa [Hof Hos] Hm].
    cbn in *. rewrite Hl in Hnd. apply NoDup_app in Hnd as (_ & _ & Hnd). apply NoDup_app in Hnd as (Hnd & _ & _).
    destruct (free_swa_ok size size_swa st (swa_pending st ++ live) idx) as (w & m & ? & Hw & Ho & Hm'); try done.
    { intros x Hx. apply Hr. rewrite Hl. set_solver. }
    same_run. split; try done. apply Hm'. auto.
  - destruct Hi as [? ? ? ? ?]. unfold swa_pending in *. cbn in *. rewrite Hg in *. by split.
  - destruct (swa_group_end_ok _ _ _ _ H0 H0' Hi Hg) as (? & ? & ?). by same_run.
  - destruct Hi as [Hps (Hf & _) (Hw & _) _ [Hlen Hlast _]]. by apply swa_cleared_inv.
Qed.

Lemma swa_reach_inv size size_swa ns dbg s :
  0 ≤ size → 0 ≤ size_swa → rtc swa_step (swa_init size size_swa 1 ns dbg, []) s →
  swa_inv size size_swa s.
Proof.
  intros H0 H0' Hr. pose proof (swa_init_inv size size_swa ns dbg) as Hi.
  induction Hr; eauto using swa_step_inv.
Qed.
