(* ===== verification/RadixTree.v ===== *)
(** The prefix cache: classes [TreeNode] and [RadixCache] of
    src/python/sglang/srt/mem_cache/radix_cache.py with the event mixin of
    mem_cache/events.py, the session mixin of mem_cache/session_radix_cache.py,
    the eviction strategies of mem_cache/evict_policy.py and the helpers of
    mem_cache/utils.py.

    Tree nodes are objects that share references, so the model keeps a store:
    an id names a node, [nodes] holds the structural fields of every node of
    the tree and [meta] the bookkeeping fields.  A deleted leaf leaves [nodes].
    The operations follow the methods; loops carry fuel. *)

From stdpp Require Import base gmap strings list.
From Stdlib Require Import ZArith Lia.
From S2P Require Import Prelude.
From S2P Require Import PyData.
From S2P Require Import RadixKey.

Open Scope Z_scope.

(** ** Nodes *)

(** The structural fields of a [TreeNode]. *)
Record TreeNode := mkNode {
  children : list (child_key_t * nat);
  parent : option nat;
  nkey : RadixKey;
  value : option (list Z);
  lock_ref : Z;
}.

(** The bookkeeping fields of a [TreeNode]; [session_ids] is the attribute the
    session mixin adds and deletes. *)
Record NodeMeta := mkMeta {
  last_access_time : Z;
  creation_time : Z;
  hit_count : Z;
  host_ref_counter : Z;
  host_value : option (list Z);
  write_through_pending_id : option Z;
  hash_value : option (list string);
  priority : Z;
  session_ids : option (gset string);
}.

Definition evicted (nd : TreeNode) : bool :=
  match value nd with None => true | Some _ => false end.
Definition backuped (m : NodeMeta) : bool :=
  match host_value m with None => false | Some _ => true end.

Definition set_children (c : list (child_key_t * nat)) (nd : TreeNode) : TreeNode :=
  mkNode c (parent nd) (nkey nd) (value nd) (lock_ref nd).
Definition set_lock_ref (z : Z) (nd : TreeNode) : TreeNode :=
  mkNode (children nd) (parent nd) (nkey nd) (value nd) z.

Definition set_last_access_time (t : Z) (m : NodeMeta) : NodeMeta :=
  mkMeta t (creation_time m) (hit_count m) (host_ref_counter m) (host_value m)
    (write_through_pending_id m) (hash_value m) (priority m) (session_ids m).
Definition set_hit_count (h : Z) (m : NodeMeta) : NodeMeta :=
  mkMeta (last_access_time m) (creation_time m) h (host_ref_counter m) (host_value m)
    (write_through_pending_id m) (hash_value m) (priority m) (session_ids m).
Definition set_host_ref_counter (h : Z) (m : NodeMeta) : NodeMeta :=
  mkMeta (last_access_time m) (creation_time m) (hit_count m) h (host_value m)
    (write_through_pending_id m) (hash_value m) (priority m) (session_ids m).
Definition set_hash_value (h : option (list string)) (m : NodeMeta) : NodeMeta :=
  mkMeta (last_access_time m) (creation_time m) (hit_count m) (host_ref_counter m)
    (host_value m) (write_through_pending_id m) h (priority m) (session_ids m).
Definition set_priority (p : Z) (m : NodeMeta) : NodeMeta :=
  mkMeta (last_access_time m) (creation_time m) (hit_count m) (host_ref_counter m)
    (host_value m) (write_through_pending_id m) (hash_value m) p (session_ids m).
Definition set_session_ids (s : option (gset string)) (m : NodeMeta) : NodeMeta :=
  mkMeta (last_access_time m) (creation_time m) (hit_count m) (host_ref_counter m)
    (host_value m) (write_through_pending_id m) (hash_value m) (priority m) s.

(** [protect_host] and [release_host] *)
Definition protect_host (m : NodeMeta) : NodeMeta :=
  set_host_ref_counter (host_ref_counter m + 1) m.
Definition release_host (m : NodeMeta) : result NodeMeta :=
  if 0 <? host_ref_counter m then Ok (set_host_ref_counter (host_ref_counter m - 1) m)
  else Raise RuntimeError.

Definition get_last_hash_value (m : NodeMeta) : option string :=
  match hash_value m with
  | None => None
  | Some h => last h
  end.

(** ** Eviction strategies *)

Inductive EvictionStrategy :=
  | LRUStrategy | LFUStrategy | FIFOStrategy | MRUStrategy | FILOStrategy
  | PriorityStrategy | SLRUStrategy (protected_threshold : Z).

(** [get_priority]: a number, or a tuple compared lexicographically. *)
Definition get_priority (s : EvictionStrategy) (m : NodeMeta) : list Z :=
  match s with
  | LRUStrategy => [last_access_time m]
  | LFUStrategy => [hit_count m; last_access_time m]
  | FIFOStrategy => [creation_time m]
  | MRUStrategy => [- last_access_time m]
  | FILOStrategy => [- creation_time m]
  | PriorityStrategy => [priority m; last_access_time m]
  | SLRUStrategy protected_threshold =>
      let is_protected := if protected_threshold <=? hit_count m then 1 else 0 in
      [is_protected; last_access_time m]
  end.

(** The factory table of utils.py; an unknown name raises. The name is already
    lower case. *)
Definition get_eviction_strategy (policy : string) : result EvictionStrategy :=
  if decide (policy = "lru"%string) then Ok LRUStrategy
  else if decide (policy = "lfu"%string) then Ok LFUStrategy
  else if decide (policy = "fifo"%string) then Ok FIFOStrategy
  else if decide (policy = "mru"%string) then Ok MRUStrategy
  else if decide (policy = "filo"%string) then Ok FILOStrategy
  else if decide (policy = "priority"%string) then Ok PriorityStrategy
  else if decide (policy = "slru"%string) then Ok (SLRUStrategy 2)
  else Raise ValueError.

(** ** Block hashes *)

Definition hex_digit (c : Ascii.ascii) : option Z :=
  let n := Z.of_nat (Ascii.nat_of_ascii c) in
  if (48 <=? n) && (n <=? 57) then Some (n - 48)
  else if (97 <=? n) && (n <=? 102) then Some (n - 87)
  else if (65 <=? n) && (n <=? 70) then Some (n - 55)
  else None.

(** [int(s, 16)] on a string of hex digits; anything else raises. *)
Fixpoint parse_hex (acc : Z) (s : string) : result Z :=
  match s with
  | EmptyString => Ok acc
  | String c s =>
      let! d := of_option ValueError (hex_digit c) in
      parse_hex (acc * 16 + d) s
  end.

Definition hash_str_to_int64 (hash_str : string) : result Z :=
  let s := String.substring 0 16 hash_str in
  let! uint64_val := match s with EmptyString => Raise ValueError | _ => parse_hex 0 s end in
  if 2 ^ 63 <=? uint64_val then Ok (uint64_val - 2 ^ 64) else Ok uint64_val.

Definition split_node_hash_value (child_hash_value : option (list string))
    (split_len page_size : nat) : option (list string) * option (list string) :=
  match child_hash_value with
  | None => (None, None)
  | Some h =>
      let split_pages := if (page_size =? 1)%nat then split_len else (split_len / page_size)%nat in
      (Some (take split_pages h), Some (drop split_pages h))
  end.

(** ** Events *)

Inductive StorageMedium := GPU | CPU.

Inductive KVEvent :=
  | BlockStored (block_hashes : list Z) (parent_block_hash : option Z)
      (page_tokens : list key_unit) (block_size : nat) (medium : StorageMedium)
  | BlockRemoved (block_hashes : list Z) (medium : StorageMedium)
  | AllBlocksCleared.

(** ** State *)

(** The tree: its nodes, the class counter that names them, and the accounts
    of the cache. *)
Record Tree := mkTree {
  nodes : gmap nat TreeNode;
  root_node : nat;
  counter : nat;
  evictable_size_ : Z;
  protected_size_ : Z;
  evictable_leaves : gset nat;
}.

(** The cache: the tree, the bookkeeping fields of the nodes, the number of
    clock readings taken, the session index, the event queue and the shared
    KV allocator. *)
Record RadixCache (A : Type) := mkCache {
  tree : Tree;
  meta : gmap nat NodeMeta;
  clock : nat;
  session_leaves : gmap string (gset nat);
  closed_session_ids : list string;
  kv_event_queue : list KVEvent;
  allocator : A;
}.
Arguments mkCache {A} _ _ _ _ _ _ _.
Arguments tree {A} _.
Arguments meta {A} _.
Arguments clock {A} _.
Arguments session_leaves {A} _.
Arguments closed_session_ids {A} _.
Arguments kv_event_queue {A} _.
Arguments allocator {A} _.

(** The constructor parameters an instance keeps unchanged. *)
Record Config := mkConfig {
  disable : bool;
  page_size : nat;
  enable_kv_cache_events : bool;
  enable_session_radix_cache : bool;
  is_eagle : bool;
  disable_finished_insert : bool;
  eviction_strategy : EvictionStrategy;
}.

(** What the cache needs of the KV pool allocator: [free].  It must take back
    the slots whatever the state, see [KVPoolTotal]. *)
Class KVPool (A : Type) := kv_free : A → list Z → result A.

(** The environment: the readings of [time.monotonic()], the variable
    SGLANG_RADIX_FORCE_MISS and the native hash behind [get_hash_str]. *)
Class Env := {
  monotonic : nat → Z;
  force_miss : bool;
  get_hash_str : RadixKey → option string → nat → list string;
}.

(** Field updates. *)
Definition set_tree_nodes (t : Tree) (m : gmap nat TreeNode) : Tree :=
  mkTree m (root_node t) (counter t) (evictable_size_ t) (protected_size_ t)
    (evictable_leaves t).
Definition set_leaves (t : Tree) (s : gset nat) : Tree :=
  mkTree (nodes t) (root_node t) (counter t) (evictable_size_ t) (protected_size_ t) s.
Definition set_sizes (t : Tree) (e p : Z) : Tree :=
  mkTree (nodes t) (root_node t) (counter t) e p (evictable_leaves t).
Definition next_id (t : Tree) : Tree :=
  mkTree (nodes t) (root_node t) (S (counter t)) (evictable_size_ t) (protected_size_ t)
    (evictable_leaves t).
Definition put_node (n : nat) (nd : TreeNode) (t : Tree) : Tree :=
  set_tree_nodes t (<[n := nd]> (nodes t)).
Definition drop_node (n : nat) (t : Tree) : Tree := set_tree_nodes t (delete n (nodes t)).

Section cache_setters.
Context {A : Type}.
Implicit Types st : RadixCache A.

Definition with_tree (t : Tree) st : RadixCache A :=
  mkCache t (meta st) (clock st) (session_leaves st) (closed_session_ids st)
    (kv_event_queue st) (allocator st).
Definition with_meta (m : gmap nat NodeMeta) st : RadixCache A :=
  mkCache (tree st) m (clock st) (session_leaves st) (closed_session_ids st)
    (kv_event_queue st) (allocator st).
Definition with_clock (c : nat) st : RadixCache A :=
  mkCache (tree st) (meta st) c (session_leaves st) (closed_session_ids st)
    (kv_event_queue st) (allocator st).
Definition with_sessions (l : gmap string (gset nat)) (c : list string) st : RadixCache A :=
  mkCache (tree st) (meta st) (clock st) l c (kv_event_queue st) (allocator st).
Definition with_events (q : list KVEvent) st : RadixCache A :=
  mkCache (tree st) (meta st) (clock st) (session_leaves st) (closed_session_ids st)
    q (allocator st).
Definition with_allocator (a : A) st : RadixCache A :=
  mkCache (tree st) (meta st) (clock st) (session_leaves st) (closed_session_ids st)
    (kv_event_queue st) a.

(** Attribute access on a node; a reference always denotes an object. *)
Definition get_node st (n : nat) : result TreeNode :=
  of_option KeyError (nodes (tree st) !! n).
Definition get_meta st (n : nat) : result NodeMeta := of_option KeyError (meta st !! n).
Definition upd_meta (n : nat) (f : NodeMeta → NodeMeta) st : RadixCache A :=
  with_meta (alter f n (meta st)) st.
End cache_setters.

Definition is_root (t : Tree) (n : nat) : bool := (n =? root_node t)%nat.

(** ** Operations on the tree alone *)

(** Does some child still hold device KV? *)
Fixpoint any_resident (t : Tree) (cs : list nat) : result bool :=
  match cs with
  | [] => Ok false
  | c :: cs =>
      let! cnd := of_option KeyError (nodes t !! c) in
      if negb (evicted cnd) then Ok true else any_resident t cs
  end.

Definition update_leaf_status (t : Tree) (n : nat) : result Tree :=
  let! nd := of_option KeyError (nodes t !! n) in
  if evicted nd || (0 <? lock_ref nd) then Ok (set_leaves t (evictable_leaves t ∖ {[n]}))
  else
    let! resident := any_resident t (children nd).*2 in
    if (resident : bool) then Ok (set_leaves t (evictable_leaves t ∖ {[n]}))
    else Ok (set_leaves t (evictable_leaves t ∪ {[n]})).

(** The climb of [inc_lock_ref]. *)
Fixpoint inc_loop (fuel : nat) (t : Tree) (node : nat) (delta : Z) : result (Z * Tree) :=
  match fuel with
  | O => Raise OutOfFuel
  | S fuel =>
      if is_root t node then Ok (delta, t)
      else
        let! nd := of_option KeyError (nodes t !! node) in
        let len := Z.of_nat (key_len (nkey nd)) in
        let '(t, delta) :=
          if lock_ref nd =? 0
          then (set_sizes t (evictable_size_ t - len) (protected_size_ t + len), delta - len)
          else (t, delta) in
        let t := put_node node (set_lock_ref (lock_ref nd + 1) nd) t in
        let! t := update_leaf_status t node in
        let! p := of_option AttributeError (parent nd) in
        inc_loop fuel t p delta
  end.

(** The climb of [dec_lock_ref]; a node without a parent that is not the root
    fails the assertion. *)
Fixpoint dec_loop (fuel : nat) (t : Tree) (node : nat) (delta : Z) : result (Z * Tree) :=
  match fuel with
  | O => Raise OutOfFuel
  | S fuel =>
      if is_root t node then Ok (delta, t)
      else
        let! nd := of_option KeyError (nodes t !! node) in
        let len := Z.of_nat (key_len (nkey nd)) in
        let '(t, delta) :=
          if lock_ref nd =? 1
          then (set_sizes t (evictable_size_ t + len) (protected_size_ t - len), delta + len)
          else (t, delta) in
        let t := put_node node (set_lock_ref (lock_ref nd - 1) nd) t in
        let! t := update_leaf_status t node in
        let! p := of_option AssertionError (parent nd) in
        dec_loop fuel t p delta
  end.

(** Enough for a climb to the root: one turn per node and one for the root. *)
Definition climb_fuel (t : Tree) : nat := S (size (nodes t)).

(** The values of the resident children are summed with an explicit stack. *)
Fixpoint resident_children (t : Tree) (cs : list nat) : result (list nat) :=
  match cs with
  | [] => Ok []
  | c :: cs =>
      let! cnd := of_option KeyError (nodes t !! c) in
      let! l := resident_children t cs in
      Ok (if evicted cnd then l else c :: l)
  end.

Fixpoint total_size_loop (fuel : nat) (t : Tree) (stack : list nat) (total_size : Z)
    : result Z :=
  match fuel with
  | O => Raise OutOfFuel
  | S fuel =>
      match stack with
      | [] => Ok total_size
      | current_node :: stack =>
          let! nd := of_option KeyError (nodes t !! current_node) in
          let! v := of_option TypeError (value nd) in
          let! cs := resident_children t (children nd).*2 in
          total_size_loop fuel t (reverse cs ++ stack) (total_size + Z.of_nat (length v))
      end
  end.

Definition total_size (t : Tree) : result Z :=
  total_size_loop (S (size (nodes t))) t [root_node t] 0.

(** [all_values_flatten]: the depth-first concatenation of the values below the
    root; [torch.cat] refuses an empty list. *)
Fixpoint dfs_values (fuel : nat) (t : Tree) (n : nat) : result (list (list Z)) :=
  match fuel with
  | O => Raise OutOfFuel
  | S fuel =>
      let! nd := of_option KeyError (nodes t !! n) in
      (fix go (cs : list nat) : result (list (list Z)) :=
         match cs with
         | [] => Ok []
         | c :: cs =>
             let! cnd := of_option KeyError (nodes t !! c) in
             let! v := of_option TypeError (value cnd) in
             let! below := dfs_values fuel t c in
             let! rest := go cs in
             Ok (v :: below ++ rest)
         end) (children nd).*2
  end.

Definition all_values_flatten (t : Tree) : result (list Z) :=
  let! values := dfs_values (S (size (nodes t))) t (root_node t) in
  match values with [] => Raise RuntimeError | _ => Ok (concat values) end.

(** ** Operations on the cache *)

Section ops.
Context {A : Type} `{KVPool A} `{Env} `{HeapQ}.
Variable cfg : Config.
Implicit Types st : RadixCache A.

Notation ps := (page_size cfg).

(** [TreeNode(priority)]: two clock readings, the other fields at their
    defaults. *)
Definition fresh_meta (c : nat) (prio : Z) : NodeMeta :=
  mkMeta (monotonic c) (monotonic (S c)) 0 0 None None None prio None.

Definition record_all_cleared_event st : RadixCache A :=
  if enable_kv_cache_events cfg
  then with_events (kv_event_queue st ++ [AllBlocksCleared]) st else st.

Definition take_events st : list KVEvent * RadixCache A :=
  if negb (enable_kv_cache_events cfg) then ([], st)
  else (kv_event_queue st, with_events [] st).

(** [-sys.maxsize], below every priority in use. *)
Definition root_priority : Z := - (2 ^ 63 - 1).

Definition reset st : RadixCache A :=
  let root := counter (tree st) in
  let root_nd := mkNode [] None (mkKey [] None false None) (Some []) 1 in
  let rm := fresh_meta (clock st) root_priority in
  let rm := mkMeta (last_access_time rm) (creation_time rm) (hit_count rm)
    (host_ref_counter rm) (Some []) None (Some []) (priority rm) None in
  let t := mkTree {[root := root_nd]} root (S root) 0 0 ∅ in
  let st := mkCache t {[root := rm]} (S (S (clock st))) ∅ [] (kv_event_queue st)
    (allocator st) in
  record_all_cleared_event st.

(** [__init__] over a given allocator; [c] is the class counter. *)
Definition init_cache (a : A) (c : nat) : RadixCache A :=
  reset (mkCache (mkTree ∅ 0 c 0 0 ∅) ∅ 0 ∅ [] [] a).

(** *** Hashes and events *)

(** [node.parent.hash_value[-1]] when the parent is a real segment. *)
Definition compute_node_hash_values (nd : TreeNode) st : result (list string) :=
  let! parent_hash :=
    match parent nd with
    | None => Ok None
    | Some p =>
        let! pm := get_meta st p in
        match hash_value pm with
        | None => Ok None
        | Some h =>
            let! pnd := get_node st p in
            if (0 <? key_len (nkey pnd))%nat && (0 <? length h)%nat then Ok (last h)
            else Ok None
        end
    end in
  Ok (get_hash_str (nkey nd) parent_hash ps).

(** Fill in the hash of a node when it is missing. *)
Definition ensure_hash (n : nat) (nd : TreeNode) st
    : result (list string * RadixCache A) :=
  let! m := get_meta st n in
  match hash_value m with
  | Some h => Ok (h, st)
  | None =>
      let! h := compute_node_hash_values nd st in
      Ok (h, upd_meta n (set_hash_value (Some h)) st)
  end.

(** [range(0, logical_len, page_size)] *)
Definition page_starts (logical_len : nat) : list nat :=
  (λ i, (i * ps)%nat) <$> seq 0 ((logical_len + ps - 1) / ps).

Fixpoint store_pages (nd : TreeNode) (h : list string) (medium : StorageMedium)
    (starts : list nat) (page_index : nat) (parent_block_hash : option Z)
    : result (list KVEvent) :=
  match starts with
  | [] => Ok []
  | start :: starts =>
      let logical_len := key_len (nkey nd) in
      let raw := token_ids (nkey nd) in
      let stop := Nat.min (start + ps) logical_len in
      if (stop <=? start)%nat then store_pages nd h medium starts page_index parent_block_hash
      else
        let! page_tokens :=
          if is_bigram (nkey nd) then
            let! l := bigram_pairs raw start (stop - start) in
            Ok ((λ '(t, u), Bigram t u) <$> l)
          else Ok (Tok <$> slice start stop raw) in
        let! hs := of_option IndexError (h !! page_index) in
        let! block_hash := hash_str_to_int64 hs in
        let! rest := store_pages nd h medium starts (S page_index) (Some block_hash) in
        Ok (BlockStored [block_hash] parent_block_hash page_tokens (length page_tokens) medium
              :: rest)
  end.

Definition record_store_event (n : nat) (nd : TreeNode) (medium : option StorageMedium) st
    : result (RadixCache A) :=
  if enable_kv_cache_events cfg then
    let medium := default GPU medium in
    let! (h, st) := ensure_hash n nd st in
    let! parent_block_hash :=
      match parent nd with
      | None => Ok None
      | Some p =>
          if is_root (tree st) p then Ok None
          else
            let! pm := get_meta st p in
            match get_last_hash_value pm with
            | None => Ok None
            | Some s => let! z := hash_str_to_int64 s in Ok (Some z)
            end
      end in
    let! evs := store_pages nd h medium (page_starts (key_len (nkey nd))) 0 parent_block_hash in
    Ok (with_events (kv_event_queue st ++ evs) st)
  else Ok st.

Fixpoint removed_hashes (logical_len : nat) (h : list string) (starts : list nat)
    (page_index : nat) : result (list Z) :=
  match starts with
  | [] => Ok []
  | start :: starts =>
      let stop := Nat.min (start + ps) logical_len in
      if (stop <=? start)%nat then removed_hashes logical_len h starts page_index
      else
        let! hs := of_option IndexError (h !! page_index) in
        let! z := hash_str_to_int64 hs in
        let! rest := removed_hashes logical_len h starts (S page_index) in
        Ok (z :: rest)
  end.

Definition record_remove_event (n : nat) (nd : TreeNode) (medium : option StorageMedium) st
    : result (RadixCache A) :=
  if enable_kv_cache_events cfg then
    let medium := default GPU medium in
    let! (h, st) := ensure_hash n nd st in
    let logical_len := key_len (nkey nd) in
    let! block_hashes := removed_hashes logical_len h (page_starts logical_len) 0 in
    match block_hashes with
    | [] => Ok st
    | _ => Ok (with_events (kv_event_queue st ++ [BlockRemoved block_hashes medium]) st)
    end
  else Ok st.

(** *** Lookup *)

Definition split_node (key : RadixKey) (child split_len : nat) st
    : result (nat * RadixCache A) :=
  let! cnd := get_node st child in
  let! cm := get_meta st child in
  let new_node := counter (tree st) in
  let nm := set_hit_count (hit_count cm) (fresh_meta (clock st) (priority cm)) in
  let! rest := key_from key split_len in
  let! rest_key := child_key rest ps in
  let! new_key := key_upto (nkey cnd) split_len in
  let! cvalue := of_option TypeError (value cnd) in
  let! child_key' := key_from (nkey cnd) split_len in
  let! p := of_option AttributeError (parent cnd) in
  let! ck := child_key key ps in
  let new_nd := mkNode [(rest_key, child)] (Some p) new_key
    (Some (take split_len cvalue)) (lock_ref cnd) in
  let child_nd := mkNode (children cnd) (Some new_node) child_key'
    (Some (drop split_len cvalue)) (lock_ref cnd) in
  let t := put_node child child_nd (put_node new_node new_nd (next_id (tree st))) in
  let! pnd := of_option KeyError (nodes t !! p) in
  let t := put_node p (set_children (dict_set ck new_node (children pnd)) pnd) t in
  let '(new_hash, child_hash) := split_node_hash_value (hash_value cm) split_len ps in
  let m := <[child := set_hash_value child_hash cm]>
    (<[new_node := set_hash_value new_hash nm]> (meta st)) in
  Ok (new_node, with_clock (S (S (clock st))) (with_meta m (with_tree t st))).

Fixpoint match_loop (fuel : nat) (access_time : Z) (node : nat) (key : RadixKey)
    (ck : child_key_t) (value : list (list Z)) st
    : result (list (list Z) * nat * RadixCache A) :=
  match fuel with
  | O => Raise OutOfFuel
  | S fuel =>
      let! nd := get_node st node in
      if (0 <? key_len key)%nat then
        match dict_get ck (children nd) with
        | None => Ok (value, node, st)
        | Some child =>
            let st := upd_meta child (set_last_access_time access_time) st in
            let! cnd := get_node st child in
            let! prefix_len := key_match (nkey cnd) key ps in
            if (prefix_len <? key_len (nkey cnd))%nat then
              let! (new_node, st) := split_node (nkey cnd) child prefix_len st in
              let! new_nd := get_node st new_node in
              let! v := of_option TypeError (RadixTree.value new_nd) in
              Ok (value ++ [v], new_node, st)
            else
              let! v := of_option TypeError (RadixTree.value cnd) in
              let! key := key_from key prefix_len in
              let! ck := if (0 <? key_len key)%nat then child_key key ps else Ok ck in
              match_loop fuel access_time child key ck (value ++ [v]) st
        end
      else Ok (value, node, st)
  end.

Definition match_prefix_helper (node : nat) (key : RadixKey) st
    : result (list (list Z) * nat * RadixCache A) :=
  let access_time := monotonic (clock st) in
  let st := with_clock (S (clock st)) st in
  let st := upd_meta node (set_last_access_time access_time) st in
  let! ck := child_key key ps in
  match_loop (S (key_len key)) access_time node key ck [] st.

(** [MatchResult]: the device indices and the last node. *)
Definition match_prefix (key : RadixKey) st : result (list Z * nat * RadixCache A) :=
  let empty := Ok ([], root_node (tree st), st) in
  let '(key, _) := maybe_to_bigram_view key (is_eagle cfg) None in
  if disable cfg || (key_len key =? 0)%nat then empty
  else
    let! key := page_aligned key ps in
    if (key_len key =? 0)%nat then empty
    else
      let! (value, last_node, st) := match_prefix_helper (root_node (tree st)) key st in
      Ok (concat value, last_node, st).

(** *** Insertion *)

Definition inc_hit_count (n : nat) (chunked : bool) st : RadixCache A :=
  if chunked then st else upd_meta n (λ m, set_hit_count (hit_count m + 1) m) st.

Definition raise_priority (n : nat) (prio : Z) st : RadixCache A :=
  upd_meta n (λ m, set_priority (Z.max (RadixTree.priority m) prio) m) st.

(** The descent: the node reached, the unmatched rest of the key with its
    dict key and value, and the matched length. *)
Fixpoint insert_loop (fuel : nat) (access_time : Z) (node : nat) (key : RadixKey)
    (ck : child_key_t) (value : list Z) (prio : Z) (chunked : bool)
    (total_prefix_length : nat) st
    : result (nat * RadixKey * child_key_t * list Z * nat * RadixCache A) :=
  match fuel with
  | O => Raise OutOfFuel
  | S fuel =>
      let! nd := get_node st node in
      if (0 <? key_len key)%nat then
        match dict_get ck (children nd) with
        | None => Ok (node, key, ck, value, total_prefix_length, st)
        | Some node =>
            let st := upd_meta node (set_last_access_time access_time) st in
            let! nd := get_node st node in
            let! prefix_len := key_match (nkey nd) key ps in
            let total_prefix_length := (total_prefix_length + prefix_len)%nat in
            let! key := key_from key prefix_len in
            let value := drop prefix_len value in
            let! (node, st) :=
              if (prefix_len <? key_len (nkey nd))%nat then
                let! (new_node, st) := split_node (nkey nd) node prefix_len st in
                let st := raise_priority new_node prio st in
                let st := inc_hit_count new_node chunked st in
                Ok (new_node, st)
              else
                let st := raise_priority node prio st in
                let st := inc_hit_count node chunked st in
                Ok (node, st) in
            let! ck := if (0 <? key_len key)%nat then child_key key ps else Ok ck in
            insert_loop fuel access_time node key ck value prio chunked total_prefix_length st
        end
      else Ok (node, key, ck, value, total_prefix_length, st)
  end.

(** The new leaf under [node]. *)
Definition add_leaf (node : nat) (key : RadixKey) (ck : child_key_t) (value : list Z)
    (prio : Z) (chunked : bool) st : result (nat * RadixCache A) :=
  let new_node := counter (tree st) in
  let new_nd := mkNode [] (Some node) key (Some value) 0 in
  let m := <[new_node := fresh_meta (clock st) prio]> (meta st) in
  let st := with_clock (S (S (clock st))) (with_meta m
    (with_tree (put_node new_node new_nd (next_id (tree st))) st)) in
  let st := inc_hit_count new_node chunked st in
  let! nd := get_node st node in
  let t := put_node node (set_children (dict_set ck new_node (children nd)) nd) (tree st) in
  let t := set_sizes t (evictable_size_ t + Z.of_nat (key_len key)) (protected_size_ t) in
  let! t := update_leaf_status t node in
  let! t := update_leaf_status t new_node in
  let! st := record_store_event new_node new_nd None (with_tree t st) in
  Ok (new_node, st).

Definition insert_helper (node : nat) (key : RadixKey) (value : list Z)
    (prio : option Z) (chunked : bool) st : result (nat * nat * RadixCache A) :=
  let prio := default 0 prio in
  let access_time := monotonic (clock st) in
  let st := with_clock (S (clock st)) st in
  let st := upd_meta node (set_last_access_time access_time) st in
  let st := raise_priority node prio st in
  if (key_len key =? 0)%nat then Ok (0%nat, node, st)
  else
    let! ck := child_key key ps in
    let! (node, key, ck, value, total_prefix_length, st) :=
      insert_loop (S (key_len key)) access_time node key ck value prio chunked 0%nat st in
    if (0 <? key_len key)%nat then
      let! (node, st) := add_leaf node key ck value prio chunked st in
      Ok (total_prefix_length, node, st)
    else Ok (total_prefix_length, node, st).

(** [InsertResult]: the matched length and the last node ([None] when the
    cache is disabled). *)
Definition insert (key : RadixKey) (value : option (list Z)) (prio : option Z)
    (chunked : bool) st : result (nat * option nat * RadixCache A) :=
  if disable cfg then Ok (0%nat, None, st)
  else
    let '(key, value) := maybe_to_bigram_view key (is_eagle cfg) value in
    let! key := page_aligned key ps in
    let value :=
      match value with
      | Some v => take (key_len key) v
      | None => take (key_len key) (token_ids key)
      end in
    let! (prefix_len, last_node, st) :=
      insert_helper (root_node (tree st)) key value prio chunked st in
    Ok (prefix_len, Some last_node, st).

(** *** Locks *)

Definition inc_lock_ref (node : nat) st : result (Z * RadixCache A) :=
  if disable cfg then Ok (0, st)
  else
    let! (delta, t) := inc_loop (climb_fuel (tree st)) (tree st) node 0 in
    Ok (delta, with_tree t st).

Definition dec_lock_ref (node : nat) st : result (Z * RadixCache A) :=
  if disable cfg then Ok (0, st)
  else
    let! (delta, t) := dec_loop (climb_fuel (tree st)) (tree st) node 0 in
    Ok (delta, with_tree t st).

(** *** Eviction *)

(** One holder of a leaf: drop the leaf from its index entry, and the entry
    when it is empty and the session is open. *)
Definition discard_holder (n : nat) (closed : list string)
    (idx : gmap string (gset nat)) (sid : string) : gmap string (gset nat) :=
  match idx !! sid with
  | None => idx
  | Some leaves =>
      let leaves := leaves ∖ {[n]} in
      if decide (leaves = ∅) then
        if decide (sid ∈ closed) then <[sid := leaves]> idx else delete sid idx
      else <[sid := leaves]> idx
  end.

Definition discard_session_leaf (n : nat) st : result (RadixCache A) :=
  let! m := get_meta st n in
  match session_ids m with
  | None => Ok st
  | Some sids =>
      if decide (sids = ∅) then Ok st
      else
        let idx := foldl (discard_holder n (closed_session_ids st)) (session_leaves st)
          (elements sids) in
        Ok (upd_meta n (set_session_ids None) (with_sessions idx (closed_session_ids st) st))
  end.

Definition delete_leaf (node : nat) st : result (RadixCache A) :=
  let! nd := get_node st node in
  let! key := child_key (nkey nd) ps in
  let! p := of_option AttributeError (parent nd) in
  let! pnd := get_node st p in
  let v := dict_get key (children pnd) in
  let t := put_node p (set_children (dict_del key (children pnd)) pnd) (tree st) in
  let! _ := py_assert (bool_decide (v = Some node)) in
  let! st := discard_session_leaf node (with_tree t st) in
  let t := tree st in
  let t := set_sizes t (evictable_size_ t - Z.of_nat (key_len (nkey nd))) (protected_size_ t) in
  let t := set_leaves t (evictable_leaves t ∖ {[node]}) in
  let! t := update_leaf_status t p in
  Ok (with_tree (drop_node node t) st).

(** A heap item [(priority, node)]: tuples compare the priority first and
    then the nodes, whose [__lt__] compares access times. *)
Definition heap_item : Type := list Z * Z * nat.
Definition item_key (i : heap_item) : list Z := i.1.1 ++ [i.1.2].
Definition item_lt (i j : heap_item) : bool := lex_ltb (item_key i) (item_key j).

Definition make_item (n : nat) st : result heap_item :=
  let! m := get_meta st n in
  Ok (get_priority (eviction_strategy cfg) m, last_access_time m, n).

Fixpoint make_items (ns : list nat) st : result (list heap_item) :=
  match ns with
  | [] => Ok []
  | n :: ns =>
      let! i := make_item n st in
      let! l := make_items ns st in
      Ok (i :: l)
  end.

Fixpoint evict_loop (fuel : nat) (num_tokens : Z) (heap : list heap_item)
    (num_evicted : Z) st : result (Z * RadixCache A) :=
  match fuel with
  | O => Raise OutOfFuel
  | S fuel =>
      if num_evicted <? num_tokens then
        match heappop item_lt heap with
        | None => Ok (num_evicted, st)
        | Some ((_, _, x), heap) =>
            let! xnd := get_node st x in
            let! v := of_option TypeError (value xnd) in
            let! a := kv_free (allocator st) v in
            let st := with_allocator a st in
            let num_evicted := num_evicted + Z.of_nat (length v) in
            let! st := delete_leaf x st in
            let! p := of_option AttributeError (parent xnd) in
            let! pnd := get_node st p in
            let! heap :=
              if (length (children pnd) =? 0)%nat && (lock_ref pnd =? 0) then
                let! i := make_item p st in
                Ok (heappush item_lt heap i)
              else Ok heap in
            let! st := record_remove_event x xnd None st in
            evict_loop fuel num_tokens heap num_evicted st
        end
      else Ok (num_evicted, st)
  end.

Definition evict (num_tokens : Z) st : result (Z * RadixCache A) :=
  if disable cfg then Ok (0, st)
  else
    let! items := make_items (elements (evictable_leaves (tree st))) st in
    evict_loop (S (size (nodes (tree st)))) num_tokens (heapify item_lt items) 0 st.

(** *** Sessions *)

Definition CLOSED_SESSION_TOMBSTONE_LIMIT : nat := Z.to_nat 8192.

Definition remember_closed_session (sid : string) st : RadixCache A :=
  let l := filter (λ s, s ≠ sid) (closed_session_ids st) ++ [sid] in
  with_sessions (session_leaves st) (drop (length l - CLOSED_SESSION_TOMBSTONE_LIMIT) l) st.

Definition tag_session_leaf (session_id : option string) (radix_key : RadixKey)
    (node : option nat) st : result (RadixCache A) :=
  if negb (enable_session_radix_cache cfg) then Ok st
  else
    match session_id with
    | None => Ok st
    | Some sid =>
        if decide (sid ∈ closed_session_ids st) then Ok st
        else
          let! (node, st) :=
            match node with
            | Some n => Ok (n, st)
            | None => let! (_, n, st) := match_prefix radix_key st in Ok (n, st)
            end in
          if is_root (tree st) node then Ok st
          else
            let st := upd_meta node
              (λ m, set_session_ids (Some (default ∅ (session_ids m) ∪ {[sid]})) m) st in
            let leaves := default ∅ (session_leaves st !! sid) ∪ {[node]} in
            Ok (with_sessions (<[sid := leaves]> (session_leaves st)) (closed_session_ids st) st)
    end.

(** Drop a session from the holders of a node. *)
Definition drop_holder (sid : string) (m : NodeMeta) : NodeMeta :=
  match session_ids m with
  | None => m
  | Some s =>
      let s := s ∖ {[sid]} in
      set_session_ids (if decide (s = ∅) then None else Some s) m
  end.

(** The inner loop of [release_radix_session]: climb from a tagged leaf,
    freeing nodes nobody holds. *)
Fixpoint release_climb (fuel : nat) (sid : string) (node : nat) (freed : Z) st
    : result (Z * RadixCache A) :=
  match fuel with
  | O => Raise OutOfFuel
  | S fuel =>
      let st := upd_meta node (drop_holder sid) st in
      let! nd := get_node st node in
      let! m := get_meta st node in
      if is_root (tree st) node || negb (lock_ref nd =? 0)
         || negb (length (children nd) =? 0)%nat
         || negb (bool_decide (node ∈ evictable_leaves (tree st)))
         || match session_ids m with Some s => negb (bool_decide (s = ∅)) | None => false end
      then Ok (freed, st)
      else
        let! p := of_option AttributeError (parent nd) in
        let! v := of_option TypeError (value nd) in
        let! a := kv_free (allocator st) v in
        let! st := delete_leaf node (with_allocator a st) in
        release_climb fuel sid p (freed + 1) st
  end.

Fixpoint release_leaves (sid : string) (leaves : list nat) (freed : Z) st
    : result (Z * RadixCache A) :=
  match leaves with
  | [] => Ok (freed, st)
  | leaf :: leaves =>
      let! m := get_meta st leaf in
      if bool_decide (sid ∈ default ∅ (session_ids m)) then
        let! (freed, st) := release_climb (S (size (nodes (tree st)))) sid leaf freed st in
        release_leaves sid leaves freed st
      else release_leaves sid leaves freed st
  end.

Definition release_radix_session (sid : string) st : result (Z * RadixCache A) :=
  let st := remember_closed_session sid st in
  let indexed := default ∅ (session_leaves st !! sid) in
  let st := with_sessions (delete sid (session_leaves st)) (closed_session_ids st) st in
  release_leaves sid (elements indexed) 0 st.
End ops.
