(* ===== verification/RadixInv.v ===== *)
(** The well-formedness invariant of the radix tree, and its preservation by
    the structural changes the operations make: splitting a node, adding a
    leaf, deleting a leaf, changing a lock count. *)

From stdpp Require Import base gmap strings list.
From Stdlib Require Import ZArith Lia.
From S2P Require Import Prelude.
From S2P Require Import PyData.
From S2P Require Import RadixKey.
From S2P Require Import RadixTree.

Open Scope Z_scope.

(** ** Sums over a finite map *)

Section map_sum.
Context {V : Type}.
Implicit Types (f : nat → V → Z) (m : gmap nat V).

Definition map_sum f m : Z := map_fold (λ k x acc, f k x + acc) 0 m.

Lemma map_sum_empty f : map_sum f ∅ = 0.
Proof. apply map_fold_empty. Qed.

Lemma map_sum_insert_new f m k x :
  m !! k = None → map_sum f (<[k := x]> m) = f k x + map_sum f m.
Proof.
  intros Hk. unfold map_sum. rewrite map_fold_insert_L; [done| |done].
  intros; lia.
Qed.

Lemma map_sum_delete f m k x :
  m !! k = Some x → map_sum f (delete k m) = map_sum f m - f k x.
Proof.
  intros Hk. rewrite <-(insert_delete_id m k x) at 2 by done.
  rewrite map_sum_insert_new by apply lookup_delete_eq. lia.
Qed.

Lemma map_sum_insert f m k x y :
  m !! k = Some y → map_sum f (<[k := x]> m) = map_sum f m - f k y + f k x.
Proof.
  intros Hk. rewrite <-insert_delete_eq, map_sum_insert_new by apply lookup_delete_eq.
  rewrite (map_sum_delete _ _ _ y) by done. lia.
Qed.

Lemma map_sum_nonneg f m : (∀ k x, m !! k = Some x → 0 ≤ f k x) → 0 ≤ map_sum f m.
Proof.
  induction m as [|k x m Hk IH] using map_ind; intros Hf; [by rewrite map_sum_empty|].
  rewrite map_sum_insert_new by done.
  assert (0 ≤ f k x) by (apply Hf; by rewrite lookup_insert_eq).
  assert (0 ≤ map_sum f m); [|lia]. apply IH. intros k' x' Hk'. apply Hf.
  rewrite lookup_insert_ne; [done|]. intros ->. congruence.
Qed.

Lemma map_sum_add f g m : map_sum (λ k x, f k x + g k x) m = map_sum f m + map_sum g m.
Proof.
  induction m as [|k x m Hk IH] using map_ind; [by rewrite !map_sum_empty|].
  rewrite !map_sum_insert_new by done. lia.
Qed.

Lemma map_sum_ext f g m :
  (∀ k x, m !! k = Some x → f k x = g k x) → map_sum f m = map_sum g m.
Proof.
  induction m as [|k x m Hk IH] using map_ind; intros Hfg; [by rewrite !map_sum_empty|].
  rewrite !map_sum_insert_new by done. rewrite Hfg by by rewrite lookup_insert_eq.
  rewrite IH; [done|]. intros k' x' Hk'. apply Hfg.
  rewrite lookup_insert_ne; [done|]. intros ->. congruence.
Qed.

Lemma map_sum_map f (g : nat → V → V) m m' :
  (∀ k, m' !! k = g k <$> m !! k) → (∀ k x, f k (g k x) = f k x) → map_sum f m' = map_sum f m.
Proof.
  intros Hm Hf. revert m' Hm. induction m as [|k x m Hk IH] using map_ind; intros m' Hm.
  - assert (m' = ∅) as ->; [|done]. apply map_eq. intros k. by rewrite Hm, lookup_empty.
  - assert (Hk' : m' !! k = Some (g k x)) by (by rewrite Hm, lookup_insert_eq).
    rewrite <-(insert_delete_id m' k _ Hk'), !map_sum_insert_new by (done || apply lookup_delete_eq).
    rewrite Hf, IH; [done|]. intros j. rewrite lookup_delete. case_decide; subst; [by rewrite Hk|].
    by rewrite Hm, lookup_insert_ne.
Qed.
End map_sum.

(** ** Climbing to the root *)

(** [path_up r par n l]: following [par] from [n] reaches the root [r], through
    the nodes [l] ([n] first, [r] excluded). *)
Inductive path_up (r : nat) (par : nat → option nat) : nat → list nat → Prop :=
  | up_root : path_up r par r []
  | up_step n p l : n ≠ r → par n = Some p → path_up r par p l → path_up r par n (n :: l).

Section path_up.
Context (r : nat).
Implicit Types par : nat → option nat.

Lemma path_up_det par n l1 l2 : path_up r par n l1 → path_up r par n l2 → l1 = l2.
Proof.
  intros H1; revert l2. induction H1 as [|n p l Hn Hp H IH]; intros l2 H2; inversion H2; subst.
  - done.
  - done.
  - done.
  - f_equal. apply IH. congruence.
Qed.

Lemma path_up_suffix par n l x :
  path_up r par n l → x ∈ l → ∃ l1 l2, l = l1 ++ l2 ∧ path_up r par x l2.
Proof.
  induction 1 as [|n p l Hn Hp H IH]; intros Hx; [by apply not_elem_of_nil in Hx|].
  apply elem_of_cons in Hx as [->|Hx].
  - exists [], (n :: l). split; [done|]. by econstructor.
  - destruct (IH Hx) as (l1 & l2 & -> & Hl). by exists (n :: l1), l2.
Qed.

Lemma path_up_NoDup par n l : path_up r par n l → NoDup l.
Proof.
  induction 1 as [|n p l Hn Hp H IH]; constructor; [|done]. intros Hx.
  assert (Hs : path_up r par n (n :: l)) by (by econstructor).
  destruct (path_up_suffix _ _ _ _ H Hx) as (l1 & l2 & -> & Hl).
  pose proof (path_up_det _ _ _ _ Hs Hl) as Hd. apply (f_equal length) in Hd.
  rewrite length_cons, length_app in Hd. lia.
Qed.

Lemma path_up_notin_root par n l : path_up r par n l → r ∉ l.
Proof. induction 1; set_solver. Qed.

Lemma path_up_par par n l x : path_up r par n l → x ∈ l → x ≠ r ∧ is_Some (par x).
Proof.
  induction 1 as [|n p l Hn Hp H IH]; [set_solver|].
  intros [->|Hx]%elem_of_cons; [eauto|auto].
Qed.

Lemma path_up_mono par par' n l :
  (∀ x p, x ∈ l → par x = Some p → par' x = Some p) → path_up r par n l → path_up r par' n l.
Proof.
  intros Hm. induction 1 as [|n p l Hn Hp H IH]; [constructor|].
  econstructor; [done| |].
  - apply Hm; [by left|done].
  - apply IH. intros x q Hx. apply Hm. by right.
Qed.

(** A node with no child is on no path but its own. *)
Lemma path_up_leaf par n l x :
  (∀ y, par y ≠ Some x) → path_up r par n l → n ≠ x → x ∉ l.
Proof.
  intros Hc. induction 1 as [|n p l Hn Hp H IH]; intros Hx; [set_solver|].
  intros [->|Hl]%elem_of_cons; [done|]. apply IH; [|done]. intros ->. by apply (Hc n).
Qed.

(** Splicing [m] into every path right above [c]. *)
Fixpoint splice (c m : nat) (l : list nat) : list nat :=
  match l with
  | [] => []
  | x :: l => if decide (x = c) then x :: m :: splice c m l else x :: splice c m l
  end.

Lemma path_up_splice par par' c m p n l :
  par c = Some p → par m = None → m ≠ r → n ≠ m →
  par' c = Some m → par' m = Some p →
  (∀ x, x ≠ c → x ≠ m → par' x = par x) →
  path_up r par n l → path_up r par' n (splice c m l).
Proof.
  intros Hc Hm Hmr Hnm Hc' Hm' Hx H.
  induction H as [|n q l Hn Hq H IH]; simpl; [constructor|].
  assert (Hqm : q ≠ m ∨ q = r).
  { inversion H; subst; [by right|]. left. intros ->. congruence. }
  assert (path_up r par' q (splice c m l)) as Hq'.
  { apply IH. destruct Hqm as [?| ->]; [done|]. by intros <-. }
  case_decide as Hd.
  - subst n. simplify_eq. econstructor; [done..|]. by econstructor.
  - econstructor; [done| |done]. by rewrite Hx.
Qed.

Lemma splice_pcount c m l x : x ≠ m → pcount x (splice c m l) = pcount x l.
Proof.
  intros Hx. induction l as [|y l IH]; simpl; [done|].
  case_decide; simpl; rewrite IH; [|done]. rewrite (delta_ne m x) by congruence. lia.
Qed.

Lemma splice_pcount_new c m l :
  m ∉ l → pcount m (splice c m l) = pcount c l.
Proof.
  induction l as [|y l IH]; simpl; [done|]. intros [Hy Hl]%not_elem_of_cons.
  case_decide as Hd; simpl; rewrite IH, (delta_ne y m) by congruence.
  - subst y. rewrite !delta_eq. lia.
  - by rewrite (delta_ne y c).
Qed.
End path_up.

(** ** The invariant *)

(** The parent and the key of a node: all that edges depend on. *)
Definition pk (t : Tree) (n : nat) : option (option nat * RadixKey) :=
  (λ nd, (parent nd, nkey nd)) <$> nodes t !! n.
Definition par_of (t : Tree) (n : nat) : option nat := pk t n ≫= fst.

Definition root_ok (rn : TreeNode) : Prop :=
  parent rn = None ∧ value rn = Some [] ∧ lock_ref rn = 1 ∧ key_len (nkey rn) = 0%nat.

(** What a node other than the root satisfies on its own. *)
Definition node_ok (ps : nat) (eagle : bool) (nd : TreeNode) : Prop :=
  (ps ≤ key_len (nkey nd))%nat ∧ (ps | key_len (nkey nd))%nat ∧
  is_bigram (nkey nd) = eagle ∧
  (∃ v, value nd = Some v ∧ length v = key_len (nkey nd)) ∧ 0 ≤ lock_ref nd.

Record shape_wf (ps : nat) (eagle : bool) (t : Tree) : Prop := {
  sw_root : ∃ rn, nodes t !! root_node t = Some rn ∧ root_ok rn;
  sw_node n nd : nodes t !! n = Some nd → n ≠ root_node t → node_ok ps eagle nd;
  sw_parent n op k : pk t n = Some (op, k) → n ≠ root_node t →
    ∃ p pp kp, op = Some p ∧ pk t p = Some (pp, kp) ∧
      (p ≠ root_node t → extra_key k = extra_key kp);
  sw_nodup n nd : nodes t !! n = Some nd → NoDup (children nd).*1;
  sw_edges n nd ck c : nodes t !! n = Some nd →
    (ck, c) ∈ children nd ↔ ∃ k, pk t c = Some (Some n, k) ∧ child_key k ps = Ok ck;
  sw_path n : is_Some (nodes t !! n) → ∃ l, path_up (root_node t) (par_of t) n l;
  sw_fresh n : is_Some (nodes t !! n) → (n < counter t)%nat;
}.

(** [L] lists the nodes on which the clients hold a lock: the count of a node is
    the number of held locks whose path to the root contains it. *)
Definition lock_wf (t : Tree) (L : list nat) : Prop :=
  ∃ P, Forall2 (path_up (root_node t) (par_of t)) L P ∧
    ∀ n nd, nodes t !! n = Some nd → n ≠ root_node t →
      lock_ref nd = Z.of_nat (pcount n (concat P)).

(** The accounts: sizes and evictable leaves. *)
Definition len_if (b : bool) (nd : TreeNode) : Z :=
  if b then Z.of_nat (key_len (nkey nd)) else 0.
Definition free_len (r n : nat) (nd : TreeNode) : Z :=
  len_if (negb (n =? r)%nat && (lock_ref nd =? 0)) nd.
Definition held_len (r n : nat) (nd : TreeNode) : Z :=
  len_if (negb (n =? r)%nat && negb (lock_ref nd =? 0)) nd.
Definition is_leaf (nd : TreeNode) : Prop := lock_ref nd = 0 ∧ children nd = [].
Global Instance is_leaf_dec nd : Decision (is_leaf nd).
Proof. unfold is_leaf. solve_decision. Defined.

Record acct_wf (t : Tree) : Prop := {
  aw_free : evictable_size_ t = map_sum (free_len (root_node t)) (nodes t);
  aw_held : protected_size_ t = map_sum (held_len (root_node t)) (nodes t);
  aw_leaves n : n ∈ evictable_leaves t ↔ ∃ nd, nodes t !! n = Some nd ∧ is_leaf nd;
}.

Record tree_wf (ps : nat) (eagle : bool) (t : Tree) (L : list nat) : Prop := {
  tw_shape : shape_wf ps eagle t;
  tw_lock : lock_wf t L;
  tw_acct : acct_wf t;
}.

Section shape_facts.
Context {ps : nat} {eagle : bool}.
Implicit Types t : Tree.

Lemma pk_Some t n nd : nodes t !! n = Some nd → pk t n = Some (parent nd, nkey nd).
Proof. unfold pk. by intros ->. Qed.

Lemma pk_inv t n op k :
  pk t n = Some (op, k) → ∃ nd, nodes t !! n = Some nd ∧ parent nd = op ∧ nkey nd = k.
Proof. unfold pk. intros (nd & Hn & [= -> ->])%fmap_Some. eauto. Qed.

Lemma pk_is_Some t n : is_Some (pk t n) ↔ is_Some (nodes t !! n).
Proof. unfold pk. apply fmap_is_Some. Qed.

Lemma sw_root_par t : shape_wf ps eagle t → par_of t (root_node t) = None.
Proof.
  intros Hw. destruct (sw_root _ _ _ Hw) as (rn & Hr & Hp & _).
  unfold par_of, pk. rewrite Hr. cbn. by rewrite Hp.
Qed.

Lemma sw_value t n nd :
  shape_wf ps eagle t → nodes t !! n = Some nd → ∃ v, value nd = Some v.
Proof.
  intros Hw Hn. destruct (decide (n = root_node t)) as [->|Hne].
  - destruct (sw_root _ _ _ Hw) as (rn & Hr & _ & Hv & _). simplify_eq. eauto.
  - destruct (sw_node _ _ _ Hw _ _ Hn Hne) as (_ & _ & _ & (v & Hv & _) & _). eauto.
Qed.

Lemma sw_lock_nonneg t n nd :
  shape_wf ps eagle t → nodes t !! n = Some nd → 0 ≤ lock_ref nd.
Proof.
  intros Hw Hn. destruct (decide (n = root_node t)) as [->|Hne].
  - destruct (sw_root _ _ _ Hw) as (rn & Hr & _ & _ & Hv & _). simplify_eq. lia.
  - by destruct (sw_node _ _ _ Hw _ _ Hn Hne) as (_ & _ & _ & _ & ?).
Qed.

(** A child edge and the node it leads to. *)
Lemma sw_child t n nd ck c :
  shape_wf ps eagle t → nodes t !! n = Some nd → (ck, c) ∈ children nd →
  ∃ cnd, nodes t !! c = Some cnd ∧ parent cnd = Some n ∧
    child_key (nkey cnd) ps = Ok ck ∧ c ≠ root_node t ∧ c ≠ n.
Proof.
  intros Hw Hn Hc. apply (sw_edges _ _ _ Hw _ _ _ _ Hn) in Hc as (k & Hk & Hck).
  pose proof Hk as Hk'. apply pk_inv in Hk' as (cnd & Hcn & Hp & <-).
  assert (c ≠ root_node t).
  { intros ->. pose proof (sw_root_par t Hw) as Hr. unfold par_of in Hr.
    rewrite Hk in Hr. done. }
  exists cnd. split_and!; try done. intros ->.
  destruct (sw_path _ _ _ Hw n) as [l Hl]; [eauto|].
  assert (Hpar : par_of t n = Some n) by (unfold par_of; by rewrite Hk).
  inversion Hl as [|? p l' ? Hp' Hl']; subst; [done|].
  assert (p = n) as -> by congruence.
  pose proof (path_up_det _ _ _ _ _ Hl Hl') as Hd. apply (f_equal length) in Hd.
  simpl in Hd. lia.
Qed.

(** [dict_get] finds the unique child of a dict key. *)
Lemma sw_get t n nd ck c :
  shape_wf ps eagle t → nodes t !! n = Some nd →
  dict_get ck (children nd) = Some c ↔ (ck, c) ∈ children nd.
Proof.
  intros Hw Hn. split; [apply dict_get_elem|].
  apply dict_elem_get. by eapply sw_nodup.
Qed.

Lemma sw_parent_node t n nd :
  (1 ≤ ps)%nat → shape_wf ps eagle t → nodes t !! n = Some nd → n ≠ root_node t →
  ∃ p pnd ck, parent nd = Some p ∧ nodes t !! p = Some pnd ∧
    child_key (nkey nd) ps = Ok ck ∧ (ck, n) ∈ children pnd ∧ p ≠ n ∧
    (p ≠ root_node t → extra_key (nkey nd) = extra_key (nkey pnd)).
Proof.
  intros Hps Hw Hn Hne. destruct (sw_parent _ _ _ Hw n _ _ (pk_Some _ _ _ Hn) Hne)
    as (p & pp & kp & Hp & Hkp & Hx).
  apply pk_inv in Hkp as (pnd & Hpn & _ & <-).
  destruct (sw_node _ _ _ Hw _ _ Hn Hne) as (Hlen & _).
  destruct (child_key_units (nkey nd) ps Hps Hlen) as (ck & Hck & _).
  assert (Hin : ((extra_key (nkey nd), ck), n) ∈ children pnd).
  { apply (sw_edges _ _ _ Hw _ _ _ _ Hpn). exists (nkey nd). split; [|done].
    rewrite <-Hp. by apply pk_Some. }
  exists p, pnd, (extra_key (nkey nd), ck). split_and!; try done.
  destruct (sw_child t p pnd _ _ Hw Hpn Hin) as (_ & _ & _ & _ & _ & ?). congruence.
Qed.
End shape_facts.

(** ** Leaf status *)

Definition leaf_update (t : Tree) (n : nat) (nd : TreeNode) : Tree :=
  set_leaves t (if decide (is_leaf nd) then evictable_leaves t ∪ {[n]}
                else evictable_leaves t ∖ {[n]}).

(** In a plain cache every node holds device KV, so the status of a node is
    decided by its lock and its children. *)
Definition all_resident (t : Tree) : Prop :=
  ∀ n nd, nodes t !! n = Some nd → evicted nd = false.

Lemma update_leaf_status_ok t n nd :
  all_resident t → nodes t !! n = Some nd → 0 ≤ lock_ref nd →
  (∀ c, c ∈ (children nd).*2 → is_Some (nodes t !! c)) →
  update_leaf_status t n = Ok (leaf_update t n nd).
Proof.
  intros Hv Hn Hl Hc. unfold update_leaf_status, leaf_update. rewrite Hn. cbn [of_option rbind].
  rewrite (Hv n nd Hn). cbn [orb]. destruct (Z.ltb_spec 0 (lock_ref nd)).
  { rewrite decide_False by (intros [? _]; lia). done. }
  case_decide as Hd; [destruct Hd as [_ ->]; done|].
  destruct (children nd) as [|[ck c] cs] eqn:E.
  - destruct Hd. split; [lia|done].
  - cbn.
    destruct (Hc c) as [cnd Hcn]; [by left|]. rewrite Hcn. cbn. by rewrite (Hv c cnd Hcn).
Qed.

Lemma shape_all_resident ps eagle t : shape_wf ps eagle t → all_resident t.
Proof.
  intros Hw n nd Hn. destruct (sw_value t n nd Hw Hn) as [v Hv]. unfold evicted. by rewrite Hv.
Qed.

Lemma shape_children_in ps eagle t n nd c :
  shape_wf ps eagle t → nodes t !! n = Some nd → c ∈ (children nd).*2 → is_Some (nodes t !! c).
Proof.
  intros Hw Hn Hc. apply list_elem_of_fmap in Hc as ([ck c'] & -> & Hc).
  destruct (sw_child t n nd ck c' Hw Hn Hc) as (cnd & ? & _). eauto.
Qed.

(** ** Changing a lock count *)

(** [t'] is [t] with [d] added to the lock count of the nodes of [l]. *)
Definition bumped (d : Z) (l : list nat) (t t' : Tree) : Prop :=
  root_node t' = root_node t ∧ counter t' = counter t ∧
  ∀ x, nodes t' !! x =
    (λ nd, set_lock_ref (lock_ref nd + d * Z.of_nat (pcount x l)) nd) <$> nodes t !! x.

Lemma set_lock_ref_id nd : set_lock_ref (lock_ref nd) nd = nd.
Proof. by destruct nd. Qed.

Lemma bumped_nil d t t' :
  root_node t' = root_node t → counter t' = counter t → nodes t' = nodes t → bumped d [] t t'.
Proof.
  intros ?? Hn. split_and!; [done..|]. intros x. rewrite Hn. destruct (nodes t !! x) as [nd|]; [|done].
  cbn. rewrite Z.mul_0_r, Z.add_0_r. by rewrite set_lock_ref_id.
Qed.

Lemma bumped_cons d n l t t1 t2 :
  bumped d [n] t t1 → bumped d l t1 t2 → bumped d (n :: l) t t2.
Proof.
  intros (Hr1 & Hc1 & Hn1) (Hr2 & Hc2 & Hn2). split_and!; [congruence..|].
  intros x. rewrite Hn2, Hn1. destruct (nodes t !! x) as [nd|]; [|done]. cbn.
  f_equal. unfold set_lock_ref. cbn. f_equal. lia.
Qed.

Lemma bumped_pk d l t t' n : bumped d l t t' → pk t' n = pk t n.
Proof. intros (_ & _ & Hn). unfold pk. rewrite Hn. by destruct (nodes t !! n). Qed.

Lemma bumped_par d l t t' n : bumped d l t t' → par_of t' n = par_of t n.
Proof. intros Hb. unfold par_of. by rewrite (bumped_pk _ _ _ _ _ Hb). Qed.

Lemma bumped_lookup d l t t' x nd' :
  bumped d l t t' → nodes t' !! x = Some nd' →
  ∃ nd, nodes t !! x = Some nd ∧
    nd' = set_lock_ref (lock_ref nd + d * Z.of_nat (pcount x l)) nd.
Proof. intros (_ & _ & Hn). rewrite Hn. intros (nd & ? & ->)%fmap_Some. eauto. Qed.

Lemma bumped_path d l t t' n q :
  bumped d l t t' → path_up (root_node t) (par_of t) n q →
  path_up (root_node t') (par_of t') n q.
Proof.
  intros Hb. pose proof Hb as (-> & _). apply path_up_mono.
  intros x p _ Hx. by rewrite (bumped_par d l t t').
Qed.

(** The counts stay natural and the root is not touched: the shape is kept. *)
Lemma bumped_shape ps eagle d l t t' :
  bumped d l t t' → root_node t ∉ l →
  (∀ x nd, nodes t !! x = Some nd → x ≠ root_node t →
     0 ≤ lock_ref nd + d * Z.of_nat (pcount x l)) →
  shape_wf ps eagle t → shape_wf ps eagle t'.
Proof.
  intros Hb Hrl Hpos Hw. pose proof Hb as (Hr & Hc & Hn). split.
  - destruct (sw_root _ _ _ Hw) as (rn & Hrn & Hok). rewrite Hr, Hn, Hrn. cbn.
    eexists; split; [done|]. unfold root_ok in *. cbn.
    rewrite (pcount_notin _ _ Hrl). by replace (lock_ref rn + d * Z.of_nat 0) with (lock_ref rn) by lia.
  - intros n nd Hnd Hne. rewrite Hr in Hne.
    destruct (bumped_lookup _ _ _ _ _ _ Hb Hnd) as (nd0 & Hn0 & ->).
    destruct (sw_node _ _ _ Hw _ _ Hn0 Hne) as (? & ? & ? & ? & ?).
    split_and!; try done. cbn. by apply Hpos.
  - intros n op k. rewrite Hr, (bumped_pk d l t t' n) by done.
    intros Hk Hne. destruct (sw_parent _ _ _ Hw _ _ _ Hk Hne) as (p & pp & kp & ? & ? & ?).
    exists p, pp, kp. by rewrite (bumped_pk d l t t').
  - intros n nd Hnd. destruct (bumped_lookup _ _ _ _ _ _ Hb Hnd) as (nd0 & Hn0 & ->).
    by apply (sw_nodup _ _ _ Hw _ _ Hn0).
  - intros n nd ck c Hnd. destruct (bumped_lookup _ _ _ _ _ _ Hb Hnd) as (nd0 & Hn0 & ->).
    rewrite (bumped_pk d l t t') by done. apply (sw_edges _ _ _ Hw _ _ _ _ Hn0).
  - intros n Hnd. rewrite Hn, fmap_is_Some in Hnd.
    destruct (sw_path _ _ _ Hw n Hnd) as [q Hq]. exists q. by eapply bumped_path.
  - intros n Hnd. rewrite Hn, fmap_is_Some in Hnd. rewrite Hc. by apply (sw_fresh _ _ _ Hw).
Qed.

(** One turn of a climb: the count of [n] becomes [z], and the accounts follow. *)
Definition lock_turn (t : Tree) (n : nat) (nd : TreeNode) (z : Z) (e p : Z) : Tree :=
  leaf_update (put_node n (set_lock_ref z nd) (set_sizes t e p)) n (set_lock_ref z nd).

Lemma lock_turn_bumped t n nd z d e p :
  nodes t !! n = Some nd → z = lock_ref nd + d → bumped d [n] t (lock_turn t n nd z e p).
Proof.
  intros Hn ->. split_and!; [done..|]. intros x. cbn -[pcount].
  destruct (decide (x = n)) as [->|Hx].
  - rewrite lookup_insert_eq, Hn. cbn. rewrite delta_eq. do 3 f_equal. lia.
  - rewrite lookup_insert_ne by done. destruct (nodes t !! x) as [xnd|]; [|done]. cbn.
    rewrite delta_ne by done. replace (lock_ref xnd + d * _) with (lock_ref xnd) by lia.
    by rewrite set_lock_ref_id.
Qed.

Lemma lock_turn_acct t n nd z e p :
  acct_wf t → nodes t !! n = Some nd → n ≠ root_node t →
  e = evictable_size_ t - free_len (root_node t) n nd
      + free_len (root_node t) n (set_lock_ref z nd) →
  p = protected_size_ t - held_len (root_node t) n nd
      + held_len (root_node t) n (set_lock_ref z nd) →
  acct_wf (lock_turn t n nd z e p).
Proof.
  intros [Hf Hh Hl] Hn Hne -> ->. split; cbn.
  - rewrite (map_sum_insert _ _ _ _ nd) by done. by rewrite Hf.
  - rewrite (map_sum_insert _ _ _ _ nd) by done. by rewrite Hh.
  - intros x. destruct (decide (x = n)) as [->|Hx].
    + rewrite lookup_insert_eq. case_decide as Hd.
      * split; [eauto|set_solver].
      * split; [set_solver|]. by intros (? & [= <-] & ?).
    + rewrite lookup_insert_ne by done. case_decide; set_solver.
Qed.

(** A climb visits the nodes of the path to the root and adds [d] to each
    count; the result is the change of the evictable size, negated for a
    decrement. *)
Section climbs.
Context {ps : nat} {eagle : bool}.

Lemma path_nodes t n l :
  path_up (root_node t) (par_of t) n l → ∀ x, x ∈ l → is_Some (nodes t !! x).
Proof.
  intros Hl x Hx. destruct (path_up_par _ _ _ _ _ Hl Hx) as [_ [p Hp]].
  unfold par_of in Hp. apply pk_is_Some. destruct (pk t x); [eauto|done].
Qed.

Lemma path_length t n l :
  path_up (root_node t) (par_of t) n l → (length l ≤ size (nodes t))%nat.
Proof.
  intros Hl. rewrite <-size_dom, <-(size_list_to_set (C := gset nat) l)
    by by eapply path_up_NoDup.
  apply subseteq_size. intros x Hx. apply elem_of_list_to_set in Hx.
  apply elem_of_dom. by eapply path_nodes.
Qed.

Lemma status_after t t1 n nd z :
  shape_wf ps eagle t → nodes t !! n = Some nd → nodes t1 = nodes t → 0 ≤ z →
  update_leaf_status (put_node n (set_lock_ref z nd) t1) n =
    Ok (leaf_update (put_node n (set_lock_ref z nd) t1) n (set_lock_ref z nd)).
Proof.
  intros Hw Hn Ht1 Hz. apply update_leaf_status_ok.
  - intros x xnd. cbn. rewrite Ht1. intros [[<- <-]|[_ Hx]]%lookup_insert_Some.
    + change (evicted nd = false). by eapply shape_all_resident.
    + by eapply shape_all_resident.
  - cbn. by rewrite lookup_insert_eq.
  - done.
  - intros c Hc. cbn in *. rewrite Ht1. apply lookup_insert_is_Some'. right.
    by eapply shape_children_in.
Qed.

Lemma turn_ok t n nd d z c :
  shape_wf ps eagle t → acct_wf t → nodes t !! n = Some nd → n ≠ root_node t →
  z = lock_ref nd + d → 0 ≤ z →
  c = free_len (root_node t) n (set_lock_ref z nd) - free_len (root_node t) n nd →
  let t' := lock_turn t n nd z (evictable_size_ t + c) (protected_size_ t - c) in
  bumped d [n] t t' ∧ shape_wf ps eagle t' ∧ acct_wf t'.
Proof.
  intros Hw Ha Hn Hne Hz Hpos Hc t'.
  pose proof (lock_turn_bumped t n nd z d (evictable_size_ t + c) (protected_size_ t - c)
    Hn Hz) as Hb.
  split_and!; [done| |].
  - eapply bumped_shape; [done|set_solver| |done]. intros x xnd Hx _. cbn.
    pose proof (sw_lock_nonneg _ _ _ Hw Hx). destruct (decide (x = n)) as [->|Hxn].
    + rewrite delta_eq. simplify_eq. lia.
    + rewrite delta_ne by done. lia.
  - apply lock_turn_acct; try done; subst c; unfold free_len, held_len, len_if;
      rewrite (proj2 (Nat.eqb_neq n (root_node t))) by done;
      cbn [negb andb set_lock_ref lock_ref nkey];
      destruct (lock_ref nd =? 0), (z =? 0); cbn; lia.
Qed.

Lemma inc_loop_ok fuel t n l delta :
  shape_wf ps eagle t → acct_wf t → path_up (root_node t) (par_of t) n l →
  (length l < fuel)%nat →
  ∃ delta' t', inc_loop fuel t n delta = Ok (delta', t') ∧ bumped 1 l t t' ∧
    shape_wf ps eagle t' ∧ acct_wf t' ∧
    evictable_size_ t' = evictable_size_ t + (delta' - delta) ∧
    protected_size_ t' = protected_size_ t - (delta' - delta).
Proof.
  revert t n l delta; induction fuel as [|fuel IH]; intros t n l delta Hw Ha Hl Hf; [lia|].
  cbn [inc_loop]. inversion Hl as [|? p l' Hne Hp Hl']; subst.
  { unfold is_root. rewrite Nat.eqb_refl. exists delta, t. split_and!; try done; try lia.
    by apply bumped_nil. }
  unfold par_of in Hp. destruct (pk t n) as [[op k]|] eqn:Hk; [|done]. cbn in Hp.
  apply pk_inv in Hk as (nd & Hn & <- & <-). unfold is_root.
  rewrite (proj2 (Nat.eqb_neq n (root_node t))) by done. rewrite Hn. cbn [of_option rbind].
  pose proof (sw_lock_nonneg _ _ _ Hw Hn) as Hpos.
  set (b := lock_ref nd =? 0). set (len := Z.of_nat (key_len (nkey nd))).
  set (c := if b then - len else 0).
  destruct (turn_ok t n nd 1 (lock_ref nd + 1) c) as (Hb & Hw1 & Ha1); try done; try lia.
  { subst c. unfold free_len, len_if. rewrite (proj2 (Nat.eqb_neq n (root_node t))) by done.
    cbn [negb andb set_lock_ref lock_ref nkey]. fold b len.
    destruct (Z.eqb_spec (lock_ref nd + 1) 0); [lia|]. destruct b; lia. }
  set (t1 := lock_turn t n nd _ _ _) in *.
  destruct (IH t1 p l' (delta + c)) as (delta' & t' & Hrun & Hb' & Hw' & Ha' & He & Hq);
    [done|done|by eapply bumped_path|cbn in Hf; lia|].
  exists delta', t'. split_and!; [|by eapply bumped_cons|done|done| |];
    [|subst t1; cbn in He; lia|subst t1; cbn in Hq; lia].
  rewrite <-Hrun. unfold t1, lock_turn, c.
  destruct b; (rewrite (status_after t) by (done || lia)); cbn [rbind]; rewrite Hp;
    cbn [of_option rbind]; rewrite ?Z.add_0_r, ?Z.sub_0_r, ?Z.sub_opp_r; done.
Qed.

Lemma dec_loop_ok fuel t n l delta :
  shape_wf ps eagle t → acct_wf t → path_up (root_node t) (par_of t) n l →
  (∀ x nd, x ∈ l → nodes t !! x = Some nd → 1 ≤ lock_ref nd) →
  (length l < fuel)%nat →
  ∃ delta' t', dec_loop fuel t n delta = Ok (delta', t') ∧ bumped (-1) l t t' ∧
    shape_wf ps eagle t' ∧ acct_wf t' ∧
    evictable_size_ t' = evictable_size_ t + (delta' - delta) ∧
    protected_size_ t' = protected_size_ t - (delta' - delta).
Proof.
  revert t n l delta; induction fuel as [|fuel IH]; intros t n l delta Hw Ha Hl Hlk Hf; [lia|].
  cbn [dec_loop]. pose proof (path_up_NoDup _ _ _ _ Hl) as Hnd.
  inversion Hl as [|? p l' Hne Hp Hl']; subst.
  { unfold is_root. rewrite Nat.eqb_refl. exists delta, t. split_and!; try done; try lia.
    by apply bumped_nil. }
  unfold par_of in Hp. destruct (pk t n) as [[op k]|] eqn:Hk; [|done]. cbn in Hp.
  apply pk_inv in Hk as (nd & Hn & <- & <-). unfold is_root.
  rewrite (proj2 (Nat.eqb_neq n (root_node t))) by done. rewrite Hn. cbn [of_option rbind].
  assert (Hpos : 1 ≤ lock_ref nd) by (apply (Hlk n); [by left|done]).
  set (b := lock_ref nd =? 1). set (len := Z.of_nat (key_len (nkey nd))).
  set (c := if b then len else 0).
  destruct (turn_ok t n nd (-1) (lock_ref nd - 1) c) as (Hb & Hw1 & Ha1); try done; try lia.
  { subst c. unfold free_len, len_if. rewrite (proj2 (Nat.eqb_neq n (root_node t))) by done.
    cbn [negb andb set_lock_ref lock_ref nkey]. fold len.
    destruct (Z.eqb_spec (lock_ref nd) 0); [lia|]. subst b.
    destruct (Z.eqb_spec (lock_ref nd - 1) 0), (Z.eqb_spec (lock_ref nd) 1); lia. }
  set (t1 := lock_turn t n nd _ _ _) in *. apply NoDup_cons in Hnd as [Hnl _].
  destruct (IH t1 p l' (delta + c)) as (delta' & t' & Hrun & Hb' & Hw' & Ha' & He & Hq);
    [done|done|by eapply bumped_path| |cbn in Hf; lia|].
  { intros x xnd Hx Hxn. destruct (bumped_lookup _ _ _ _ _ _ Hb Hxn) as (xnd0 & Hx0 & ->).
    cbn -[pcount]. rewrite pcount_notin by (intros ->%list_elem_of_singleton; done).
    pose proof (Hlk x xnd0 ltac:(by right) Hx0). lia. }
  exists delta', t'. split_and!; [|by eapply bumped_cons|done|done| |];
    [|subst t1; cbn in He; lia|subst t1; cbn in Hq; lia].
  rewrite <-Hrun. unfold t1, lock_turn, c.
  destruct b; (rewrite (status_after t) by (done || lia)); cbn [rbind]; rewrite Hp;
    cbn [of_option rbind]; rewrite ?Z.add_0_r, ?Z.sub_0_r; done.
Qed.
End climbs.

(** Neither side of an edge equivalence can hold. *)
Ltac no_edge := split; intros (? & ? & ?); exfalso; congruence.

(** ** Splitting a node *)

Definition tree_split (t : Tree) (ck rest_key : child_key_t) (p : nat) (pnd : TreeNode)
    (c : nat) (cnd : TreeNode) (k1 k2 : RadixKey) (v1 v2 : list Z) : Tree :=
  let m := counter t in
  put_node p (set_children (dict_set ck m (children pnd)) pnd)
    (put_node c (mkNode (children cnd) (Some m) k2 (Some v2) (lock_ref cnd))
      (put_node m (mkNode [(rest_key, c)] (Some p) k1 (Some v1) (lock_ref cnd)) (next_id t))).

Section split.
Context {ps : nat} {eagle : bool}.
Context (t : Tree) (ck rest_key : child_key_t) (p c : nat) (pnd cnd : TreeNode)
  (k1 k2 : RadixKey) (v1 v2 : list Z).
Hypothesis Hps : (1 ≤ ps)%nat.
Hypothesis Hw : shape_wf ps eagle t.
Hypothesis Hc : nodes t !! c = Some cnd.
Hypothesis Hcr : c ≠ root_node t.
Hypothesis Hcp : parent cnd = Some p.
Hypothesis Hp : nodes t !! p = Some pnd.
Hypothesis Hck : child_key (nkey cnd) ps = Ok ck.
Hypothesis Hck1 : child_key k1 ps = Ok ck.
Hypothesis Hck2 : child_key k2 ps = Ok rest_key.
Hypothesis He1 : extra_key k1 = extra_key (nkey cnd).
Hypothesis He2 : extra_key k2 = extra_key (nkey cnd).
Hypothesis Hok1 : node_ok ps eagle (mkNode [(rest_key, c)] (Some p) k1 (Some v1) (lock_ref cnd)).
Hypothesis Hok2 : node_ok ps eagle
  (mkNode (children cnd) (Some (counter t)) k2 (Some v2) (lock_ref cnd)).
Hypothesis Hlen : (key_len k1 + key_len k2 = key_len (nkey cnd))%nat.

Let m := counter t.
Let t' := tree_split t ck rest_key p pnd c cnd k1 k2 v1 v2.

Lemma split_fresh x : is_Some (nodes t !! x) → x ≠ m.
Proof. intros Hx ->. apply (sw_fresh _ _ _ Hw) in Hx. subst m. clear -Hx. lia. Qed.

Lemma split_ne : p ≠ c ∧ p ≠ m ∧ c ≠ m.
Proof.
  destruct (sw_parent_node t c cnd Hps Hw Hc Hcr) as (p' & ? & ? & ? & _ & _ & _ & ? & _).
  split_and!; [congruence|..]; apply split_fresh; eauto.
Qed.

Lemma split_lookup x :
  nodes t' !! x =
    if decide (x = p) then Some (set_children (dict_set ck m (children pnd)) pnd)
    else if decide (x = c) then Some (mkNode (children cnd) (Some m) k2 (Some v2) (lock_ref cnd))
    else if decide (x = m)
      then Some (mkNode [(rest_key, c)] (Some p) k1 (Some v1) (lock_ref cnd))
    else nodes t !! x.
Proof.
  unfold t', tree_split. cbn. fold m. rewrite !lookup_insert.
  repeat case_decide; congruence.
Qed.

Lemma split_pk x :
  pk t' x = if decide (x = c) then Some (Some m, k2)
    else if decide (x = m) then Some (Some p, k1) else pk t x.
Proof.
  destruct split_ne as (? & ? & ?). unfold pk. rewrite split_lookup.
  repeat case_decide; subst; try done. by rewrite Hp.
Qed.

Lemma split_old_pk : pk t c = Some (Some p, nkey cnd) ∧ pk t m = None.
Proof.
  split; [by rewrite (pk_Some _ _ _ Hc), Hcp|].
  destruct (pk t m) eqn:E; [|done]. exfalso. apply (split_fresh m); [|done].
  apply pk_is_Some. eauto.
Qed.

(** No node hangs below the fresh id. *)
Lemma split_no_child x k : pk t x ≠ Some (Some m, k).
Proof.
  intros Hx. destruct (decide (x = root_node t)) as [->|Hne].
  - pose proof (sw_root_par t Hw) as Hr. unfold par_of in Hr. by rewrite Hx in Hr.
  - destruct (sw_parent _ _ _ Hw _ _ _ Hx Hne) as (q & ? & ? & [= <-] & Hq & _).
    destruct split_old_pk. congruence.
Qed.

Lemma split_edges n nd ck' c' : nodes t' !! n = Some nd →
  (ck', c') ∈ children nd ↔ ∃ k, pk t' c' = Some (Some n, k) ∧ child_key k ps = Ok ck'.
Proof.
  destruct split_ne as (Hpc & Hpm & Hcm). destruct split_old_pk as [Hoc Hom].
  assert (Hin : (ck, c) ∈ children pnd).
  { apply (sw_edges _ _ _ Hw _ _ _ _ Hp). eauto. }
  rewrite split_lookup. repeat case_decide; subst.
  - intros [= <-]. cbn. rewrite elem_of_dict_set by by eapply sw_nodup.
    rewrite (sw_edges _ _ _ Hw _ _ _ _ Hp), split_pk. repeat case_decide; subst.
    + split; [|naive_solver]. intros [[-> ->]|(Hne & k & Hk & Hkk)]; [done|].
      exfalso. rewrite Hoc in Hk. congruence.
    + rewrite Hom. split; [intros [[-> _]|(_ & ? & ? & _)]; [eauto|done]|].
      intros (k & [= <-] & ?). left. split; [congruence|done].
    + split; [intros [[-> ->]|(_ & ?)]; [done|done]|]. intros Hk. right.
      split; [|done]. intros ->. apply (sw_edges _ _ _ Hw _ _ _ _ Hp) in Hk.
      pose proof (dict_elem_get _ _ _ (sw_nodup _ _ _ Hw _ _ Hp) Hk).
      pose proof (dict_elem_get _ _ _ (sw_nodup _ _ _ Hw _ _ Hp) Hin). congruence.
  - intros [= <-]. cbn. rewrite (sw_edges _ _ _ Hw _ _ _ _ Hc), split_pk.
    repeat case_decide; subst; rewrite ?Hoc, ?Hom; [no_edge..|done].
  - intros [= <-]. cbn. rewrite list_elem_of_singleton, split_pk.
    repeat case_decide; subst.
    + split; [intros [= ->]; eauto|]. intros (k & [= <-] & ?). congruence.
    + split; [congruence|]. intros (k & [= ? _] & _). congruence.
    + split; [congruence|]. intros (k & Hk & _). by apply split_no_child in Hk.
  - intros Hn. rewrite (sw_edges _ _ _ Hw _ _ _ _ Hn), split_pk.
    repeat case_decide; subst; rewrite ?Hoc, ?Hom; [no_edge..|done].
Qed.

Lemma split_par x :
  par_of t' x = if decide (x = c) then Some m else if decide (x = m) then Some p else par_of t x.
Proof.
  unfold par_of. rewrite split_pk. by repeat case_decide.
Qed.

Lemma split_path n l :
  n ≠ m → path_up (root_node t) (par_of t) n l →
  path_up (root_node t') (par_of t') n (splice c m l).
Proof.
  destruct split_ne as (Hpc & Hpm & Hcm). destruct split_old_pk as [Hoc Hom].
  intros Hn. apply path_up_splice with (p := p); try done.
  - unfold par_of. by rewrite Hoc.
  - unfold par_of. by rewrite Hom.
  - intros E. destruct (sw_root _ _ _ Hw) as (rn & Hr & _).
    apply (split_fresh (root_node t)); eauto.
  - rewrite split_par. by rewrite decide_True.
  - rewrite split_par. by rewrite decide_False, decide_True.
  - intros x Hx Hx'. rewrite split_par. by rewrite !decide_False.
Qed.

Lemma split_shape : shape_wf ps eagle t'.
Proof.
  destruct split_ne as (Hpc & Hpm & Hcm). destruct split_old_pk as [Hoc Hom].
  assert (Hrm : root_node t ≠ m).
  { destruct (sw_root _ _ _ Hw) as (rn & Hr & _). apply split_fresh. eauto. }
  split; change (root_node t') with (root_node t).
  - destruct (sw_root _ _ _ Hw) as (rn & Hr & Hok). rewrite split_lookup.
    repeat case_decide; simplify_eq; eauto.
  - intros n nd. rewrite split_lookup. repeat case_decide; subst; intros ? Hne; simplify_eq; try done.
    + pose proof (sw_node _ _ _ Hw _ _ Hp Hne) as Hok. exact Hok.
    + by eapply sw_node.
  - intros n op k. rewrite split_pk. setoid_rewrite split_pk. repeat case_decide; subst.
    + intros [= <- <-] _. exists m, (Some p), k1. split_and!; [done| |congruence].
      by rewrite decide_False, decide_True.
    + intros [= <- <-] _. destruct (sw_parent _ _ _ Hw _ _ _ Hoc Hcr)
        as (q & pp & kp & [= <-] & Hq & Hx).
      exists p, pp, kp. rewrite !decide_False by done. split_and!; [done..|].
      rewrite He1. done.
    + intros Hn Hne. destruct (sw_parent _ _ _ Hw _ _ _ Hn Hne) as (q & pp & kp & -> & Hq & Hx).
      destruct (decide (q = c)) as [->|Hqc].
      * exists c, (Some m), k2. rewrite decide_True by done. split_and!; [done..|].
        intros Hq'. rewrite He2. rewrite Hoc in Hq. simplify_eq. by apply Hx.
      * exists q, pp, kp. rewrite !decide_False; [done| |done]. intros ->. congruence.
  - intros n nd. rewrite split_lookup. repeat case_decide; subst; intros ?; simplify_eq; cbn.
    + apply dict_set_NoDup. by eapply sw_nodup.
    + by eapply sw_nodup.
    + apply NoDup_singleton.
    + by eapply sw_nodup.
  - apply split_edges.
  - intros n Hn. destruct (decide (n = m)) as [->|Hnm].
    + destruct (sw_path _ _ _ Hw p) as [l Hl]; [eauto|]. exists (m :: splice c m l).
      econstructor; [done| |].
      * rewrite split_par. by rewrite decide_False, decide_True.
      * by apply split_path.
    + destruct (sw_path _ _ _ Hw n) as [l Hl].
      { rewrite split_lookup in Hn. repeat case_decide; subst; eauto. done. }
      eexists. by apply split_path.
  - intros n. rewrite split_lookup. unfold t', tree_split. cbn. fold m.
    intros Hn. assert (n = m ∨ is_Some (nodes t !! n)) as [->|Ho]; [|lia|].
    { repeat case_decide; subst; eauto. }
    apply (sw_fresh _ _ _ Hw) in Ho. subst m. lia.
Qed.

Lemma split_lock L : lock_wf t L → lock_wf t' L.
Proof.
  destruct split_ne as (Hpc & Hpm & Hcm). destruct split_old_pk as [Hoc Hom].
  intros (P & HP & Hcnt). exists (splice c m <$> P).
  assert (Hmem : ∀ q, q ∈ P → m ∉ q).
  { intros q Hq Hmq. apply list_elem_of_lookup in Hq as [i Hi].
    destruct (Forall2_lookup_r _ _ _ _ _ HP Hi) as (h & _ & Hh).
    destruct (path_nodes _ _ _ Hh m Hmq) as [nd Hnd]. by apply (split_fresh m); eauto. }
  assert (Hsum : ∀ x, x ≠ m → pcount x (concat (splice c m <$> P)) = pcount x (concat P)).
  { intros x Hx. clear -Hx. induction P as [|q P IH]; [done|]. cbn.
    by rewrite !pcount_app, IH, splice_pcount. }
  split.
  - apply Forall2_fmap_r. apply (Forall2_impl _ _ _ _ HP). intros h l Hl.
    apply split_path; [|done]. intros ->. inversion Hl; subst.
    + destruct (sw_root _ _ _ Hw) as (rn & Hr & _). apply (split_fresh (root_node t)); eauto.
    + match goal with H : par_of t m = _ |- _ => unfold par_of in H; by rewrite Hom in H end.
  - change (root_node t') with (root_node t). intros n nd. rewrite split_lookup.
    repeat case_decide; subst; intros ? Hne; simplify_eq; cbn.
    + rewrite Hsum by done. by apply Hcnt.
    + rewrite Hsum by done. by apply Hcnt.
    + rewrite (Hcnt c cnd Hc Hcr). f_equal. clear -Hmem Hcm.
      induction P as [|q P IH]; [done|]. cbn. rewrite !pcount_app, IH by set_solver.
      rewrite splice_pcount_new; [done|]. apply Hmem. by left.
    + rewrite Hsum by done. by apply Hcnt.
Qed.

Lemma split_sum f :
  f p (set_children (dict_set ck m (children pnd)) pnd) = f p pnd →
  map_sum f (nodes t') = map_sum f (nodes t) - f c cnd
    + f c (mkNode (children cnd) (Some m) k2 (Some v2) (lock_ref cnd))
    + f m (mkNode [(rest_key, c)] (Some p) k1 (Some v1) (lock_ref cnd)).
Proof.
  destruct split_ne as (Hpc & Hpm & Hcm). destruct split_old_pk as [_ Hom].
  intros Hf. unfold t', tree_split. cbn. fold m.
  assert (nodes t !! m = None).
  { apply eq_None_not_Some. rewrite <-pk_is_Some, Hom. by intros [? ?]. }
  rewrite (map_sum_insert _ _ _ _ pnd) by (by rewrite !lookup_insert_ne).
  rewrite (map_sum_insert _ _ _ _ cnd) by (by rewrite lookup_insert_ne).
  rewrite map_sum_insert_new by done. rewrite Hf. clear. lia.
Qed.

Lemma split_acct : acct_wf t → acct_wf t'.
Proof.
  destruct split_ne as (Hpc & Hpm & Hcm). destruct split_old_pk as [Hoc Hom].
  intros [Hf Hh Hl]. assert (Hmr : m ≠ root_node t).
  { destruct (sw_root _ _ _ Hw) as (rn & Hr & _). intros E. apply (split_fresh (root_node t)); eauto. }
  split; change (root_node t') with (root_node t).
  - change (evictable_size_ t') with (evictable_size_ t). rewrite Hf, split_sum by done.
    unfold free_len, len_if. rewrite !(proj2 (Nat.eqb_neq _ (root_node t))) by done. cbn.
    destruct (lock_ref cnd =? 0); lia.
  - change (protected_size_ t') with (protected_size_ t). rewrite Hh, split_sum by done.
    unfold held_len, len_if. rewrite !(proj2 (Nat.eqb_neq _ (root_node t))) by done. cbn.
    destruct (lock_ref cnd =? 0); cbn; lia.
  - intros x. change (evictable_leaves t') with (evictable_leaves t). rewrite Hl, split_lookup.
    unfold is_leaf. repeat case_decide; subst; cbn.
    + split.
      * intros (nd & Hnd & _ & Hch). rewrite Hp in Hnd. injection Hnd as <-.
        assert ((ck, c) ∈ children pnd) as Hin by (apply (sw_edges _ _ _ Hw _ _ _ _ Hp); eauto).
        rewrite Hch in Hin. by apply not_elem_of_nil in Hin.
      * intros (nd & [= <-] & ? & Hch). cbn in Hch.
        by destruct (children pnd) as [|[? ?] ?]; cbn in Hch; [|case_decide].
    + rewrite Hc. naive_solver.
    + rewrite eq_None_not_Some in Hom. rewrite pk_is_Some in Hom. naive_solver.
    + done.
Qed.
End split.

(** ** Adding a leaf *)

Definition tree_add (t : Tree) (ck : child_key_t) (p : nat) (pnd : TreeNode) (k : RadixKey)
    (v : list Z) : Tree :=
  let m := counter t in
  let pnd' := set_children (dict_set ck m (children pnd)) pnd in
  let nd := mkNode [] (Some p) k (Some v) 0 in
  let t1 := put_node p pnd' (put_node m nd (next_id t)) in
  let t2 := set_sizes t1 (evictable_size_ t + Z.of_nat (key_len k)) (protected_size_ t) in
  leaf_update (leaf_update t2 p pnd') m nd.

Section add.
Context {ps : nat} {eagle : bool}.
Context (t : Tree) (ck : child_key_t) (p : nat) (pnd : TreeNode) (k : RadixKey) (v : list Z).
Hypothesis Hw : shape_wf ps eagle t.
Hypothesis Hp : nodes t !! p = Some pnd.
Hypothesis Hnone : dict_get ck (children pnd) = None.
Hypothesis Hck : child_key k ps = Ok ck.
Hypothesis Hx : p ≠ root_node t → extra_key k = extra_key (nkey pnd).
Hypothesis Hok : node_ok ps eagle (mkNode [] (Some p) k (Some v) 0).

Let m := counter t.
Let t' := tree_add t ck p pnd k v.

Lemma add_fresh x : is_Some (nodes t !! x) → x ≠ m.
Proof. intros Hi ->. apply (sw_fresh _ _ _ Hw) in Hi. subst m. clear -Hi. lia. Qed.

Lemma add_old : nodes t !! m = None ∧ pk t m = None ∧ p ≠ m ∧ root_node t ≠ m.
Proof.
  assert (nodes t !! m = None) as E.
  { apply eq_None_not_Some. intros Hi. by apply (add_fresh m). }
  destruct (sw_root _ _ _ Hw) as (rn & Hr & _).
  split_and!; [done|unfold pk; by rewrite E|apply add_fresh; eauto..].
Qed.

Lemma add_lookup x :
  nodes t' !! x =
    if decide (x = p) then Some (set_children (dict_set ck m (children pnd)) pnd)
    else if decide (x = m) then Some (mkNode [] (Some p) k (Some v) 0)
    else nodes t !! x.
Proof.
  unfold t', tree_add. cbn. fold m. rewrite !lookup_insert. repeat case_decide; congruence.
Qed.

Lemma add_pk x : pk t' x = if decide (x = m) then Some (Some p, k) else pk t x.
Proof.
  destruct add_old as (_ & _ & ? & _). unfold pk. rewrite add_lookup.
  repeat case_decide; subst; try done. by rewrite Hp.
Qed.

Lemma add_no_child x k' : pk t x ≠ Some (Some m, k').
Proof.
  destruct add_old as (_ & Hom & _ & _).
  intros Hi. destruct (decide (x = root_node t)) as [->|Hne].
  - pose proof (sw_root_par t Hw) as Hr. unfold par_of in Hr. by rewrite Hi in Hr.
  - destruct (sw_parent _ _ _ Hw _ _ _ Hi Hne) as (q & ? & ? & [= <-] & Hq & _). congruence.
Qed.

Lemma add_edges n nd ck' c' : nodes t' !! n = Some nd →
  (ck', c') ∈ children nd ↔ ∃ k, pk t' c' = Some (Some n, k) ∧ child_key k ps = Ok ck'.
Proof.
  destruct add_old as (Hm & Hom & Hpm & Hrm).
  rewrite add_lookup. repeat case_decide; subst.
  - intros [= <-]. cbn. rewrite elem_of_dict_set by by eapply sw_nodup.
    rewrite (sw_edges _ _ _ Hw _ _ _ _ Hp), add_pk. case_decide; subst.
    + rewrite Hom. split; [intros [[-> _]|(_ & ? & ? & _)]; [eauto|done]|].
      intros (k0 & [= <-] & ?). left. split; [congruence|done].
    + split; [intros [[-> ->]|(_ & ?)]; [done|done]|]. intros Hk. right.
      split; [|done]. intros ->. apply (sw_edges _ _ _ Hw _ _ _ _ Hp) in Hk.
      apply (dict_elem_get _ _ _ (sw_nodup _ _ _ Hw _ _ Hp)) in Hk. congruence.
  - intros [= <-]. cbn. rewrite add_pk. split; [by intros ?%not_elem_of_nil|].
    intros (k0 & Hk & _). exfalso. case_decide; [congruence|]. by apply add_no_child in Hk.
  - intros Hn. rewrite (sw_edges _ _ _ Hw _ _ _ _ Hn), add_pk.
    case_decide; subst; rewrite ?Hom; [no_edge|done].
Qed.

Lemma add_par x : par_of t' x = if decide (x = m) then Some p else par_of t x.
Proof. unfold par_of. rewrite add_pk. by case_decide. Qed.

Lemma add_path n l :
  path_up (root_node t) (par_of t) n l → path_up (root_node t') (par_of t') n l.
Proof.
  destruct add_old as (Hm & Hom & _ & _). apply path_up_mono. intros x q _ Hq. rewrite add_par.
  case_decide; [|done]. subst. unfold par_of in Hq. by rewrite Hom in Hq.
Qed.

Lemma add_shape : shape_wf ps eagle t'.
Proof.
  destruct add_old as (Hm & Hom & Hpm & Hrm).
  split; change (root_node t') with (root_node t).
  - destruct (sw_root _ _ _ Hw) as (rn & Hr & Hrok). rewrite add_lookup.
    repeat case_decide; simplify_eq; eauto.
  - intros n nd. rewrite add_lookup. repeat case_decide; subst; intros ? Hne; simplify_eq.
    + pose proof (sw_node _ _ _ Hw _ _ Hp Hne) as Hpok. exact Hpok.
    + done.
    + by eapply sw_node.
  - intros n op k0. rewrite add_pk. setoid_rewrite add_pk. case_decide; subst.
    + intros [= <- <-] _. exists p, (parent pnd), (nkey pnd). rewrite decide_False by done.
      split_and!; [done|by apply pk_Some|done].
    + intros Hn Hne. destruct (sw_parent _ _ _ Hw _ _ _ Hn Hne) as (q & pp & kp & -> & Hq & ?).
      exists q, pp, kp. rewrite decide_False; [done|]. intros ->. congruence.
  - intros n nd. rewrite add_lookup. repeat case_decide; subst; intros ?; simplify_eq; cbn.
    + apply dict_set_NoDup. by eapply sw_nodup.
    + constructor.
    + by eapply sw_nodup.
  - apply add_edges.
  - intros n Hn. destruct (decide (n = m)) as [->|Hnm].
    + destruct (sw_path _ _ _ Hw p) as [l Hl]; [eauto|]. exists (m :: l).
      econstructor; [done| |by apply add_path]. rewrite add_par. by rewrite decide_True.
    + destruct (sw_path _ _ _ Hw n) as [l Hl].
      { rewrite add_lookup in Hn. repeat case_decide; subst; eauto. done. }
      exists l. by apply add_path.
  - intros n. rewrite add_lookup. change (counter t') with (S m). intros Hn.
    assert (n = m ∨ is_Some (nodes t !! n)) as [->|Ho]; [|clear; lia|].
    { repeat case_decide; subst; eauto. }
    apply (sw_fresh _ _ _ Hw) in Ho. subst m. clear -Ho. lia.
Qed.

Lemma add_lock L : lock_wf t L → lock_wf t' L.
Proof.
  destruct add_old as (Hm & Hom & Hpm & Hrm).
  intros (P & HP & Hcnt). exists P. split.
  - apply (Forall2_impl _ _ _ _ HP). intros h l. apply add_path.
  - change (root_node t') with (root_node t). intros n nd. rewrite add_lookup.
    repeat case_decide; subst; intros ? Hne; simplify_eq; cbn.
    + by apply Hcnt.
    + rewrite pcount_notin; [done|]. intros (q & Hmq & Hq)%elem_of_concat.
      apply list_elem_of_lookup in Hq as [i Hi].
      destruct (Forall2_lookup_r _ _ _ _ _ HP Hi) as (h & _ & Hh).
      destruct (path_nodes _ _ _ Hh m Hmq) as [nd Hnd]. congruence.
    + by apply Hcnt.
Qed.

Lemma add_acct : acct_wf t → acct_wf t'.
Proof.
  destruct add_old as (Hm & Hom & Hpm & Hrm). intros [Hf Hh Hl].
  assert (Hsum : ∀ f, f p (set_children (dict_set ck m (children pnd)) pnd) = f p pnd →
    map_sum f (nodes t') = map_sum f (nodes t) + f m (mkNode [] (Some p) k (Some v) 0)).
  { intros f Hfp. unfold t', tree_add. cbn. fold m.
    rewrite (map_sum_insert _ _ _ _ pnd) by (by rewrite lookup_insert_ne).
    rewrite map_sum_insert_new by done. rewrite Hfp. lia. }
  split; change (root_node t') with (root_node t).
  - rewrite Hsum by done. unfold free_len at 2. unfold len_if.
    rewrite (proj2 (Nat.eqb_neq m (root_node t))) by congruence. cbn. lia.
  - rewrite Hsum by done. unfold held_len at 2. unfold len_if.
    rewrite (proj2 (Nat.eqb_neq m (root_node t))) by congruence. cbn. lia.
  - intros x. rewrite add_lookup. unfold t', tree_add, leaf_update. cbn. fold m.
    rewrite (decide_True _ (_ ∪ {[m]})) by done.
    rewrite decide_False.
    2: { intros [_ Hd]. cbn in Hd. destruct (children pnd) as [|[? ?] ?]; cbn in Hd; [done|].
         by case_decide. }
    specialize (Hl x). repeat case_decide; subst.
    + split; [set_solver|]. intros (nd & [= <-] & _ & Hd). cbn in Hd.
      destruct (children pnd) as [|[? ?] ?]; cbn in Hd; [done|]. by case_decide.
    + split; [|set_solver]. intros _. eexists. split; [done|]. by split.
    + rewrite <-Hl. set_solver.
Qed.
End add.

(** ** Deleting a leaf *)

Definition tree_del (t : Tree) (ck : child_key_t) (p : nat) (pnd : TreeNode)
    (x : nat) (xnd : TreeNode) : Tree :=
  let pnd' := set_children (dict_del ck (children pnd)) pnd in
  let t1 := put_node p pnd' t in
  let t2 := set_sizes t1 (evictable_size_ t - Z.of_nat (key_len (nkey xnd))) (protected_size_ t) in
  let t3 := set_leaves t2 (evictable_leaves t ∖ {[x]}) in
  drop_node x (leaf_update t3 p pnd').

Section del.
Context {ps : nat} {eagle : bool}.
Context (t : Tree) (ck : child_key_t) (p x : nat) (pnd xnd : TreeNode).
Hypothesis Hps : (1 ≤ ps)%nat.
Hypothesis Hw : shape_wf ps eagle t.
Hypothesis Hxn : nodes t !! x = Some xnd.
Hypothesis Hxr : x ≠ root_node t.
Hypothesis Hxp : parent xnd = Some p.
Hypothesis Hp : nodes t !! p = Some pnd.
Hypothesis Hck : child_key (nkey xnd) ps = Ok ck.
Hypothesis Hleaf : is_leaf xnd.

Let t' := tree_del t ck p pnd x xnd.

Lemma del_ne : p ≠ x.
Proof.
  destruct (sw_parent_node t x xnd Hps Hw Hxn Hxr) as (p' & ? & ? & ? & _ & _ & _ & ? & _).
  congruence.
Qed.

Lemma del_lookup n :
  nodes t' !! n =
    if decide (n = x) then None
    else if decide (n = p) then Some (set_children (dict_del ck (children pnd)) pnd)
    else nodes t !! n.
Proof.
  unfold t', tree_del. cbn. rewrite lookup_delete, lookup_insert. repeat case_decide; congruence.
Qed.

Lemma del_pk n : pk t' n = if decide (n = x) then None else pk t n.
Proof. unfold pk. rewrite del_lookup. repeat case_decide; subst; try done. by rewrite Hp. Qed.

Lemma del_par n : par_of t' n = if decide (n = x) then None else par_of t n.
Proof. unfold par_of. rewrite del_pk. by case_decide. Qed.

Lemma del_no_child n k' : pk t n ≠ Some (Some x, k').
Proof.
  intros Hn. assert (Hne : n ≠ root_node t).
  { intros ->. pose proof (sw_root_par t Hw) as Hr. unfold par_of in Hr. by rewrite Hn in Hr. }
  pose proof Hn as Hn'. apply pk_inv in Hn' as (nd & Hnd & Hnp & _).
  destruct (sw_parent_node t n nd Hps Hw Hnd Hne) as (q & qnd & ck' & Hq & Hqn & _ & Hin & _).
  simplify_eq. destruct Hleaf as [_ Hch]. rewrite Hch in Hin. by apply not_elem_of_nil in Hin.
Qed.

Lemma del_path n l :
  n ≠ x → path_up (root_node t) (par_of t) n l → path_up (root_node t') (par_of t') n l.
Proof.
  intros Hn Hl. assert (x ∉ l).
  { eapply path_up_leaf; [|done|done]. intros y Hy. unfold par_of in Hy.
    destruct (pk t y) as [[op k]|] eqn:E; [|done]. cbn in Hy. subst op.
    by apply del_no_child in E. }
  revert Hl. apply path_up_mono. intros y q Hy Hq. rewrite del_par. rewrite decide_False; [done|].
  by intros ->.
Qed.

Lemma del_shape : shape_wf ps eagle t'.
Proof.
  pose proof del_ne as Hpx. split; change (root_node t') with (root_node t).
  - destruct (sw_root _ _ _ Hw) as (rn & Hr & Hrok). rewrite del_lookup.
    repeat case_decide; simplify_eq; eauto.
  - intros n nd. rewrite del_lookup. repeat case_decide; subst; intros ? Hne; simplify_eq.
    + pose proof (sw_node _ _ _ Hw _ _ Hp Hne) as Hpok. exact Hpok.
    + by eapply sw_node.
  - intros n op k0. rewrite del_pk. case_decide; subst; [done|]. intros Hn Hne.
    destruct (sw_parent _ _ _ Hw _ _ _ Hn Hne) as (q & pp & kp & -> & Hq & ?).
    exists q, pp, kp. rewrite del_pk, decide_False; [done|]. intros ->.
    by apply del_no_child in Hn.
  - intros n nd. rewrite del_lookup. repeat case_decide; subst; intros ?; simplify_eq; cbn.
    + apply dict_del_NoDup. by eapply sw_nodup.
    + by eapply sw_nodup.
  - intros n nd ck' c'. rewrite del_lookup, del_pk. repeat case_decide; subst; intros ?; simplify_eq.
    + cbn. rewrite elem_of_dict_del by by eapply sw_nodup.
      rewrite (sw_edges _ _ _ Hw _ _ _ _ Hp). split; [|by intros (? & ? & ?)].
      intros (Hne & k0 & Hk & Hkk). rewrite (pk_Some _ _ _ Hxn) in Hk. congruence.
    + cbn. rewrite elem_of_dict_del by by eapply sw_nodup.
      rewrite (sw_edges _ _ _ Hw _ _ _ _ Hp). split; [by intros [_ ?]|].
      intros Hk. split; [|done]. intros ->. apply (sw_edges _ _ _ Hw _ _ _ _ Hp) in Hk.
      assert ((ck, x) ∈ children pnd) as Hin.
      { apply (sw_edges _ _ _ Hw _ _ _ _ Hp). rewrite (pk_Some _ _ _ Hxn), Hxp. eauto. }
      pose proof (dict_elem_get _ _ _ (sw_nodup _ _ _ Hw _ _ Hp) Hk).
      pose proof (dict_elem_get _ _ _ (sw_nodup _ _ _ Hw _ _ Hp) Hin). congruence.
    + rewrite (sw_edges _ _ _ Hw n nd) by done. rewrite (pk_Some _ _ _ Hxn). no_edge.
    + by rewrite (sw_edges _ _ _ Hw n nd).
  - intros n Hn. rewrite del_lookup in Hn. case_decide; [by destruct Hn|].
    destruct (sw_path _ _ _ Hw n) as [l Hl]; [case_decide; subst; eauto|].
    exists l. by apply del_path.
  - intros n Hn. rewrite del_lookup in Hn. case_decide; [by destruct Hn|].
    apply (sw_fresh _ _ _ Hw). case_decide; subst; eauto.
Qed.

Lemma del_lock L : lock_wf t L → lock_wf t' L.
Proof.
  pose proof del_ne as Hpx. intros (P & HP & Hcnt). exists P.
  assert (Hx : x ∉ concat P).
  { rewrite pcount_pos. pose proof (Hcnt x xnd Hxn Hxr) as Hz. destruct Hleaf as [Hl0 _].
    clear -Hz Hl0. lia. }
  split.
  - eapply Forall2_impl_r; [exact HP|]. intros h l Hl Hh. apply del_path; [|done].
    intros ->. apply Hx, elem_of_concat. exists l. split; [|done].
    inversion Hh; subst; [done|by left].
  - change (root_node t') with (root_node t). intros n nd. rewrite del_lookup.
    repeat case_decide; subst; intros ? Hne; simplify_eq; cbn; eauto.
Qed.

Lemma del_acct : acct_wf t → acct_wf t'.
Proof.
  pose proof del_ne as Hpx. destruct Hleaf as [Hl0 Hch]. intros [Hf Hh Hl].
  assert (Hsum : ∀ f, f p (set_children (dict_del ck (children pnd)) pnd) = f p pnd →
    map_sum f (nodes t') = map_sum f (nodes t) - f x xnd).
  { intros f Hfp. unfold t', tree_del. cbn.
    rewrite (map_sum_delete _ _ _ xnd) by (by rewrite lookup_insert_ne).
    rewrite (map_sum_insert _ _ _ _ pnd) by done. rewrite Hfp. lia. }
  split; change (root_node t') with (root_node t).
  - rewrite Hsum by done. unfold free_len at 2. unfold len_if.
    rewrite (proj2 (Nat.eqb_neq x (root_node t))) by done. rewrite Hl0. cbn. lia.
  - rewrite Hsum by done. unfold held_len at 2. unfold len_if.
    rewrite (proj2 (Nat.eqb_neq x (root_node t))) by done. rewrite Hl0. cbn. lia.
  - intros n. rewrite del_lookup. unfold t', tree_del, leaf_update. cbn.
    specialize (Hl n). destruct (decide (n = x)) as [->|Hnx].
    { split; [|by intros (? & ? & _)]. intros Hin. exfalso. case_decide; set_solver. }
    destruct (decide (n = p)) as [->|Hnp].
    + case_decide as Hd; [split; [eauto|set_solver]|].
      split; [set_solver|]. by intros (? & [= <-] & ?).
    + rewrite <-Hl. case_decide; set_solver.
Qed.
End del.
