(* ===== verification/RadixContent.v ===== *)
(** What a radix tree stores: the KV slots of every cached prefix, read off
    the paths from the root, and how the structural changes act on it. *)

From stdpp Require Import base gmap strings list.
From Stdlib Require Import ZArith Lia.
From S2P Require Import Prelude.
From S2P Require Import PyData.
From S2P Require Import RadixKey.
From S2P Require Import RadixTree.
From S2P Require Import RadixInv.

Open Scope Z_scope.

(** ** Paths downwards *)

(** [down t e n us vs x]: walking down from [n] to [x] inside the namespace [e]
    reads the units [us] and the KV slots [vs]. *)
Inductive down (t : Tree) (e : option string) : nat → list key_unit → list Z → nat → Prop :=
  | down_nil n : down t e n [] [] n
  | down_cons n c cnd v us vs x :
      nodes t !! c = Some cnd → parent cnd = Some n → extra_key (nkey cnd) = e →
      value cnd = Some v → down t e c us vs x →
      down t e n (units (nkey cnd) ++ us) (v ++ vs) x.

(** The abstract content: [vs] are the KV slots cached for the prefix [us] of
    the namespace [e], in whole pages. *)
Definition cached (ps : nat) (t : Tree) (e : option string) (us : list key_unit) (vs : list Z)
    : Prop :=
  (ps | length us)%nat ∧
  ∃ x U V, down t e (root_node t) U V x ∧ us `prefix_of` U ∧ vs = take (length us) V.

Section down.
Context (t : Tree) (e : option string).

Lemma down_app n us vs x us' vs' y :
  down t e n us vs x → down t e x us' vs' y → down t e n (us ++ us') (vs ++ vs') y.
Proof.
  induction 1 as [|n c cnd v us vs x Hc Hp He Hv Hd IH]; [done|].
  intros H2. rewrite <-!app_assoc. econstructor; eauto.
Qed.

Lemma down_one n c cnd v :
  nodes t !! c = Some cnd → parent cnd = Some n → extra_key (nkey cnd) = e →
  value cnd = Some v → down t e n (units (nkey cnd)) v c.
Proof.
  intros. rewrite <-(app_nil_r (units _)), <-(app_nil_r v).
  econstructor; eauto. constructor.
Qed.

(** The last step of a path. *)
Lemma down_last n us vs x :
  down t e n us vs x →
  (n = x ∧ us = [] ∧ vs = []) ∨
  ∃ p xnd v us0 vs0, down t e n us0 vs0 p ∧ nodes t !! x = Some xnd ∧ parent xnd = Some p ∧
    extra_key (nkey xnd) = e ∧ value xnd = Some v ∧
    us = us0 ++ units (nkey xnd) ∧ vs = vs0 ++ v.
Proof.
  induction 1 as [|n c cnd v us vs x Hc Hp He Hv Hd IH]; [by left|right].
  destruct IH as [(-> & -> & ->)|(p & xnd & v' & us0 & vs0 & Hd0 & Hx & Hxp & Hxe & Hxv & -> & ->)].
  - exists n, cnd, v, [], []. rewrite !app_nil_r. split_and!; try done. constructor.
  - exists p, xnd, v', (units (nkey cnd) ++ us0), (v ++ vs0).
    rewrite !app_assoc. split_and!; try done. econstructor; eauto.
Qed.

Lemma down_node n us vs x :
  down t e n us vs x → is_Some (nodes t !! n) → is_Some (nodes t !! x).
Proof. intros [(-> & _)|(? & xnd & ? & ? & ? & _ & -> & _)]%down_last; eauto. Qed.
End down.

Section facts.
Context {ps : nat} {eagle : bool} (t : Tree).
Hypothesis Hps : (1 ≤ ps)%nat.
Hypothesis Hw : shape_wf ps eagle t.

(** The nodes a downward path goes through are no root. *)
Lemma down_step_ok n c cnd :
  nodes t !! c = Some cnd → parent cnd = Some n →
  c ≠ root_node t ∧ node_ok ps eagle cnd.
Proof.
  intros Hc Hp. assert (c ≠ root_node t).
  { intros ->. destruct (sw_root _ _ _ Hw) as (rn & Hr & Hok & _). congruence. }
  split; [done|]. by eapply sw_node.
Qed.

Lemma down_length e n us vs x :
  down t e n us vs x → length vs = length us ∧ (ps | length us)%nat.
Proof.
  induction 1 as [|n c cnd v us vs x Hc Hp He Hv Hd [IH1 IH2]]; [split; [done|by exists 0%nat]|].
  destruct (down_step_ok n c cnd Hc Hp) as [_ (_ & Hal & _ & (v' & Hv' & Hlen) & _)].
  simplify_eq. rewrite !length_app, length_units. split; [lia|].
  by apply Nat.divide_add_r.
Qed.

(** Below the root a walk stays in the namespace of its start. *)
Lemma down_extra e n nd us vs x xnd :
  nodes t !! n = Some nd → (n ≠ root_node t → extra_key (nkey nd) = e) →
  down t e n us vs x → nodes t !! x = Some xnd → x ≠ root_node t → extra_key (nkey xnd) = e.
Proof.
  intros Hn He Hd Hx Hxr.
  apply down_last in Hd as [(-> & _)|(? & ? & ? & ? & ? & _ & Hx' & _ & ? & _)]; simplify_eq; auto.
Qed.

(** The first step of a walk that begins with the first page of a key is the
    child the key's dict key names. *)
Lemma down_first e n nd us vs x key :
  nodes t !! n = Some nd → down t e n us vs x → us ≠ [] →
  (ps ≤ key_len key)%nat → is_bigram key = eagle → extra_key key = e →
  take ps us = take ps (units key) →
  ∃ ck c cnd v us' vs', child_key key ps = Ok ck ∧ dict_get ck (children nd) = Some c ∧
    nodes t !! c = Some cnd ∧ parent cnd = Some n ∧ extra_key (nkey cnd) = e ∧
    value cnd = Some v ∧ us = units (nkey cnd) ++ us' ∧ vs = v ++ vs' ∧ down t e c us' vs' x.
Proof.
  intros Hn Hd Hne Hlen Hb He Htake. destruct Hd as [|n c cnd v us vs x Hc Hp Hce Hv Hd]; [done|].
  destruct (down_step_ok n c cnd Hc Hp) as [Hcr (Hcl & _ & Hcb & _)].
  destruct (child_key_units (nkey cnd) ps Hps Hcl) as (pl & Hck & _).
  assert (Heq : child_key key ps = child_key (nkey cnd) ps).
  { apply child_key_eq; [done..|congruence|]. split; [congruence|].
    rewrite <-Htake. rewrite take_app_le; [done|]. by rewrite length_units. }
  exists (extra_key (nkey cnd), pl), c, cnd, v, us, vs. split_and!; try done; [by rewrite Heq|].
  apply (sw_get t n nd _ _ Hw Hn). apply (sw_edges _ _ _ Hw _ _ _ _ Hn).
  exists (nkey cnd). split; [|done]. by rewrite (pk_Some _ _ _ Hc), Hp.
Qed.
End facts.

(** A node has one walk from the root. *)
Lemma down_root_unique ps eagle t e x us1 vs1 us2 vs2 :
  shape_wf ps eagle t → is_Some (nodes t !! x) →
  down t e (root_node t) us1 vs1 x → down t e (root_node t) us2 vs2 x →
  us1 = us2 ∧ vs1 = vs2.
Proof.
  intros Hw Hx. destruct (sw_path _ _ _ Hw x Hx) as [l Hl]. clear Hx.
  revert us1 vs1 us2 vs2. remember (root_node t) as r eqn:Er.
  assert (Hroot : ∀ nd p, nodes t !! r = Some nd → parent nd = Some p → False).
  { intros nd p Hn Hp. subst r. destruct (sw_root _ _ _ Hw) as (rn & Hr & Hrp & _). congruence. }
  induction Hl as [|x p l Hxr Hp Hl IH]; intros us1 vs1 us2 vs2 H1 H2.
  - apply down_last in H1 as [(_ & -> & ->)|(? & ? & ? & ? & ? & _ & ? & ? & _)]; [|by exfalso; eauto].
    apply down_last in H2 as [(_ & -> & ->)|(? & ? & ? & ? & ? & _ & ? & ? & _)]; [done|by exfalso; eauto].
  - apply down_last in H1 as [(-> & _)|(p1 & nd1 & v1 & u1 & w1 & Hd1 & Hn1 & Hp1 & He1 & Hv1 & -> & ->)]; [done|].
    apply down_last in H2 as [(-> & _)|(p2 & nd2 & v2 & u2 & w2 & Hd2 & Hn2 & Hp2 & He2 & Hv2 & -> & ->)]; [done|].
    unfold par_of, pk in Hp. simplify_eq. rewrite Hn1 in Hp. cbn in Hp. simplify_eq.
    destruct (IH _ _ _ _ Hd1 Hd2) as [-> ->]. done.
Qed.

(** ** Effect of the structural changes *)

Lemma bumped_down d l t t' e n us vs x :
  bumped d l t t' → down t e n us vs x → down t' e n us vs x.
Proof.
  intros (_ & _ & Hn). induction 1 as [|n c cnd v us vs x Hc Hp He Hv Hd IH]; [constructor|].
  set (cnd' := set_lock_ref (lock_ref cnd + d * Z.of_nat (pcount c l)) cnd).
  change (units (nkey cnd)) with (units (nkey cnd')). eapply down_cons; try done.
  by rewrite Hn, Hc.
Qed.

Lemma bumped_down_iff d l t t' e n us vs x :
  bumped d l t t' → down t' e n us vs x ↔ down t e n us vs x.
Proof.
  intros Hb. split; [|by eapply bumped_down].
  induction 1 as [|n c cnd v us vs x Hc Hp He Hv Hd IH]; [constructor|].
  destruct (bumped_lookup _ _ _ _ _ _ Hb Hc) as (cnd0 & Hc0 & ->).
  change (units (nkey (set_lock_ref _ cnd0))) with (units (nkey cnd0)).
  by eapply down_cons.
Qed.

Lemma bumped_cached ps d l t t' e us vs :
  bumped d l t t' → cached ps t' e us vs ↔ cached ps t e us vs.
Proof.
  intros Hb. unfold cached. pose proof Hb as (-> & _).
  by setoid_rewrite (bumped_down_iff d l t t').
Qed.

Section split_content.
Context {ps : nat} {eagle : bool}.
Context (t : Tree) (ck rest_key : child_key_t) (p c : nat) (pnd cnd : TreeNode)
  (k1 k2 : RadixKey) (v1 v2 : list Z).
Hypothesis Hps : (1 ≤ ps)%nat.
Hypothesis Hw : shape_wf ps eagle t.
Hypothesis Hc : nodes t !! c = Some cnd.
Hypothesis Hcr : c ≠ root_node t.
Hypothesis Hcp : parent cnd = Some p.
Hypothesis Hp : nodes t !! p = Some pnd.
Hypothesis He1 : extra_key k1 = extra_key (nkey cnd).
Hypothesis He2 : extra_key k2 = extra_key (nkey cnd).
Hypothesis Hu : units (nkey cnd) = units k1 ++ units k2.
Hypothesis Hv : value cnd = Some (v1 ++ v2).
Hypothesis Hl1 : length v1 = key_len k1.

Let m := counter t.
Let t' := tree_split t ck rest_key p pnd c cnd k1 k2 v1 v2.

(** A node that the split leaves in place. *)
Lemma split_old_node x xnd :
  x ≠ c → nodes t !! x = Some xnd →
  ∃ xnd', nodes t' !! x = Some xnd' ∧ parent xnd' = parent xnd ∧ nkey xnd' = nkey xnd ∧
    value xnd' = value xnd.
Proof.
  intros Hx Hxn. pose proof (split_fresh t Hw x ltac:(eauto)).
  unfold t'. rewrite split_lookup.
  repeat case_decide; simplify_eq; eauto 10.
Qed.

Lemma split_down_c e n us vs x :
  n = p → extra_key (nkey cnd) = e → down t' e c us vs x →
  down t' e n (units (nkey cnd) ++ us) (v1 ++ v2 ++ vs) x.
Proof.
  destruct (split_ne t p c pnd cnd Hps Hw Hc Hcr Hcp Hp) as (Hpc & Hpm & Hcm). fold m in Hpm, Hcm.
  intros -> He Hd. rewrite Hu, <-app_assoc.
  eapply (down_cons t' e p m (mkNode [(rest_key, c)] (Some p) k1 (Some v1) (lock_ref cnd)));
    [|done|cbn; congruence|done|].
  { unfold t'. rewrite split_lookup. fold m. repeat case_decide; congruence. }
  eapply (down_cons t' e m c (mkNode (children cnd) (Some m) k2 (Some v2) (lock_ref cnd)));
    [|done|cbn; congruence|done|done].
  unfold t'. rewrite split_lookup. fold m. repeat case_decide; congruence.
Qed.

Lemma split_down e n us vs x : down t e n us vs x → down t' e n us vs x.
Proof.
  induction 1 as [|n c0 cnd0 v us vs x Hc0 Hp0 He Hv0 Hd IH]; [constructor|].
  destruct (decide (c0 = c)) as [->|Hne].
  - simplify_eq. rewrite <-app_assoc. by apply split_down_c.
  - destruct (split_old_node c0 cnd0 Hne Hc0) as (cnd' & Hc' & Hp' & Hk' & Hv').
    rewrite <-Hk'. eapply down_cons; [done|congruence..|done].
Qed.

(** Conversely, a walk of the split tree is one of the old tree, or ends at
    the new node and then is part of a walk to the child. *)
Definition walk_back e n us vs x : Prop :=
  down t e n us vs x ∨
  (x = m ∧ ∃ us0 vs0, us = us0 ++ units k1 ∧ vs = vs0 ++ v1 ∧
     down t e n (us0 ++ units (nkey cnd)) (vs0 ++ v1 ++ v2) c).

Lemma walk_back_cons e n c0 cnd0 v us vs x :
  nodes t !! c0 = Some cnd0 → parent cnd0 = Some n → extra_key (nkey cnd0) = e →
  value cnd0 = Some v → walk_back e c0 us vs x →
  walk_back e n (units (nkey cnd0) ++ us) (v ++ vs) x.
Proof.
  intros Hc0 Hp0 He0 Hv0 [Hd|(-> & us0 & vs0 & -> & -> & Hd)].
  - left. by eapply down_cons.
  - right. split; [done|]. exists (units (nkey cnd0) ++ us0), (v ++ vs0).
    rewrite <-!app_assoc. split_and!; [done..|]. by eapply down_cons.
Qed.

Lemma split_walk_back e n us vs x :
  down t' e n us vs x →
  (n ≠ m → walk_back e n us vs x) ∧
  (n = m → (x = m ∧ us = [] ∧ vs = []) ∨
     extra_key (nkey cnd) = e ∧
     ∃ us' vs', us = units k2 ++ us' ∧ vs = v2 ++ vs' ∧ walk_back e c us' vs' x).
Proof.
  destruct (split_ne t p c pnd cnd Hps Hw Hc Hcr Hcp Hp) as (Hpc & Hpm & Hcm). fold m in Hpm, Hcm.
  induction 1 as [|n c0 cnd0 v us vs x Hc0 Hp0 He Hv0 Hd [IH1 IH2]].
  { split; [left; constructor|by left]. }
  unfold t' in Hc0. rewrite split_lookup in Hc0. fold m in Hc0.
  assert (Hnc : ∀ y ynd, nodes t !! y = Some ynd → parent ynd = Some n → n ≠ m).
  { intros y ynd Hy Hyp ->. eapply (split_no_child t p c cnd Hw Hc Hcp).
    rewrite (pk_Some _ _ _ Hy), Hyp. done. }
  destruct (decide (c0 = p)) as [->|H1].
  { injection Hc0 as <-. cbn in *. split; [|intros Hn; by destruct (Hnc p pnd)].
    intros _. eapply (walk_back_cons e n p pnd); eauto. }
  destruct (decide (c0 = c)) as [->|H2].
  { injection Hc0 as <-. cbn in *. split; [congruence|]. intros _. right.
    split; [congruence|]. simplify_eq. eauto 10. }
  destruct (decide (c0 = m)) as [->|H3].
  { injection Hc0 as <-. cbn in *. injection Hp0 as <-. split; [|congruence]. intros _.
    injection Hv0 as <-.
    destruct IH2 as [(-> & -> & ->)|(He' & us' & vs' & -> & -> & Hb)]; [done| |].
    - right. split; [done|]. exists [], []. rewrite !app_nil_r. split_and!; [done..|]. cbn.
      eapply down_one; eauto. congruence.
    - rewrite !app_assoc, <-Hu. eapply (walk_back_cons e p c cnd); eauto. }
  split; [|intros Hn; by destruct (Hnc c0 cnd0)].
  intros _. eapply (walk_back_cons e n c0 cnd0); eauto.
Qed.

Lemma split_cached e us vs : cached ps t' e us vs ↔ cached ps t e us vs.
Proof.
  assert (Hrm : root_node t ≠ m).
  { destruct (sw_root _ _ _ Hw) as (rn & Hr & _). apply (split_fresh t Hw). eauto. }
  unfold cached. change (root_node t') with (root_node t).
  split; intros (Hal & x & U & V & Hd & Hpre & ->); (split; [done|]).
  - apply split_walk_back in Hd as [Hd _]. destruct (Hd Hrm) as [Hd'|(-> & us0 & vs0 & -> & -> & Hd')].
    + by exists x, U, V.
    + exists c, (us0 ++ units (nkey cnd)), (vs0 ++ v1 ++ v2). split_and!; [done| |].
      * rewrite Hu, app_assoc. by apply prefix_app_r.
      * apply prefix_length in Hpre. rewrite (app_assoc vs0 v1 v2), (take_app_le (vs0 ++ v1) v2); [done|].
        destruct (down_length t Hps Hw _ _ _ _ _ Hd') as [Hl _].
        assert (key_len (nkey cnd) = length (v1 ++ v2)) as Hcl.
        { destruct (sw_node _ _ _ Hw _ _ Hc Hcr) as (_ & _ & _ & (v & Hv' & <-) & _). congruence. }
        rewrite !length_app, ?length_units in *. lia.
  - apply split_down in Hd. by exists x, U, V.
Qed.
End split_content.

Section add_content.
Context {ps : nat} {eagle : bool}.
Context (t : Tree) (ck : child_key_t) (p : nat) (pnd : TreeNode) (k : RadixKey) (v : list Z).
Hypothesis Hw : shape_wf ps eagle t.
Hypothesis Hp : nodes t !! p = Some pnd.

Let m := counter t.
Let t' := tree_add t ck p pnd k v.

Lemma add_down e n us vs x : down t e n us vs x → down t' e n us vs x.
Proof.
  induction 1 as [|n c0 cnd0 v0 us vs x Hc0 Hp0 He Hv0 Hd IH]; [constructor|].
  pose proof (add_fresh t Hw c0 ltac:(eauto)) as Hcm.
  destruct (decide (c0 = p)) as [->|Hne].
  - rewrite Hp in Hc0. injection Hc0 as <-.
    eapply (down_cons t' _ n p (set_children (dict_set ck m (children pnd)) pnd));
      try done. unfold t'. by rewrite add_lookup, decide_True.
  - eapply (down_cons t' _ n c0 cnd0); try done. unfold t'.
    rewrite add_lookup, !decide_False by done. done.
Qed.

Lemma add_down_leaf : down t' (extra_key k) p (units k) v m.
Proof.
  eapply (down_one t' _ p m (mkNode [] (Some p) k (Some v) 0)); try done.
  destruct (add_old t p pnd Hw Hp) as (_ & _ & ? & _). fold m in H.
  unfold t'. rewrite add_lookup. fold m. repeat case_decide; congruence.
Qed.

Lemma add_down_inv e n us vs x :
  down t' e n us vs x → n ≠ m →
  (x ≠ m ∧ down t e n us vs x) ∨
  (x = m ∧ extra_key k = e ∧ ∃ us0 vs0, us = us0 ++ units k ∧ vs = vs0 ++ v ∧
     down t e n us0 vs0 p).
Proof.
  destruct (add_old t p pnd Hw Hp) as (_ & _ & Hpm & _). fold m in Hpm.
  induction 1 as [|n c0 cnd0 v0 us vs x Hc0 Hp0 He Hv0 Hd IH]; intros Hn.
  { left. split; [done|constructor]. }
  unfold t' in Hc0. rewrite add_lookup in Hc0. fold m in Hc0.
  assert (Hstep : ∀ nd, nodes t !! c0 = Some nd → parent nd = Some n →
    extra_key (nkey nd) = e → value nd = Some v0 → c0 ≠ m →
    (x ≠ m ∧ down t e n (units (nkey nd) ++ us) (v0 ++ vs) x) ∨
    (x = m ∧ extra_key k = e ∧ ∃ us0 vs0, units (nkey nd) ++ us = us0 ++ units k ∧
       v0 ++ vs = vs0 ++ v ∧ down t e n us0 vs0 p)).
  { intros nd Hnd Hnp Hne Hnv Hcm.
    destruct (IH Hcm) as [[Hx Hd']|(-> & Hke & us0 & vs0 & -> & -> & Hd')].
    - left. split; [done|]. by eapply down_cons.
    - right. split_and!; [done..|]. exists (units (nkey nd) ++ us0), (v0 ++ vs0).
      rewrite <-!app_assoc. split_and!; [done..|]. by eapply down_cons. }
  destruct (decide (c0 = p)) as [->|H1].
  { injection Hc0 as <-. by apply (Hstep pnd). }
  destruct (decide (c0 = m)) as [->|H2]; [|by apply (Hstep cnd0)].
  injection Hc0 as <-. cbn in *. injection Hp0 as <-. injection Hv0 as <-. right.
  inversion Hd as [|? c1 cnd1 ? ? ? ? Hc1 Hp1]; subst.
  - split_and!; try done. exists [], []. rewrite !app_nil_r. split_and!; [done..|constructor].
  - exfalso. unfold t' in Hc1. rewrite add_lookup in Hc1. fold m in Hc1.
    repeat case_decide; simplify_eq.
    + eapply (add_no_child t p pnd Hw Hp). rewrite (pk_Some _ _ _ Hp). cbn in Hp1. by rewrite Hp1.
    + by injection Hp1.
    + eapply (add_no_child t p pnd Hw Hp). rewrite (pk_Some _ _ _ Hc1). by rewrite Hp1.
Qed.

Lemma add_cached_mono e us vs : cached ps t e us vs → cached ps t' e us vs.
Proof.
  intros (Hal & x & U & V & Hd & Hpre & ->). split; [done|]. exists x, U, V.
  split_and!; [|done..]. by apply add_down.
Qed.
End add_content.

Section del_content.
Context {ps : nat} {eagle : bool}.
Context (t : Tree) (ck : child_key_t) (p x : nat) (pnd xnd : TreeNode).
Hypothesis Hps : (1 ≤ ps)%nat.
Hypothesis Hw : shape_wf ps eagle t.
Hypothesis Hxn : nodes t !! x = Some xnd.
Hypothesis Hxr : x ≠ root_node t.
Hypothesis Hxp : parent xnd = Some p.
Hypothesis Hp : nodes t !! p = Some pnd.
Hypothesis Hleaf : is_leaf xnd.

Let t' := tree_del t ck p pnd x xnd.

Lemma del_down_inv e n us vs y : down t' e n us vs y → down t e n us vs y.
Proof.
  induction 1 as [|n c0 cnd0 v0 us vs y Hc0 Hp0 He Hv0 Hd IH]; [constructor|].
  unfold t' in Hc0. rewrite del_lookup in Hc0. case_decide; [done|].
  case_decide; subst; simplify_eq.
  - eapply (down_cons t _ n p pnd); done.
  - by eapply down_cons.
Qed.

Lemma del_down e n us vs y : down t e n us vs y → y ≠ x → down t' e n us vs y.
Proof.
  induction 1 as [|n c0 cnd0 v0 us vs y Hc0 Hp0 He Hv0 Hd IH]; intros Hy; [constructor|].
  assert (Hcx : c0 ≠ x).
  { intros ->. inversion Hd as [|? c1 cnd1 ? ? ? ? Hc1 Hp1]; subst; [done|].
    eapply (del_no_child t x xnd); try done.
    rewrite (pk_Some _ _ _ Hc1), Hp1. done. }
  destruct (decide (c0 = p)) as [->|Hne].
  - rewrite Hp in Hc0. injection Hc0 as <-.
    eapply (down_cons t' _ n p (set_children (dict_del ck (children pnd)) pnd));
      try done; [|by apply IH]. unfold t'. rewrite del_lookup. repeat case_decide; congruence.
  - eapply (down_cons t' _ n c0 cnd0); try done; [|by apply IH]. unfold t'.
    rewrite del_lookup. repeat case_decide; congruence.
Qed.

Lemma del_cached e us vs : cached ps t' e us vs → cached ps t e us vs.
Proof.
  intros (Hal & y & U & V & Hd & Hpre & ->). split; [done|]. exists y, U, V.
  split_and!; [|done..]. by apply del_down_inv.
Qed.
End del_content.

(** ** The content is a function of the prefix *)

Section determinism.
Context {ps : nat} {eagle : bool} (t : Tree).
Hypothesis Hps : (1 ≤ ps)%nat.
Hypothesis Hw : shape_wf ps eagle t.

(** A walk that begins with the first page of a child goes through it. *)
Lemma down_through e n nd c cnd v us vs x :
  nodes t !! n = Some nd → nodes t !! c = Some cnd → parent cnd = Some n →
  extra_key (nkey cnd) = e → value cnd = Some v →
  down t e n us vs x → us ≠ [] → take ps us = take ps (units (nkey cnd)) →
  ∃ us' vs', us = units (nkey cnd) ++ us' ∧ vs = v ++ vs' ∧ down t e c us' vs' x.
Proof.
  intros Hn Hc Hp He Hv Hd Hne Htake.
  destruct (down_step_ok t Hw n c cnd Hc Hp) as [_ (Hl & _ & Hb & _)].
  destruct (down_first t Hps Hw e n nd us vs x (nkey cnd)) as
    (ck & c' & cnd' & v' & us' & vs' & Hck & Hget & Hc' & Hp' & He' & Hv' & -> & -> & Hd');
    try done.
  assert (c' = c) as ->.
  { assert (dict_get ck (children nd) = Some c); [|congruence].
    apply (sw_get t n nd _ _ Hw Hn), (sw_edges _ _ _ Hw _ _ _ _ Hn).
    exists (nkey cnd). split; [|done]. by rewrite (pk_Some _ _ _ Hc), Hp. }
  simplify_eq. eauto.
Qed.

Lemma down_values_agree e n nd us1 vs1 x1 us2 vs2 x2 us :
  nodes t !! n = Some nd → down t e n us1 vs1 x1 → down t e n us2 vs2 x2 →
  (ps | length us)%nat → us `prefix_of` us1 → us `prefix_of` us2 →
  take (length us) vs1 = take (length us) vs2.
Proof.
  intros Hn H1; revert us nd Hn us2 vs2 x2.
  induction H1 as [n|n c cnd v us1 vs1 x1 Hc Hp He Hv Hd IH]; intros us nd Hn us2 vs2 x2 H2 Hal Hp1 Hp2.
  { apply prefix_nil_inv in Hp1. by subst. }
  destruct (decide (us = [])) as [->|Hne]; [done|].
  assert (Hlu : (ps ≤ length us)%nat).
  { destruct Hal as [q Hq]. destruct q; [by destruct us|]. lia. }
  destruct (down_step_ok t Hw n c cnd Hc Hp) as [Hcr (Hl & Hcal & _ & (v0 & Hv0 & Hvl) & _)].
  simplify_eq.
  destruct (down_through (extra_key (nkey cnd)) n nd c cnd v us2 vs2 x2)
    as (us2' & vs2' & -> & -> & Hd2); try done.
  { intros ->. by apply prefix_nil_inv in Hp2. }
  { destruct Hp2 as [z2 ->]. rewrite take_app_le by done. destruct Hp1 as [z1 E].
    rewrite <-(take_app_le us z1), <-E, take_app_le; [done|by rewrite length_units|done]. }
  destruct (decide (length us ≤ length v)%nat) as [Hsmall|Hbig].
  { by rewrite !take_app_le. }
  assert (Hpre : units (nkey cnd) `prefix_of` us).
  { destruct Hp1 as [z1 E]. exists (drop (key_len (nkey cnd)) us).
    assert (take (key_len (nkey cnd)) us = units (nkey cnd)) as Et.
    { rewrite <-(take_app_le us z1), <-E by lia. rewrite take_app_le by (by rewrite length_units).
      rewrite take_ge; [done|]. by rewrite length_units. }
    by rewrite <-Et, take_drop. }
  destruct Hpre as [us' ->]. apply prefix_app_inv in Hp1, Hp2.
  rewrite length_app, length_units, <-Hvl, !take_app_add. f_equal.
  eapply (IH us'); try done. rewrite length_app, length_units in Hal.
  by eapply Nat.divide_add_cancel_r.
Qed.

(** A cached prefix has one value. *)
Lemma cached_functional e us vs1 vs2 :
  cached ps t e us vs1 → cached ps t e us vs2 → vs1 = vs2.
Proof.
  intros (Hal & x1 & U1 & V1 & Hd1 & Hp1 & ->) (_ & x2 & U2 & V2 & Hd2 & Hp2 & ->).
  destruct (sw_root _ _ _ Hw) as (rn & Hr & _). by eapply down_values_agree.
Qed.

Lemma cached_length e us vs : cached ps t e us vs → length vs = length us.
Proof.
  intros (_ & x & U & V & Hd & Hpre & ->). apply prefix_length in Hpre.
  destruct (down_length t Hps Hw _ _ _ _ _ Hd) as [Hl _]. rewrite length_take. lia.
Qed.

(** Page-aligned prefixes of a cached prefix are cached. *)
Lemma cached_prefix e us vs n :
  cached ps t e us vs → (ps | n)%nat → (n ≤ length us)%nat →
  cached ps t e (take n us) (take n vs).
Proof.
  intros (_ & x & U & V & Hd & Hpre & ->) Hn Hle. split; [by rewrite length_take, Nat.min_l|].
  exists x, U, V. split_and!; [done| |].
  - destruct Hpre as [z ->]. rewrite <-(take_drop n us) at 2. rewrite <-app_assoc. by eexists.
  - rewrite length_take, take_take, Nat.min_l; [done|]. lia.
Qed.
End determinism.

(** ** The slots of a tree *)

(** Every KV slot the tree refers to. *)
Definition node_slots (nd : TreeNode) : list Z := default [] (value nd).
Definition tree_slots (t : Tree) : list Z :=
  concat (node_slots ∘ snd <$> map_to_list (nodes t)).

Definition slot_count (z : Z) (n : nat) (nd : TreeNode) : Z := Z.of_nat (pcount z (node_slots nd)).

Lemma tree_slots_count t z :
  Z.of_nat (pcount z (tree_slots t)) = map_sum (slot_count z) (nodes t).
Proof.
  unfold tree_slots. induction (nodes t) as [|n nd m Hn IH] using map_ind.
  - by rewrite map_to_list_empty, map_sum_empty.
  - rewrite map_sum_insert_new, <-IH by done. unfold slot_count.
    assert (concat (node_slots ∘ snd <$> map_to_list (<[n := nd]> m)) ≡ₚ
      node_slots nd ++ concat (node_slots ∘ snd <$> map_to_list m)) as Hp.
    { rewrite map_to_list_insert by done. done. }
    rewrite (proj1 (perm_pcount _ _) Hp z), pcount_app. lia.
Qed.

Lemma tree_slots_perm t t' l1 l2 :
  (∀ z, map_sum (slot_count z) (nodes t') + Z.of_nat (pcount z l1)
        = map_sum (slot_count z) (nodes t) + Z.of_nat (pcount z l2)) →
  tree_slots t' ++ l1 ≡ₚ tree_slots t ++ l2.
Proof.
  intros Hz. apply perm_pcount. intros z. specialize (Hz z).
  rewrite <-!tree_slots_count in Hz. rewrite !pcount_app. lia.
Qed.

Lemma tree_slots_same t t' :
  (∀ z, map_sum (slot_count z) (nodes t') = map_sum (slot_count z) (nodes t)) →
  tree_slots t' ≡ₚ tree_slots t.
Proof.
  intros Hz. rewrite <-(app_nil_r (tree_slots t)), <-(app_nil_r (tree_slots t')).
  apply tree_slots_perm. intros z. by rewrite Hz.
Qed.

Lemma bumped_slots d l t t' : bumped d l t t' → tree_slots t' ≡ₚ tree_slots t.
Proof.
  intros (_ & _ & Hn). apply tree_slots_same. intros z.
  by apply (map_sum_map _ (λ x nd, set_lock_ref (lock_ref nd + d * Z.of_nat (pcount x l)) nd)).
Qed.

Lemma split_slots ps eagle t ck rk p c pnd cnd k1 k2 v1 v2 :
  (1 ≤ ps)%nat → shape_wf ps eagle t → nodes t !! c = Some cnd → c ≠ root_node t →
  parent cnd = Some p → nodes t !! p = Some pnd → value cnd = Some (v1 ++ v2) →
  tree_slots (tree_split t ck rk p pnd c cnd k1 k2 v1 v2) ≡ₚ tree_slots t.
Proof.
  intros Hps Hw Hc Hcr Hcp Hp Hv. apply tree_slots_same. intros z.
  rewrite (split_sum (ps := ps) (eagle := eagle)) by done.
  unfold slot_count, node_slots. rewrite Hv. cbn. rewrite pcount_app. lia.
Qed.

Lemma add_slots ps eagle t ck p pnd k v :
  shape_wf ps eagle t → nodes t !! p = Some pnd →
  tree_slots (tree_add t ck p pnd k v) ≡ₚ tree_slots t ++ v.
Proof.
  intros Hw Hp. rewrite <-(app_nil_r (tree_slots (tree_add _ _ _ _ _ _))).
  apply tree_slots_perm. intros z.
  destruct (add_old t p pnd Hw Hp) as (Hm & _ & Hpm & _). cbn.
  rewrite (map_sum_insert _ _ _ _ pnd) by (by rewrite lookup_insert_ne).
  rewrite map_sum_insert_new by done. unfold slot_count, node_slots. cbn. lia.
Qed.

Lemma del_slots t ck p pnd x xnd v :
  nodes t !! x = Some xnd → nodes t !! p = Some pnd → p ≠ x → value xnd = Some v →
  tree_slots (tree_del t ck p pnd x xnd) ++ v ≡ₚ tree_slots t.
Proof.
  intros Hx Hp Hpx Hv. rewrite <-(app_nil_r (tree_slots t)). apply tree_slots_perm. intros z. cbn.
  rewrite (map_sum_delete _ _ _ xnd) by (by rewrite lookup_insert_ne).
  rewrite (map_sum_insert _ _ _ _ pnd) by done. unfold slot_count, node_slots. rewrite Hv. cbn. lia.
Qed.
