(* ===== verification/RadixOps.v ===== *)
(** The operations of the prefix cache keep the invariant and act on the
    content as specified: lookup, insertion and locks. *)

From stdpp Require Import base gmap strings list.
From Stdlib Require Import ZArith Lia.
From S2P Require Import Prelude.
From S2P Require Import PyData.
From S2P Require Import RadixKey.
From S2P Require Import RadixTree.
From S2P Require Import RadixInv.
From S2P Require Import RadixContent.

Open Scope Z_scope.

(** ** Contracts of the environment *)

(** The native hash yields one digest per page, each at least 16 hex digits. *)
Class EnvLaws `{Env} := {
  monotonic_le : ∀ i j, (i ≤ j)%nat → monotonic i ≤ monotonic j;
  get_hash_str_ok : ∀ k prior ps, (1 ≤ ps)%nat → (ps | key_len k)%nat →
    length (get_hash_str k prior ps) = (key_len k / ps)%nat ∧
    Forall (λ s, ∃ z, hash_str_to_int64 s = Ok z) (get_hash_str k prior ps);
}.

(** ** The invariant of the whole cache *)

(** Block hashes, where computed, cover the pages of the node. *)
Definition hash_ok (ps : nat) (nd : TreeNode) (m : NodeMeta) : Prop :=
  ∀ h, hash_value m = Some h → length h = (key_len (nkey nd) / ps)%nat ∧
    Forall (λ s, ∃ z, hash_str_to_int64 s = Ok z) h.

Definition meta_wf {A} (ps : nat) (st : RadixCache A) : Prop :=
  ∀ n nd, nodes (tree st) !! n = Some nd → ∃ m, meta st !! n = Some m ∧ hash_ok ps nd m.

(** The sessions that tag a node. *)
Definition holders (m : NodeMeta) : gset string := default ∅ (session_ids m).

(** The session index and the tags agree: a tagged node is in the tree and in
    the index entry of each of its sessions, and indexed nodes are known. *)
Record session_wf {A} (st : RadixCache A) : Prop := {
  sx_alive n m sid : meta st !! n = Some m → sid ∈ holders m → is_Some (nodes (tree st) !! n);
  sx_indexed n m sid : meta st !! n = Some m → sid ∈ holders m →
    ∃ lv, session_leaves st !! sid = Some lv ∧ n ∈ lv;
  sx_known sid lv n : session_leaves st !! sid = Some lv → n ∈ lv → is_Some (meta st !! n);
}.

Record cache_wf {A} (cfg : Config) (st : RadixCache A) (L : list nat) : Prop := {
  cw_ps : (1 ≤ page_size cfg)%nat;
  cw_tree : tree_wf (page_size cfg) (is_eagle cfg) (tree st) L;
  cw_meta : meta_wf (page_size cfg) st;
  cw_session : session_wf st;
}.

(** The parts of the state the lookup operations leave alone. *)
Definition frame {A} (st st' : RadixCache A) : Prop :=
  allocator st' = allocator st ∧ session_leaves st' = session_leaves st ∧
  closed_session_ids st' = closed_session_ids st ∧ kv_event_queue st' = kv_event_queue st.

Lemma frame_refl {A} (st : RadixCache A) : frame st st.
Proof. done. Qed.
Lemma frame_trans {A} (st1 st2 st3 : RadixCache A) :
  frame st1 st2 → frame st2 st3 → frame st1 st3.
Proof. unfold frame. intuition congruence. Qed.

(** ** Keys *)

Lemma key_len_slice k a b : (a ≤ b)%nat → (b ≤ key_len k)%nat → key_len (key_slice k a b) = (b - a)%nat.
Proof.
  intros Hab Hb. rewrite <-length_units, units_key_slice by done. unfold slice.
  rewrite length_take, length_drop, length_units. lia.
Qed.

Lemma units_upto k n : (n ≤ key_len k)%nat → units (key_slice k 0 n) = take n (units k).
Proof. intros Hn. rewrite units_key_slice by done. unfold slice. by rewrite Nat.sub_0_r, drop_0. Qed.

Lemma units_from k n : (n ≤ key_len k)%nat → units (key_slice k n (key_len k)) = drop n (units k).
Proof.
  intros Hn. rewrite units_key_slice by done. unfold slice. rewrite take_ge; [done|].
  by rewrite length_drop, length_units.
Qed.

Lemma page_aligned_ok k ps :
  (1 ≤ ps)%nat → ∃ k', page_aligned k ps = Ok k' ∧ extra_key k' = extra_key k ∧
    is_bigram k' = is_bigram k ∧ key_len k' = page_floor ps (key_len k) ∧
    units k' = take (page_floor ps (key_len k)) (units k) ∧
    (∀ n, (n ≤ key_len k')%nat → take n (token_ids k') = take n (token_ids k)).
Proof.
  intros Hps. unfold page_aligned. pose proof (page_floor_le ps (key_len k)) as Hle.
  destruct (Nat.eqb_spec ps 1) as [->|Hne].
  { exists k. rewrite page_floor_1. split_and!; try done. by rewrite take_ge by (by rewrite length_units). }
  rewrite key_upto_slice by done. eexists; split; [done|].
  rewrite key_slice_extra, key_slice_bigram, units_upto, key_len_slice, Nat.sub_0_r by lia.
  split_and!; try done. intros n Hn. unfold key_slice.
  destruct (is_bigram k); cbn; unfold slice; rewrite drop_0.
  - destruct (Nat.ltb_spec 0 (page_floor ps (key_len k))); [|by replace n with 0%nat by lia].
    rewrite take_take. f_equal. lia.
  - rewrite take_take. f_equal. lia.
Qed.

(** The key under which a lookup is made: a view of the key as bigrams when the
    cache stores bigrams. *)
Definition view (eagle : bool) (k : RadixKey) : RadixKey :=
  (maybe_to_bigram_view k eagle None).1.

(** A bigram key is only given to a cache that stores bigrams. *)
Definition key_fits (eagle : bool) (k : RadixKey) : Prop := is_bigram k = true → eagle = true.

Lemma view_bigram eagle k : key_fits eagle k → is_bigram (view eagle k) = eagle.
Proof.
  unfold key_fits, view, maybe_to_bigram_view. destruct eagle, (is_bigram k) eqn:E; cbn; intros Hf;
    try done. by specialize (Hf eq_refl).
Qed.

Lemma view_extra eagle k : extra_key (view eagle k) = extra_key k.
Proof. unfold view, maybe_to_bigram_view. by destruct (eagle && negb (is_bigram k)). Qed.

Section ops_wf.
Context {A : Type} `{KVPool A} `{Env}.
Variable cfg : Config.
Implicit Types st : RadixCache A.
Notation ps := (page_size cfg).
Notation eagle := (is_eagle cfg).

(** *** Bookkeeping updates *)

(** The session index survives a change of state that keeps the index and the
    holders of every node, loses no node and forgets no bookkeeping. *)
Lemma session_wf_mono st st' :
  session_leaves st' = session_leaves st →
  (∀ n, is_Some (nodes (tree st) !! n) → is_Some (nodes (tree st') !! n)) →
  (∀ n m', meta st' !! n = Some m' →
     holders m' = ∅ ∨ ∃ m, meta st !! n = Some m ∧ holders m' = holders m) →
  (∀ n, is_Some (meta st !! n) → is_Some (meta st' !! n)) →
  session_wf st → session_wf st'.
Proof.
  intros Hs Hn Hm Hk [Ha Hi Hw]. split.
  - intros n m' sid Hm' Hsid. destruct (Hm n m' Hm') as [He|(m & Hmn & He)]; [set_solver|].
    rewrite He in Hsid. eauto.
  - intros n m' sid Hm' Hsid. rewrite Hs. destruct (Hm n m' Hm') as [He|(m & Hmn & He)]; [set_solver|].
    rewrite He in Hsid. eauto.
  - intros sid lv n. rewrite Hs. eauto.
Qed.

Lemma upd_meta_wf n f st L :
  (∀ m, hash_value (f m) = hash_value m) → (∀ m, session_ids (f m) = session_ids m) →
  cache_wf cfg st L → cache_wf cfg (upd_meta n f st) L.
Proof.
  intros Hf Hfs [Hps Ht Hm Hs]. split; [done..| |].
  - intros x nd Hx. destruct (Hm x nd Hx) as (m & Hmx & Hh).
    unfold upd_meta. cbn. rewrite lookup_alter. case_decide; subst; rewrite Hmx; cbn; [|eauto].
    eexists; split; [done|]. intros h. rewrite Hf. apply Hh.
  - revert Hs. apply session_wf_mono; try done; cbn; intros x.
    + intros m'. rewrite lookup_alter. case_decide; subst; [|eauto].
      intros (m & Hm' & ->)%fmap_Some. right. exists m. split; [done|]. unfold holders. by rewrite Hfs.
    + rewrite lookup_alter. case_decide; subst; [by rewrite fmap_is_Some|done].
Qed.

Lemma with_clock_wf c st L : cache_wf cfg st L → cache_wf cfg (with_clock c st) L.
Proof. intros [Hps Ht Hm [? ? ?]]. split; try done. Qed.

(** *** Splitting *)

Lemma split_hash_ok cnd cm s :
  hash_ok ps cnd cm → (1 ≤ ps)%nat → (ps | s)%nat → (ps | key_len (nkey cnd))%nat →
  (s ≤ key_len (nkey cnd))%nat →
  let hs := split_node_hash_value (hash_value cm) s ps in
  (∀ h, hs.1 = Some h → length h = (s / ps)%nat ∧
     Forall (λ s, ∃ z, hash_str_to_int64 s = Ok z) h) ∧
  (∀ h, hs.2 = Some h → length h = ((key_len (nkey cnd) - s) / ps)%nat ∧
     Forall (λ s, ∃ z, hash_str_to_int64 s = Ok z) h).
Proof.
  intros Hh Hps [q ->] [r Hr] Hs. unfold split_node_hash_value.
  destruct (hash_value cm) as [h|] eqn:E; [|done]. destruct (Hh h E) as [Hlen Hall].
  rewrite Hr in *. assert (q ≤ r)%nat by nia.
  assert ((if (ps =? 1)%nat then q * ps else q * ps / ps) = q)%nat as ->.
  { destruct (Nat.eqb_spec ps 1) as [->|]; [lia|]. by rewrite Nat.div_mul by lia. }
  rewrite <-Nat.mul_sub_distr_r. rewrite !Nat.div_mul in * by lia.
  split; intros h' [= <-]; rewrite ?length_take, ?length_drop.
  - split; [lia|]. by apply Forall_take.
  - split; [lia|]. by apply Forall_drop.
Qed.

(** The metadata of the two halves. *)
Section split_meta.
Variables (st : RadixCache A) (ck rest_key : child_key_t) (p c : nat) (pnd cnd : TreeNode) (cm : NodeMeta).
Variables (k1 k2 : RadixKey) (v1 v2 : list Z) (s clk : nat) (prio : Z).
Notation m := (counter (tree st)).
Definition split_hashes : option (list string) * option (list string) := split_node_hash_value (hash_value cm) s ps.
Definition split_upper : NodeMeta := set_hash_value split_hashes.1 (set_hit_count (hit_count cm) (fresh_meta (clock st) prio)).
Definition split_state : RadixCache A :=
  with_clock clk (with_meta (<[c := set_hash_value split_hashes.2 cm]> (<[m := split_upper]> (meta st)))
    (with_tree (tree_split (tree st) ck rest_key p pnd c cnd k1 k2 v1 v2) st)).
Hypothesis Hp : nodes (tree st) !! p = Some pnd.
Hypothesis Hc : nodes (tree st) !! c = Some cnd.
Hypothesis Hcm : meta st !! c = Some cm.
Hypothesis Hdist : p ≠ m ∧ c ≠ m ∧ p ≠ c.

Lemma split_meta_ok :
  meta_wf ps st → hash_ok ps cnd cm → (1 ≤ ps)%nat → (ps | s)%nat → (ps | key_len (nkey cnd))%nat → (s ≤ key_len (nkey cnd))%nat →
  key_len k1 = s → key_len k2 = (key_len (nkey cnd) - s)%nat → meta_wf ps split_state.
Proof.
  intros Hm Hh Hps Hal Hkal Hs Hl1 Hl2 x xnd. change (tree split_state) with (tree_split (tree st) ck rest_key p pnd c cnd k1 k2 v1 v2).
  rewrite split_lookup. change (meta split_state) with (<[c := set_hash_value split_hashes.2 cm]> (<[m := split_upper]> (meta st))).
  rewrite !lookup_insert. destruct (split_hash_ok cnd cm s Hh Hps Hal Hkal Hs) as [Hh1 Hh2].
  destruct (decide (x = p)) as [->|Hxp].
  { intros [= <-]. rewrite !decide_False by naive_solver. apply (Hm p pnd Hp). }
  destruct (decide (x = c)) as [->|Hxc].
  { intros [= <-]. rewrite decide_True by done. eexists; split; [done|]. intros h Hhv. cbn. rewrite Hl2. by apply Hh2. }
  destruct (decide (x = m)) as [->|Hxm].
  { intros [= <-]. rewrite decide_False, decide_True by naive_solver. eexists; split; [done|]. intros h Hhv. cbn. rewrite Hl1. by apply Hh1. }
  rewrite !decide_False by naive_solver. apply Hm.
Qed.

Lemma split_session_ok : session_wf st → session_wf split_state.
Proof.
  apply session_wf_mono; [done|..]; intros x.
  - change (tree split_state) with (tree_split (tree st) ck rest_key p pnd c cnd k1 k2 v1 v2). rewrite split_lookup. repeat case_decide; eauto.
  - change (meta split_state) with (<[c := set_hash_value split_hashes.2 cm]> (<[m := split_upper]> (meta st))).
    rewrite !lookup_insert. destruct (decide (c = x)) as [<-|].
    { intros m' [= <-]. right. by exists cm. }
    destruct (decide (m = x)) as [<-|]; [|eauto]. intros m' [= <-]. by left.
  - change (meta split_state) with (<[c := set_hash_value split_hashes.2 cm]> (<[m := split_upper]> (meta st))).
    rewrite !lookup_insert. repeat case_decide; eauto.
Qed.
End split_meta.

Lemma split_node_ok st L c cnd s :
  cache_wf cfg st L → nodes (tree st) !! c = Some cnd → c ≠ root_node (tree st) →
  (0 < s)%nat → (s < key_len (nkey cnd))%nat → (ps | s)%nat →
  ∃ p st' rest_key v nd',
    split_node cfg (nkey cnd) c s st = Ok (counter (tree st), st') ∧
    cache_wf cfg st' L ∧ frame st st' ∧ parent cnd = Some p ∧ value cnd = Some v ∧
    root_node (tree st') = root_node (tree st) ∧
    tree_slots (tree st') ≡ₚ tree_slots (tree st) ∧
    (∀ e us vs, cached ps (tree st') e us vs ↔ cached ps (tree st) e us vs) ∧
    (∀ e n us vs x, down (tree st) e n us vs x → down (tree st') e n us vs x) ∧
    nodes (tree st') !! counter (tree st) = Some nd' ∧
    nd' = mkNode [(rest_key, c)] (Some p) (key_slice (nkey cnd) 0 s) (Some (take s v)) (lock_ref cnd) ∧
    child_key (key_slice (nkey cnd) s (key_len (nkey cnd))) ps = Ok rest_key.
Proof.
  intros [Hps [Hw Hlk Hac] Hm Hse] Hc Hcr Hs0 Hs Hal. set (k := nkey cnd) in *.
  destruct (sw_parent_node _ c cnd Hps Hw Hc Hcr) as (p & pnd & ck & Hcp & Hp & Hck & Hin & Hpc & Hx).
  destruct (sw_node _ _ _ Hw _ _ Hc Hcr) as (Hkl & Hkal & Hkb & (v & Hv & Hvl) & Hlr).
  destruct (Hm c cnd Hc) as (cm & Hcm & Hh). fold k in Hck, Hkl, Hkal, Hkb, Hvl.
  set (k1 := key_slice k 0 s). set (k2 := key_slice k s (key_len k)).
  assert (Hl1 : key_len k1 = s) by (unfold k1; rewrite key_len_slice; lia).
  assert (Hl2 : key_len k2 = (key_len k - s)%nat) by (unfold k2; by rewrite key_len_slice by lia).
  pose proof (aligned_pos ps s Hps Hal Hs0) as Hs1.
  pose proof (aligned_sub ps s (key_len k) Hal Hkal) as Hal2.
  pose proof (aligned_pos ps _ Hps Hal2 ltac:(lia)) as Hs2.
  assert (Hck1 : child_key k1 ps = Ok ck).
  { rewrite <-Hck. apply child_key_eq; try done; try lia; unfold k1.
    - by rewrite key_slice_bigram.
    - rewrite key_slice_extra, units_upto by lia. by rewrite take_take, Nat.min_l. }
  destruct (child_key_units k2 ps Hps) as (rk & Hck2 & _); [lia|].
  set (rest_key := (extra_key k2, rk)) in *.
  set (m := counter (tree st)).
  set (nd' := mkNode [(rest_key, c)] (Some p) k1 (Some (take s v)) (lock_ref cnd)).
  set (t' := tree_split (tree st) ck rest_key p pnd c cnd k1 k2 (take s v) (drop s v)).
  assert (Hfresh : nodes (tree st) !! m = None).
  { apply eq_None_not_Some. intros Hi. by apply (split_fresh (tree st) Hw m). }
  assert (Hpm : p ≠ m ∧ c ≠ m) by (split; intros ->; congruence).
  assert (Hok1 : node_ok ps eagle nd').
  { unfold node_ok. cbn. rewrite Hl1. unfold k1. rewrite key_slice_bigram. split_and!; try done.
    eexists; split; [done|]. rewrite length_take. lia. }
  assert (Hok2 : node_ok ps eagle
    (mkNode (children cnd) (Some m) k2 (Some (drop s v)) (lock_ref cnd))).
  { unfold node_ok. cbn. rewrite Hl2. unfold k2. rewrite key_slice_bigram. split_and!; try done.
    eexists; split; [done|]. rewrite length_drop. lia. }
  assert (He1 : extra_key k1 = extra_key k) by apply key_slice_extra.
  assert (He2 : extra_key k2 = extra_key k) by apply key_slice_extra.
  assert (Hu : units k = units k1 ++ units k2).
  { unfold k1, k2. rewrite units_upto, units_from, take_drop by lia. done. }
  set (st' := split_state st ck rest_key p c pnd cnd cm k1 k2 (take s v) (drop s v) s (S (S (clock st))) (priority cm)).
  exists p, st', rest_key, v, nd'.
  assert (Hrun : split_node cfg k c s st = Ok (m, st')).
  { unfold split_node, get_node, get_meta. rewrite Hc, Hcm. cbn [of_option rbind].
    fold k. rewrite key_from_slice, key_upto_slice by lia. cbn [rbind]. fold k1 k2.
    rewrite Hck2. cbn [rbind]. rewrite Hv, Hcp. cbn [of_option rbind]. rewrite Hck. cbn [rbind].
    cbv zeta. cbn [nodes put_node set_tree_nodes next_id]. rewrite !lookup_insert_ne by (fold m; naive_solver).
    rewrite Hp. cbn [of_option rbind]. unfold st', split_state, split_upper, split_hashes. by destruct (split_node_hash_value _ _ _). }
  split_and!; try done.
  - split; [done| | |].
    + split.
      * apply split_shape; try done. fold k. lia.
      * apply (split_lock (ps := ps) (eagle := eagle)); try done.
      * apply (split_acct (ps := ps) (eagle := eagle)); try done. fold k. lia.
    + apply split_meta_ok; try done; fold k; [naive_solver|lia].
    + by apply split_session_ok.
  - change (tree st') with t'. apply (split_slots ps eagle); try done. by rewrite take_drop.
  - intros e us vs. apply (split_cached (eagle := eagle)); try done.
    + by rewrite take_drop.
    + rewrite length_take. lia.
  - intros e n us vs x. apply (split_down (ps := ps) (eagle := eagle)); try done.
    by rewrite take_drop.
  - change (tree st') with t'. unfold t'. rewrite split_lookup. fold m.
    rewrite 2!decide_False, decide_True by naive_solver. done.
Qed.

(** *** The descent *)

(** The child a descent moves to: it lies in the namespace of the key and
    shares its first page. *)
Lemma child_found st L node nd key ck c :
  cache_wf cfg st L → nodes (tree st) !! node = Some nd →
  is_bigram key = eagle → (0 < key_len key)%nat → (ps | key_len key)%nat →
  child_key key ps = Ok ck → dict_get ck (children nd) = Some c →
  ∃ cnd v M, nodes (tree st) !! c = Some cnd ∧ parent cnd = Some node ∧
    c ≠ root_node (tree st) ∧ extra_key (nkey cnd) = extra_key key ∧ value cnd = Some v ∧
    length v = key_len (nkey cnd) ∧ (ps | key_len (nkey cnd))%nat ∧
    take ps (units (nkey cnd)) = take ps (units key) ∧
    M = units_match ps (nkey cnd) key ∧ key_match (nkey cnd) key ps = Ok M ∧
    (ps ≤ M)%nat ∧ (M ≤ key_len (nkey cnd))%nat ∧ (M ≤ key_len key)%nat ∧ (ps | M)%nat ∧
    take M (units (nkey cnd)) = take M (units key).
Proof.
  intros [Hps [Hw _ _] _ _] Hn Hb Hpos Hal Hck Hget.
  apply (sw_get _ _ _ _ _ Hw Hn) in Hget.
  destruct (sw_child _ _ _ _ _ Hw Hn Hget) as (cnd & Hc & Hp & Hckc & Hcr & _).
  destruct (sw_node _ _ _ Hw _ _ Hc Hcr) as (Hl & Hcal & Hcb & (v & Hv & Hvl) & _).
  pose proof (aligned_pos _ _ Hps Hal Hpos) as Hkl.
  assert (Heq : child_key (nkey cnd) ps = child_key key ps) by (by rewrite Hck).
  apply child_key_eq in Heq as [He Htake]; try done; [|congruence].
  pose proof (page_floor_le ps (lcp (units (nkey cnd)) (units key))) as Hfl.
  pose proof (lcp_le_l (units (nkey cnd)) (units key)) as H1.
  pose proof (lcp_le_r (units (nkey cnd)) (units key)) as H2.
  rewrite length_units in H1, H2.
  exists cnd, v, (units_match ps (nkey cnd) key). unfold units_match in *. split_and!; try done.
  - apply key_match_lcp; [done..|congruence].
  - apply page_floor_greatest; [done|apply Nat.divide_refl|].
    apply lcp_take; [by rewrite length_units..|done].
  - lia.
  - lia.
  - apply page_floor_divide.
  - apply lcp_take; rewrite ?length_units; lia.
Qed.

Lemma short_key_bound U key n : key_len key = 0%nat → (page_floor ps (lcp U (units key)) ≤ n)%nat.
Proof.
  intros Hz. assert (units key = []) as -> by (apply nil_length_inv; by rewrite length_units).
  rewrite lcp_nil_r. pose proof (page_floor_le ps 0). lia.
Qed.

Lemma take_units_add key M n : (M ≤ key_len key)%nat →
  take (M + n) (units key) = take M (units key) ++ take n (drop M (units key)).
Proof.
  intros HM. rewrite <-(take_drop M (units key)) at 1.
  apply take_app_add'. rewrite length_take, length_units. lia.
Qed.

(** Bounding the match of every walk from a node by the match with one child. *)
Lemma walk_bound st L node nd key c cnd v U V y :
  cache_wf cfg st L → nodes (tree st) !! node = Some nd →
  nodes (tree st) !! c = Some cnd → parent cnd = Some node →
  extra_key (nkey cnd) = extra_key key → value cnd = Some v →
  take ps (units (nkey cnd)) = take ps (units key) → (ps ≤ key_len key)%nat →
  down (tree st) (extra_key key) node U V y →
  page_floor ps (lcp U (units key)) = 0%nat ∨
  ∃ us' vs', U = units (nkey cnd) ++ us' ∧ V = v ++ vs' ∧
    down (tree st) (extra_key key) c us' vs' y.
Proof.
  intros [Hps [Hw _ _] _ _] Hn Hc Hp He Hv Htake Hkl Hd.
  destruct (decide (page_floor ps (lcp U (units key)) = 0)%nat) as [|Hz]; [by left|right].
  pose proof (page_floor_le ps (lcp U (units key))) as Hfl.
  pose proof (aligned_pos _ _ Hps (page_floor_divide ps (lcp U (units key))) ltac:(lia)) as Hge.
  pose proof (lcp_le_l U (units key)) as HU.
  apply (down_through _ Hps Hw (extra_key key) node nd c cnd v U V y); try done.
  - intros ->. simpl in Hfl, Hge. lia.
  - rewrite Htake. apply lcp_take; rewrite ?length_units; lia.
Qed.

Lemma walk_missing st L node nd key ck U V y :
  cache_wf cfg st L → nodes (tree st) !! node = Some nd → is_bigram key = eagle →
  (ps ≤ key_len key)%nat → child_key key ps = Ok ck → dict_get ck (children nd) = None →
  down (tree st) (extra_key key) node U V y → page_floor ps (lcp U (units key)) = 0%nat.
Proof.
  intros [Hps [Hw _ _] _ _] Hn Hb Hkl Hck Hget Hd.
  destruct (decide (page_floor ps (lcp U (units key)) = 0)%nat) as [|Hz]; [done|exfalso].
  pose proof (page_floor_le ps (lcp U (units key))) as Hfl.
  pose proof (aligned_pos _ _ Hps (page_floor_divide ps (lcp U (units key))) ltac:(lia)) as Hge.
  pose proof (lcp_le_l U (units key)) as HU.
  destruct (down_first _ Hps Hw _ _ _ _ _ _ key Hn Hd) as (ck' & c & ? & ? & ? & ? & ? & ? & _);
    try done; [| |congruence].
  - intros ->. simpl in Hfl, Hge. lia.
  - apply lcp_take; rewrite ?length_units; lia.
Qed.

(** The rest of a key after a whole number of matched pages. *)
Lemma rest_ok key M ck :
  (1 ≤ ps)%nat → (ps | key_len key)%nat → (ps | M)%nat → (M ≤ key_len key)%nat →
  ∃ key' ck', key_from key M = Ok key' ∧
    (if (0 <? key_len key')%nat then child_key key' ps else Ok ck) = Ok ck' ∧
    ((0 < key_len key')%nat → child_key key' ps = Ok ck') ∧
    extra_key key' = extra_key key ∧ is_bigram key' = is_bigram key ∧
    key_len key' = (key_len key - M)%nat ∧ (ps | key_len key')%nat ∧
    units key' = drop M (units key).
Proof.
  intros Hps Hal HMal HM. rewrite key_from_slice by done.
  set (key' := key_slice key M (key_len key)).
  assert (Hl' : key_len key' = (key_len key - M)%nat) by (unfold key'; by rewrite key_len_slice).
  assert (Hal' : (ps | key_len key')%nat) by (rewrite Hl'; by apply aligned_sub).
  assert (Hck : ∃ ck', (if (0 <? key_len key')%nat then child_key key' ps else Ok ck) = Ok ck' ∧
    ((0 < key_len key')%nat → child_key key' ps = Ok ck')).
  { destruct (Nat.ltb_spec 0 (key_len key')) as [Hp'|]; [|exists ck; split; [done|lia]].
    destruct (child_key_units key' ps) as (pl & -> & _); [done|by apply aligned_pos|eauto]. }
  destruct Hck as (ck' & ? & ?). exists key', ck'. split_and!; try done.
  - apply key_slice_extra.
  - apply key_slice_bigram.
  - by apply units_from.
Qed.

(** What a move to the child [c] along a match of length [M] achieves, after
    the split that a partial match needs. *)
Record step_spec st L (node : nat) (key : RadixKey) (c : nat) (cnd : TreeNode) (M : nat)
    (n2 : nat) (nd2 : TreeNode) (w : list Z) st2 : Prop := {
  ss_wf : cache_wf cfg st2 L;
  ss_frame : frame st st2;
  ss_root : root_node (tree st2) = root_node (tree st);
  ss_slots : tree_slots (tree st2) ≡ₚ tree_slots (tree st);
  ss_cached e us vs : cached ps (tree st2) e us vs ↔ cached ps (tree st) e us vs;
  ss_keep e n us vs y : down (tree st) e n us vs y → down (tree st2) e n us vs y;
  ss_node : nodes (tree st2) !! n2 = Some nd2;
  ss_value : value nd2 = Some w;
  ss_length : length w = M;
  ss_down : down (tree st2) (extra_key key) node (take M (units key)) w n2;
  ss_bound U V y : down (tree st) (extra_key key) node U V y →
    (page_floor ps (lcp U (units key)) ≤ M)%nat ∨
    ((key_len (nkey cnd) ≤ M)%nat ∧ st2 = st ∧ n2 = c ∧
     ∃ us' vs', U = take M (units key) ++ us' ∧
       down (tree st) (extra_key key) c us' vs' y);
}.

Lemma step_ok st L node nd key ck c :
  cache_wf cfg st L → nodes (tree st) !! node = Some nd →
  is_bigram key = eagle → (0 < key_len key)%nat → (ps | key_len key)%nat →
  child_key key ps = Ok ck → dict_get ck (children nd) = Some c →
  ∃ cnd M n2 nd2 w st2, nodes (tree st) !! c = Some cnd ∧
    key_match (nkey cnd) key ps = Ok M ∧
    (if (M <? key_len (nkey cnd))%nat then split_node cfg (nkey cnd) c M st else Ok (c, st))
      = Ok (n2, st2) ∧
    (0 < M)%nat ∧ (ps | M)%nat ∧ (M ≤ key_len key)%nat ∧
    ((key_len (nkey cnd) ≤ M)%nat → nd2 = cnd) ∧
    step_spec st L node key c cnd M n2 nd2 w st2.
Proof.
  intros Hw Hn Hb Hpos Hal Hck Hget.
  destruct (child_found _ _ _ _ _ _ _ Hw Hn Hb Hpos Hal Hck Hget) as
    (cnd & v & M & Hc & Hp & Hcr & He & Hv & Hvl & Hcal & Htake & HM & Hmatch & HM1 & HM2 & HM3 & HMal & HMt).
  pose proof (cw_ps _ _ _ Hw) as Hps.
  destruct (Nat.lt_ge_cases M (key_len (nkey cnd))) as [Hlt|Hge].
  - destruct (split_node_ok st L c cnd M) as
      (p & st' & rk & v' & nd' & Hrun & Hw' & Hfr & Hp' & Hv' & Hr & Hsl & Hcache & Hdown & Hm & -> & _);
      try done; [lia|]. assert (v' = v) as -> by congruence. assert (p = node) as -> by congruence.
    eexists cnd, M, _, (mkNode [(rk, c)] (Some node) (key_slice (nkey cnd) 0 M)
      (Some (take M v)) (lock_ref cnd)), (take M v), st'.
    rewrite (proj2 (Nat.ltb_lt _ _) Hlt).
    split_and!; try done; [lia|intros; exfalso; lia|]. split; try done.
    + rewrite length_take. lia.
    + rewrite <-HMt, <-units_upto by done.
      refine (down_one _ _ _ _ _ _ Hm eq_refl _ eq_refl). cbn. by rewrite key_slice_extra.
    + intros U V y Hd. left.
      destruct (walk_bound st L node nd key c cnd v U V y) as [->|(us' & vs' & -> & -> & _)];
        try done; [lia|lia|]. unfold units_match in HM.
      rewrite lcp_app_lt; [by rewrite HM|]. rewrite length_units.
      destruct (Nat.lt_ge_cases (lcp (units (nkey cnd)) (units key)) (key_len (nkey cnd)))
        as [|Hfull]; [done|]. pose proof (page_floor_greatest ps _ _ Hps Hcal Hfull). lia.
  - assert (M = key_len (nkey cnd)) as HMeq by lia. clear HM. subst M.
    rewrite take_ge in HMt by (by rewrite length_units).
    exists cnd, (key_len (nkey cnd)), c, cnd, v, st. rewrite (proj2 (Nat.ltb_ge _ _) Hge).
    split_and!; try done; [lia|]. split; try done.
    + rewrite <-HMt. by eapply down_one.
    + intros U V y Hd. rewrite <-HMt.
      destruct (walk_bound st L node nd key c cnd v U V y) as [->|(us' & vs' & -> & -> & ?)];
        try done; [lia|left; lia|]. right. eauto 10.
Qed.

(** The bound of a whole descent from the bound of its first step. *)
Lemma descent_bound st L node key c cnd M n2 nd2 w st2 key' M' U V y :
  step_spec st L node key c cnd M n2 nd2 w st2 → (1 ≤ ps)%nat → (ps | M)%nat →
  (M ≤ key_len key)%nat → extra_key key' = extra_key key → units key' = drop M (units key) →
  (∀ U V y, down (tree st2) (extra_key key') n2 U V y →
     (page_floor ps (lcp U (units key')) ≤ M')%nat) →
  down (tree st) (extra_key key) node U V y →
  (page_floor ps (lcp U (units key)) ≤ M + M')%nat.
Proof.
  intros Hs Hps HMal HM He Hu Hmax Hd. rewrite He in Hmax.
  destruct (ss_bound _ _ _ _ _ _ _ _ _ _ _ Hs U V y Hd) as [Hle|(_ & -> & -> & us' & vs' & -> & Hd')];
    [lia|]. pose proof (Hmax _ _ _ Hd') as Hle. rewrite Hu in Hle.
  rewrite <-(take_drop M (units key)) at 2. rewrite lcp_app_same.
  rewrite length_take, length_units, Nat.min_l, page_floor_add by done. lia.
Qed.

Lemma match_loop_ok fuel at_ st L node nd key ck value :
  cache_wf cfg st L → nodes (tree st) !! node = Some nd →
  is_bigram key = eagle → (ps | key_len key)%nat →
  ((0 < key_len key)%nat → child_key key ps = Ok ck) → (key_len key < fuel)%nat →
  ∃ vss x st', match_loop cfg fuel at_ node key ck value st = Ok (value ++ vss, x, st') ∧
    cache_wf cfg st' L ∧ frame st st' ∧ root_node (tree st') = root_node (tree st) ∧
    tree_slots (tree st') ≡ₚ tree_slots (tree st) ∧
    (∀ e us vs, cached ps (tree st') e us vs ↔ cached ps (tree st) e us vs) ∧
    (∀ e n us vs x, down (tree st) e n us vs x → down (tree st') e n us vs x) ∧
    (length (concat vss) ≤ key_len key)%nat ∧
    down (tree st') (extra_key key) node (take (length (concat vss)) (units key)) (concat vss) x ∧
    (∀ U V y, down (tree st) (extra_key key) node U V y →
       (page_floor ps (lcp U (units key)) ≤ length (concat vss))%nat).
Proof.
  revert st node nd key ck value; induction fuel as [|fuel IH];
    intros st node nd key ck value Hw Hn Hb Hal Hck Hf; [lia|].
  pose proof (cw_ps _ _ _ Hw) as Hps.
  cbn [match_loop]. unfold get_node at 1. rewrite Hn. cbn [of_option rbind].
  destruct (Nat.ltb_spec 0 (key_len key)) as [Hpos|Hz].
  2: { exists [], node, st. rewrite app_nil_r. split_and!; try done; [simpl; lia|constructor|].
       intros U V y _. apply short_key_bound. lia. }
  specialize (Hck Hpos). destruct (dict_get ck (children nd)) as [c|] eqn:Hget.
  2: { exists [], node, st. rewrite app_nil_r. split_and!; try done; [simpl; lia|constructor|].
       intros U V y Hd. rewrite (walk_missing st L node nd key ck U V y); try done.
       by apply aligned_pos. }
  set (st1 := upd_meta c (set_last_access_time at_) st).
  assert (Hw1 : cache_wf cfg st1 L) by (by apply upd_meta_wf).
  destruct (step_ok st1 L node nd key ck c Hw1 Hn Hb Hpos Hal Hck Hget) as
    (cnd & M & n2 & nd2 & w & st2 & Hc & Hmatch & Hif & HM & HMal & HMk & Hfull & Hs).
  unfold get_node at 1. rewrite Hc. cbn [of_option rbind]. rewrite Hmatch. cbn [rbind].
  destruct (Nat.ltb_spec M (key_len (nkey cnd))) as [Hlt|Hge].
  - rewrite Hif. cbn [rbind]. unfold get_node.
    destruct Hs as [Hw2 Hfr Hr Hsl Hcache Hkeep Hn2 Hv2 Hl2 Hd2 Hbd].
    rewrite Hn2. cbn [of_option rbind]. rewrite Hv2. cbn [of_option rbind].
    exists [w], n2, st2. cbn. rewrite app_nil_r, Hl2. split_and!; try done.
    intros U V y Hd. destruct (Hbd U V y Hd) as [|(? & _)]; [done|lia].
  - injection Hif as <- <-. specialize (Hfull Hge) as ->.
    rewrite (ss_value _ _ _ _ _ _ _ _ _ _ _ Hs). cbn [of_option rbind].
    destruct (rest_ok key M ck Hps Hal HMal HMk) as
      (key' & ck' & Hfrom & Hnext & Hck' & He' & Hb' & Hl' & Hal' & Hu').
    rewrite Hfrom. cbn [rbind]. rewrite Hnext. cbn [rbind].
    destruct (IH st1 c cnd key' ck' (value ++ [w])) as
      (vss & x & st' & Hrun & Hw' & Hfr & Hr & Hsl & Hcache & Hdown & Hlen & Hd & Hmax);
      [done|done|congruence|done|done|lia|].
    exists (w :: vss), x, st'. rewrite Hrun, <-app_assoc. cbn.
    rewrite length_app, (ss_length _ _ _ _ _ _ _ _ _ _ _ Hs).
    split_and!; try done; [lia| |].
    + rewrite take_units_add, <-Hu' by done.
      eapply down_app; [|rewrite <-He'; exact Hd].
      apply Hdown. eapply ss_down. done.
    + intros U V y Hdu. eapply (descent_bound st1); [exact Hs|done..|exact Hmax|exact Hdu].
Qed.

(** What a lookup of [key] in [st] yields: slots [vs], node [x], state [st']. *)
Record match_spec st L (key : RadixKey) (vs : list Z) (x : nat) st' : Prop := {
  ms_wf : cache_wf cfg st' L;
  ms_frame : frame st st';
  ms_root : root_node (tree st') = root_node (tree st);
  ms_slots : tree_slots (tree st') ≡ₚ tree_slots (tree st);
  ms_cached e us w : cached ps (tree st') e us w ↔ cached ps (tree st) e us w;
  ms_keep e n us w y : down (tree st) e n us w y → down (tree st') e n us w y;
  ms_down : down (tree st') (extra_key key) (root_node (tree st))
    (take (length vs) (units (view eagle key))) vs x;
  ms_len : (length vs ≤ key_len (view eagle key))%nat;
  ms_longest us w : cached ps (tree st) (extra_key key) us w →
    us `prefix_of` units (view eagle key) → (length us ≤ length vs)%nat;
}.

Lemma cached_nil_prefix st key us w :
  (1 ≤ ps)%nat → page_floor ps (key_len (view eagle key)) = 0%nat →
  cached ps (tree st) (extra_key key) us w → us `prefix_of` units (view eagle key) →
  length us = 0%nat.
Proof.
  intros Hps Hz (Hal & _) Hpre. apply prefix_length in Hpre. rewrite length_units in Hpre.
  pose proof (page_floor_greatest ps _ _ Hps Hal Hpre). lia.
Qed.

Lemma match_prefix_ok st L key :
  cache_wf cfg st L → disable cfg = false → key_fits eagle key →
  ∃ vs x st', match_prefix cfg key st = Ok (vs, x, st') ∧ match_spec st L key vs x st'.
Proof.
  intros Hw Hdis Hfit. pose proof (cw_ps _ _ _ Hw) as Hps. unfold match_prefix.
  destruct (maybe_to_bigram_view key eagle None) as [k0 ov] eqn:Ek.
  assert (view eagle key = k0) as Hk0 by (unfold view; by rewrite Ek).
  pose proof (view_bigram _ _ Hfit) as Hb. pose proof (view_extra eagle key) as Hx.
  rewrite Hk0 in Hb, Hx. rewrite Hdis. cbn [orb].
  assert (Hempty : page_floor ps (key_len k0) = 0%nat →
    match_spec st L key [] (root_node (tree st)) st).
  { intros Hz. split; try done; [constructor|simpl; lia|]. intros us w Hc Hpre.
    rewrite (cached_nil_prefix st key us w); try done. by rewrite Hk0. }
  destruct (Nat.eqb_spec (key_len k0) 0) as [Hz|Hnz].
  { do 3 eexists; split; [done|]. apply Hempty. rewrite Hz.
    pose proof (page_floor_le ps 0). lia. }
  destruct (page_aligned_ok k0 ps Hps) as (k & -> & Hke & Hkb & Hkl & Hku & _). cbn [rbind].
  destruct (Nat.eqb_spec (key_len k) 0) as [Hz|Hnz'].
  { do 3 eexists; split; [done|]. apply Hempty. lia. }
  pose proof (page_floor_le ps (key_len k0)) as Hfl.
  assert (Hal : (ps | key_len k)%nat) by (rewrite Hkl; apply page_floor_divide).
  unfold match_prefix_helper. set (r := root_node (tree st)).
  set (st1 := upd_meta r _ _).
  assert (Hw1 : cache_wf cfg st1 L) by (apply upd_meta_wf; [done..|by apply with_clock_wf]).
  destruct (child_key_units k ps Hps) as (pl & Hck & _); [apply aligned_pos; lia || done|].
  rewrite Hck. cbn [rbind]. destruct (sw_root _ _ _ (tw_shape _ _ _ _ (cw_tree _ _ _ Hw))) as (rn & Hr & _).
  destruct (match_loop_ok (S (key_len k)) (monotonic (clock st)) st1 L r rn k (extra_key k, pl) [])
    as (vss & x & st' & -> & Hw' & Hfr & Hroot & Hsl & Hcache & Hdown & Hlen & Hd & Hmax);
    [done..|congruence|done|done|lia|]. cbn [rbind app].
  do 3 eexists; split; [done|]. rewrite Hke, Hx, Hku in *. rewrite take_take in Hd.
  rewrite Nat.min_l in Hd by lia. split; rewrite ?Hk0; try done; [lia|].
  intros us w (Hual & y & U & V & Hdu & Hpre & ->) Hpu.
  etrans; [|exact (Hmax U V y Hdu)].
  assert (Hlu : (length us ≤ key_len k)%nat).
  { rewrite Hkl. apply page_floor_greatest; [done..|]. apply prefix_length in Hpu.
    by rewrite length_units in Hpu. }
  apply page_floor_greatest; [done..|]. apply lcp_take.
  - by apply prefix_length.
  - rewrite length_take, length_units. lia.
  - destruct Hpre as [z1 ->]. rewrite take_take, Nat.min_l by lia.
    destruct Hpu as [z2 ->]. by rewrite !take_app_length.
Qed.

(** *** Insertion: the descent *)

Lemma insert_loop_ok fuel at_ st L node nd key ck value prio chunked total :
  cache_wf cfg st L → nodes (tree st) !! node = Some nd →
  is_bigram key = eagle → (ps | key_len key)%nat →
  ((0 < key_len key)%nat → child_key key ps = Ok ck) → (key_len key < fuel)%nat →
  ∃ x xnd key' ck' M w st',
    insert_loop cfg fuel at_ node key ck value prio chunked total st
      = Ok (x, key', ck', drop M value, (total + M)%nat, st') ∧
    cache_wf cfg st' L ∧ frame st st' ∧ root_node (tree st') = root_node (tree st) ∧
    tree_slots (tree st') ≡ₚ tree_slots (tree st) ∧
    (∀ e us vs, cached ps (tree st') e us vs ↔ cached ps (tree st) e us vs) ∧
    (∀ e n us vs x, down (tree st) e n us vs x → down (tree st') e n us vs x) ∧
    (M ≤ key_len key)%nat ∧ length w = M ∧
    down (tree st') (extra_key key) node (take M (units key)) w x ∧
    nodes (tree st') !! x = Some xnd ∧
    extra_key key' = extra_key key ∧ is_bigram key' = is_bigram key ∧
    key_len key' = (key_len key - M)%nat ∧ units key' = drop M (units key) ∧
    ((0 < key_len key')%nat →
       child_key key' ps = Ok ck' ∧ dict_get ck' (children xnd) = None) ∧
    (∀ U V y, down (tree st) (extra_key key) node U V y →
       (page_floor ps (lcp U (units key)) ≤ M)%nat).
Proof.
  revert st node nd key ck value total; induction fuel as [|fuel IH];
    intros st node nd key ck value total Hw Hn Hb Hal Hck Hf; [lia|].
  pose proof (cw_ps _ _ _ Hw) as Hps.
  cbn [insert_loop]. unfold get_node at 1. rewrite Hn. cbn [of_option rbind].
  destruct (Nat.ltb_spec 0 (key_len key)) as [Hpos|Hz].
  2: { exists node, nd, key, ck, 0%nat, [], st. rewrite Nat.add_0_r, drop_0.
       split_and!; try done; [lia|constructor|lia|lia|]. intros U V y _. apply short_key_bound. lia. }
  specialize (Hck Hpos). destruct (dict_get ck (children nd)) as [c|] eqn:Hget.
  2: { exists node, nd, key, ck, 0%nat, [], st. rewrite Nat.add_0_r, drop_0.
       split_and!; try done; [lia|constructor|lia|]. intros U V y Hd.
       rewrite (walk_missing st L node nd key ck U V y); try done. by apply aligned_pos. }
  set (st1 := upd_meta c (set_last_access_time at_) st).
  assert (Hw1 : cache_wf cfg st1 L) by (by apply upd_meta_wf).
  destruct (step_ok st1 L node nd key ck c Hw1 Hn Hb Hpos Hal Hck Hget) as
    (cnd & M & n2 & nd2 & w & st2 & Hc & Hmatch & Hif & HM & HMal & HMk & _ & Hs).
  unfold get_node at 1. rewrite Hc. cbn [of_option rbind]. rewrite Hmatch. cbn [rbind].
  destruct (rest_ok key M ck Hps Hal HMal HMk) as
    (key' & ck' & Hfrom & Hnext & Hck' & He' & Hb' & Hl' & Hal' & Hu').
  rewrite Hfrom. cbn [rbind].
  set (st3 := inc_hit_count n2 chunked (raise_priority n2 prio st2)).
  assert (Hmove : (if (M <? key_len (nkey cnd))%nat
      then let! (new_node, st) := split_node cfg (nkey cnd) c M st1 in
           Ok (new_node, inc_hit_count new_node chunked (raise_priority new_node prio st))
      else Ok (c, inc_hit_count c chunked (raise_priority c prio st1))) = Ok (n2, st3)).
  { destruct (M <? key_len (nkey cnd))%nat; [by rewrite Hif|]. by injection Hif as <- <-. }
  cbv zeta. rewrite Hmove. cbn [rbind]. rewrite Hnext. cbn [rbind].
  assert (Ht3 : tree st3 = tree st2) by (subst st3; by destruct chunked).
  assert (Hfr3 : frame st2 st3) by (subst st3; by destruct chunked).
  destruct (IH st3 n2 nd2 key' ck' (drop M value) (total + M)%nat) as
    (x & xnd & key2 & ck2 & M2 & w2 & st' & Hrun & Hw' & Hfr & Hr & Hsl & Hcache & Hdown & HM2 & Hl2 &
     Hd & Hx & He2 & Hb2 & Hkl2 & Hu2 & Hck2 & Hmax); try done.
  { subst st3. unfold inc_hit_count. destruct chunked; repeat apply upd_meta_wf; try done; apply Hs. }
  { rewrite Ht3. apply Hs. } { congruence. } { lia. }
  exists x, xnd, key2, ck2, (M + M2)%nat, (w ++ w2), st'. rewrite Ht3 in *.
  rewrite Hrun, drop_drop, Nat.add_assoc. split_and!; try done; try congruence; try lia.
  - eapply frame_trans; [apply Hs|]. by eapply frame_trans.
  - rewrite Hr. apply Hs.
  - rewrite Hsl. apply Hs.
  - intros. rewrite Hcache. apply Hs.
  - intros. by apply Hdown, Hs.
  - rewrite length_app, Hl2. by rewrite (ss_length _ _ _ _ _ _ _ _ _ _ _ Hs).
  - rewrite take_units_add, <-Hu' by done. rewrite He' in Hd. eapply down_app; [|exact Hd].
    apply Hdown. by eapply ss_down.
  - rewrite Hu2, Hu', drop_drop. done.
  - intros U V y Hdu. eapply (descent_bound st1); [exact Hs|done..|exact Hmax|exact Hdu].
Qed.
End ops_wf.
