(* ===== verification/RadixInsert.v ===== *)
(** Insertion into the prefix cache: the event records, the new leaf, and what
    [insert] makes of the content. *)

From stdpp Require Import base gmap strings list.
From Stdlib Require Import ZArith Lia.
From S2P Require Import Prelude.
From S2P Require Import PyData.
From S2P Require Import RadixKey.
From S2P Require Import RadixTree.
From S2P Require Import RadixInv.
From S2P Require Import RadixContent.
From S2P Require Import RadixOps.

Open Scope Z_scope.

Section insert_wf.
Context {A : Type} `{KVPool A} `{Env} `{!EnvLaws}.
Variable cfg : Config.
Implicit Types st : RadixCache A.
Notation ps := (page_size cfg).
Notation eagle := (is_eagle cfg).

(** *** Events *)

(** Event recording changes only the event queue and missing hashes. *)
Definition event_frame st st' : Prop :=
  tree st' = tree st ∧ allocator st' = allocator st ∧ session_leaves st' = session_leaves st ∧
  closed_session_ids st' = closed_session_ids st ∧ clock st' = clock st.

Lemma page_tokens_ok k start n :
  (start + n ≤ key_len k)%nat → is_bigram k = true →
  ∃ l, bigram_pairs (token_ids k) start n = Ok l.
Proof.
  intros Hn Hb. pose proof (raw_len_le k). rewrite key_len_bigram in Hn by done.
  destruct (bigram_pairs_ok (token_ids k) start n) as (l & -> & _); [|eauto].
  destruct n; [by right|left; lia].
Qed.

Lemma store_pages_ok nd h medium starts i parent_hash :
  Forall (λ s, ∃ z, hash_str_to_int64 s = Ok z) h → (i + length starts ≤ length h)%nat →
  ∃ evs, store_pages cfg nd h medium starts i parent_hash = Ok evs.
Proof.
  intros Hall. revert i parent_hash; induction starts as [|start starts IH]; intros i ph Hi; [eauto|].
  cbn [store_pages]. cbn in Hi. destruct (Nat.leb_spec (Nat.min (start + ps) (key_len (nkey nd))) start).
  { apply IH. lia. }
  assert (∃ toks, (if is_bigram (nkey nd) then
      let! l := bigram_pairs (token_ids (nkey nd)) start
        (Nat.min (start + ps) (key_len (nkey nd)) - start) in
      Ok ((λ '(t, u), Bigram t u) <$> l)
    else Ok (Tok <$> slice start (Nat.min (start + ps) (key_len (nkey nd)))
      (token_ids (nkey nd)))) = Ok toks) as [toks ->].
  { destruct (is_bigram (nkey nd)) eqn:Eb; [|eauto].
    destruct (page_tokens_ok (nkey nd) start
      (Nat.min (start + ps) (key_len (nkey nd)) - start)) as [l ->]; [lia|done|eauto]. }
  cbn [rbind]. destruct (lookup_lt_is_Some_2 h i) as [s Hs]; [lia|]. rewrite Hs. cbn [of_option rbind].
  destruct (proj1 (Forall_lookup _ _) Hall i s Hs) as [z ->]. cbn [rbind].
  destruct (IH (S i) (Some z)) as [evs ->]; [lia|]. cbn. eauto.
Qed.

Lemma removed_hashes_ok len h starts i :
  Forall (λ s, ∃ z, hash_str_to_int64 s = Ok z) h → (i + length starts ≤ length h)%nat →
  ∃ zs, removed_hashes cfg len h starts i = Ok zs.
Proof.
  intros Hall. revert i; induction starts as [|start starts IH]; intros i Hi; [eauto|].
  cbn [removed_hashes]. cbn in Hi. destruct (Nat.leb_spec (Nat.min (start + ps) len) start).
  { apply IH. lia. }
  destruct (lookup_lt_is_Some_2 h i) as [s Hs]; [lia|]. rewrite Hs. cbn [of_option rbind].
  destruct (proj1 (Forall_lookup _ _) Hall i s Hs) as [z ->]. cbn [rbind].
  destruct (IH (S i)) as [zs ->]; [lia|]. cbn. eauto.
Qed.

Lemma length_page_starts n : (1 ≤ ps)%nat → (ps | n)%nat → length (page_starts cfg n) = (n / ps)%nat.
Proof.
  intros Hps [q ->]. unfold page_starts. rewrite length_fmap, length_seq, Nat.div_mul by lia.
  replace (q * ps + ps - 1)%nat with (q * ps + (ps - 1))%nat by lia.
  rewrite Nat.div_add_l, Nat.div_small by lia. lia.
Qed.

(** The hash of a node whose bookkeeping and parent are in the store. *)
Lemma ensure_hash_ok st n nd m :
  (1 ≤ ps)%nat → (ps | key_len (nkey nd))%nat → meta st !! n = Some m → hash_ok ps nd m →
  (∀ p, parent nd = Some p → is_Some (meta st !! p) ∧ is_Some (nodes (tree st) !! p)) →
  ∃ h st', ensure_hash cfg n nd st = Ok (h, st') ∧ event_frame st st' ∧
    kv_event_queue st' = kv_event_queue st ∧
    length h = (key_len (nkey nd) / ps)%nat ∧
    Forall (λ s, ∃ z, hash_str_to_int64 s = Ok z) h ∧
    (∀ x, x ≠ n → meta st' !! x = meta st !! x) ∧
    ∃ m', meta st' !! n = Some m' ∧ hash_ok ps nd m' ∧ session_ids m' = session_ids m.
Proof.
  intros Hps Hal Hm Hh Hpar. unfold ensure_hash, get_meta. rewrite Hm. cbn [of_option rbind].
  destruct (hash_value m) as [h|] eqn:Eh.
  { destruct (Hh h Eh). exists h, st. split_and!; eauto 10; done. }
  assert (∃ prior, compute_node_hash_values cfg nd st = Ok (get_hash_str (nkey nd) prior ps))
    as [prior ->].
  { unfold compute_node_hash_values, get_meta, get_node. destruct (parent nd) as [p|]; [|cbn; eauto].
    destruct (Hpar p eq_refl) as [[pm ->] [pnd ->]]. cbn [of_option rbind].
    destruct (hash_value pm); cbn [rbind of_option]; [|eauto]. destruct (_ && _); cbn; eauto. }
  cbn [rbind]. destruct (get_hash_str_ok (nkey nd) prior ps Hps Hal) as [Hlen Hall].
  eexists _, _. split_and!; try done.
  - intros x Hx. cbn. by rewrite lookup_alter_ne.
  - cbn. rewrite lookup_alter_eq, Hm. eexists; split; [done|]. split; [|done]. by intros h [= <-].
Qed.

Lemma record_store_event_ok st n nd medium m :
  (1 ≤ ps)%nat → (ps | key_len (nkey nd))%nat → meta st !! n = Some m → hash_ok ps nd m →
  (∀ p, parent nd = Some p → ∃ pm pnd, meta st !! p = Some pm ∧
     nodes (tree st) !! p = Some pnd ∧ hash_ok ps pnd pm ∧ p ≠ n) →
  ∃ st', record_store_event cfg n nd medium st = Ok st' ∧ event_frame st st' ∧
    (∀ x, x ≠ n → meta st' !! x = meta st !! x) ∧
    ∃ m', meta st' !! n = Some m' ∧ hash_ok ps nd m' ∧ session_ids m' = session_ids m.
Proof.
  intros Hps Hal Hm Hh Hpar. unfold record_store_event.
  destruct (enable_kv_cache_events cfg); [|exists st; split_and!; eauto; done].
  destruct (ensure_hash_ok st n nd m) as (h & st1 & -> & Hfr & _ & Hlen & Hall & Hoth & Hself);
    try done.
  { intros p Hp. destruct (Hpar p Hp) as (pm & pnd & ? & ? & _). eauto. }
  cbn [rbind].
  assert (∃ ph, match parent nd with
      | None => Ok None
      | Some p => if is_root (tree st1) p then Ok None
          else let! pm := get_meta st1 p in
            match get_last_hash_value pm with
            | None => Ok None
            | Some s => let! z := hash_str_to_int64 s in Ok (Some z)
            end
      end = Ok ph) as [ph ->].
  { destruct (parent nd) as [p|]; [|eauto]. destruct (is_root _ _); [eauto|].
    destruct (Hpar p eq_refl) as (pm & pnd & Hpm & _ & Hph & Hpn).
    unfold get_meta. rewrite Hoth, Hpm by done. cbn [of_option rbind].
    unfold get_last_hash_value. destruct (hash_value pm) as [hp|] eqn:Ehp; [|eauto].
    destruct (last hp) as [s|] eqn:El; [|eauto]. destruct (Hph hp Ehp) as [_ Hap].
    rewrite last_lookup in El.
    destruct (proj1 (Forall_lookup _ _) Hap _ _ El) as [z ->]. cbn. eauto. }
  cbn [rbind].
  destruct (store_pages_ok nd h (default GPU medium) (page_starts cfg (key_len (nkey nd))) 0 ph)
    as [evs ->]; [done|by rewrite length_page_starts, Hlen|].
  cbn [rbind]. eexists; split_and!; [done|exact Hfr|exact Hoth|exact Hself].
Qed.

(** *** The new leaf *)

(** Leaf status depends on the nodes only. *)
Lemma status_ok t t1 n nd :
  shape_wf ps eagle t → nodes t1 = nodes t → nodes t !! n = Some nd →
  update_leaf_status t1 n = Ok (leaf_update t1 n nd).
Proof.
  intros Hw Hn Hnd. apply update_leaf_status_ok; rewrite ?Hn; try done.
  - intros x xnd. rewrite Hn. by eapply shape_all_resident.
  - by eapply sw_lock_nonneg.
  - intros c. by eapply shape_children_in.
Qed.

Lemma add_leaf_ok st L p pnd key ck val prio chunked :
  cache_wf cfg st L → nodes (tree st) !! p = Some pnd → dict_get ck (children pnd) = None →
  child_key key ps = Ok ck → (p ≠ root_node (tree st) → extra_key key = extra_key (nkey pnd)) →
  is_bigram key = eagle → (0 < key_len key)%nat → (ps | key_len key)%nat →
  length val = key_len key →
  ∃ st', add_leaf cfg p key ck val prio chunked st = Ok (counter (tree st), st') ∧
    cache_wf cfg st' L ∧ tree st' = tree_add (tree st) ck p pnd key val ∧
    allocator st' = allocator st ∧ session_leaves st' = session_leaves st ∧
    closed_session_ids st' = closed_session_ids st.
Proof.
  intros [Hps [Hw Hlk Hac] Hm Hse] Hp Hget Hck Hx Hb Hpos Hal Hval.
  set (m := counter (tree st)). set (nd := mkNode [] (Some p) key (Some val) 0).
  assert (Hok : node_ok ps eagle nd).
  { unfold node_ok. cbn. split_and!; try done; [by apply aligned_pos|eauto]. }
  destruct (add_old (tree st) p pnd Hw Hp) as (Hmn & _ & Hpm & Hrm). fold m in Hmn, Hpm, Hrm.
  set (ta := tree_add (tree st) ck p pnd key val).
  assert (Hwa : shape_wf ps eagle ta) by (by apply add_shape).
  assert (Hpa : nodes ta !! p = Some (set_children (dict_set ck m (children pnd)) pnd)).
  { unfold ta. rewrite add_lookup. by rewrite decide_True. }
  assert (Hma : nodes ta !! m = Some nd).
  { unfold ta. rewrite add_lookup. fold m. by rewrite decide_False, decide_True. }
  unfold add_leaf. cbv zeta. fold m nd.
  set (st1 := with_clock _ (with_meta (<[m := fresh_meta (clock st) prio]> (meta st)) _)).
  set (st2 := inc_hit_count m chunked st1).
  assert (Ht2 : tree st2 = put_node m nd (next_id (tree st))) by (subst st2; by destruct chunked).
  unfold get_node. rewrite Ht2.
  cbn [nodes put_node set_tree_nodes next_id]. rewrite lookup_insert_ne, Hp by done.
  cbn [of_option rbind].
  rewrite (status_ok ta) with (nd := set_children (dict_set ck m (children pnd)) pnd) by done.
  cbn [rbind]. rewrite (status_ok ta) with (nd := nd) by done. cbn [rbind].
  set (st3 := with_tree _ st2). assert (Ht3 : tree st3 = ta) by done.
  destruct (Hm p pnd Hp) as (pm & Hpmeta & Hph).
  assert (Hm2 : ∃ m2, meta st2 !! m = Some m2 ∧ hash_value m2 = None ∧ session_ids m2 = None).
  { subst st2. unfold inc_hit_count. destruct chunked; cbn;
      rewrite ?lookup_alter_eq, lookup_insert_eq; cbn; eauto. }
  assert (Hmo : ∀ x, x ≠ m → meta st2 !! x = meta st !! x).
  { intros x Hxm. subst st2. unfold inc_hit_count. destruct chunked; cbn;
      rewrite ?lookup_alter_ne, lookup_insert_ne by done; done. }
  destruct Hm2 as (m2 & Hm2 & Hh2 & Hs2).
  destruct (record_store_event_ok st3 m nd None m2) as (st' & -> & Hfr & Hoth & (m' & Hm' & Hh' & Hs'));
    [done|done|done|intros h; by rewrite Hh2| |].
  { intros q [= <-]. exists pm, (set_children (dict_set ck m (children pnd)) pnd).
    change (meta st3) with (meta st2). rewrite Hmo by done. by split_and!. }
  destruct Hfr as (Hft & Hfa & Hfs & Hfc & _).
  exists st'. cbn [rbind]. split_and!; try done.
  - split; [done|rewrite Hft; split| |].
    + done.
    + by apply (add_lock (ps := ps) (eagle := eagle)).
    + by apply (add_acct (ps := ps) (eagle := eagle)).
    + intros x xnd. rewrite Hft, Ht3. unfold ta. rewrite add_lookup. fold m nd.
      destruct (decide (x = m)) as [->|Hxm].
      { rewrite decide_False by done. intros [= <-]. eauto. }
      rewrite Hoth by done. change (meta st3) with (meta st2). rewrite Hmo by done.
      case_decide as Hxp; [|apply Hm]. subst x. intros [= <-]. apply (Hm p pnd Hp).
    + revert Hse. apply session_wf_mono.
      * rewrite Hfs. subst st3 st2. by destruct chunked.
      * intros x. rewrite Hft, Ht3. unfold ta. rewrite add_lookup. repeat case_decide; eauto.
      * intros x mx. destruct (decide (x = m)) as [->|Hxm].
        { rewrite Hm'. intros [= <-]. left. unfold holders. by rewrite Hs', Hs2. }
        rewrite Hoth by done. change (meta st3) with (meta st2). rewrite Hmo by done. eauto.
      * intros x. destruct (decide (x = m)) as [->|Hxm]; [rewrite Hm'; eauto|].
        rewrite Hoth by done. change (meta st3) with (meta st2). by rewrite Hmo.
  - rewrite Hfa. subst st3 st2. by destruct chunked.
  - rewrite Hfs. subst st3 st2. by destruct chunked.
  - rewrite Hfc. subst st3 st2. by destruct chunked.
Qed.

(** *** What [insert] does *)

(** The units an insertion of [key] stores, and the slots it stores for them. *)
Definition insert_units (key : RadixKey) : list key_unit :=
  take (page_floor ps (key_len (view eagle key))) (units (view eagle key)).
Definition insert_value (key : RadixKey) (value : option (list Z)) : list Z :=
  take (page_floor ps (key_len (view eagle key)))
    (match value with Some v => v | None => token_ids key end).

(** [old] are the slots found for the longest cached prefix, of length
    [plen]; the rest of the inserted units gets the rest of the value. *)
Record insert_spec st L (key : RadixKey) (value : option (list Z)) (old : list Z)
    (plen x : nat) st' : Prop := {
  is_wf : cache_wf cfg st' L;
  is_root_same : root_node (tree st') = root_node (tree st);
  is_frame : allocator st' = allocator st ∧ session_leaves st' = session_leaves st ∧
    closed_session_ids st' = closed_session_ids st;
  is_slots : tree_slots (tree st') ≡ₚ tree_slots (tree st) ++ drop plen (insert_value key value);
  is_plen : length old = plen ∧ (plen ≤ length (insert_units key))%nat;
  is_longest us w : cached ps (tree st) (extra_key key) us w →
    us `prefix_of` insert_units key → (length us ≤ plen)%nat;
  is_old : down (tree st') (extra_key key) (root_node (tree st))
    (insert_units key) (old ++ drop plen (insert_value key value)) x;
  is_cached e us w : cached ps (tree st') e us w ↔
    cached ps (tree st) e us w ∨
    (e = extra_key key ∧ (ps | length us)%nat ∧ us `prefix_of` insert_units key ∧
     (plen < length us)%nat ∧ w = take (length us) (old ++ drop plen (insert_value key value)));
  is_aligned : (ps | plen)%nat;
  is_keep e n us w y : down (tree st) e n us w y → down (tree st') e n us w y;
}.

(** The content after a new leaf below the end of a descent. *)
Lemma add_leaf_cached t x xnd U M w ck key' val e us vs :
  (1 ≤ ps)%nat → shape_wf ps eagle t → nodes t !! x = Some xnd →
  down t (extra_key key') (root_node t) (take M U) w x → length w = M → (M ≤ length U)%nat →
  units key' = drop M U →
  cached ps (tree_add t ck x xnd key' val) e us vs ↔
    cached ps t e us vs ∨
    (e = extra_key key' ∧ (ps | length us)%nat ∧ us `prefix_of` U ∧ (M < length us)%nat ∧
     vs = take (length us) (w ++ val)).
Proof.
  intros Hps Hw Hx Hd Hlw HM Hu.
  destruct (add_old t x xnd Hw Hx) as (Hmn & _ & Hxm & Hrm).
  set (t' := tree_add t ck x xnd key' val).
  assert (Hnew : down t' (extra_key key') (root_node t) U (w ++ val) (counter t)).
  { rewrite <-(take_drop M U), <-Hu. eapply down_app; [by eapply add_down|].
    by eapply add_down_leaf. }
  split.
  - intros (Hal & y & U' & V' & Hd' & Hpre & ->). change (root_node t') with (root_node t) in Hd'.
    apply (add_down_inv t ck x xnd key' val Hw Hx) in Hd' as
      [[_ Hd']|(-> & He & us0 & vs0 & -> & -> & Hd')]; [left|..|done].
    { split; [done|]. by exists y, U', V'. }
    subst e. destruct (down_root_unique _ _ _ _ _ _ _ _ _ Hw ltac:(eauto) Hd Hd') as [<- <-].
    rewrite Hu, take_drop in Hpre. destruct (Nat.le_gt_cases (length us) M) as [Hle|Hgt]; [left|by right].
    split; [done|]. exists x, (take M U), w. split_and!; [done| |].
    + destruct Hpre as [z ->]. rewrite take_app_ge by done. by apply prefix_app_r.
    + rewrite take_app_le by lia. done.
  - intros [Hc|(-> & Hal & Hpre & Hgt & ->)]; [by eapply add_cached_mono|].
    split; [done|]. by exists (counter t), U, (w ++ val).
Qed.

(** The key and the slots [insert] works with. *)
Lemma insert_args key value :
  (1 ≤ ps)%nat → key_fits eagle key →
  (∀ v, value = Some v → (page_floor ps (key_len (view eagle key)) ≤ length v)%nat) →
  ∃ k, page_aligned (maybe_to_bigram_view key eagle value).1 ps = Ok k ∧
    extra_key k = extra_key key ∧ is_bigram k = eagle ∧ (ps | key_len k)%nat ∧
    units k = insert_units key ∧ key_len k = length (insert_units key) ∧
    (match (maybe_to_bigram_view key eagle value).2 with
     | Some v => take (key_len k) v
     | None => take (key_len k) (token_ids k)
     end) = insert_value key value ∧
    length (insert_value key value) = key_len k.
Proof.
  intros Hps Hfit Hval.
  assert (Hview : (maybe_to_bigram_view key eagle value).1 = view eagle key).
  { unfold view, maybe_to_bigram_view. by destruct (eagle && negb (is_bigram key)). }
  assert (Htok : token_ids (view eagle key) = token_ids key).
  { unfold view, maybe_to_bigram_view. by destruct (eagle && negb (is_bigram key)). }
  rewrite Hview. destruct (page_aligned_ok (view eagle key) ps Hps) as
    (k & Hk & He & Hb & Hl & Hu & Ht). pose proof (page_floor_le ps (key_len (view eagle key))).
  exists k. rewrite He, Hb, view_extra, (view_bigram _ _ Hfit), Hl, Hu.
  unfold insert_units, insert_value.
  rewrite !length_take, length_units, Nat.min_l by done.
  split_and!; try done.
  - apply page_floor_divide.
  - destruct value as [v|].
    + unfold maybe_to_bigram_view. unfold view, maybe_to_bigram_view in *.
      destruct (eagle && negb (is_bigram key)); cbn; [|done].
      rewrite take_take, Nat.min_l by done. done.
    + assert ((maybe_to_bigram_view key eagle None).2 = None) as ->.
      { unfold maybe_to_bigram_view. by destruct (eagle && negb (is_bigram key)). }
      rewrite Ht by (by rewrite Hl). by rewrite Htok.
  - destruct value as [v|]; [by specialize (Hval v eq_refl); lia|].
    pose proof (raw_len_le (view eagle key)) as Hraw. rewrite Htok in Hraw.
    unfold key_len in *. destruct (is_bigram (view eagle key)); [|lia].
    destruct (0 <? raw_len (view eagle key))%nat; lia.
Qed.

(** The end of the descent: what was there stays, and [M] units of the key lie on the way
    to [x]. *)
Record descended st st2 (key : RadixKey) (x M : nat) (w : list Z) : Prop := {
  de_root : root_node (tree st2) = root_node (tree st);
  de_frame : allocator st2 = allocator st ∧ session_leaves st2 = session_leaves st ∧ closed_session_ids st2 = closed_session_ids st;
  de_slots : tree_slots (tree st2) ≡ₚ tree_slots (tree st);
  de_cached e us v : cached ps (tree st2) e us v ↔ cached ps (tree st) e us v;
  de_keep e n us v y : down (tree st) e n us v y → down (tree st2) e n us v y;
  de_len : length w = M ∧ (M ≤ length (insert_units key))%nat;
  de_down : down (tree st2) (extra_key key) (root_node (tree st)) (take M (insert_units key)) w x;
  de_longest us v : cached ps (tree st) (extra_key key) us v → us `prefix_of` insert_units key → (length us ≤ M)%nat;
  de_aligned : (ps | M)%nat;
}.

(** Everything was cached already. *)
Lemma insert_found st st2 L key value x w :
  cache_wf cfg st2 L → descended st st2 key x (length (insert_units key)) w →
  length (insert_value key value) = length (insert_units key) →
  insert_spec st L key value w (length (insert_units key)) x st2.
Proof.
  intros Hw [Hroot Hfr Hsl Hc Hk [Hlw _] Hd Hlong Hal] Hlen.
  assert (drop (length (insert_units key)) (insert_value key value) = []) as Hnil by (apply nil_length_inv; rewrite length_drop; lia).
  split; rewrite ?Hnil; try done.
  - by rewrite app_nil_r.
  - rewrite app_nil_r. by rewrite take_ge in Hd by lia.
  - intros e us v. rewrite (Hc e us v). split; [by left|].
    intros [?|(_ & _ & Hpre%prefix_length & ? & _)]; [done|]. lia.
Qed.

(** A leaf takes the rest of the key. *)
Lemma insert_below st st2 st3 L key value x xnd key' ck M w :
  cache_wf cfg st2 L → cache_wf cfg st3 L → descended st st2 key x M w → nodes (tree st2) !! x = Some xnd →
  dict_get ck (children xnd) = None → child_key key' ps = Ok ck → (0 < key_len key')%nat →
  extra_key key' = extra_key key → units key' = drop M (insert_units key) → length (drop M (insert_value key value)) = key_len key' →
  node_ok ps eagle (mkNode [] (Some x) key' (Some (drop M (insert_value key value))) 0) →
  tree st3 = tree_add (tree st2) ck x xnd key' (drop M (insert_value key value)) →
  allocator st3 = allocator st2 ∧ session_leaves st3 = session_leaves st2 ∧ closed_session_ids st3 = closed_session_ids st2 →
  insert_spec st L key value w M (counter (tree st2)) st3.
Proof.
  intros Hw2 Hw3 [Hroot (Ha & Hs & Hcl) Hsl Hc Hk [Hlw HM] Hd Hlong Hal] Hx Hnone Hck Hpos He Hu Hv Hok Ht (Ha3 & Hs3 & Hc3).
  pose proof (cw_ps _ _ _ Hw2) as Hps. pose proof (tw_shape _ _ _ _ (cw_tree _ _ _ Hw2)) as Hsw2. split; try done.
  - rewrite Ht. exact Hroot.
  - by rewrite Ha3, Hs3, Hc3.
  - rewrite Ht, (add_slots ps eagle), Hsl by done. done.
  - rewrite Ht, <-(take_drop M (insert_units key)), <-Hu. eapply down_app; [by eapply add_down|]. rewrite <-He. by eapply add_down_leaf.
  - intros e us v. rewrite Ht, <-(Hc e us v), <-He. apply add_leaf_cached; try done. by rewrite He, Hroot.
  - intros e n us v y Hdn. rewrite Ht. by eapply add_down, Hk.
Qed.

Lemma insert_ok st L key value prio chunked :
  cache_wf cfg st L → disable cfg = false → key_fits eagle key →
  (∀ v, value = Some v → (page_floor ps (key_len (view eagle key)) ≤ length v)%nat) →
  ∃ old plen x st', insert cfg key value prio chunked st = Ok (plen, Some x, st') ∧
    insert_spec st L key value old plen x st'.
Proof.
  intros Hw Hdis Hfit Hval. pose proof (cw_ps _ _ _ Hw) as Hps.
  pose proof (tw_shape _ _ _ _ (cw_tree _ _ _ Hw)) as Hsw. unfold insert. rewrite Hdis.
  destruct (insert_args key value Hps Hfit Hval) as (k & Hk & Hke & Hkb & Hkal & Hku & Hkl & Hkv & Hvl).
  destruct (maybe_to_bigram_view key eagle value) as [k0 v0]. cbn in Hk, Hkv. rewrite Hk. cbn [rbind]. rewrite Hkv. clear Hk Hkv k0 v0.
  unfold insert_helper. set (r := root_node (tree st)). set (p0 := default 0 prio). set (st1 := raise_priority r p0 _).
  assert (Hw1 : cache_wf cfg st1 L).
  { do 2 (apply upd_meta_wf; [done..|]). by apply with_clock_wf. }
  destruct (Nat.eqb_spec (key_len k) 0) as [Hz|Hnz].
  { assert (Hnil : insert_units key = []) by (apply nil_length_inv; lia).
    exists [], (length (insert_units key)), r, st1. cbn [rbind]. split; [by rewrite Hnil|]. apply insert_found; [done| |lia].
    rewrite Hnil. split; rewrite ?Hnil; try done; [constructor|by intros us v _ ->%prefix_nil_inv|by exists 0%nat]. }
  destruct (child_key_units k ps Hps) as (pl & Hck & _); [apply aligned_pos; (done || lia)|].
  rewrite Hck. cbn [rbind]. destruct (sw_root _ _ _ Hsw) as (rn & Hr & _).
  destruct (insert_loop_ok cfg (S (key_len k)) (monotonic (clock st)) st1 L r rn k (extra_key k, pl)
    (insert_value key value) p0 chunked 0) as
    (x & xnd & key' & ck' & M & w & st2 & -> & Hw2 & Hfr & Hroot & Hsl & Hcache & Hkeep & HM & Hlw & Hd &
     Hx & He' & Hb' & Hl' & Hu' & Hck' & Hmax); [done..|lia|].
  cbn [rbind]. rewrite Nat.add_0_l. rewrite Hke, Hku in *. change (root_node (tree st2) = r) in Hroot.
  pose proof (tw_shape _ _ _ _ (cw_tree _ _ _ Hw2)) as Hsw2.
  assert (Hde : descended st st2 key x M w).
  { destruct Hfr as (? & ? & ? & _). split; try done; [split; [done|lia]| |].
    - intros us v (Hal & y & U & V & Hdu & Hpre & ->) Hpu. etrans; [|exact (Hmax U V y Hdu)].
      apply page_floor_greatest; [done..|]. apply lcp_take; [by apply prefix_length..|].
      destruct Hpre as [z1 ->], Hpu as [z2 ->]. by rewrite !take_app_length.
    - destruct (down_length (tree st2) Hps Hsw2 _ _ _ _ _ Hd) as [_ Hdl]. by rewrite length_take, Nat.min_l in Hdl by lia. }
  destruct (Nat.ltb_spec 0 (key_len key')) as [Hpos|Hdone].
  2:{ assert (M = length (insert_units key)) as -> by lia. exists w, (length (insert_units key)), x, st2. split; [done|]. apply insert_found; [done..|lia]. }
  destruct (Hck' Hpos) as [Hckk Hnone].
  assert (Hkal' : (ps | key_len key')%nat) by (rewrite Hl'; apply aligned_sub; [by apply Hde|done]).
  assert (Hvl' : length (drop M (insert_value key value)) = key_len key') by (rewrite length_drop; lia).
  destruct (add_leaf_ok st2 L x xnd key' ck' (drop M (insert_value key value)) p0 chunked) as
    (st3 & -> & Hw3 & Ht3 & Hsame3); try done.
  - intros Hxr. rewrite He'. symmetry. destruct (sw_root _ _ _ Hsw2) as (rn2 & Hr2 & _).
    eapply (down_extra (tree st2) _ (root_node (tree st2)) rn2); [done|done|by rewrite Hroot|done..].
  - congruence.
  - exists w, M, (counter (tree st2)), st3. cbn [rbind]. split; [done|]. eapply insert_below; try done.
    unfold node_ok. cbn. split_and!; try done; [by apply aligned_pos|congruence|eauto].
Qed.
End insert_wf.
