(* ===== verification/RadixEvict.v ===== *)
(** Locks, deletion and eviction of the prefix cache. *)

From stdpp Require Import base gmap strings list.
From Stdlib Require Import ZArith Lia.
From S2P Require Import Prelude.
From S2P Require Import PyData.
From S2P Require Import RadixKey.
From S2P Require Import RadixTree.
From S2P Require Import RadixInv.
From S2P Require Import RadixContent.
From S2P Require Import RadixOps.
From S2P Require Import RadixInsert.

Open Scope Z_scope.

(** ** Locks *)

Lemma lock_wf_perm t L1 L2 : L1 ≡ₚ L2 → lock_wf t L1 → lock_wf t L2.
Proof.
  intros Hp (P & HP & Hcnt).
  assert (∃ P2, Forall2 (path_up (root_node t) (par_of t)) L2 P2 ∧ concat P2 ≡ₚ concat P)
    as (P2 & HP2 & HPp).
  { clear Hcnt. revert P HP. induction Hp as [|x l1 l2 Hp IH|x y l|l1 l2 l3 H1 IH1 H2 IH2]; intros P HP.
    - apply Forall2_nil_inv_l in HP as ->. by exists [].
    - apply Forall2_cons_inv_l in HP as (q & P' & Hq & HP & ->).
      destruct (IH _ HP) as (P2 & ? & Hc). exists (q :: P2). split; [by constructor|].
      cbn. by rewrite Hc.
    - apply Forall2_cons_inv_l in HP as (q & P1 & Hq & HP & ->).
      apply Forall2_cons_inv_l in HP as (q' & P2 & Hq' & HP & ->).
      exists (q' :: q :: P2). split; [by repeat constructor|]. cbn.
      rewrite !app_assoc. by rewrite (Permutation_app_comm q q').
    - destruct (IH1 _ HP) as (P2 & HP2 & Hc2). destruct (IH2 _ HP2) as (P3 & ? & Hc3).
      exists P3. split; [done|]. by rewrite Hc3. }
  exists P2. split; [done|]. intros n nd Hn Hne. rewrite (Hcnt n nd Hn Hne). f_equal.
  symmetry. by apply perm_pcount.
Qed.

Section evict_wf.
Context {A : Type} `{KVPool A} `{Env} `{!EnvLaws}.
Variable cfg : Config.
Implicit Types st : RadixCache A.
Notation ps := (page_size cfg).
Notation eagle := (is_eagle cfg).

Lemma cache_wf_perm st L1 L2 : L1 ≡ₚ L2 → cache_wf cfg st L1 → cache_wf cfg st L2.
Proof.
  intros Hp [Hps [Hs Hl Ha] Hm Hse]. split; [done| |done..]. split; [done| |done].
  by eapply lock_wf_perm.
Qed.

Lemma bumped_meta d l st t' :
  bumped d l (tree st) t' → meta_wf ps st → meta_wf ps (with_tree t' st).
Proof.
  intros Hb Hm n nd Hn. destruct (bumped_lookup _ _ _ _ _ _ Hb Hn) as (nd0 & Hn0 & ->).
  apply (Hm n nd0 Hn0).
Qed.

Lemma bumped_session d l st t' :
  bumped d l (tree st) t' → session_wf st → session_wf (with_tree t' st).
Proof.
  intros (_ & _ & Hb). apply session_wf_mono; try done; [|eauto].
  intros n. cbn. by rewrite Hb, fmap_is_Some.
Qed.

(** A change of locks: the tree with other counts, content untouched. *)
Record lock_spec st (d : Z) st' : Prop := {
  lk_frame : frame st st';
  lk_meta : meta st' = meta st ∧ clock st' = clock st;
  lk_root : root_node (tree st') = root_node (tree st);
  lk_free : evictable_size_ (tree st') = evictable_size_ (tree st) + d;
  lk_held : protected_size_ (tree st') = protected_size_ (tree st) - d;
  lk_slots : tree_slots (tree st') ≡ₚ tree_slots (tree st);
  lk_cached e us w : cached ps (tree st') e us w ↔ cached ps (tree st) e us w;
  lk_down e n us w y : down (tree st') e n us w y ↔ down (tree st) e n us w y;
  lk_node n : is_Some (nodes (tree st') !! n) ↔ is_Some (nodes (tree st) !! n);
}.

Lemma bumped_lock_spec st d l b t' :
  bumped b l (tree st) t' → evictable_size_ t' = evictable_size_ (tree st) + d →
  protected_size_ t' = protected_size_ (tree st) - d → lock_spec st d (with_tree t' st).
Proof.
  intros Hb He Hp. split; try done.
  - by destruct Hb.
  - by eapply bumped_slots.
  - intros e us w. by eapply bumped_cached.
  - intros e n us w y. by eapply bumped_down_iff.
  - intros n. destruct Hb as (_ & _ & Hb). cbn. rewrite Hb. apply fmap_is_Some.
Qed.

Lemma inc_lock_ref_ok st L n :
  cache_wf cfg st L → disable cfg = false → is_Some (nodes (tree st) !! n) →
  ∃ d st', inc_lock_ref cfg n st = Ok (d, st') ∧ cache_wf cfg st' (n :: L) ∧ lock_spec st d st'.
Proof.
  intros [Hps [Hw (P & HP & Hcnt) Ha] Hm Hse] Hdis Hn. unfold inc_lock_ref. rewrite Hdis.
  destruct (sw_path _ _ _ Hw n Hn) as [l Hl].
  destruct (inc_loop_ok (ps := ps) (eagle := eagle) (climb_fuel (tree st)) (tree st) n l 0) as
    (d & t' & -> & Hb & Hw' & Ha' & He & Hp); [done..| |].
  { unfold climb_fuel. pose proof (path_length _ _ _ Hl). lia. }
  cbn [rbind]. exists d, (with_tree t' st). split; [done|].
  split; [|by eapply bumped_lock_spec; [done|lia..]].
  split; [done| |by eapply bumped_meta|by eapply bumped_session]. split; [done| |done].
  exists (l :: P). split.
  - constructor; [by eapply bumped_path|]. eapply Forall2_impl; [done|]. intros. by eapply bumped_path.
  - intros x nd Hx Hne. pose proof Hb as (Hr & _). cbn in Hx, Hne. rewrite Hr in Hne.
    destruct (bumped_lookup _ _ _ _ _ _ Hb Hx) as (nd0 & Hx0 & ->). cbn.
    rewrite (Hcnt x nd0 Hx0 Hne), pcount_app. lia.
Qed.

Lemma dec_lock_ref_ok st L n :
  cache_wf cfg st (n :: L) → disable cfg = false →
  ∃ d st', dec_lock_ref cfg n st = Ok (d, st') ∧ cache_wf cfg st' L ∧ lock_spec st d st'.
Proof.
  intros [Hps [Hw (P & HP & Hcnt) Ha] Hm Hse] Hdis. unfold dec_lock_ref. rewrite Hdis.
  apply Forall2_cons_inv_l in HP as (l & P' & Hl & HP & ->).
  destruct (dec_loop_ok (ps := ps) (eagle := eagle) (climb_fuel (tree st)) (tree st) n l 0) as
    (d & t' & -> & Hb & Hw' & Ha' & He & Hp); [done..| | |].
  { intros x nd Hx Hnd. destruct (path_up_par _ _ _ _ _ Hl Hx) as [Hxr _].
    rewrite (Hcnt x nd Hnd Hxr). cbn. rewrite pcount_app.
    rewrite (pcount_NoDup_in x l) by (done || by eapply path_up_NoDup). lia. }
  { unfold climb_fuel. pose proof (path_length _ _ _ Hl). lia. }
  cbn [rbind]. exists d, (with_tree t' st). split; [done|].
  split; [|by eapply bumped_lock_spec; [done|lia..]].
  split; [done| |by eapply bumped_meta|by eapply bumped_session]. split; [done| |done].
  exists P'. split.
  - eapply Forall2_impl; [done|]. intros. by eapply bumped_path.
  - intros x nd Hx Hne. pose proof Hb as (Hr & _). cbn in Hx, Hne. rewrite Hr in Hne.
    destruct (bumped_lookup _ _ _ _ _ _ Hb Hx) as (nd0 & Hx0 & ->). cbn.
    rewrite (Hcnt x nd0 Hx0 Hne). cbn. rewrite pcount_app. lia.
Qed.

(** ** Deletion *)

(** Removing [n] from index entries, and entries left empty. *)
Definition index_less (n : nat) (idx idx' : gmap string (gset nat)) : Prop :=
  (∀ sid lv', idx' !! sid = Some lv' → ∃ lv, idx !! sid = Some lv ∧ lv' ⊆ lv) ∧
  (∀ sid lv y, idx !! sid = Some lv → y ∈ lv → y ≠ n → ∃ lv', idx' !! sid = Some lv' ∧ y ∈ lv').

Lemma discard_holder_less n closed idx sid : index_less n idx (discard_holder n closed idx sid).
Proof.
  unfold discard_holder. destruct (idx !! sid) as [lv|] eqn:E; [|by split; eauto].
  assert (Hins : index_less n idx (<[sid := lv ∖ {[n]}]> idx)).
  { split.
    - intros s lv'. rewrite lookup_insert. case_decide; subst; [|eauto]. intros [= <-].
      exists lv. split; [done|set_solver].
    - intros s lv0 y Hs Hy Hyn. rewrite lookup_insert. case_decide; subst; [|eauto].
      simplify_eq. eexists; split; [done|set_solver]. }
  case_decide as Hem; [|done]. case_decide; [done|]. split.
  - intros s lv'. rewrite lookup_delete. case_decide; [done|]. eauto.
  - intros s lv0 y Hs Hy Hyn. rewrite lookup_delete. case_decide; subst; [|eauto].
    simplify_eq. set_solver.
Qed.

Lemma index_less_trans n i1 i2 i3 : index_less n i1 i2 → index_less n i2 i3 → index_less n i1 i3.
Proof.
  intros [Ha Ha'] [Hb Hb']. split.
  - intros sid lv3 Hl3. destruct (Hb sid lv3 Hl3) as (lv2 & Hl2 & ?).
    destruct (Ha sid lv2 Hl2) as (lv1 & ? & ?). exists lv1. split; [done|set_solver].
  - intros sid lv y Hs Hy Hyn. destruct (Ha' sid lv y Hs Hy Hyn) as (lv2 & ? & ?). eauto.
Qed.

Lemma discard_holders_less n closed sids idx :
  index_less n idx (foldl (discard_holder n closed) idx sids).
Proof.
  revert idx; induction sids as [|s sids IH]; intros idx; [by split; eauto|].
  eapply index_less_trans; [apply discard_holder_less|apply IH].
Qed.

Lemma discard_session_leaf_ok st n m :
  meta st !! n = Some m →
  ∃ st', discard_session_leaf n st = Ok st' ∧ tree st' = tree st ∧ allocator st' = allocator st ∧
    kv_event_queue st' = kv_event_queue st ∧ clock st' = clock st ∧
    closed_session_ids st' = closed_session_ids st ∧
    (∀ x, x ≠ n → meta st' !! x = meta st !! x) ∧
    (∃ m', meta st' !! n = Some m' ∧ hash_value m' = hash_value m ∧ holders m' = ∅) ∧
    index_less n (session_leaves st) (session_leaves st').
Proof.
  intros Hm. unfold discard_session_leaf, get_meta. rewrite Hm. cbn [of_option rbind].
  assert (Hrefl : index_less n (session_leaves st) (session_leaves st)) by (split; eauto).
  destruct (session_ids m) as [sids|] eqn:Es.
  2: { exists st. split_and!; try done. exists m. unfold holders. by rewrite Es. }
  case_decide as Hem.
  { exists st. split_and!; try done. exists m. unfold holders. by rewrite Es, Hem. }
  eexists; split_and!; try done.
  - intros x Hx. cbn. by rewrite lookup_alter_ne.
  - cbn. rewrite lookup_alter_eq, Hm. cbn. eauto.
  - apply discard_holders_less.
Qed.

(** The index after the removal of [x] and its tags. *)
Lemma del_session st st1 st' x xm ck p pnd xnd :
  session_wf st → index_less x (session_leaves st) (session_leaves st1) →
  (∀ y, y ≠ x → meta st1 !! y = meta st !! y) → meta st1 !! x = Some xm → holders xm = ∅ →
  session_leaves st' = session_leaves st1 → meta st' = meta st1 →
  tree st' = tree_del (tree st) ck p pnd x xnd → session_wf st'.
Proof.
  intros [Ha Hi Hk] [Hl1 Hl2] Hmo Hxm Hxs Hs' Hm' Ht'. split; rewrite ?Hs', ?Hm', ?Ht'.
  - intros n m sid Hn Hsid. destruct (decide (n = x)) as [->|Hne]; [simplify_eq; set_solver|].
    rewrite Hmo in Hn by done. rewrite del_lookup, decide_False by done.
    case_decide; [eauto|]. by eapply Ha.
  - intros n m sid Hn Hsid. destruct (decide (n = x)) as [->|Hne]; [simplify_eq; set_solver|].
    rewrite Hmo in Hn by done. destruct (Hi n m sid Hn Hsid) as (lv & Hlv & Hnl). eauto.
  - intros sid lv n Hlv Hn. destruct (decide (n = x)) as [->|Hne]; [eauto|]. rewrite Hmo by done.
    destruct (Hl1 sid lv Hlv) as (lv0 & ? & ?). eapply Hk; [done|set_solver].
Qed.

(** Deleting a leaf, whatever the state of the session index. *)
Lemma delete_leaf_core st L x xnd :
  (1 ≤ ps)%nat → tree_wf ps eagle (tree st) L → meta_wf ps st →
  nodes (tree st) !! x = Some xnd → is_leaf xnd →
  ∃ ck p pnd st', delete_leaf cfg x st = Ok st' ∧
    tree_wf ps eagle (tree st') L ∧ meta_wf ps st' ∧
    parent xnd = Some p ∧ nodes (tree st) !! p = Some pnd ∧ x ≠ root_node (tree st) ∧ p ≠ x ∧
    tree st' = tree_del (tree st) ck p pnd x xnd ∧ child_key (nkey xnd) ps = Ok ck ∧
    allocator st' = allocator st ∧ kv_event_queue st' = kv_event_queue st ∧
    (∀ y, y ≠ x → meta st' !! y = meta st !! y) ∧
    (∃ m, meta st' !! x = Some m ∧ hash_ok ps xnd m) ∧
    closed_session_ids st' = closed_session_ids st ∧
    (∃ m, meta st' !! x = Some m ∧ holders m = ∅) ∧
    index_less x (session_leaves st) (session_leaves st').
Proof.
  intros Hps [Hw Hlk Hac] Hm Hx Hleaf.
  assert (Hxr : x ≠ root_node (tree st)).
  { intros ->. destruct (sw_root _ _ _ Hw) as (rn & Hr & _ & _ & Hl1 & _).
    destruct Hleaf as [Hl0 _]. simplify_eq. lia. }
  destruct (sw_parent_node _ x xnd Hps Hw Hx Hxr) as (p & pnd & ck & Hxp & Hp & Hck & Hin & Hpx & _).
  destruct (Hm x xnd Hx) as (xm & Hxm & Hxh).
  set (td := tree_del (tree st) ck p pnd x xnd).
  assert (Hwd : shape_wf ps eagle td) by (by apply del_shape).
  unfold delete_leaf, get_node. rewrite Hx. cbn [of_option rbind]. rewrite Hck. cbn [rbind].
  rewrite Hxp. cbn [of_option rbind]. rewrite Hp. cbn [of_option rbind].
  rewrite (proj2 (sw_get _ _ _ _ _ Hw Hp) Hin), bool_decide_true by done. cbn [py_assert rbind].
  set (pnd' := set_children (dict_del ck (children pnd)) pnd).
  destruct (discard_session_leaf_ok (with_tree (put_node p pnd' (tree st)) st) x xm Hxm) as
    (st1 & -> & Ht1 & Ha1 & Hk1 & _ & Hcl1 & Hmo & (xm' & Hxm' & Hxh' & Hxs') & Hidx).
  cbn [rbind]. rewrite Ht1.
  cbn [tree with_tree evictable_size_ put_node set_tree_nodes protected_size_ set_sizes evictable_leaves].
  rewrite (update_leaf_status_ok _ p pnd').
  - cbn [rbind]. exists ck, p, pnd. eexists; split; [done|]. split_and!; try done.
    + split; [done| |].
      * by apply (del_lock (ps := ps) (eagle := eagle)).
      * by apply (del_acct (ps := ps) (eagle := eagle)).
    + intros y ynd.
        change (nodes td !! y = Some ynd → ∃ m, meta st1 !! y = Some m ∧ hash_ok ps ynd m).
        unfold td. rewrite del_lookup. case_decide; [done|]. intros Hy. rewrite Hmo by done.
        case_decide; subst; [|by apply Hm]. injection Hy as <-. apply (Hm p pnd Hp).
    + exists xm'. split; [done|]. intros h. rewrite Hxh'. apply Hxh.
    + exists xm'. done.
  - intros y ynd. cbn. intros [[<- <-]|[_ Hy]]%lookup_insert_Some.
    + apply (shape_all_resident _ _ _ Hw p pnd Hp).
    + apply (shape_all_resident _ _ _ Hw y ynd Hy).
  - cbn. by rewrite lookup_insert_eq.
  - cbn. apply (sw_lock_nonneg _ _ _ Hw Hp).
  - intros c Hc. cbn in *. apply lookup_insert_is_Some'. right.
    apply list_elem_of_fmap in Hc as ([ck' c'] & -> & Hc).
    apply elem_of_dict_del in Hc as [_ Hc]; [|apply (sw_nodup _ _ _ Hw _ _ Hp)].
    destruct (sw_child _ _ _ _ _ Hw Hp Hc) as (? & ? & _). eauto.
Qed.

Lemma delete_leaf_ok st L x xnd :
  cache_wf cfg st L → nodes (tree st) !! x = Some xnd → is_leaf xnd →
  ∃ ck p pnd st', delete_leaf cfg x st = Ok st' ∧ cache_wf cfg st' L ∧
    parent xnd = Some p ∧ nodes (tree st) !! p = Some pnd ∧ x ≠ root_node (tree st) ∧ p ≠ x ∧
    tree st' = tree_del (tree st) ck p pnd x xnd ∧ child_key (nkey xnd) ps = Ok ck ∧
    allocator st' = allocator st ∧ (∀ y, y ≠ x → meta st' !! y = meta st !! y) ∧
    ∃ m, meta st' !! x = Some m ∧ hash_ok ps xnd m ∧ holders m = ∅.
Proof.
  intros [Hps Ht Hm Hse] Hx Hleaf.
  destruct (delete_leaf_core st L x xnd Hps Ht Hm Hx Hleaf) as
    (ck & p & pnd & st' & Hdel & Ht' & Hm' & Hxp & Hp & Hxr & Hpx & Htd & Hck & Ha & _ & Hmo &
     (m & Hmx & Hh) & _ & (m2 & Hmx2 & Hs) & Hidx). simplify_eq.
  exists ck, p, pnd, st'. split_and!; try done; [|by exists m].
  split; [done..|]. by apply (del_session st st' st' x m ck p pnd xnd).
Qed.

Lemma record_remove_event_ok st n nd medium m :
  (1 ≤ ps)%nat → (ps | key_len (nkey nd))%nat → meta st !! n = Some m → hash_ok ps nd m →
  (∀ p, parent nd = Some p → is_Some (meta st !! p) ∧ is_Some (nodes (tree st) !! p)) →
  ∃ st', record_remove_event cfg n nd medium st = Ok st' ∧ event_frame st st' ∧
    (∀ x, x ≠ n → meta st' !! x = meta st !! x) ∧
    ∃ m', meta st' !! n = Some m' ∧ session_ids m' = session_ids m.
Proof.
  intros Hps Hal Hm Hh Hpar. unfold record_remove_event.
  destruct (enable_kv_cache_events cfg); [|exists st; split_and!; eauto; done].
  destruct (ensure_hash_ok cfg st n nd m) as
    (h & st1 & -> & Hfr & _ & Hlen & Hall & Hoth & (m' & Hm' & _ & Hs')); try done. cbn [rbind].
  destruct (removed_hashes_ok cfg (key_len (nkey nd)) h (page_starts cfg (key_len (nkey nd))) 0)
    as [zs ->]; [done|by rewrite length_page_starts, Hlen|].
  cbn [rbind]. destruct zs; eexists; split_and!; try done; by exists m'.
Qed.
End evict_wf.

(** ** Eviction *)

(** The allocator takes slots back in every state. *)
Class KVPoolTotal (A : Type) `{KVPool A} :=
  kv_free_total : ∀ a l, ∃ a', kv_free a l = Ok a'.

(** It then holds them besides what it held.  The token allocator does; the paged one
    takes whole pages back, and what is proved with this class is not about it (its pages
    are the subject of [AllocatorInv]). *)
Class KVPoolSlots (A : Type) `{KVPool A} := {
  kv_slots : A → list Z;
  kv_free_slots : ∀ a l a', kv_free a l = Ok a' → kv_slots a' ≡ₚ l ++ kv_slots a;
}.

Section evict_run.
Context {A : Type} `{KVPool A} `{Env} `{HeapQ}.
Variable cfg : Config.
Implicit Types st : RadixCache A.
Notation ps := (page_size cfg).
Notation eagle := (is_eagle cfg).

(** The removal of one evictable leaf [x] that holds [len] tokens. *)
Inductive evict_step st : nat → Z → RadixCache A → Prop :=
  | evict_step_intro x xnd v a st1 st2 :
      nodes (tree st) !! x = Some xnd → is_leaf xnd → value xnd = Some v →
      kv_free (allocator st) v = Ok a →
      delete_leaf cfg x (with_allocator a st) = Ok st1 →
      record_remove_event cfg x xnd None st1 = Ok st2 →
      evict_step st x (Z.of_nat (length v)) st2.

(** [x] comes first in the order of the eviction strategy. *)
Definition first_to_go st (x : nat) : Prop :=
  ∀ y i j, y ∈ evictable_leaves (tree st) → make_item cfg x st = Ok i →
    make_item cfg y st = Ok j → item_lt j i = false.

(** What eviction promises: while fewer than [num_tokens] tokens are evicted
    and an evictable leaf is left, a first leaf of the strategy goes. *)
Inductive evict_spec (num_tokens : Z) : Z → RadixCache A → list nat → Z → RadixCache A → Prop :=
  | evict_enough n st : num_tokens ≤ n → evict_spec num_tokens n st [] n st
  | evict_none n st :
      evictable_leaves (tree st) = ∅ → evict_spec num_tokens n st [] n st
  | evict_more n st x len st1 xs n' st' :
      n < num_tokens → evict_step st x len st1 → first_to_go st x →
      evict_spec num_tokens (n + len) st1 xs n' st' →
      evict_spec num_tokens n st (x :: xs) n' st'.
End evict_run.

Section evict_ok.
Context {A : Type} `{KVPool A} `{!KVPoolTotal A} `{Env} `{!EnvLaws} `{HeapQ} `{!HeapQLaws}.
Variable cfg : Config.
Implicit Types st : RadixCache A.
Notation ps := (page_size cfg).
Notation eagle := (is_eagle cfg).

(** What the removal of a leaf does. *)
Lemma evict_step_ok st L x :
  cache_wf cfg st L → x ∈ evictable_leaves (tree st) →
  ∃ xnd p pnd ck v a st1 st2, nodes (tree st) !! x = Some xnd ∧ is_leaf xnd ∧
    value xnd = Some v ∧ length v = key_len (nkey xnd) ∧ parent xnd = Some p ∧
    nodes (tree st) !! p = Some pnd ∧ x ≠ root_node (tree st) ∧ p ≠ x ∧
    child_key (nkey xnd) ps = Ok ck ∧
    kv_free (allocator st) v = Ok a ∧ delete_leaf cfg x (with_allocator a st) = Ok st1 ∧
    record_remove_event cfg x xnd None st1 = Ok st2 ∧
    cache_wf cfg st1 L ∧ cache_wf cfg st2 L ∧ allocator st2 = a ∧
    tree st1 = tree_del (tree st) ck p pnd x xnd ∧ tree st2 = tree st1 ∧
    (∀ y, y ≠ x → meta st1 !! y = meta st !! y) ∧
    (∀ y, y ≠ x → meta st2 !! y = meta st !! y).
Proof.
  intros Hw Hx. pose proof (cw_tree _ _ _ Hw) as [Hsw _ Hac].
  apply (aw_leaves _ Hac) in Hx as (xnd & Hx & Hleaf).
  assert (Hxr : x ≠ root_node (tree st)).
  { intros ->. destruct (sw_root _ _ _ Hsw) as (rn & Hr & _ & _ & Hl1 & _).
    destruct Hleaf as [Hl0 _]. simplify_eq. lia. }
  destruct (sw_node _ _ _ Hsw _ _ Hx Hxr) as (_ & Hal & _ & (v & Hv & Hvl) & _).
  destruct (kv_free_total (allocator st) v) as [a Ha].
  destruct (delete_leaf_ok cfg (with_allocator a st) L x xnd) as
    (ck & p & pnd & st1 & Hdel & Hw1 & Hxp & Hp & _ & Hpx & Ht1 & Hck & Ha1 & Hmo & (m & Hm & Hh & Hs0));
    [|done..|].
  { destruct Hw as [? ? ? [? ? ?]]. by split. }
  assert (Hp1 : is_Some (nodes (tree st1) !! p)).
  { rewrite Ht1, del_lookup. rewrite decide_False, decide_True by done. eauto. }
  destruct (record_remove_event_ok cfg st1 x xnd None m) as
    (st2 & Hrec & Hfr & Hmo2 & (m2 & Hm2 & Hs2)); try done.
  { apply Hw. }
  { intros q Hq. simplify_eq. split; [|done]. destruct Hp1 as [pn Hpn].
    destruct (cw_meta _ _ _ Hw1 p pn Hpn) as (? & ? & _). eauto. }
  destruct Hfr as (Ht2 & Ha2 & Hse2 & _).
  assert (Hw2 : cache_wf cfg st2 L).
  { destruct Hw1 as [? Ht Hmw Hse1]. split; [done|by rewrite Ht2| |].
    - intros y ynd. rewrite Ht2. intros Hy. rewrite Hmo2; [by apply Hmw|].
      intros ->. rewrite Ht1, del_lookup, decide_True in Hy by done. done.
    - revert Hse1. apply session_wf_mono; [done|by rewrite Ht2|..]; intros y;
        (destruct (decide (y = x)) as [->|Hyx]; [rewrite Hm2|by rewrite Hmo2; eauto]); eauto.
      intros m' [= <-]. left. simplify_eq. unfold holders in *. by rewrite Hs2. }
  exists xnd, p, pnd, ck, v, a, st1, st2. split_and!; try done.
  - by rewrite Ha2, Ha1.
  - intros y Hy. by rewrite Hmo2, Hmo.
Qed.

(** The heap holds one item per evictable leaf, with its current priority. *)
Definition heap_wf st (heap : list heap_item) : Prop :=
  heap_ok item_lt heap ∧ snd <$> heap ≡ₚ elements (evictable_leaves (tree st)) ∧
  ∀ i, i ∈ heap → make_item cfg i.2 st = Ok i.

Lemma item_lt_weak : weak_order item_lt.
Proof. apply weak_order_lex. Qed.

Lemma make_items_ok st L ns :
  cache_wf cfg st L → (∀ n, n ∈ ns → n ∈ evictable_leaves (tree st)) →
  ∃ items, make_items cfg ns st = Ok items ∧ snd <$> items = ns ∧
    ∀ i, i ∈ items → make_item cfg i.2 st = Ok i.
Proof.
  intros Hw. induction ns as [|n ns IH]; intros Hns.
  { exists []. split_and!; try done. by intros i ?%not_elem_of_nil. }
  destruct IH as (items & Hi & Hs & Hall); [set_solver|].
  assert (Hn : n ∈ evictable_leaves (tree st)) by set_solver.
  apply (aw_leaves _ (tw_acct _ _ _ _ (cw_tree _ _ _ Hw))) in Hn as (nd & Hn & _).
  destruct (cw_meta _ _ _ Hw n nd Hn) as (m & Hm & _).
  cbn [make_items]. unfold make_item at 1, get_meta. rewrite Hm. cbn [of_option rbind].
  rewrite Hi. cbn [rbind]. eexists; split_and!; [done|by csimpl; rewrite Hs|].
  intros i [->|Hin]%elem_of_cons; [|auto]. unfold make_item, get_meta. cbn. by rewrite Hm.
Qed.

(** Popping an item yields a leaf that may go first. *)
Lemma heap_pop_first st heap i heap' :
  heap_wf st heap → heappop item_lt heap = Some (i, heap') →
  first_to_go cfg st i.2 ∧ i.2 ∈ evictable_leaves (tree st) ∧ make_item cfg i.2 st = Ok i ∧
  heap_ok item_lt heap' ∧ i.2 :: (snd <$> heap') ≡ₚ elements (evictable_leaves (tree st)) ∧
  (∀ j, j ∈ heap' → make_item cfg j.2 st = Ok j).
Proof.
  intros (Hok & Hp & Hall) Hpop.
  destruct (heappop_ok item_lt heap i heap' item_lt_weak Hok Hpop) as (Hok' & Hperm & Hmin).
  assert (Hi : i ∈ heap) by (rewrite Hperm; by left).
  split_and!; try done.
  - intros y i' j Hy Hi' Hj. rewrite (Hall i Hi) in Hi'. injection Hi' as <-.
    apply elem_of_elements in Hy. rewrite <-Hp in Hy.
    apply list_elem_of_fmap in Hy as (k & -> & Hk). rewrite (Hall k Hk) in Hj.
    injection Hj as <-. by apply Hmin.
  - apply elem_of_elements. rewrite <-Hp. apply list_elem_of_fmap. eauto.
  - by apply Hall.
  - rewrite <-Hp, Hperm. done.
  - intros j Hj. apply Hall. rewrite Hperm. by right.
Qed.

Lemma del_size t ck p x pnd xnd :
  nodes t !! x = Some xnd → nodes t !! p = Some pnd → p ≠ x →
  S (size (nodes (tree_del t ck p pnd x xnd))) = size (nodes t).
Proof.
  intros Hx Hp Hpx. cbn. rewrite map_size_delete_Some by (rewrite lookup_insert_ne by done; eauto).
  rewrite map_size_insert_Some by eauto.
  destruct (size (nodes t)) eqn:E; [|done]. apply map_size_empty_inv in E. rewrite E in Hx. done.
Qed.

(** The evictable leaves after the removal of [x]. *)
Lemma del_leaves st L x xnd p pnd ck :
  cache_wf cfg st L → nodes (tree st) !! x = Some xnd → parent xnd = Some p →
  nodes (tree st) !! p = Some pnd → child_key (nkey xnd) ps = Ok ck →
  let pnd' := set_children (dict_del ck (children pnd)) pnd in
  evictable_leaves (tree_del (tree st) ck p pnd x xnd) =
    (if decide (is_leaf pnd') then {[p]} else ∅) ∪ evictable_leaves (tree st) ∖ {[x]} ∧
  p ∉ evictable_leaves (tree st).
Proof.
  intros [Hps [Hw _ Hac] _ _] Hx Hxp Hp Hck pnd'.
  assert (Hpl : p ∉ evictable_leaves (tree st)).
  { intros (nd & Hn & _ & Hch)%(aw_leaves _ Hac). rewrite Hp in Hn. injection Hn as <-.
    assert ((ck, x) ∈ children pnd) as Hin.
    { apply (sw_edges _ _ _ Hw _ _ _ _ Hp). exists (nkey xnd). split; [|done].
      by rewrite (pk_Some _ _ _ Hx), Hxp. }
    rewrite Hch in Hin. by apply not_elem_of_nil in Hin. }
  split; [|done]. unfold tree_del, leaf_update. cbn. fold pnd'. case_decide; set_solver.
Qed.

(** The heap after the removal of the popped leaf and the push of its parent. *)
Lemma heap_after st L heap' x xnd p pnd ck st1 st2 :
  cache_wf cfg st L → cache_wf cfg st1 L → nodes (tree st) !! x = Some xnd →
  parent xnd = Some p → p ≠ x →
  nodes (tree st) !! p = Some pnd → child_key (nkey xnd) ps = Ok ck →
  tree st1 = tree_del (tree st) ck p pnd x xnd → tree st2 = tree st1 →
  (∀ y, y ≠ x → meta st1 !! y = meta st !! y) → (∀ y, y ≠ x → meta st2 !! y = meta st !! y) →
  heap_ok item_lt heap' → x :: (snd <$> heap') ≡ₚ elements (evictable_leaves (tree st)) →
  (∀ j, j ∈ heap' → make_item cfg j.2 st = Ok j) →
  let pnd' := set_children (dict_del ck (children pnd)) pnd in
  ∃ heap2, (if (length (children pnd') =? 0)%nat && (lock_ref pnd' =? 0)
      then let! i := make_item cfg p st1 in Ok (heappush item_lt heap' i) else Ok heap') = Ok heap2 ∧
    heap_wf st2 heap2.
Proof.
  intros Hw Hw1 Hx Hxp Hpx Hp Hck Ht1 Ht2 Hm1 Hm2 Hok Hperm Hall pnd'.
  destruct (del_leaves st L x xnd p pnd ck Hw Hx Hxp Hp Hck) as [Hlv Hpl]. fold pnd' in Hlv.
  assert (Hnd : NoDup (x :: (snd <$> heap'))) by (rewrite Hperm; apply NoDup_elements).
  apply NoDup_cons in Hnd as [Hxh _].
  assert (Hrest : elements (evictable_leaves (tree st) ∖ {[x]}) ≡ₚ snd <$> heap').
  { apply NoDup_Permutation; [apply NoDup_elements| |].
    - eapply NoDup_cons_1_2. rewrite Hperm. apply NoDup_elements.
    - intros y. rewrite elem_of_elements, elem_of_difference, <-elem_of_elements, <-Hperm. set_solver. }
  assert (Hitem : ∀ j, j ∈ heap' → make_item cfg j.2 st2 = Ok j).
  { intros j Hj. rewrite <-(Hall j Hj). unfold make_item, get_meta. rewrite Hm2; [done|].
    intros Heq. apply Hxh. rewrite <-Heq. apply list_elem_of_fmap. eauto. }
  assert (Hif : (length (children pnd') =? 0)%nat && (lock_ref pnd' =? 0)
    = bool_decide (is_leaf pnd')).
  { unfold is_leaf. apply eq_true_iff_eq. rewrite bool_decide_eq_true, andb_true_iff, Z.eqb_eq, Nat.eqb_eq.
    rewrite length_zero_iff_nil. tauto. }
  rewrite Hif. destruct (decide (is_leaf pnd')) as [Hl|Hl].
  - rewrite bool_decide_true by done.
    assert (Hp1 : nodes (tree st1) !! p = Some pnd').
    { rewrite Ht1, del_lookup. by rewrite decide_False, decide_True. }
    destruct (cw_meta _ _ _ Hw1 p pnd' Hp1) as (pm & Hpm & _).
    unfold make_item at 1, get_meta. rewrite Hpm. cbn [of_option rbind].
    eexists; split; [done|]. set (i := (_, _, p)).
    destruct (heappush_ok item_lt heap' i item_lt_weak Hok) as [Hok2 Hp2].
    split_and!; [done| |].
    + rewrite Hp2, Ht2, Ht1, Hlv. rewrite elements_union_singleton by set_solver.
      csimpl. by rewrite Hrest.
    + intros j. rewrite Hp2. intros [->|Hj]%elem_of_cons; [|auto].
      unfold make_item, get_meta. cbn. by rewrite Hm2, <-Hm1, Hpm.
  - rewrite bool_decide_false by done. exists heap'. split; [done|]. split_and!; [done| |done].
    rewrite Ht2, Ht1, Hlv, (left_id_L ∅ (∪)). by rewrite Hrest.
Qed.

Lemma evict_loop_ok fuel num_tokens heap n st L :
  cache_wf cfg st L → heap_wf st heap → (size (nodes (tree st)) < fuel)%nat →
  ∃ xs n' st', evict_loop cfg fuel num_tokens heap n st = Ok (n', st') ∧
    evict_spec cfg num_tokens n st xs n' st' ∧ cache_wf cfg st' L.
Proof.
  revert heap n st; induction fuel as [|fuel IH]; intros heap n st Hw Hh Hf; [lia|].
  cbn [evict_loop]. destruct (Z.ltb_spec n num_tokens) as [Hlt|Hge].
  2: { exists [], n, st. split_and!; [done|by constructor|done]. }
  destruct (heappop item_lt heap) as [[[[pr la] x] heap']|] eqn:Epop.
  2: { exists [], n, st. destruct Hh as (Hok & Hp & _).
       apply (heappop_nil item_lt heap Hok) in Epop as ->. split_and!; [done| |done].
       apply evict_none, leibniz_equiv, elements_empty_inv.
       by apply Permutation_nil_l in Hp. }
  destruct (heap_pop_first st heap _ heap' Hh Epop) as (Hfirst & Hxl & _ & Hok' & Hperm & Hall).
  cbn [snd] in Hfirst, Hxl, Hperm.
  destruct (evict_step_ok st L x Hw Hxl) as (xnd & p & pnd & ck & v & a & st1 & st2 & Hx & Hleaf & Hv &
    Hvl & Hxp & Hp & Hxr & Hpx & Hck & Ha & Hdel & Hrec & Hw1 & Hw2 & Ha2 & Ht1 & Ht2 & Hm1 & Hm2).
  unfold get_node at 1. rewrite Hx. cbn [of_option rbind]. rewrite Hv. cbn [of_option rbind].
  rewrite Ha. cbn [rbind]. rewrite Hdel. cbn [rbind]. rewrite Hxp. cbn [of_option rbind].
  set (pnd' := set_children (dict_del ck (children pnd)) pnd).
  assert (Hp1 : nodes (tree st1) !! p = Some pnd').
  { rewrite Ht1, del_lookup. by rewrite decide_False, decide_True. }
  unfold get_node. rewrite Hp1. cbn [of_option rbind].
  destruct (heap_after st L heap' x xnd p pnd ck st1 st2) as (heap2 & Hpush & Hh2); try done.
  fold pnd' in Hpush. rewrite Hpush. cbn [rbind]. rewrite Hrec. cbn [rbind].
  destruct (IH heap2 (n + Z.of_nat (length v)) st2) as (xs & n' & st' & -> & Hspec & Hw'); try done.
  { rewrite Ht2, Ht1. pose proof (del_size (tree st) ck p x pnd xnd Hx Hp Hpx). lia. }
  exists (x :: xs), n', st'. split_and!; [done| |done].
  eapply evict_more; [done| |done|done]. by econstructor.
Qed.

(** *** Locked paths and evictable leaves *)

Lemma path_step_pcount r par n l x p :
  path_up r par n l → par x = Some p → p ≠ r → (pcount x l ≤ pcount p l)%nat.
Proof.
  intros Hl Hp Hpr. pose proof (path_up_NoDup _ _ _ _ Hl) as Hnd.
  induction Hl as [|n q l Hn Hq Hl IH]; [done|]. apply NoDup_cons in Hnd as [Hnl Hnd].
  cbn. destruct (decide (n = x)) as [->|Hne].
  - assert (q = p) as -> by congruence. rewrite delta_eq, (pcount_notin x l) by done.
    inversion Hl; subst; [done|]. cbn. rewrite delta_eq. lia.
  - rewrite (delta_ne n x) by done. specialize (IH Hnd). lia.
Qed.

(** A child is locked at most as often as its parent. *)
Lemma lock_child_le st L c cnd p pnd :
  cache_wf cfg st L → nodes (tree st) !! c = Some cnd → parent cnd = Some p →
  nodes (tree st) !! p = Some pnd → p ≠ root_node (tree st) →
  lock_ref cnd ≤ lock_ref pnd.
Proof.
  intros [Hps [Hw (P & HP & Hcnt) _] _ _] Hc Hcp Hp Hpr.
  destruct (down_step_ok (tree st) Hw p c cnd Hc Hcp) as [Hcr _].
  rewrite (Hcnt c cnd Hc Hcr), (Hcnt p pnd Hp Hpr). apply inj_le. clear Hcnt.
  assert (Hpar : par_of (tree st) c = Some p) by (unfold par_of; by rewrite (pk_Some _ _ _ Hc)).
  induction HP as [|h l L P Hl HP IH]; [done|]. cbn. rewrite !pcount_app.
  pose proof (path_step_pcount _ _ _ _ _ _ Hl Hpar Hpr). lia.
Qed.

(** An unlocked node has an evictable leaf below it. *)
Lemma unlocked_leaf st L n nd :
  cache_wf cfg st L → nodes (tree st) !! n = Some nd → n ≠ root_node (tree st) →
  lock_ref nd = 0 → ∃ x, x ∈ evictable_leaves (tree st).
Proof.
  intros Hcw Hn Hnr Hl0. pose proof (cw_tree _ _ _ Hcw) as [Hw _ Hac].
  destruct (sw_path _ _ _ Hw n) as [l Hl]; [eauto|].
  remember (size (nodes (tree st)) - length l)%nat as d eqn:Ed.
  revert n nd l Hn Hnr Hl0 Hl Ed. induction d as [d IH] using lt_wf_ind.
  intros n nd l Hn Hnr Hl0 Hl ->.
  destruct (children nd) as [|[ck c] cs] eqn:Ech.
  { exists n. apply (aw_leaves _ Hac). by exists nd. }
  assert (Hin : (ck, c) ∈ children nd) by (rewrite Ech; by left).
  destruct (sw_child _ _ _ _ _ Hw Hn Hin) as (cnd & Hc & Hcp & _ & Hcr & _).
  assert (Hcl : path_up (root_node (tree st)) (par_of (tree st)) c (c :: l)).
  { econstructor; [done| |done]. unfold par_of. by rewrite (pk_Some _ _ _ Hc). }
  pose proof (path_length _ _ _ Hcl) as Hlen. cbn in Hlen.
  pose proof (lock_child_le st L c cnd n nd Hcw Hc Hcp Hn Hnr).
  pose proof (sw_lock_nonneg _ _ _ Hw Hc).
  eapply (IH (size (nodes (tree st)) - length (c :: l))%nat); [cbn; lia|done|done|lia|done|done].
Qed.

Lemma no_leaf_no_evictable st L :
  cache_wf cfg st L → evictable_leaves (tree st) = ∅ → evictable_size_ (tree st) = 0.
Proof.
  intros Hcw Hnone. pose proof (cw_tree _ _ _ Hcw) as [Hw _ Hac].
  rewrite (aw_free _ Hac), (map_sum_ext _ (λ _ _, 0)).
  - induction (nodes (tree st)) as [|k x m Hk IH] using map_ind; [by rewrite map_sum_empty|].
    by rewrite map_sum_insert_new, IH.
  - intros n nd Hn. unfold free_len, len_if.
    destruct (Nat.eqb_spec n (root_node (tree st))) as [|Hnr]; [done|].
    destruct (Z.eqb_spec (lock_ref nd) 0) as [Hl0|]; [|done]. exfalso.
    destruct (unlocked_leaf st L n nd Hcw Hn Hnr Hl0) as [x Hx]. set_solver.
Qed.

(** *** What eviction achieves *)

(** The effect of a given removal. *)
Lemma evict_step_inv st L x len st2 :
  cache_wf cfg st L → evict_step cfg st x len st2 →
  ∃ xnd p pnd ck v, nodes (tree st) !! x = Some xnd ∧ is_leaf xnd ∧ value xnd = Some v ∧
    len = Z.of_nat (length v) ∧ length v = key_len (nkey xnd) ∧ parent xnd = Some p ∧
    nodes (tree st) !! p = Some pnd ∧ x ≠ root_node (tree st) ∧ p ≠ x ∧
    kv_free (allocator st) v = Ok (allocator st2) ∧ cache_wf cfg st2 L ∧
    tree st2 = tree_del (tree st) ck p pnd x xnd.
Proof.
  intros Hw Hs. destruct Hs as [x xnd v a st1 st2 Hx Hleaf Hv Ha Hdel Hrec].
  pose proof (cw_tree _ _ _ Hw) as [Hsw _ Hac].
  assert (Hxl : x ∈ evictable_leaves (tree st)) by (apply (aw_leaves _ Hac); eauto).
  destruct (evict_step_ok st L x Hw Hxl) as (xnd' & p & pnd & ck & v' & a' & st1' & st2' & Hx' & _ & Hv' &
    Hvl & Hxp & Hp & Hxr & Hpx & Hck & Ha' & Hdel' & Hrec' & Hw1 & Hw2 & Ha2 & Ht1 & Ht2 & Hm1 & Hm2).
  rewrite Hx in Hx'; injection Hx' as <-. rewrite Hv in Hv'; injection Hv' as <-.
  rewrite Ha in Ha'; injection Ha' as <-. rewrite Hdel in Hdel'; injection Hdel' as <-.
  rewrite Hrec in Hrec'; injection Hrec' as <-.
  exists xnd, p, pnd, ck, v. rewrite Ht2. split_and!; try done. congruence.
Qed.

Lemma evict_step_facts st L x len st2 :
  cache_wf cfg st L → evict_step cfg st x len st2 →
  cache_wf cfg st2 L ∧ root_node (tree st2) = root_node (tree st) ∧
  evictable_size_ (tree st2) = evictable_size_ (tree st) - len ∧ 0 < len ∧
  protected_size_ (tree st2) = protected_size_ (tree st) ∧
  (∀ e us w, cached ps (tree st2) e us w → cached ps (tree st) e us w) ∧
  (∀ e n us w y, down (tree st) e n us w y → y ≠ x → down (tree st2) e n us w y) ∧
  (∀ y nd, nodes (tree st) !! y = Some nd → 0 < lock_ref nd → y ≠ x ∧
     ∃ nd', nodes (tree st2) !! y = Some nd' ∧ lock_ref nd' = lock_ref nd).
Proof.
  intros Hw Hs. pose proof (cw_tree _ _ _ Hw) as [Hsw _ _]. pose proof (cw_ps _ _ _ Hw) as Hps.
  destruct (evict_step_inv st L x len st2 Hw Hs) as (xnd & p & pnd & ck & v & Hx & Hleaf & Hv & -> & Hvl &
    Hxp & Hp & Hxr & Hpx & _ & Hw2 & ->).
  destruct (sw_node _ _ _ Hsw _ _ Hx Hxr) as (Hkl & _).
  split_and!; try done; [cbn; lia|lia|..].
  - intros e us w. by eapply del_cached.
  - intros e n us w y. by eapply del_down.
  - intros y nd Hy Hlk. assert (y ≠ x).
    { intros ->. destruct Hleaf as [Hl0 _]. simplify_eq. lia. }
    split; [done|]. rewrite del_lookup, decide_False by done.
    case_decide; [subst; simplify_eq; eauto|eauto].
Qed.

Record evict_post st L (num_tokens n : Z) n' st' : Prop := {
  ev_wf : cache_wf cfg st' L;
  ev_root : root_node (tree st') = root_node (tree st);
  ev_count : n ≤ n' ∧ evictable_size_ (tree st') = evictable_size_ (tree st) - (n' - n);
  ev_protected : protected_size_ (tree st') = protected_size_ (tree st);
  ev_enough : num_tokens ≤ n' ∨ evictable_size_ (tree st') = 0;
  ev_cached e us w : cached ps (tree st') e us w → cached ps (tree st) e us w;
  ev_locked y nd : nodes (tree st) !! y = Some nd → 0 < lock_ref nd →
    (∃ nd', nodes (tree st') !! y = Some nd' ∧ lock_ref nd' = lock_ref nd) ∧
    ∀ e n us w, down (tree st) e n us w y → down (tree st') e n us w y;
}.

Lemma evict_spec_post num_tokens n st xs n' st' L :
  cache_wf cfg st L → evict_spec cfg num_tokens n st xs n' st' →
  evict_post st L num_tokens n n' st'.
Proof.
  intros Hw Hs. revert Hw.
  induction Hs as [n st Hge|n st Hnone|n st x len st1 xs n' st' Hlt Hst Hfirst Hs IH]; intros Hw.
  - split; try done; [lia|by left|eauto].
  - split; try done; [lia|right; by eapply no_leaf_no_evictable|eauto].
  - destruct (evict_step_facts st L x len st1 Hw Hst) as
      (Hw1 & Hr1 & He1 & Hpos & Hp1 & Hc1 & Hd1 & Hk1).
    destruct (IH Hw1) as [Hw' Hr [Hle Hev] Hpr Hen Hc Hlk]. split; try done.
    + congruence.
    + lia.
    + congruence.
    + eauto.
    + intros y nd Hy Hl. destruct (Hk1 y nd Hy Hl) as (Hyx & nd1 & Hy1 & Hl1).
      destruct (Hlk y nd1 Hy1) as [(nd' & ? & ?) Hdown]; [lia|]. split.
      * exists nd'. split; [done|congruence].
      * intros e m us w Hd. apply Hdown, Hd1; done.
Qed.

(** Eviction refines its promise and always returns. *)
Lemma evict_ok st L num_tokens :
  cache_wf cfg st L → disable cfg = false →
  ∃ xs n st', evict cfg num_tokens st = Ok (n, st') ∧ evict_spec cfg num_tokens 0 st xs n st'.
Proof.
  intros Hw Hdis. unfold evict. rewrite Hdis.
  destruct (make_items_ok st L (elements (evictable_leaves (tree st))) Hw) as (items & -> & Hs & Hall).
  { intros n. apply elem_of_elements. }
  cbn [rbind]. destruct (heapify_ok item_lt items item_lt_weak) as [Hok Hp].
  destruct (evict_loop_ok (S (size (nodes (tree st)))) num_tokens (heapify item_lt items) 0 st L)
    as (xs & n & st' & -> & Hspec & _); [done| |lia|eauto].
  split_and!; [done|by rewrite Hp, Hs|]. intros i. rewrite Hp. apply Hall.
Qed.
End evict_ok.
