(* ===== verification/RadixSession.v ===== *)
(** Totals of the prefix cache, conservation of KV slots under eviction, and
    the release of a session. *)

From stdpp Require Import base gmap strings list.
From Stdlib Require Import ZArith Lia.
From S2P Require Import Prelude.
From S2P Require Import PyData.
From S2P Require Import RadixKey.
From S2P Require Import RadixTree.
From S2P Require Import RadixInv.
From S2P Require Import RadixContent.
From S2P Require Import RadixOps.
From S2P Require Import RadixInsert.
From S2P Require Import RadixEvict.

Open Scope Z_scope.

(** ** The total size *)

Section total.
Context {ps : nat} {eagle : bool} (t : Tree).
Hypothesis Hps : (1 ≤ ps)%nat.
Hypothesis Hw : shape_wf ps eagle t.

Definition value_len (n : nat) (nd : TreeNode) : Z := Z.of_nat (length (node_slots nd)).

(** [M] are the nodes not visited yet, [stack] the roots of their subtrees. *)
Record dfs_inv (M : gmap nat TreeNode) (stack : list nat) : Prop := {
  di_sub : M ⊆ nodes t;
  di_nodup : NoDup stack;
  di_stack s : s ∈ stack → ∃ nd, M !! s = Some nd ∧
    ∀ p, parent nd = Some p → M !! p = None;
  di_cover n nd : M !! n = Some nd → n ∈ stack ∨ ∃ p, parent nd = Some p ∧ is_Some (M !! p);
  di_closed n nd c : M !! n = Some nd → c ∈ (children nd).*2 → is_Some (M !! c);
}.

Lemma dfs_inv_nil M : dfs_inv M [] → M = ∅.
Proof.
  intros [Hsub _ _ Hcov _]. apply map_empty. intros n.
  destruct (M !! n) as [nd|] eqn:Hn; [|done]. exfalso.
  assert (Hnt : nodes t !! n = Some nd) by (by eapply lookup_weaken).
  destruct (sw_path _ _ _ Hw n) as [l Hl]; [eauto|]. revert nd Hn Hnt.
  induction Hl as [|n p l Hnr Hp Hl IH]; intros nd Hn Hnt.
  - destruct (sw_root _ _ _ Hw) as (rn & Hr & Hrp & _).
    destruct (Hcov _ _ Hn) as [?%not_elem_of_nil|(p & Hp & _)]; [done|congruence].
  - destruct (Hcov _ _ Hn) as [?%not_elem_of_nil|(p' & Hp' & [pnd Hpn])]; [done|].
    unfold par_of in Hp. rewrite (pk_Some _ _ _ Hnt) in Hp. cbn in Hp. simplify_eq.
    eapply IH; [done|by eapply lookup_weaken].
Qed.

Lemma resident_children_all cs :
  (∀ c, c ∈ cs → is_Some (nodes t !! c)) → resident_children t cs = Ok cs.
Proof.
  induction cs as [|c cs IH]; intros Hc; [done|]. cbn.
  destruct (Hc c) as [cnd Hcn]; [by left|]. rewrite Hcn. cbn [of_option rbind].
  rewrite IH by set_solver. cbn. by rewrite (shape_all_resident _ _ _ Hw c cnd Hcn).
Qed.

Lemma children_NoDup n nd : nodes t !! n = Some nd → NoDup (children nd).*2.
Proof.
  intros Hn. pose proof (sw_nodup _ _ _ Hw n nd Hn) as Hnd.
  assert (Hk : ∀ ck c, (ck, c) ∈ children nd → ∃ k, pk t c = Some (Some n, k) ∧ child_key k ps = Ok ck).
  { intros ck c Hc. by apply (sw_edges _ _ _ Hw _ _ _ _ Hn). }
  induction (children nd) as [|[ck c] cs IH]; [constructor|]. cbn in *.
  apply NoDup_cons in Hnd as [Hck Hnd]. constructor.
  - intros ([ck' c'] & -> & Hc')%list_elem_of_fmap. cbn in *.
    destruct (Hk ck c') as (k & Hpk & Hkk); [by left|].
    destruct (Hk ck' c') as (k' & Hpk' & Hkk'); [by right|].
    apply Hck, list_elem_of_fmap. exists (ck', c'). split; [|done]. cbn. congruence.
  - apply IH; [done|]. intros. apply Hk. by right.
Qed.

Lemma dfs_inv_step M n nd stack :
  dfs_inv M (n :: stack) → nodes t !! n = Some nd →
  dfs_inv (delete n M) (reverse (children nd).*2 ++ stack).
Proof.
  intros [Hsub Hnd Hst Hcov Hcl] Hn. apply NoDup_cons in Hnd as [Hns Hnd].
  destruct (Hst n) as (nd' & HMn & Hpn); [by left|].
  assert (nd' = nd) as -> by (eapply lookup_weaken in HMn; [|done]; congruence).
  assert (Hchild : ∀ c, c ∈ (children nd).*2 → c ≠ n ∧ c ∉ stack ∧
    ∃ cnd, M !! c = Some cnd ∧ parent cnd = Some n).
  { intros c Hc. pose proof Hc as ([ck c'] & -> & Hin)%list_elem_of_fmap. cbn in *.
    destruct (sw_child _ _ _ _ _ Hw Hn Hin) as (cnd & Hcn & Hcp & _ & _ & Hne).
    destruct (Hcl n nd c' HMn Hc) as [cnd' HMc].
    assert (cnd' = cnd) as -> by (eapply lookup_weaken in HMc; [|done]; congruence).
    split_and!; [done| |eauto]. intros Hs. destruct (Hst c') as (nd' & ? & Hp); [by right|].
    simplify_eq. rewrite (Hp n Hcp) in HMn. done. }
  split.
  - etrans; [apply delete_subseteq|done].
  - apply NoDup_app. split_and!; [|set_solver|done]. rewrite reverse_Permutation. by eapply children_NoDup.
  - intros s [Hs|Hs]%elem_of_app.
    + rewrite elem_of_reverse in Hs. destruct (Hchild s Hs) as (Hne & _ & cnd & HMc & Hcp).
      exists cnd. rewrite lookup_delete_ne by done. split; [done|]. intros p Hp.
      assert (p = n) as -> by congruence. apply lookup_delete_eq.
    + destruct (Hst s) as (snd & HMs & Hp); [by right|]. exists snd.
      rewrite lookup_delete_ne by (intros ->; done). split; [done|]. intros p Hpp.
      rewrite lookup_delete. case_decide; [done|]. by apply Hp.
  - intros m mnd. rewrite lookup_delete. case_decide as Hne; [done|]. intros HMm.
    destruct (Hcov m mnd HMm) as [[->|Hm]%elem_of_cons|(p & Hp & Hpm)]; [done|left; set_solver|].
    destruct (decide (p = n)) as [->|Hpn'].
    + left. apply elem_of_app. left. apply elem_of_reverse.
      assert (Hmt : nodes t !! m = Some mnd) by (by eapply lookup_weaken).
      destruct (down_step_ok t Hw n m mnd Hmt Hp) as [Hmr _].
      destruct (sw_parent_node t m mnd Hps Hw Hmt Hmr) as (q & qnd & ck & Hq & Hqn & _ & Hin & _).
      simplify_eq. apply list_elem_of_fmap. by exists (ck, m).
    + right. exists p. by rewrite lookup_delete_ne.
  - intros m mnd c. rewrite !lookup_delete. case_decide as Hne; [done|]. intros HMm Hc.
    case_decide as Hnc; [|by eapply Hcl]. subst c. exfalso.
    assert (Hmt : nodes t !! m = Some mnd) by (by eapply lookup_weaken).
    apply list_elem_of_fmap in Hc as ([ck c'] & E & Hin). cbn in E. subst c'.
    destruct (sw_child _ _ _ _ _ Hw Hmt Hin) as (cnd & Hcn & Hcp & _). simplify_eq.
    rewrite (Hpn m Hcp) in HMm. done.
Qed.

Lemma total_size_loop_ok fuel M stack acc :
  dfs_inv M stack → (size M < fuel)%nat →
  total_size_loop fuel t stack acc = Ok (acc + map_sum value_len M).
Proof.
  revert M stack acc; induction fuel as [|fuel IH]; intros M stack acc Hi Hf; [lia|].
  cbn [total_size_loop]. destruct stack as [|n stack].
  { rewrite (dfs_inv_nil M Hi), map_sum_empty. f_equal. lia. }
  destruct (di_stack _ _ Hi n) as (nd & HMn & _); [by left|].
  assert (Hn : nodes t !! n = Some nd) by (eapply lookup_weaken; [done|apply Hi]).
  rewrite Hn. cbn [of_option rbind]. destruct (sw_value t n nd Hw Hn) as [v Hv]. rewrite Hv.
  cbn [of_option rbind]. rewrite resident_children_all by (intros c; by eapply shape_children_in).
  cbn [rbind]. rewrite (IH (delete n M)).
  - rewrite (map_sum_delete _ _ _ nd) by done. unfold value_len, node_slots. rewrite Hv. cbn.
    f_equal. lia.
  - by apply dfs_inv_step.
  - rewrite map_size_delete_Some by eauto. destruct (size M) eqn:E; [|simpl; lia].
    apply map_size_empty_inv in E. rewrite E in HMn. done.
Qed.

Lemma dfs_inv_init : dfs_inv (nodes t) [root_node t].
Proof.
  destruct (sw_root _ _ _ Hw) as (rn & Hr & Hrp & _). split.
  - done.
  - apply NoDup_singleton.
  - intros s ->%list_elem_of_singleton. exists rn. split; [done|]. congruence.
  - intros n nd Hn. destruct (decide (n = root_node t)) as [->|Hne]; [left; by left|right].
    destruct (sw_parent_node t n nd Hps Hw Hn Hne) as (p & pnd & _ & Hp & Hpn & _). eauto.
  - intros n nd c. by eapply shape_children_in.
Qed.

Lemma total_size_accounts :
  acct_wf t → total_size t = Ok (evictable_size_ t + protected_size_ t).
Proof.
  intros Hac. unfold total_size. rewrite (total_size_loop_ok _ (nodes t)) by (apply dfs_inv_init || lia).
  f_equal. rewrite (aw_free _ Hac), (aw_held _ Hac), <-map_sum_add. cbn.
  apply map_sum_ext. intros n nd Hn. unfold free_len, held_len, len_if, value_len, node_slots.
  destruct (Nat.eqb_spec n (root_node t)) as [->|Hne].
  - destruct (sw_root _ _ _ Hw) as (rn & Hr & _ & Hv & _). simplify_eq. by rewrite Hv.
  - destruct (sw_node _ _ _ Hw _ _ Hn Hne) as (_ & _ & _ & (v & -> & Hvl) & _). cbn.
    destruct (lock_ref nd =? 0); cbn; lia.
Qed.
End total.

(** ** Conservation of slots *)

Section conserve.
Context {A : Type} `{KVPool A} `{!KVPoolTotal A} `{!KVPoolSlots A}.
Context `{Env} `{!EnvLaws} `{HeapQ} `{!HeapQLaws}.
Variable cfg : Config.
Implicit Types st : RadixCache A.
Notation ps := (page_size cfg).
Notation eagle := (is_eagle cfg).

(** The slots the cache and the allocator account for. *)
Definition all_slots st : list Z := tree_slots (tree st) ++ kv_slots (allocator st).

Lemma evict_step_slots st L x len st2 :
  cache_wf cfg st L → evict_step cfg st x len st2 → all_slots st2 ≡ₚ all_slots st.
Proof.
  intros Hw Hs.
  destruct (evict_step_inv cfg st L x len st2 Hw Hs) as (xnd & p & pnd & ck & v & Hx & Hleaf & Hv & -> &
    Hvl & Hxp & Hp & Hxr & Hpx & Ha & Hw2 & Ht2).
  unfold all_slots. rewrite Ht2, (kv_free_slots _ _ _ Ha).
  rewrite app_assoc, (del_slots (tree st) ck p pnd x xnd v) by done. done.
Qed.

Lemma evict_spec_slots num_tokens n st xs n' st' L :
  cache_wf cfg st L → evict_spec cfg num_tokens n st xs n' st' → all_slots st' ≡ₚ all_slots st.
Proof.
  intros Hw Hs. revert Hw.
  induction Hs as [n st Hge|n st Hnone|n st x len st1 xs n' st' Hlt Hst Hfirst Hs IH]; intros Hw;
    [done..|].
  rewrite IH; [by eapply evict_step_slots|]. by eapply evict_step_facts.
Qed.
End conserve.

(** ** Releasing a session *)

Section release.
Context {A : Type} `{KVPool A} `{!KVPoolTotal A} `{!KVPoolSlots A} `{Env} `{!EnvLaws} `{HeapQ} `{!HeapQLaws}.
Variable cfg : Config.
Implicit Types st : RadixCache A.
Notation ps := (page_size cfg).
Notation eagle := (is_eagle cfg).

Lemma drop_holder_holders sid m : holders (drop_holder sid m) = holders m ∖ {[sid]}.
Proof.
  unfold drop_holder, holders. destruct (session_ids m) as [s|] eqn:E; cbn.
  - case_decide as Hd; cbn; [by rewrite Hd|done].
  - rewrite E. cbn. set_solver.
Qed.

Lemma drop_holder_hash sid m : hash_value (drop_holder sid m) = hash_value m.
Proof. unfold drop_holder. by destruct (session_ids m). Qed.

(** The invariant while [sid] is being released: its index entry is gone and
    the nodes still tagged with it are among [todo]. *)
Record release_wf sid (todo : list nat) st L : Prop := {
  rw_tree : tree_wf ps eagle (tree st) L;
  rw_meta : meta_wf ps st;
  rw_gone : session_leaves st !! sid = None;
  rw_todo n m : meta st !! n = Some m → sid ∈ holders m → n ∈ todo;
  rw_known n : n ∈ todo → is_Some (meta st !! n);
  rw_alive n m s : meta st !! n = Some m → s ∈ holders m → is_Some (nodes (tree st) !! n);
  rw_indexed n m s : meta st !! n = Some m → s ∈ holders m → s ≠ sid →
    ∃ lv, session_leaves st !! s = Some lv ∧ n ∈ lv;
  rw_idx s lv n : session_leaves st !! s = Some lv → n ∈ lv → is_Some (meta st !! n);
}.

(** Once nothing is left to do, the cache invariant holds again and the
    session tags no node. *)
Lemma release_wf_done sid st L :
  (1 ≤ ps)%nat → release_wf sid [] st L →
  cache_wf cfg st L ∧ ∀ n m, meta st !! n = Some m → sid ∉ holders m.
Proof.
  intros Hps [Ht Hm Hg Htodo Hk Ha Hi Hx].
  assert (Hno : ∀ n m, meta st !! n = Some m → sid ∉ holders m).
  { intros n m Hn Hs. by apply (Htodo n m Hn), not_elem_of_nil in Hs. }
  split; [|done]. split; [done..|]. split; [eauto| |eauto].
  intros n m s Hn Hs. apply (Hi n m s Hn Hs). intros ->. by apply (Hno n m).
Qed.

(** Dropping the session from one node. *)
Lemma release_drop sid todo st L n :
  release_wf sid todo st L → release_wf sid todo (upd_meta n (drop_holder sid) st) L.
Proof.
  intros [Ht Hm Hg Htodo Hk Ha Hi Hx].
  assert (Hmeta : ∀ x m', meta (upd_meta n (drop_holder sid) st) !! x = Some m' →
    ∃ m, meta st !! x = Some m ∧ holders m' ⊆ holders m ∧ hash_value m' = hash_value m).
  { intros x m'. cbn. rewrite lookup_alter. case_decide; subst; [|by eauto].
    intros (m & Hmx & ->)%fmap_Some. exists m. rewrite drop_holder_holders, drop_holder_hash.
    split_and!; [done|set_solver|done]. }
  assert (Hsome : ∀ x, is_Some (meta (upd_meta n (drop_holder sid) st) !! x) ↔ is_Some (meta st !! x)).
  { intros x. cbn. rewrite lookup_alter. case_decide; [by subst; rewrite fmap_is_Some|done]. }
  split; try done.
  - intros x nd Hxn. destruct (Hm x nd Hxn) as (m & Hmx & Hh).
    destruct (proj2 (Hsome x) ltac:(eauto)) as [m' Hm']. exists m'. split; [done|].
    destruct (Hmeta x m' Hm') as (m0 & ? & _ & Hh'). simplify_eq. intros h. rewrite Hh'. apply Hh.
  - intros x m' Hx' Hs. destruct (Hmeta x m' Hx') as (m & ? & ? & _). apply (Htodo x m); [done|set_solver].
  - intros x Hxt. apply Hsome. auto.
  - intros x m' s Hx' Hs. destruct (Hmeta x m' Hx') as (m & ? & ? & _). apply (Ha x m s); [done|set_solver].
  - intros x m' s Hx' Hs Hne. destruct (Hmeta x m' Hx') as (m & ? & ? & _). apply (Hi x m s); [done|set_solver|done].
  - intros s lv x Hs Hxl. apply Hsome. eauto.
Qed.

(** What is kept when evictable leaves go. *)
Record shrunk st st' : Prop := {
  sh_root : root_node (tree st') = root_node (tree st);
  sh_protected : protected_size_ (tree st') = protected_size_ (tree st);
  sh_cached e us w : cached ps (tree st') e us w → cached ps (tree st) e us w;
  sh_locked y nd : nodes (tree st) !! y = Some nd → 0 < lock_ref nd →
    (∃ nd', nodes (tree st') !! y = Some nd' ∧ lock_ref nd' = lock_ref nd) ∧
    ∀ e n us w, down (tree st) e n us w y → down (tree st') e n us w y;
  sh_slots : all_slots st' ≡ₚ all_slots st;
  sh_frees : rtc (λ a a', ∃ l, kv_free a l = Ok a') (allocator st) (allocator st');
}.

Lemma shrunk_refl st st' : tree st' = tree st → allocator st' = allocator st → shrunk st st'.
Proof. intros Ht Ha. unfold all_slots. split; unfold all_slots; rewrite ?Ht, ?Ha; try done. eauto. Qed.

Lemma shrunk_trans st1 st2 st3 : shrunk st1 st2 → shrunk st2 st3 → shrunk st1 st3.
Proof.
  intros [Hr1 Hp1 Hc1 Hl1 Hs1 Ha1] [Hr2 Hp2 Hc2 Hl2 Hs2 Ha2].
  split; [congruence..|eauto| |by rewrite Hs2|by etrans].
  intros y nd Hy Hl. destruct (Hl1 y nd Hy Hl) as [(nd1 & Hy1 & Hlk1) Hd1].
  destruct (Hl2 y nd1 Hy1) as [(nd2 & ? & ?) Hd2]; [lia|]. split; [|eauto].
  exists nd2. split; [done|congruence].
Qed.

Lemma del_shrunk st st' ck p pnd x xnd v :
  (1 ≤ ps)%nat → shape_wf ps eagle (tree st) → nodes (tree st) !! x = Some xnd → is_leaf xnd →
  parent xnd = Some p → nodes (tree st) !! p = Some pnd → x ≠ root_node (tree st) →
  value xnd = Some v → p ≠ x → kv_free (allocator st) v = Ok (allocator st') →
  tree st' = tree_del (tree st) ck p pnd x xnd → shrunk st st'.
Proof.
  intros Hps Hw Hx Hleaf Hxp Hp Hxr Hv Hpx Ha Ht. split; rewrite ?Ht; try done.
  - intros e us w. by eapply del_cached.
  - intros y nd Hy Hl. assert (Hyx : y ≠ x).
    { intros ->. destruct Hleaf as [Hl0 _]. simplify_eq. lia. }
    split; [|intros e n us w Hd; by eapply del_down].
    rewrite del_lookup, decide_False by done. case_decide; [subst; simplify_eq; eauto|eauto].
  - unfold all_slots. rewrite Ht, (kv_free_slots _ _ _ Ha).
    rewrite app_assoc, (del_slots (tree st) ck p pnd x xnd v) by done. done.
  - apply rtc_once. eauto.
Qed.

(** A node is freed by the climb only when it is an unlocked leaf. *)
Lemma release_climb_ok fuel sid todo node freed st L :
  (1 ≤ ps)%nat → release_wf sid todo st L → is_Some (nodes (tree st) !! node) →
  (size (nodes (tree st)) < fuel)%nat →
  ∃ freed' st', release_climb cfg fuel sid node freed st = Ok (freed', st') ∧
    release_wf sid todo st' L ∧ shrunk st st' ∧
    (∀ x m', meta st' !! x = Some m' → sid ∈ holders m' →
       x ≠ node ∧ ∃ m, meta st !! x = Some m ∧ sid ∈ holders m).
Proof.
  intros Hps. revert node freed st; induction fuel as [|fuel IH];
    intros node freed st Hrw [nd Hn] Hf; [lia|].
  cbn [release_climb]. set (st1 := upd_meta node (drop_holder sid) st).
  pose proof (release_drop sid todo st L node Hrw) as Hrw1. fold st1 in Hrw1.
  destruct (rw_meta _ _ _ _ Hrw1 node nd Hn) as (m & Hm & _).
  assert (Htag1 : ∀ x m', meta st1 !! x = Some m' → sid ∈ holders m' →
    x ≠ node ∧ ∃ m, meta st !! x = Some m ∧ sid ∈ holders m).
  { intros x m' Hx Hs. change (meta st1) with (alter (drop_holder sid) node (meta st)) in Hx.
    rewrite lookup_alter in Hx. case_decide as Hd; [|by eauto].
    apply fmap_Some in Hx as (m0 & _ & ->). rewrite drop_holder_holders in Hs. set_solver. }
  unfold get_node, get_meta. change (nodes (tree st1)) with (nodes (tree st)).
  rewrite Hn, Hm. cbn [of_option rbind].
  destruct (is_root (tree st1) node || _ || _ || _ || _) eqn:Eb.
  { exists freed, st1. split_and!; [done|done|by apply shrunk_refl|done]. }
  repeat (apply orb_false_iff in Eb as [Eb ?]).
  match goal with H : negb (bool_decide (node ∈ _)) = false |- _ =>
    apply negb_false_iff, bool_decide_eq_true in H; rename H into Hleaves end.
  destruct (rw_tree _ _ _ _ Hrw1) as [Hsw _ Hac].
  apply (aw_leaves _ Hac) in Hleaves as (nd' & Hn' & Hleaf).
  assert (nd' = nd) as -> by (change (nodes (tree st1)) with (nodes (tree st)) in Hn'; congruence).
  destruct (sw_value _ _ _ Hsw Hn') as [v Hv].
  assert (Hnr : node ≠ root_node (tree st)) by (by apply Nat.eqb_neq).
  destruct (kv_free_total (allocator st1) v) as [a Ha].
  destruct (delete_leaf_core cfg (with_allocator a st1) L node nd) as
    (ck & p & pnd & st2 & Hdel & Ht2 & Hm2 & Hxp & Hp & _ & Hpx & Htd & Hck & Ha2 & _ & Hmo &
     _ & _ & (m2 & Hmx & Hms) & [Hi1 Hi2]); [done|apply Hrw1|apply Hrw1|done|done|].
  rewrite Hxp. cbn [of_option rbind]. rewrite Hv. cbn [of_option rbind]. rewrite Ha. cbn [rbind].
  rewrite Hdel. cbn [rbind].
  assert (Hp2 : is_Some (nodes (tree st2) !! p)).
  { rewrite Htd, del_lookup, decide_False, decide_True by done. eauto. }
  assert (Hrw2 : release_wf sid todo st2 L).
  { destruct Hrw1 as [_ _ Hg Htodo Hk Hal Hi Hx]. split; try done.
    - destruct (session_leaves st2 !! sid) as [lv|] eqn:E; [|done].
      destruct (Hi1 sid lv E) as (lv0 & Hl0 & _).
      change (session_leaves st1 !! sid = Some lv0) in Hl0. congruence.
    - intros x mx Hx' Hs. destruct (decide (x = node)) as [->|Hne]; [simplify_eq; set_solver|].
      rewrite Hmo in Hx' by done. by apply (Htodo x mx).
    - intros x Hxt. destruct (decide (x = node)) as [->|Hne]; [eauto|]. rewrite Hmo by done. by apply Hk.
    - intros x mx s Hx' Hs. destruct (decide (x = node)) as [->|Hne]; [simplify_eq; set_solver|].
      rewrite Hmo in Hx' by done. rewrite Htd, del_lookup, decide_False by done.
      case_decide; [eauto|]. by apply (Hal x mx s).
    - intros x mx s Hx' Hs Hne. destruct (decide (x = node)) as [->|Hxn]; [simplify_eq; set_solver|].
      rewrite Hmo in Hx' by done. destruct (Hi x mx s Hx' Hs Hne) as (lv & Hlv & Hxl). eauto.
    - intros s lv x Hs Hxl. destruct (decide (x = node)) as [->|Hne]; [eauto|]. rewrite Hmo by done.
      destruct (Hi1 s lv Hs) as (lv0 & ? & ?). eapply Hx; [done|set_solver]. }
  destruct (IH p (freed + 1) st2) as (freed' & st' & -> & Hrw' & Hsh & Htag); [done|done| |].
  { rewrite Htd. pose proof (del_size (tree st) ck p node pnd nd Hn Hp Hpx). cbn in *. lia. }
  exists freed', st'. split_and!; [done|done| |].
  - eapply shrunk_trans; [|done]. eapply (del_shrunk st st2 ck p pnd node nd v); try done. by rewrite Ha2.
  - intros x m' Hx Hs. destruct (Htag x m' Hx Hs) as (_ & mx & Hmx2 & Hsx).
    destruct (decide (x = node)) as [->|Hne]; [simplify_eq; set_solver|].
    rewrite Hmo in Hmx2 by done. by apply (Htag1 x mx).
Qed.

Lemma release_leaves_ok sid todo freed st L :
  (1 ≤ ps)%nat → release_wf sid todo st L →
  ∃ freed' st', release_leaves cfg sid todo freed st = Ok (freed', st') ∧
    release_wf sid [] st' L ∧ shrunk st st'.
Proof.
  intros Hps. revert freed st; induction todo as [|leaf todo IH]; intros freed st Hrw.
  { exists freed, st. split_and!; [done..|by apply shrunk_refl]. }
  assert (Hnext : ∀ st1, release_wf sid (leaf :: todo) st1 L →
    (∀ m, meta st1 !! leaf = Some m → sid ∉ holders m) → release_wf sid todo st1 L).
  { intros st1 [Ht Hm Hg Htodo Hk Ha Hi Hx] Hno. split; try done.
    - intros n m Hn Hs. pose proof (Htodo n m Hn Hs) as [->|?]%elem_of_cons; [|done].
      by destruct (Hno m).
    - intros n Hn. apply Hk. by right. }
  cbn [release_leaves]. destruct (rw_known _ _ _ _ Hrw leaf) as [m Hm]; [by left|].
  unfold get_meta. rewrite Hm. cbn [of_option rbind]. fold (holders m).
  case_bool_decide as Hs.
  - destruct (release_climb_ok (S (size (nodes (tree st)))) sid (leaf :: todo) leaf freed st L)
      as (freed1 & st1 & -> & Hrw1 & Hsh1 & Htag); [done|done|by eapply rw_alive|lia|].
    cbn [rbind]. destruct (IH freed1 st1) as (freed' & st' & -> & Hrw' & Hsh').
    { apply Hnext; [done|]. intros m1 Hm1 Hs1. by destruct (Htag leaf m1 Hm1 Hs1). }
    exists freed', st'. split_and!; [done..|by eapply shrunk_trans].
  - apply IH, Hnext; [done|]. intros m1 Hm1. by simplify_eq.
Qed.

Lemma release_radix_session_ok sid st L :
  cache_wf cfg st L →
  ∃ freed st', release_radix_session cfg sid st = Ok (freed, st') ∧ cache_wf cfg st' L ∧
    shrunk st st' ∧ (∀ n m, meta st' !! n = Some m → sid ∉ holders m).
Proof.
  intros [Hps Ht Hm [Ha Hi Hk]]. unfold release_radix_session.
  set (st1 := remember_closed_session sid st).
  set (todo := elements (default ∅ (session_leaves st1 !! sid))).
  set (st2 := with_sessions _ _ st1).
  assert (Hrw : release_wf sid todo st2 L).
  { split; try done; cbn.
    - apply lookup_delete_eq.
    - intros n m Hn Hs. destruct (Hi n m sid Hn Hs) as (lv & Hlv & Hnl).
      unfold todo. cbn. rewrite Hlv. by apply elem_of_elements.
    - intros n Hn. unfold todo in Hn. cbn in Hn. apply elem_of_elements in Hn.
      destruct (session_leaves st !! sid) as [lv|] eqn:E; [by eapply Hk|set_solver].
    - intros n m s Hn Hs Hne. rewrite lookup_delete_ne by done. eauto.
    - intros s lv n. rewrite lookup_delete. case_decide; [done|]. eauto. }
  destruct (release_leaves_ok sid todo 0 st2 L Hps Hrw) as (freed & st' & -> & Hrw' & Hsh).
  destruct (release_wf_done sid st' L Hps Hrw') as [Hw Hno].
  exists freed, st'. split_and!; try done.
  eapply shrunk_trans; [|done]. by apply shrunk_refl.
Qed.
End release.

(** ** Tagging a node with a session *)

Section tag.
Context {A : Type} `{KVPool A} `{Env}.
Variable cfg : Config.
Implicit Types st : RadixCache A.
Notation ps := (page_size cfg).
Notation eagle := (is_eagle cfg).

(** A change that keeps the content, the slots and the allocator. *)
Record same_content st st' : Prop := {
  sc_root : root_node (tree st') = root_node (tree st);
  sc_slots : tree_slots (tree st') ≡ₚ tree_slots (tree st);
  sc_alloc : allocator st' = allocator st;
  sc_cached e us w : cached ps (tree st') e us w ↔ cached ps (tree st) e us w;
  sc_down e n us w y : down (tree st) e n us w y → down (tree st') e n us w y;
}.

Lemma same_content_tree st st' :
  tree st' = tree st → allocator st' = allocator st → same_content st st'.
Proof. intros Ht Ha. split; rewrite ?Ht; done. Qed.

Lemma same_content_trans st1 st2 st3 :
  same_content st1 st2 → same_content st2 st3 → same_content st1 st3.
Proof.
  intros [Hr1 Hs1 Ha1 Hc1 Hd1] [Hr2 Hs2 Ha2 Hc2 Hd2]. split; [congruence|by rewrite Hs2|congruence| |].
  - intros. by rewrite Hc2.
  - intros. by apply Hd2, Hd1.
Qed.

Lemma match_same_content st L key vs x st' :
  match_spec cfg st L key vs x st' → same_content st st'.
Proof. intros [? [? _] ? ? ? ? ? ? ?]. by split. Qed.

Lemma lock_same_content st d st' : lock_spec cfg st d st' → same_content st st'.
Proof. intros [[Ha _] _ Hr _ _ Hs Hc Hd _]. split; [done..|]. intros. by apply Hd. Qed.

Lemma tag_node_wf st L n sid :
  cache_wf cfg st L → is_Some (nodes (tree st) !! n) →
  cache_wf cfg (with_sessions
    (<[sid := default ∅ (session_leaves st !! sid) ∪ {[n]}]> (session_leaves st))
    (closed_session_ids st)
    (upd_meta n (λ m, set_session_ids (Some (default ∅ (session_ids m) ∪ {[sid]})) m) st)) L.
Proof.
  intros [Hps Ht Hm [Ha Hi Hk]] [nd Hn]. destruct (Hm n nd Hn) as (m0 & Hm0 & _).
  split; [done|done| |].
  - intros x xnd Hx. destruct (Hm x xnd Hx) as (m & Hmx & Hh). cbn.
    rewrite lookup_alter. case_decide; subst; rewrite Hmx; cbn; eauto.
  - split; cbn [meta with_sessions upd_meta with_meta session_leaves tree].
    + intros x m s. rewrite lookup_alter. case_decide; subst; [eauto|apply Ha].
    + intros x m s. rewrite lookup_alter, lookup_insert. case_decide as Hd; subst.
      * rewrite Hm0. intros [= <-]. unfold holders. cbn. intros [Hs|Hs]%elem_of_union.
        -- destruct (Hi x m0 s Hm0 Hs) as (lv & Hlv & Hx). case_decide; subst; [|eauto].
           rewrite Hlv. cbn. eexists; split; [done|set_solver].
        -- apply elem_of_singleton in Hs as ->. rewrite decide_True by done.
           eexists; split; [done|set_solver].
      * intros Hx Hs. destruct (Hi x m s Hx Hs) as (lv & Hlv & Hxl). case_decide; subst; [|eauto].
        rewrite Hlv. cbn. eexists; split; [done|set_solver].
    + intros s lv x Hlv Hx. destruct (decide (n = x)) as [<-|Hnx].
      { rewrite lookup_alter_eq, Hm0. cbn. eauto. }
      rewrite lookup_alter_ne by done. rewrite lookup_insert in Hlv.
      case_decide; subst; [|by eapply Hk]. injection Hlv as <-.
      apply elem_of_union in Hx as [Hx|Hx%elem_of_singleton]; [|done].
      destruct (session_leaves st !! s) as [lv0|] eqn:E; [by eapply Hk|set_solver].
Qed.

Lemma tag_session_leaf_ok sid key node st L :
  cache_wf cfg st L → disable cfg = false → key_fits eagle key →
  (∀ n, node = Some n → is_Some (nodes (tree st) !! n)) →
  ∃ st', tag_session_leaf cfg sid key node st = Ok st' ∧ cache_wf cfg st' L ∧ same_content st st'.
Proof.
  intros Hw Hdis Hfit Hnode. unfold tag_session_leaf.
  assert (Hid : ∃ st', Ok st = Ok st' ∧ cache_wf cfg st' L ∧ same_content st st').
  { exists st. split_and!; [done..|by apply same_content_tree]. }
  destruct (negb (enable_session_radix_cache cfg)); [done|].
  destruct sid as [sid|]; [|done]. case_decide; [done|].
  assert (∃ n st1, match node with
      | Some n => Ok (n, st)
      | None => let! (_, n, st) := match_prefix cfg key st in Ok (n, st)
      end = Ok (n, st1) ∧ cache_wf cfg st1 L ∧ same_content st st1 ∧
      is_Some (nodes (tree st1) !! n)) as (n & st1 & -> & Hw1 & Hsc & Hn).
  { destruct node as [n|]; [exists n, st; split_and!; [done..|by apply same_content_tree|by apply Hnode]|].
    destruct (match_prefix_ok cfg st L key Hw Hdis Hfit) as (vs & n & st1 & -> & Hspec).
    exists n, st1. cbn [rbind]. split_and!; [done|apply Hspec|by eapply match_same_content|].
    eapply down_node; [by eapply ms_down|]. rewrite <-(ms_root _ _ _ _ _ _ _ Hspec).
    destruct (sw_root _ _ _ (tw_shape _ _ _ _ (cw_tree _ _ _ (ms_wf _ _ _ _ _ _ _ Hspec)))) as (rn & ? & _).
    eauto. }
  cbn [rbind]. destruct (is_root (tree st1) n); [by exists st1|].
  eexists; split; [done|]. split; [exact (tag_node_wf st1 L n sid Hw1 Hn)|].
  eapply same_content_trans; [done|by apply same_content_tree].
Qed.
End tag.

(** ** Insertion followed by a lookup *)

Section roundtrip.
Context {A : Type} `{KVPool A} `{Env} `{!EnvLaws}.
Variable cfg : Config.
Implicit Types st : RadixCache A.
Notation ps := (page_size cfg).
Notation eagle := (is_eagle cfg).

Lemma insert_match_roundtrip st L key v old plen x st1 :
  cache_wf cfg st L → disable cfg = false → key_fits eagle key →
  (page_floor ps (key_len (view eagle key)) ≤ length v)%nat →
  insert_spec cfg st L key (Some v) old plen x st1 →
  ∃ vs y st2, match_prefix cfg key st1 = Ok (vs, y, st2) ∧
    length vs = page_floor ps (key_len (view eagle key)) ∧
    drop plen vs = drop plen (take (page_floor ps (key_len (view eagle key))) v) ∧
    cached ps (tree st) (extra_key key) (take plen (units (view eagle key))) (take plen vs).
Proof.
  intros Hw Hdis Hf Hv Hs. pose proof (cw_ps _ _ _ Hw) as Hps. pose proof (is_wf _ _ _ _ _ _ _ _ _ Hs) as Hw1.
  destruct (match_prefix_ok cfg st1 L key Hw1 Hdis Hf) as (vs & y & st2 & Hrun & Hm).
  exists vs, y, st2. split; [done|].
  set (n := page_floor ps (key_len (view eagle key))) in *.
  assert (Hn : (n ≤ key_len (view eagle key))%nat) by apply page_floor_le.
  pose proof (ms_wf _ _ _ _ _ _ _ Hm) as Hw2. pose proof (tw_shape _ _ _ _ (cw_tree _ _ _ Hw2)) as Hsh2.
  pose proof (tw_shape _ _ _ _ (cw_tree _ _ _ Hw1)) as Hsh1.
  destruct (is_plen _ _ _ _ _ _ _ _ _ Hs) as [Hlo Hle].
  assert (Hlu : length (insert_units cfg key) = n).
  { unfold insert_units. fold n. rewrite length_take, length_units. lia. }
  pose proof (is_old _ _ _ _ _ _ _ _ _ Hs) as Hd. rewrite <-(is_root_same _ _ _ _ _ _ _ _ _ Hs) in Hd.
  set (W := old ++ drop plen (insert_value cfg key (Some v))) in *.
  destruct (down_length _ Hps Hsh1 _ _ _ _ _ Hd) as [HlW Hal].
  assert (Hc1 : cached ps (tree st1) (extra_key key) (insert_units cfg key) W).
  { split; [done|]. exists x, (insert_units cfg key), W. split_and!; [done..|]. by rewrite <-HlW, firstn_all. }
  assert (Hpre : insert_units cfg key `prefix_of` units (view eagle key)) by apply prefix_take.
  pose proof (ms_down _ _ _ _ _ _ _ Hm) as Hd2. rewrite <-(ms_root _ _ _ _ _ _ _ Hm) in Hd2.
  destruct (down_length _ Hps Hsh2 _ _ _ _ _ Hd2) as [Hl2 Hal2]. rewrite <-Hl2 in Hal2.
  assert (Hlvs : length vs = n).
  { pose proof (ms_longest _ _ _ _ _ _ _ Hm _ _ Hc1 Hpre). pose proof (ms_len _ _ _ _ _ _ _ Hm) as Hml.
    pose proof (page_floor_greatest ps _ _ Hps Hal2 Hml) as Hpf. fold n in Hpf. lia. }
  assert (Hvs : vs = W).
  { eapply (cached_functional (tree st2) Hps Hsh2 (extra_key key) (insert_units cfg key)).
    - split; [done|]. exists y, (take (length vs) (units (view eagle key))), vs.
      unfold insert_units. fold n. rewrite Hlvs. split_and!; [by rewrite <-Hlvs|done|].
      rewrite length_take, length_units, Nat.min_l by lia. by rewrite <-Hlvs, firstn_all.
    - by apply (ms_cached _ _ _ _ _ _ _ Hm). }
  split_and!; [done| |].
  - rewrite Hvs. unfold W. rewrite drop_app_length' by done. done.
  - pose proof (cached_prefix (tree st1) Hps _ _ _ plen Hc1 (is_aligned _ _ _ _ _ _ _ _ _ Hs) Hle) as Hcp.
    assert (Hu : take plen (insert_units cfg key) = take plen (units (view eagle key))).
    { unfold insert_units. fold n. rewrite take_take, Nat.min_l by lia. done. }
    rewrite Hu, <-Hvs in Hcp.
    apply (is_cached _ _ _ _ _ _ _ _ _ Hs) in Hcp as [Hcp|(_ & _ & _ & Hlt & _)]; [done|].
    rewrite <-Hu, length_take in Hlt. lia.
Qed.
End roundtrip.

(** ** Initial state *)

Lemma reset_wf {A} `{Env} cfg (st : RadixCache A) :
  (1 ≤ page_size cfg)%nat → cache_wf cfg (reset cfg st) [].
Proof.
  intros Hps. unfold reset, record_all_cleared_event.
  set (c := counter (tree st)). set (st1 := mkCache _ _ _ _ _ _ _).
  assert (Hone : ∀ n nd, nodes (tree st1) !! n = Some nd →
    n = c ∧ nd = mkNode [] None (mkKey [] None false None) (Some []) 1).
  { intros n nd. cbn. intros [-> ->]%lookup_singleton_Some. done. }
  assert (Hpk : ∀ n op k, pk (tree st1) n = Some (op, k) → n = c ∧ op = None).
  { intros n op k (nd & Hn & <- & _)%pk_inv. apply Hone in Hn as [-> ->]. done. }
  assert (Hw : cache_wf cfg st1 []).
  { split; [done| | |].
    - split; [split| |split].
      + eexists. split; [apply lookup_singleton_eq|]. done.
      + intros n nd Hn Hne. apply Hone in Hn as [-> _]. done.
      + intros n op k Hn Hne. apply Hpk in Hn as [-> _]. done.
      + intros n nd Hn. apply Hone in Hn as [_ ->]. constructor.
      + intros n nd ck x Hn. apply Hone in Hn as [_ ->]. cbn. split; [by intros ?%not_elem_of_nil|].
        intros (k & Hk & _). apply Hpk in Hk as [_ ?]. done.
      + intros n [nd Hn]. apply Hone in Hn as [-> _]. exists []. constructor.
      + intros n [nd Hn]. apply Hone in Hn as [-> _]. cbn. lia.
      + exists []. split; [constructor|]. intros n nd Hn Hne. apply Hone in Hn as [-> _]. done.
      + cbn. unfold map_sum. rewrite map_fold_singleton. unfold free_len. by rewrite Nat.eqb_refl.
      + cbn. unfold map_sum. rewrite map_fold_singleton. unfold held_len. by rewrite Nat.eqb_refl.
      + intros n. cbn. split; [set_solver|]. intros (nd & Hn & Hl). apply Hone in Hn as [_ ->].
        by destruct Hl.
    - intros n nd Hn. apply Hone in Hn as [-> ->]. cbn. rewrite lookup_singleton_eq.
      eexists; split; [done|]. intros h [= <-]. cbn. rewrite Nat.Div0.div_0_l. done.
    - split; cbn.
      + intros n m sid [-> <-]%lookup_singleton_Some. unfold holders. cbn. set_solver.
      + intros n m sid [-> <-]%lookup_singleton_Some. unfold holders. cbn. set_solver.
      + intros sid lv n. by rewrite lookup_empty. }
  destruct (enable_kv_cache_events cfg); [|done]. by destruct Hw as [? ? ? [? ? ?]].
Qed.
