(* ===== verification/ReqCache.v ===== *)
(** Requests and their KV cache: class [ReqToTokenPool] of
    mem_cache/memory_pool.py, the KV accounting of [Req] in
    managers/schedule_batch.py, [RadixCache.cache_finished_req] and
    [cache_unfinished_req] of mem_cache/radix_cache.py, class [ChunkCache] and
    [PureSWAChunkCache] of mem_cache/chunk_cache.py and the allocation and
    release helpers of mem_cache/common.py. *)

From stdpp Require Import base gmap strings list.
From Stdlib Require Import ZArith Lia.
From S2P Require Import Prelude.
From S2P Require Import PyData.
From S2P Require Import RadixKey.
From S2P Require Import RadixTree.

Open Scope Z_scope.

(** ** Requests *)

(** The fields of [Req] the KV accounting uses.  [fill_is_origin] says that
    [full_untruncated_fill_ids] is the same array object as
    [origin_input_ids]. *)
Record Req := mkReq {
  origin_input_ids : list Z;
  output_ids : list Z;
  full_untruncated_fill_ids : list Z;
  fill_is_origin : bool;
  extend_range : option (Z * Z);
  req_extra_key : option string;
  req_pool_idx : option nat;
  kv_committed_len : nat;
  kv_allocated_len : nat;
  kv_committed_freed : bool;
  kv_overallocated_freed : bool;
  cache_protected_len : nat;
  prefix_indices : list Z;
  last_node : option nat;
  req_priority : option Z;
  session_id : option string;
  inflight_middle_chunks : Z;
  return_logprob : bool;
  logprob_start_len : Z;
  reasoning_tokens : Z;
  skip_radix_cache_insert : bool;
  has_embed_overrides : bool;
  session_streaming : bool;
  swa_evict_floor : Z;
  swa_evicted_seqlen : Z;
}.

Definition set_fill_ids (l : list Z) (alias : bool) (r : Req) : Req :=
  mkReq (origin_input_ids r) (output_ids r) l alias (extend_range r) (req_extra_key r)
    (req_pool_idx r) (kv_committed_len r) (kv_allocated_len r) (kv_committed_freed r)
    (kv_overallocated_freed r) (cache_protected_len r) (prefix_indices r) (last_node r)
    (req_priority r) (session_id r) (inflight_middle_chunks r) (return_logprob r)
    (logprob_start_len r) (reasoning_tokens r) (skip_radix_cache_insert r)
    (has_embed_overrides r) (session_streaming r) (swa_evict_floor r) (swa_evicted_seqlen r).
Definition with_range (rg : option (Z * Z)) (r : Req) : Req :=
  mkReq (origin_input_ids r) (output_ids r) (full_untruncated_fill_ids r) (fill_is_origin r) rg
    (req_extra_key r) (req_pool_idx r) (kv_committed_len r) (kv_allocated_len r)
    (kv_committed_freed r) (kv_overallocated_freed r) (cache_protected_len r) (prefix_indices r)
    (last_node r) (req_priority r) (session_id r) (inflight_middle_chunks r) (return_logprob r)
    (logprob_start_len r) (reasoning_tokens r) (skip_radix_cache_insert r)
    (has_embed_overrides r) (session_streaming r) (swa_evict_floor r) (swa_evicted_seqlen r).
Definition with_pool_idx (i : option nat) (r : Req) : Req :=
  mkReq (origin_input_ids r) (output_ids r) (full_untruncated_fill_ids r) (fill_is_origin r)
    (extend_range r) (req_extra_key r) i (kv_committed_len r) (kv_allocated_len r)
    (kv_committed_freed r) (kv_overallocated_freed r) (cache_protected_len r) (prefix_indices r)
    (last_node r) (req_priority r) (session_id r) (inflight_middle_chunks r) (return_logprob r)
    (logprob_start_len r) (reasoning_tokens r) (skip_radix_cache_insert r)
    (has_embed_overrides r) (session_streaming r) (swa_evict_floor r) (swa_evicted_seqlen r).
Definition with_freed (c o : bool) (r : Req) : Req :=
  mkReq (origin_input_ids r) (output_ids r) (full_untruncated_fill_ids r) (fill_is_origin r)
    (extend_range r) (req_extra_key r) (req_pool_idx r) (kv_committed_len r)
    (kv_allocated_len r) c o (cache_protected_len r) (prefix_indices r) (last_node r)
    (req_priority r) (session_id r) (inflight_middle_chunks r) (return_logprob r)
    (logprob_start_len r) (reasoning_tokens r) (skip_radix_cache_insert r)
    (has_embed_overrides r) (session_streaming r) (swa_evict_floor r) (swa_evicted_seqlen r).
Definition with_prefix (p : list Z) (protected : nat) (n : option nat) (r : Req) : Req :=
  mkReq (origin_input_ids r) (output_ids r) (full_untruncated_fill_ids r) (fill_is_origin r)
    (extend_range r) (req_extra_key r) (req_pool_idx r) (kv_committed_len r)
    (kv_allocated_len r) (kv_committed_freed r) (kv_overallocated_freed r) protected p n
    (req_priority r) (session_id r) (inflight_middle_chunks r) (return_logprob r)
    (logprob_start_len r) (reasoning_tokens r) (skip_radix_cache_insert r)
    (has_embed_overrides r) (session_streaming r) (swa_evict_floor r) (swa_evicted_seqlen r).
Definition with_logprob_start (z : Z) (r : Req) : Req :=
  mkReq (origin_input_ids r) (output_ids r) (full_untruncated_fill_ids r) (fill_is_origin r)
    (extend_range r) (req_extra_key r) (req_pool_idx r) (kv_committed_len r)
    (kv_allocated_len r) (kv_committed_freed r) (kv_overallocated_freed r)
    (cache_protected_len r) (prefix_indices r) (last_node r) (req_priority r) (session_id r)
    (inflight_middle_chunks r) (return_logprob r) z (reasoning_tokens r)
    (skip_radix_cache_insert r) (has_embed_overrides r) (session_streaming r)
    (swa_evict_floor r) (swa_evicted_seqlen r).
Definition with_swa (z : Z) (r : Req) : Req :=
  mkReq (origin_input_ids r) (output_ids r) (full_untruncated_fill_ids r) (fill_is_origin r)
    (extend_range r) (req_extra_key r) (req_pool_idx r) (kv_committed_len r)
    (kv_allocated_len r) (kv_committed_freed r) (kv_overallocated_freed r)
    (cache_protected_len r) (prefix_indices r) (last_node r) (req_priority r) (session_id r)
    (inflight_middle_chunks r) (return_logprob r) (logprob_start_len r) (reasoning_tokens r)
    (skip_radix_cache_insert r) (has_embed_overrides r) (session_streaming r)
    (swa_evict_floor r) z.

(** [strip] is the server argument [strip_thinking_cache]. *)
Definition cache_commit_len (strip : bool) (r : Req) : nat :=
  if strip && (0 <? reasoning_tokens r)
  then Nat.min (kv_committed_len r) (length (origin_input_ids r))
  else kv_committed_len r.

Definition pop_committed_kv_cache (strip : bool) (r : Req) : result (nat * Req) :=
  let! _ := py_assert (negb (kv_committed_freed r)) in
  let r := with_freed true (kv_overallocated_freed r) r in
  Ok (cache_commit_len strip r, r).

Definition pop_overallocated_kv_cache (strip : bool) (r : Req) : result (nat * nat * Req) :=
  let! _ := py_assert (negb (kv_overallocated_freed r)) in
  let r := with_freed (kv_committed_freed r) true r in
  Ok (cache_commit_len strip r, kv_allocated_len r, r).

Definition set_extend_range (start stop : Z) (r : Req) : Req := with_range (Some (start, stop)) r.

(** [None] has no [end]. *)
Definition range_end (r : Req) : result Z := of_option AttributeError (snd <$> extend_range r).

Definition get_fill_ids (r : Req) : result (list Z) :=
  let! stop := range_end r in
  Ok (py_take stop (full_untruncated_fill_ids r)).

(** The in-place append, or the rebuild as a new array. *)
Definition refresh_fill_ids (r : Req) : Req :=
  let n_have_output := Z.of_nat (length (full_untruncated_fill_ids r))
    - Z.of_nat (length (origin_input_ids r)) in
  if negb (fill_is_origin r) && (0 <=? n_have_output)
     && (n_have_output <=? Z.of_nat (length (output_ids r)))
  then set_fill_ids (full_untruncated_fill_ids r ++ drop (Z.to_nat n_have_output) (output_ids r))
         false r
  else set_fill_ids (origin_input_ids r ++ output_ids r) false r.

Definition compute_max_prefix_len (r : Req) (input_len : Z) : Z :=
  let max_prefix_len := input_len - 1 in
  let max_prefix_len :=
    if return_logprob r && (0 <=? logprob_start_len r)
    then Z.min max_prefix_len (logprob_start_len r) else max_prefix_len in
  Z.max max_prefix_len 0.

(** The KV part of [Req.reset_for_retract], for requests without input
    embeddings. *)
Definition reset_for_retract (r : Req) : Req :=
  mkReq (origin_input_ids r) (output_ids r) (full_untruncated_fill_ids r) (fill_is_origin r) None
    (req_extra_key r) (req_pool_idx r) 0 0 false false 0 [] None (req_priority r) (session_id r) 0
    (return_logprob r) (logprob_start_len r) (reasoning_tokens r) (skip_radix_cache_insert r)
    (has_embed_overrides r) (session_streaming r) (swa_evict_floor r) 0.

(** ** ReqToTokenPool *)

Record ReqToTokenPool := mkPool {
  rp_size : nat;
  max_context_len : nat;
  req_to_token : list (list Z);
  rp_free_slots : list nat;
}.

Definition pool_init (size max_context_len : nat) : ReqToTokenPool :=
  mkPool size max_context_len (replicate (size + 1) (replicate max_context_len 0)) (seq 1 size).

Definition pool_clear (p : ReqToTokenPool) : ReqToTokenPool :=
  mkPool (rp_size p) (max_context_len p) (req_to_token p) (seq 1 (rp_size p)).

Definition pool_available_size (p : ReqToTokenPool) : nat := length (rp_free_slots p).

(** [req_to_token[idx, start:stop]] *)
Definition pool_read (p : ReqToTokenPool) (idx : nat) (start stop : nat) : result (list Z) :=
  let! row := of_option IndexError (req_to_token p !! idx) in
  Ok (slice start stop row).

(** [write((idx, slice(start, stop)), values)]: one value is broadcast, otherwise
    the values must have the length of the slice. *)
Definition pool_write (p : ReqToTokenPool) (idx start stop : nat) (values : list Z)
    : result ReqToTokenPool :=
  let! row := of_option IndexError (req_to_token p !! idx) in
  let stop := Nat.min stop (length row) in
  let values := match values with [x] => replicate (stop - start) x | _ => values end in
  if (length values =? stop - start)%nat then
    Ok (mkPool (rp_size p) (max_context_len p)
      (<[idx := take start row ++ values ++ drop (Nat.max start stop) row]> (req_to_token p))
      (rp_free_slots p))
  else Raise RuntimeError.

(** The requests without a slot take the selected ones in order. *)
Fixpoint assign_slots (reqs : list Req) (select_index : list nat) : result (list Req) :=
  match reqs with
  | [] => Ok []
  | r :: reqs =>
      match req_pool_idx r with
      | Some _ => let! l := assign_slots reqs select_index in Ok (r :: l)
      | None =>
          match select_index with
          | [] => Raise IndexError
          | i :: select_index =>
              let! l := assign_slots reqs select_index in
              Ok (with_pool_idx (Some i) r :: l)
          end
      end
  end.

Definition pool_alloc (p : ReqToTokenPool) (reqs : list Req)
    : result (option (list nat) * list Req * ReqToTokenPool) :=
  let reusing := filter (λ r, is_Some (req_pool_idx r)) reqs in
  let! _ := py_assert (forallb
    (λ r, (0 <? inflight_middle_chunks r) || (0 <? kv_committed_len r)%nat) reusing) in
  let need_size := (length reqs - length reusing)%nat in
  if (length (rp_free_slots p) <? need_size)%nat then Ok (None, reqs, p)
  else
    let select_index := take need_size (rp_free_slots p) in
    let p := mkPool (rp_size p) (max_context_len p) (req_to_token p)
      (drop need_size (rp_free_slots p)) in
    let! reqs := assign_slots reqs select_index in
    Ok (Some (omap req_pool_idx reqs), reqs, p).

Definition pool_free (p : ReqToTokenPool) (r : Req) : result (Req * ReqToTokenPool) :=
  match req_pool_idx r with
  | None => Raise AssertionError
  | Some i => Ok (with_pool_idx None r,
      mkPool (rp_size p) (max_context_len p) (req_to_token p) (rp_free_slots p ++ [i]))
  end.

(** ** The prefix cache and its requests *)

(** The cache with the request pool it shares with the scheduler. *)
Record Sys (A : Type) := mkSys {
  cache : RadixCache A;
  req_to_token_pool : ReqToTokenPool;
}.
Arguments mkSys {A} _ _.
Arguments cache {A} _.
Arguments req_to_token_pool {A} _.

(** What the callers need of the allocator besides [free]. *)
Class KVAlloc (A : Type) := {
  kv_available_size : A → Z;
  kv_alloc : A → Z → option (list Z) * A;
}.

Definition ceil_align (x y : nat) : nat := ((x + y - 1) / y * y)%nat.

Definition kv_to_page_indices (kv_indices : list Z) (page_size : nat) : list Z :=
  if (page_size =? 1)%nat then kv_indices
  else (λ i, nth (i * page_size) kv_indices 0 / Z.of_nat page_size)
    <$> seq 0 ((length kv_indices + page_size - 1) / page_size).

Definition kv_to_page_num (num_kv_indices page_size : nat) : nat :=
  ((num_kv_indices + page_size - 1) / page_size)%nat.

Definition page_align_floor (length page_size : nat) : nat :=
  ((length / page_size) * page_size)%nat.

(** [get_last_loc_torch]; the gather runs on every element, index -1 reads the
    last column. *)
Fixpoint get_last_loc_torch (req_to_token : list (list Z)) (req_pool_indices prefix_lens : list nat)
    : result (list Z) :=
  match req_pool_indices, prefix_lens with
  | i :: idxs, n :: ns =>
      let! row := of_option IndexError (req_to_token !! i) in
      let! x := of_option IndexError
        (match n with O => last row | S m => row !! m end) in
      let! l := get_last_loc_torch req_to_token idxs ns in
      Ok ((if (0 <? n)%nat then x else -1) :: l)
  | [], [] => Ok []
  | _, _ => Raise RuntimeError
  end.

(** The torch branch of [write_cache_indices] (the Triton branch is in [WriteKernel]):
    per request, the prefix and then
    its part of the new slots. *)
Fixpoint write_cache_indices (out_cache_loc : list Z) (reqs : list (nat * nat * nat * nat))
    (prefix_tensors : list (list Z)) (pt : nat) (p : ReqToTokenPool) : result ReqToTokenPool :=
  match reqs, prefix_tensors with
  | [], _ => Ok p
  | (req_idx, prefix_len, seq_len, extend_len) :: reqs, prefix :: prefix_tensors =>
      let! p := pool_write p req_idx 0 prefix_len prefix in
      let! p := pool_write p req_idx prefix_len seq_len (slice pt (pt + extend_len) out_cache_loc) in
      write_cache_indices out_cache_loc reqs prefix_tensors (pt + extend_len) p
  | _ :: _, [] => Raise IndexError
  end.

Section req_ops.
Context {A : Type} `{KVPool A} `{KVAlloc A} `{Env} `{HeapQ}.
Variable cfg : Config.
(** The server argument [strip_thinking_cache]. *)
Variable strip : bool.
Implicit Types st : RadixCache A.
Notation ps := (page_size cfg).

Definition free_kv (l : list Z) st : result (RadixCache A) :=
  let! a := kv_free (allocator st) l in
  Ok (with_allocator a st).

(** The row index of a request; [None] selects no single row. *)
Definition row_of (r : Req) : result nat := of_option TypeError (req_pool_idx r).

Definition cache_finished_req (r : Req) (is_insert : bool) (s : Sys A) : result (Req * Sys A) :=
  let is_insert := if disable_finished_insert cfg then false else is_insert in
  let! (kv_committed_len, r) := pop_committed_kv_cache strip r in
  let! idx := row_of r in
  if disable cfg then
    let! kv_indices := pool_read (req_to_token_pool s) idx 0 kv_committed_len in
    let! st := free_kv kv_indices (cache s) in
    Ok (r, mkSys st (req_to_token_pool s))
  else
    let token_ids := take kv_committed_len (origin_input_ids r ++ output_ids r) in
    let! kv_indices := pool_read (req_to_token_pool s) idx 0 (length token_ids) in
    let! radix_key := page_aligned (mkKey token_ids (req_extra_key r) (is_eagle cfg) None) ps in
    let klen := key_len radix_key in
    let values := take klen kv_indices in
    let! (session_leaf, st) :=
      if is_insert then
        let! (prefix_len, last_device_node, st) :=
          insert cfg radix_key (Some values) (Some (default 0 (req_priority r))) false (cache s) in
        let! st := free_kv (slice (cache_protected_len r) prefix_len kv_indices) st in
        Ok (last_device_node, st)
      else
        let! st := free_kv (slice (cache_protected_len r) klen kv_indices) (cache s) in
        Ok (None, st) in
    let! st := free_kv (drop klen kv_indices) st in
    let! st := tag_session_leaf cfg (session_id r) radix_key session_leaf st in
    let! st :=
      match last_node r with
      | Some n => let! (_, st) := dec_lock_ref cfg n st in Ok st
      | None => Ok st
      end in
    Ok (r, mkSys st (req_to_token_pool s)).

Definition cache_unfinished_req (r : Req) (chunked : bool) (s : Sys A) : result (Req * Sys A) :=
  if disable cfg then Ok (r, s)
  else
    let! token_ids := get_fill_ids r in
    let! idx := row_of r in
    let! kv_indices := pool_read (req_to_token_pool s) idx 0 (length token_ids) in
    let! radix_key := page_aligned (mkKey token_ids (req_extra_key r) (is_eagle cfg) None) ps in
    let values := take (key_len radix_key) kv_indices in
    let! (new_prefix_len, _, st) :=
      insert cfg radix_key (Some values) (Some (default 0 (req_priority r))) chunked (cache s) in
    let! st := free_kv (slice (cache_protected_len r) new_prefix_len kv_indices) st in
    let! (new_indices, new_last_node, st) := match_prefix cfg radix_key st in
    let! _ := py_assert (length new_indices =? key_len radix_key)%nat in
    let! pool := pool_write (req_to_token_pool s) idx (cache_protected_len r)
      (length new_indices) (drop (cache_protected_len r) new_indices) in
    let! old := of_option AttributeError (last_node r) in
    let! (_, st) := dec_lock_ref cfg old st in
    let! (_, st) := inc_lock_ref cfg new_last_node st in
    let prefix :=
      if (length new_indices <? length kv_indices)%nat
      then new_indices ++ drop (length new_indices) kv_indices
      else new_indices in
    let r := with_prefix prefix (length new_indices) (Some new_last_node) r in
    let! st := tag_session_leaf cfg (session_id r) radix_key (Some new_last_node) st in
    Ok (r, mkSys st pool).

Definition maybe_cache_unfinished_req (r : Req) (chunked : bool) (s : Sys A)
    : result (Req * Sys A) :=
  if skip_radix_cache_insert r then Ok (r, s) else cache_unfinished_req r chunked s.

(** [zero_match_result] for a radix cache: no slots, and the root. *)
Definition zero_match_result st : list Z * nat := ([], root_node (tree st)).

(** [Req.init_next_round_input] with the radix cache, for requests without
    diffusion blocks and multimodal positions. *)
Definition init_next_round_input (r : Req) (s : Sys A) : result (Req * Sys A) :=
  let r := refresh_fill_ids r in
  let input_len := Z.of_nat (length (full_untruncated_fill_ids r)) in
  let r := if session_streaming r && return_logprob r && (0 <=? logprob_start_len r)
           then with_logprob_start (-1) r else r in
  let key_limit := Some (Z.to_nat (compute_max_prefix_len r input_len)) in
  let '(token_ids_to_match, key_limit) :=
    if has_embed_overrides r then ([], None) else (full_untruncated_fill_ids r, key_limit) in
  let! (device_indices, last_device_node, st) :=
    match_prefix cfg (mkKey token_ids_to_match (req_extra_key r) false key_limit) (cache s) in
  let '(device_indices, last_device_node) :=
    if force_miss then zero_match_result st else (device_indices, last_device_node) in
  Ok (with_prefix device_indices (length device_indices) (Some last_device_node) r,
      mkSys st (req_to_token_pool s)).

(** *** Allocation *)

(** The standard-allocator branch; a chunk cache never evicts. *)
Definition evict_from_tree_cache (num_tokens : Z) st : result (RadixCache A) :=
  if kv_available_size (allocator st) <? num_tokens then
    let! (_, st) := evict cfg num_tokens st in Ok st
  else Ok st.

Definition alloc_token_slots (num_tokens : Z) st : result (list Z * RadixCache A) :=
  let! st := evict_from_tree_cache num_tokens st in
  let '(out_cache_loc, a) := kv_alloc (allocator st) num_tokens in
  match out_cache_loc with
  | None => Raise RuntimeError
  | Some l => Ok (l, with_allocator a st)
  end.

(** The slot part of [alloc_req_slots], for pools without mamba states. *)
Definition alloc_req_slots (reqs : list Req) (s : Sys A)
    : result (list nat * list Req * Sys A) :=
  let! (o, reqs, p) := pool_alloc (req_to_token_pool s) reqs in
  match o with
  | None => Raise RuntimeError
  | Some l => Ok (l, reqs, mkSys (cache s) p)
  end.

(** [release_kv_cache] for caches without mamba states; [spec_algo] says that
    speculative decoding is on. *)
Definition release_kv_cache (spec_algo : bool) (r : Req) (is_insert : bool) (s : Sys A)
    : result (Req * Sys A) :=
  match req_pool_idx r with
  | None => Raise AssertionError
  | Some _ =>
      let! (r, s) := cache_finished_req r (is_insert && negb (skip_radix_cache_insert r)) s in
      let! (start_p, end_p, r) := pop_overallocated_kv_cache strip r in
      let! _ := if negb spec_algo && negb strip then py_assert (start_p =? end_p)%nat else Ok () in
      let start_p := if (1 <? ps)%nat then ceil_align start_p ps else start_p in
      let! idx := row_of r in
      let! st :=
        if (start_p <? end_p)%nat then
          let! indices_to_free := pool_read (req_to_token_pool s) idx start_p end_p in
          free_kv indices_to_free (cache s)
        else Ok (cache s) in
      let! (r, p) := pool_free (req_to_token_pool s) r in
      Ok (r, mkSys st p)
  end.

(** [release_req] for servers without HiSparse and outside decode
    disaggregation; [retract_decode_steps] is the environment variable. *)
Definition release_req (spec_algo : bool) (retract_decode_steps : Z) (r : Req)
    (remaing_req_count : Z) (s : Sys A) : result (Req * Sys A) :=
  let! (r, s) := release_kv_cache spec_algo r false s in
  let num_tokens := remaing_req_count * retract_decode_steps in
  let! st := evict_from_tree_cache num_tokens (cache s) in
  Ok (reset_for_retract r, mkSys st (req_to_token_pool s)).

(** *** ChunkCache *)

Definition chunk_cache_finished_req (r : Req) (s : Sys A) : result (Req * Sys A) :=
  let! (kv_committed_len, r) := pop_committed_kv_cache strip r in
  let! idx := row_of r in
  let! kv_indices := pool_read (req_to_token_pool s) idx 0 kv_committed_len in
  let! st := free_kv kv_indices (cache s) in
  Ok (r, mkSys st (req_to_token_pool s)).

Definition chunk_cache_unfinished_req (r : Req) (s : Sys A) : result (Req * Sys A) :=
  let! idx := row_of r in
  let! stop := range_end r in
  let! row := of_option IndexError (req_to_token (req_to_token_pool s) !! idx) in
  let kv_indices := py_take stop row in
  Ok (with_prefix kv_indices (cache_protected_len r) (last_node r) r, s).

(** [PureSWAChunkCache.cache_finished_req]: skip the range that
    [free_swa_out_of_window_slots] has freed. *)
Definition pure_swa_cache_finished_req (r : Req) (s : Sys A) : result (Req * Sys A) :=
  let! (kv_committed_len, r) := pop_committed_kv_cache strip r in
  let! idx := row_of r in
  let! kv_indices := pool_read (req_to_token_pool s) idx 0 kv_committed_len in
  let evict_floor := swa_evict_floor r in
  let evicted_seqlen := swa_evicted_seqlen r in
  if evict_floor <? evicted_seqlen then
    let parts :=
      (if 0 <? evict_floor then [take (Z.to_nat evict_floor) kv_indices] else []) ++
      (if evicted_seqlen <? Z.of_nat kv_committed_len
       then [slice (Z.to_nat evicted_seqlen) kv_committed_len kv_indices] else []) in
    match parts with
    | [] => Ok (r, s)
    | _ =>
        let! st := free_kv (concat parts) (cache s) in
        Ok (r, mkSys st (req_to_token_pool s))
    end
  else
    let! st := free_kv kv_indices (cache s) in
    Ok (r, mkSys st (req_to_token_pool s)).

(** [free_swa_out_of_window_slots] over an allocator whose [free_swa] frees
    the slots. *)
Definition free_swa_out_of_window_slots (r : Req) (pre_len sliding_window_size page_size : Z)
    (is_chunk_cache : bool) (s : Sys A) : result (Req * Sys A) :=
  let protected := Z.of_nat (cache_protected_len r) in
  let! _ := py_assert (protected mod page_size =? 0) in
  let evict_floor := Z.max protected (swa_evict_floor r) in
  let evict_floor :=
    if (1 <? page_size) && (protected <? evict_floor)
    then - ((- evict_floor) / page_size) * page_size else evict_floor in
  let r := with_swa (Z.max (swa_evicted_seqlen r) evict_floor) r in
  let evict_threshold :=
    if is_chunk_cache then pre_len - sliding_window_size
    else pre_len - Z.max sliding_window_size page_size in
  let new_swa_evicted_seqlen := Z.max (swa_evicted_seqlen r) evict_threshold in
  let new_swa_evicted_seqlen :=
    if 1 <? page_size then new_swa_evicted_seqlen / page_size * page_size
    else new_swa_evicted_seqlen in
  if swa_evicted_seqlen r <? new_swa_evicted_seqlen then
    let! idx := row_of r in
    let! free_slots := pool_read (req_to_token_pool s) idx
      (Z.to_nat (swa_evicted_seqlen r)) (Z.to_nat new_swa_evicted_seqlen) in
    let! st := free_kv free_slots (cache s) in
    Ok (with_swa new_swa_evicted_seqlen r, mkSys st (req_to_token_pool s))
  else Ok (r, s).
End req_ops.
