(* ===== verification/ReqCacheInv.v ===== *)
(** The life of a request's KV: every slot a request owns ends up exactly once
    in the tree or in the allocator, the cache keeps its invariant, and the
    request keeps pointing at cached slots. *)

From stdpp Require Import base gmap strings list relations.
From Stdlib Require Import ZArith Lia.
From S2P Require Import Prelude.
From S2P Require Import PyData.
From S2P Require Import RadixKey.
From S2P Require Import RadixTree.
From S2P Require Import RadixInv.
From S2P Require Import RadixContent.
From S2P Require Import RadixOps.
From S2P Require Import RadixInsert.
From S2P Require Import RadixEvict.
From S2P Require Import RadixSession.
From S2P Require Import ReqCache.

Open Scope Z_scope.

(** ** Small facts *)

Lemma view_id eagle k : is_bigram k = eagle → view eagle k = k.
Proof.
  unfold view, maybe_to_bigram_view. intros <-. by destruct (is_bigram k).
Qed.

Lemma slice_split {A} (l : list A) a b c :
  (a ≤ b)%nat → (b ≤ c)%nat → slice a c l = slice a b l ++ slice b c l.
Proof.
  intros Hab Hbc. unfold slice. replace (c - a)%nat with ((b - a) + (c - b))%nat by lia.
  rewrite <-(take_drop (b - a) (drop a l)) at 1.
  destruct (Nat.le_gt_cases (b - a) (length (drop a l))) as [Hl|Hl].
  - rewrite take_app_add' by (rewrite length_take; lia). rewrite drop_drop. do 3 f_equal. lia.
  - rewrite (drop_ge (drop a l)) by lia. rewrite app_nil_r.
    rewrite (drop_ge l b) by (rewrite length_drop in Hl; lia).
    rewrite take_nil, app_nil_r. rewrite !(take_ge (drop a l)) by lia. done.
Qed.

Lemma slice_all {A} (l : list A) a : slice a (length l) l = drop a l.
Proof. unfold slice. apply take_ge. by rewrite length_drop. Qed.

Lemma slice_take {A} (l : list A) a b : slice a b l = drop a (take b l).
Proof. unfold slice. by rewrite skipn_firstn_comm. Qed.

Section req_inv.
Context {A : Type} `{KVPool A} `{!KVPoolTotal A} `{!KVPoolSlots A} `{KVAlloc A}.
Context `{Env} `{!EnvLaws} `{HeapQ} `{!HeapQLaws}.
Variable cfg : Config.
Variable strip : bool.
Implicit Types st : RadixCache A.
Notation ps := (page_size cfg).
Notation eagle := (is_eagle cfg).

(** The key of the cached tokens of a request. *)
Definition token_key (r : Req) (ids : list Z) : RadixKey := mkKey ids (req_extra_key r) eagle None.

(** The number of tokens of [ids] that fill whole pages of the tree. *)
Definition aligned_len (r : Req) (ids : list Z) : nat :=
  page_floor ps (key_len (token_key r ids)).

Lemma aligned_len_le r ids : (aligned_len r ids ≤ length ids)%nat.
Proof.
  unfold aligned_len. etrans; [apply page_floor_le|]. unfold token_key, key_len, raw_len. cbn.
  destruct eagle; [|done]. destruct (0 <? length ids)%nat; lia.
Qed.

Lemma token_key_aligned r ids :
  (1 ≤ ps)%nat →
  ∃ k, page_aligned (token_key r ids) ps = Ok k ∧ extra_key k = req_extra_key r ∧
    is_bigram k = eagle ∧ key_len k = aligned_len r ids ∧ (ps | aligned_len r ids)%nat ∧
    key_fits eagle k ∧ units k = take (aligned_len r ids) (units (token_key r ids)) ∧
    insert_units cfg k = units k ∧
    ∀ kv, insert_value cfg k (Some kv) = take (aligned_len r ids) kv.
Proof.
  intros Hps. destruct (page_aligned_ok (token_key r ids) ps Hps) as (k & Hk & He & Hb & Hl & Hu & _).
  assert (Hv : view eagle k = k) by (by apply view_id).
  assert (Hal : (ps | aligned_len r ids)%nat) by apply page_floor_divide.
  assert (Hpf : page_floor ps (key_len k) = key_len k) by (rewrite Hl; by apply page_floor_id).
  exists k. split_and!; try done.
  - unfold key_fits. by rewrite Hb.
  - unfold insert_units. rewrite Hv, Hpf. rewrite take_ge; [done|]. by rewrite length_units.
  - intros kv. unfold insert_value. rewrite Hv, Hpf, Hl. done.
Qed.

(** [kv] are the slots of the tokens [ids]; the first [prot] of them are
    those of a cached prefix, the others belong to the request alone. *)
Record req_slots st (r : Req) (ids kv : list Z) : Prop := {
  rs_len : length kv = length ids;
  rs_prot : (cache_protected_len r ≤ aligned_len r ids)%nat;
  rs_cached : cached ps (tree st) (req_extra_key r)
    (take (cache_protected_len r) (units (token_key r ids))) (take (cache_protected_len r) kv);
}.

(** The slots that belong to the request alone. *)
Definition owned (r : Req) (kv : list Z) : list Z := drop (cache_protected_len r) kv.

(** What an operation leaves to the other clients: the walks through the tree, and
    an allocator that has only been given slots. *)
Definition frees (a a' : A) : Prop := rtc (λ a a', ∃ l, kv_free a l = Ok a') a a'.
Record kept st st' : Prop := {
  kp_root : root_node (tree st') = root_node (tree st);
  kp_down e n us w y : down (tree st) e n us w y → down (tree st') e n us w y;
  kp_frees : frees (allocator st) (allocator st');
}.

Lemma kept_trans st1 st2 st3 : kept st1 st2 → kept st2 st3 → kept st1 st3.
Proof.
  intros [Hr Hd Hf] [Hr' Hd' Hf']. split; [congruence|auto|]. unfold frees in *. by etrans.
Qed.
Lemma kept_same_content st st' : same_content cfg st st' → kept st st'.
Proof. intros [Hr _ Ha _ Hd]. split; [done..|]. rewrite Ha. apply rtc_refl. Qed.
Lemma kept_free l st st' : free_kv l st = Ok st' → kept st st'.
Proof. unfold free_kv. intros Hf. inv_ok. split; [done..|]. apply rtc_once. eauto. Qed.
Lemma kept_insert st L key v old plen x st' : insert_spec cfg st L key v old plen x st' → kept st st'.
Proof.
  intros Hs. split; [apply Hs|apply Hs|]. destruct (is_frame _ _ _ _ _ _ _ _ _ Hs) as [-> _]. apply rtc_refl.
Qed.

Lemma free_kv_ok st l L :
  cache_wf cfg st L →
  ∃ st', free_kv l st = Ok st' ∧ cache_wf cfg st' L ∧ tree st' = tree st ∧ meta st' = meta st ∧
    kv_slots (allocator st') ≡ₚ l ++ kv_slots (allocator st).
Proof.
  intros Hw. unfold free_kv. destruct (kv_free_total (allocator st) l) as [a Ha]. rewrite Ha. cbn [rbind].
  eexists; split; [done|]. split_and!; try done; [|by apply kv_free_slots].
  destruct Hw as [? ? ? [? ? ?]]. by split.
Qed.

(** Inserting the aligned slots finds at least the protected prefix. *)
Lemma insert_req_ok st L r ids kv k chunked :
  cache_wf cfg st L → disable cfg = false → req_slots st r ids kv →
  page_aligned (token_key r ids) ps = Ok k →
  ∃ old plen x st',
    insert cfg k (Some (take (key_len k) kv)) (Some (default 0 (req_priority r))) chunked st
      = Ok (plen, Some x, st') ∧
    insert_spec cfg st L k (Some (take (key_len k) kv)) old plen x st' ∧
    insert_value cfg k (Some (take (key_len k) kv)) = take (aligned_len r ids) kv ∧
    (cache_protected_len r ≤ plen)%nat ∧ (plen ≤ aligned_len r ids)%nat ∧
    is_Some (nodes (tree st') !! x).
Proof.
  intros Hw Hdis [Hlen Hprot Hcached] Hk. pose proof (cw_ps _ _ _ Hw) as Hps.
  destruct (token_key_aligned r ids Hps) as (k' & Hk' & He & Hb & Hl & Hal & Hfit & Hu & Hiu & Hiv).
  assert (k' = k) as -> by congruence. clear Hk'. pose proof (aligned_len_le r ids) as Hle.
  destruct (insert_ok cfg st L k (Some (take (key_len k) kv)) (Some (default 0 (req_priority r))) chunked)
    as (old & plen & x & st' & Hrun & Hspec); [done..| |].
  { intros v [= <-]. rewrite view_id by done. rewrite length_take.
    pose proof (page_floor_le ps (key_len k)). lia. }
  exists old, plen, x, st'. destruct (is_plen _ _ _ _ _ _ _ _ _ Hspec) as [_ Hpl].
  rewrite Hiu, length_units, Hl in Hpl.
  assert (Hge : (cache_protected_len r ≤ plen)%nat).
  { assert (length (take (cache_protected_len r) (units (token_key r ids))) = cache_protected_len r) as Hlt.
    { rewrite length_take, length_units. unfold aligned_len in Hprot.
      pose proof (page_floor_le ps (key_len (token_key r ids))). lia. }
    rewrite <-Hlt. rewrite <-He in Hcached. apply (is_longest _ _ _ _ _ _ _ _ _ Hspec _ _ Hcached).
    rewrite Hiu, Hu. exists (drop (cache_protected_len r) (take (aligned_len r ids) (units (token_key r ids)))).
    rewrite <-(take_drop (cache_protected_len r) (take (aligned_len r ids) _)) at 1.
    f_equal. rewrite take_take. f_equal. lia. }
  split_and!; try done.
  - rewrite Hiv, take_take. f_equal. lia.
  - eapply down_node; [by eapply is_old|].
    destruct (sw_root _ _ _ (tw_shape _ _ _ _ (cw_tree _ _ _ (is_wf _ _ _ _ _ _ _ _ _ Hspec)))) as (rn & Hr & _).
    rewrite (is_root_same _ _ _ _ _ _ _ _ _ Hspec) in Hr. eauto.
Qed.

(** Releasing the lock a request holds on its last node. *)
Lemma drop_lock_ok st L r :
  cache_wf cfg st (match last_node r with Some n => n :: L | None => L end) → disable cfg = false →
  ∃ st', match last_node r with
      | Some n => let! (_, st) := dec_lock_ref cfg n st in Ok st
      | None => Ok st
      end = Ok st' ∧ cache_wf cfg st' L ∧ same_content cfg st st'.
Proof.
  intros Hw Hdis. destruct (last_node r) as [n|].
  - destruct (dec_lock_ref_ok cfg st L n Hw Hdis) as (d & st' & -> & Hw' & Hspec). cbn [rbind].
    exists st'. split_and!; [done..|by eapply lock_same_content].
  - exists st. split_and!; [done..|by apply same_content_tree].
Qed.

Lemma same_content_slots st st' :
  same_content cfg st st' → all_slots st' ≡ₚ all_slots st.
Proof. intros [_ Hs Ha _ _]. unfold all_slots. by rewrite Hs, Ha. Qed.

Lemma cached_whole st L e us vs x :
  cache_wf cfg st L → down (tree st) e (root_node (tree st)) us vs x → cached ps (tree st) e us vs.
Proof.
  intros Hw Hd. destruct (down_length _ (cw_ps _ _ _ Hw) (tw_shape _ _ _ _ (cw_tree _ _ _ Hw)) _ _ _ _ _ Hd)
    as [Hl Hal]. split; [done|]. exists x, us, vs. split_and!; [done..|]. by rewrite <-Hl, firstn_all.
Qed.

(** The part of [cache_finished_req] before the tag: the slots of the request
    go to the tree or back to the allocator. *)
Lemma settle_ok st L r ids kv k (b : bool) :
  cache_wf cfg st L → disable cfg = false → req_slots st r ids kv →
  page_aligned (token_key r ids) ps = Ok k →
  ∃ leaf st1 st2,
    (if b then
       let! (prefix_len, last_device_node, st) :=
         insert cfg k (Some (take (key_len k) kv)) (Some (default 0 (req_priority r))) false st in
       let! st := free_kv (slice (cache_protected_len r) prefix_len kv) st in
       Ok (last_device_node, st)
     else
       let! st := free_kv (slice (cache_protected_len r) (key_len k) kv) st in Ok (None, st))
      = Ok (leaf, st1) ∧ free_kv (drop (key_len k) kv) st1 = Ok st2 ∧
    cache_wf cfg st2 L ∧ all_slots st2 ≡ₚ all_slots st ++ owned r kv ∧
    (∀ n, leaf = Some n → is_Some (nodes (tree st2) !! n)) ∧
    (∀ e us w, cached ps (tree st) e us w → cached ps (tree st2) e us w) ∧
    (b = true → ∃ vs, cached ps (tree st2) (req_extra_key r) (units k) vs) ∧ kept st st2.
Proof.
  intros Hw Hdis Hrs Hk. pose proof (cw_ps _ _ _ Hw) as Hps.
  destruct (token_key_aligned r ids Hps) as (k' & Hk' & He & Hb & Hl & Hal & Hfit & Hu & Hiu & Hiv).
  assert (k' = k) as -> by congruence. clear Hk'. pose proof (aligned_len_le r ids) as Hle.
  pose proof (rs_prot _ _ _ _ Hrs) as Hprot. pose proof (rs_len _ _ _ _ Hrs) as Hlen.
  destruct b.
  - destruct (insert_req_ok st L r ids kv k false Hw Hdis Hrs Hk) as
      (old & plen & x & st1 & -> & Hspec & Hval & Hge & Hle2 & Hx). cbn [rbind].
    destruct (free_kv_ok st1 (slice (cache_protected_len r) plen kv) L) as
      (st2 & Hf & Hw2 & Ht2 & _ & Hs2); [apply Hspec|]. rewrite Hf. cbn [rbind].
    destruct (free_kv_ok st2 (drop (key_len k) kv) L Hw2) as (st3 & Hf3 & Hw3 & Ht3 & _ & Hs3).
    exists (Some x), st2, st3. split_and!; try done.
    + unfold all_slots, owned. rewrite Ht3, Ht2, Hs3, Hs2.
      rewrite (is_slots _ _ _ _ _ _ _ _ _ Hspec), Hval.
      destruct (is_frame _ _ _ _ _ _ _ _ _ Hspec) as (-> & _).
      rewrite <-slice_take, <-(slice_all kv (cache_protected_len r)).
      rewrite (slice_split kv _ plen (length kv)) by lia.
      rewrite (slice_split kv plen (aligned_len r ids) (length kv)) by lia.
      rewrite (slice_all kv (aligned_len r ids)), Hl. solve_perm.
    + intros n [= <-]. by rewrite Ht3, Ht2.
    + intros e us w Hc. rewrite Ht3, Ht2. apply (is_cached _ _ _ _ _ _ _ _ _ Hspec). by left.
    + intros _. eexists. rewrite <-He, <-Hiu, Ht3, Ht2.
      eapply (cached_whole st1 L); [apply Hspec|].
      rewrite (is_root_same _ _ _ _ _ _ _ _ _ Hspec). by eapply is_old.
    + eapply kept_trans; [by eapply kept_insert|]. eapply kept_trans; by eapply kept_free.
  - destruct (free_kv_ok st (slice (cache_protected_len r) (key_len k) kv) L Hw) as
      (st2 & Hf2 & Hw2 & Ht2 & _ & Hs2). rewrite Hf2. cbn [rbind].
    destruct (free_kv_ok st2 (drop (key_len k) kv) L Hw2) as (st3 & Hf3 & Hw3 & Ht3 & _ & Hs3).
    exists None, st2, st3. split_and!; try done; [|by rewrite Ht3, Ht2|eapply kept_trans; by eapply kept_free].
    unfold all_slots, owned. rewrite Ht3, Ht2, Hs3, Hs2.
    rewrite <-(slice_all kv (cache_protected_len r)), <-(slice_all kv (key_len k)).
    rewrite (slice_split kv (cache_protected_len r) (key_len k) (length kv)) by lia. solve_perm.
Qed.

Lemma cache_finished_req_ok s r is_insert L idx ids kv :
  cache_wf cfg (cache s) (match last_node r with Some n => n :: L | None => L end) →
  disable cfg = false → kv_committed_freed r = false → req_pool_idx r = Some idx →
  ids = take (cache_commit_len strip r) (origin_input_ids r ++ output_ids r) →
  pool_read (req_to_token_pool s) idx 0 (length ids) = Ok kv → req_slots (cache s) r ids kv →
  ∃ s', cache_finished_req cfg strip r is_insert s
      = Ok (with_freed true (kv_overallocated_freed r) r, s') ∧
    cache_wf cfg (cache s') L ∧ req_to_token_pool s' = req_to_token_pool s ∧
    all_slots (cache s') ≡ₚ all_slots (cache s) ++ owned r kv ∧
    (∀ e us w, cached ps (tree (cache s)) e us w → cached ps (tree (cache s')) e us w) ∧
    (is_insert = true → disable_finished_insert cfg = false →
       ∃ vs, cached ps (tree (cache s')) (req_extra_key r)
         (take (aligned_len r ids) (units (token_key r ids))) vs) ∧
    kept (cache s) (cache s').
Proof.
  intros Hw Hdis Hfr Hidx -> Hkv Hrs. pose proof (cw_ps _ _ _ Hw) as Hps.
  unfold cache_finished_req, pop_committed_kv_cache. rewrite Hfr, Hdis. cbn [negb py_assert rbind].
  unfold row_of. cbn [req_pool_idx with_freed]. rewrite Hidx. cbn [of_option rbind].
  cbn [origin_input_ids output_ids with_freed req_extra_key cache_protected_len req_priority session_id last_node].
  set (r' := with_freed true (kv_overallocated_freed r) r).
  change (cache_commit_len strip r') with (cache_commit_len strip r).
  set (ids := take (cache_commit_len strip r) (origin_input_ids r ++ output_ids r)) in *.
  rewrite Hkv. cbn [rbind].
  destruct (token_key_aligned r ids Hps) as (k & Hk & He & Hb & Hl & Hal & Hfit & Hu & Hiu & Hiv).
  change (mkKey ids (req_extra_key r) eagle None) with (token_key r ids). rewrite Hk. cbn [rbind].
  set (b := if disable_finished_insert cfg then false else is_insert).
  destruct (settle_ok (cache s) _ r ids kv k b Hw Hdis Hrs Hk) as
    (leaf & st1 & st2 & -> & Hf2 & Hw2 & Hs2 & Hleaf & Hmono & Hins & Hkept). cbn [rbind]. rewrite Hf2. cbn [rbind].
  destruct (tag_session_leaf_ok cfg (session_id r) k leaf st2 _ Hw2 Hdis Hfit Hleaf) as
    (st3 & -> & Hw3 & Hsc3). cbn [rbind].
  destruct (drop_lock_ok st3 L r Hw3 Hdis) as (st4 & -> & Hw4 & Hsc4). cbn [rbind].
  assert (Hsc : same_content cfg st2 st4) by (by eapply same_content_trans).
  exists (mkSys st4 (req_to_token_pool s)). split_and!; try done.
  - cbn [cache]. by rewrite (same_content_slots _ _ Hsc).
  - intros e us w Hc. cbn. apply Hsc. by apply Hmono.
  - intros Hi Hd. destruct Hins as [vs Hvs]; [unfold b; by rewrite Hd|].
    exists vs. cbn. rewrite <-Hu. by apply Hsc.
  - cbn. eapply kept_trans; [exact Hkept|by apply kept_same_content].
Qed.

(** After an insertion, the whole key is matched with the slots now in the
    tree, and the slots of a prefix that was cached before stay. *)
Lemma rematch_ok st L r ids kv k old plen x st0 st1 :
  cache_wf cfg st L → disable cfg = false → req_slots st r ids kv →
  page_aligned (token_key r ids) ps = Ok k →
  insert_spec cfg st L k (Some (take (key_len k) kv)) old plen x st0 →
  cache_wf cfg st1 L → tree st1 = tree st0 →
  ∃ vs y st2, match_prefix cfg k st1 = Ok (vs, y, st2) ∧ match_spec cfg st1 L k vs y st2 ∧
    length vs = aligned_len r ids ∧ is_Some (nodes (tree st2) !! y) ∧
    down (tree st2) (req_extra_key r) (root_node (tree st2))
      (take (aligned_len r ids) (units (token_key r ids))) vs y ∧
    take (cache_protected_len r) vs = take (cache_protected_len r) kv.
Proof.
  intros Hw Hdis [Hlen Hprot Hcached] Hk Hspec Hw1 Ht1. pose proof (cw_ps _ _ _ Hw) as Hps.
  destruct (token_key_aligned r ids Hps) as (k' & Hk' & He & Hb & Hl & Hal & Hfit & Hu & Hiu & Hiv).
  assert (k' = k) as -> by congruence. clear Hk'.
  destruct (match_prefix_ok cfg st1 L k Hw1 Hdis Hfit) as (vs & y & st2 & Hrun & Hm).
  exists vs, y, st2. pose proof (ms_wf _ _ _ _ _ _ _ Hm) as Hw2.
  pose proof (tw_shape _ _ _ _ (cw_tree _ _ _ Hw2)) as Hsh2.
  assert (Hview : view eagle k = k) by (by apply view_id).
  assert (Hkc : cached ps (tree st1) (extra_key k) (units k)
      (old ++ drop plen (insert_value cfg k (Some (take (key_len k) kv))))).
  { eapply (cached_whole st1 L); [done|]. rewrite <-Hiu, Ht1, (is_root_same _ _ _ _ _ _ _ _ _ Hspec).
    by eapply is_old. }
  assert (Hvl : length vs = aligned_len r ids).
  { pose proof (ms_len _ _ _ _ _ _ _ Hm) as Hle. rewrite Hview in Hle.
    pose proof (ms_longest _ _ _ _ _ _ _ Hm _ _ Hkc) as Hge. rewrite Hview, length_units in Hge.
    specialize (Hge ltac:(done)). lia. }
  assert (Hdy : down (tree st2) (req_extra_key r) (root_node (tree st2))
      (take (aligned_len r ids) (units (token_key r ids))) vs y).
  { rewrite <-Hu, <-He, (ms_root _ _ _ _ _ _ _ Hm).
    pose proof (ms_down _ _ _ _ _ _ _ Hm) as Hd. rewrite Hview in Hd.
    rewrite take_ge in Hd by (rewrite length_units; lia). done. }
  assert (Hc := cached_whole st2 L _ _ _ _ Hw2 Hdy).
  split_and!; try done.
  - eapply down_node; [by eapply ms_down|]. rewrite <-(ms_root _ _ _ _ _ _ _ Hm).
    destruct (sw_root _ _ _ Hsh2) as (rn & ? & _). eauto.
  - assert (Hlu : length (units (token_key r ids)) = key_len (token_key r ids)) by apply length_units.
    pose proof (page_floor_le ps (key_len (token_key r ids))) as Hfl. fold (aligned_len r ids) in Hfl.
    assert (ps | cache_protected_len r)%nat.
    { destruct Hcached as [Hd _]. by rewrite length_take, Nat.min_l in Hd by lia. }
    assert (Hc1 := cached_prefix (tree st2) Hps _ _ _ (cache_protected_len r) Hc ltac:(done)
      ltac:(rewrite length_take; lia)).
    rewrite take_take, Nat.min_l in Hc1 by lia.
    eapply (cached_functional (tree st2) Hps Hsh2); [exact Hc1|]. apply (ms_cached _ _ _ _ _ _ _ Hm).
    rewrite Ht1. apply (is_cached _ _ _ _ _ _ _ _ _ Hspec). by left.
Qed.

(** Writing part of a row that is already there. *)
Lemma pool_write_ok p idx row start stop vs :
  req_to_token p !! idx = Some row → (start ≤ stop)%nat → (stop ≤ length row)%nat →
  length vs = (stop - start)%nat →
  ∃ p', pool_write p idx start stop vs = Ok p' ∧ rp_free_slots p' = rp_free_slots p ∧
    rp_size p' = rp_size p ∧
    req_to_token p' = <[idx := take start row ++ vs ++ drop stop row]> (req_to_token p).
Proof.
  intros Hrow Hle Hlr Hlen. unfold pool_write. rewrite Hrow. cbn [of_option rbind].
  rewrite Nat.min_l by done.
  assert (match vs with [x] => replicate (stop - start) x | _ => vs end = vs) as ->.
  { destruct vs as [|x [|]]; [done| |done]. by rewrite <-Hlen. }
  rewrite Hlen, Nat.eqb_refl, Nat.max_r by done. eauto.
Qed.

Lemma cache_unfinished_req_ok s r chunked L n idx row ids kv :
  cache_wf cfg (cache s) (n :: L) → disable cfg = false → last_node r = Some n →
  req_pool_idx r = Some idx → req_to_token (req_to_token_pool s) !! idx = Some row →
  get_fill_ids r = Ok ids → kv = take (length ids) row → req_slots (cache s) r ids kv →
  ∃ r' s' y kv', cache_unfinished_req cfg r chunked s = Ok (r', s') ∧
    r' = with_prefix kv' (aligned_len r ids) (Some y) r ∧
    cache_wf cfg (cache s') (y :: L) ∧
    req_to_token (req_to_token_pool s') =
      <[idx := kv' ++ drop (length ids) row]> (req_to_token (req_to_token_pool s)) ∧
    rp_free_slots (req_to_token_pool s') = rp_free_slots (req_to_token_pool s) ∧
    req_slots (cache s') r' ids kv' ∧ drop (aligned_len r ids) kv' = drop (aligned_len r ids) kv ∧
    all_slots (cache s') ++ owned r' kv' ≡ₚ all_slots (cache s) ++ owned r kv ∧
    (∀ e us w, cached ps (tree (cache s)) e us w → cached ps (tree (cache s')) e us w) ∧
    rp_size (req_to_token_pool s') = rp_size (req_to_token_pool s) ∧
    down (tree (cache s')) (req_extra_key r) (root_node (tree (cache s')))
      (take (aligned_len r ids) (units (token_key r ids))) (take (aligned_len r ids) kv') y ∧
    kept (cache s) (cache s').
Proof.
  intros Hw Hdis Hlast Hidx Hrow Hids Hkv Hrs. pose proof (cw_ps _ _ _ Hw) as Hps.
  unfold cache_unfinished_req. rewrite Hdis, Hids. cbn [rbind].
  unfold row_of, pool_read. rewrite Hidx. cbn [of_option rbind]. rewrite Hrow. cbn [of_option rbind].
  replace (slice 0 (length ids) row) with kv by (by rewrite Hkv, slice_take).
  destruct (token_key_aligned r ids Hps) as (k & Hk & He & Hb & Hl & Hal & Hfit & _).
  change (mkKey ids (req_extra_key r) eagle None) with (token_key r ids). rewrite Hk. cbn [rbind].
  pose proof (aligned_len_le r ids) as Hle. pose proof (rs_len _ _ _ _ Hrs) as Hlen.
  pose proof (rs_prot _ _ _ _ Hrs) as Hprot.
  assert (Hlr : (length ids ≤ length row)%nat) by (rewrite Hkv, length_take in Hlen; lia).
  destruct (insert_req_ok (cache s) _ r ids kv k chunked Hw Hdis Hrs Hk) as
    (old & plen & x & st1 & -> & Hspec & Hval & Hge & Hle2 & _). cbn [rbind].
  destruct (free_kv_ok st1 (slice (cache_protected_len r) plen kv) (n :: L)) as
    (st2 & Hf2 & Hw2 & Ht2 & Hm2 & Hs2); [apply Hspec|]. rewrite Hf2. cbn [rbind].
  destruct (rematch_ok _ _ _ _ _ _ _ _ _ _ st2 Hw Hdis Hrs Hk Hspec Hw2 Ht2) as
    (vs & y & st3 & -> & Hm & Hvl & Hy & Hdy & Htk). cbn [rbind].
  assert (Hcv := cached_whole st3 _ _ _ _ _ (ms_wf _ _ _ _ _ _ _ Hm) Hdy).
  rewrite Hvl, Hl, Nat.eqb_refl. cbn [py_assert rbind].
  destruct (pool_write_ok (req_to_token_pool s) idx row (cache_protected_len r) (aligned_len r ids)
    (drop (cache_protected_len r) vs)) as (p' & -> & Hpf & Hpsz & Hpr);
    [done|done|lia|rewrite length_drop; lia|]. cbn [rbind]. rewrite Hlast. cbn [of_option rbind].
  destruct (dec_lock_ref_ok cfg st3 L n (ms_wf _ _ _ _ _ _ _ Hm) Hdis) as (d4 & st4 & -> & Hw4 & Hl4).
  cbn [rbind]. destruct (inc_lock_ref_ok cfg st4 L y Hw4 Hdis) as (d5 & st5 & -> & Hw5 & Hl5);
    [by apply (lk_node _ _ _ _ Hl4)|]. cbn [rbind].
  assert (Hsc : same_content cfg st2 st5).
  { eapply same_content_trans; [by eapply match_same_content|].
    eapply same_content_trans; by eapply lock_same_content. }
  destruct (tag_session_leaf_ok cfg (session_id r) k (Some y) st5 _ Hw5 Hdis Hfit) as (st6 & Htag & Hw6 & Hsc6).
  { intros m [= <-]. by apply (lk_node _ _ _ _ Hl5), (lk_node _ _ _ _ Hl4). }
  cbn [session_id with_prefix]. rewrite Htag. cbn [rbind].
  assert (Hsc' : same_content cfg st2 st6) by (by eapply same_content_trans).
  set (kv' := vs ++ drop (aligned_len r ids) kv).
  replace (if (aligned_len r ids <? length kv)%nat then _ else vs) with kv'.
  2:{ destruct (Nat.ltb_spec (aligned_len r ids) (length kv)); [done|]. unfold kv'.
      rewrite drop_ge by lia. apply app_nil_r. }
  assert (Hdk : drop (aligned_len r ids) kv' = drop (aligned_len r ids) kv).
  { unfold kv'. by rewrite drop_app_length'. }
  exists (with_prefix kv' (aligned_len r ids) (Some y) r), (mkSys st6 p'), y, kv'.
  split_and!; try done.
  - cbn [req_to_token_pool]. rewrite Hpr. f_equal. unfold kv'.
    rewrite <-app_assoc. rewrite Hkv in Htk |- *. rewrite take_take, Nat.min_l in Htk by lia.
    rewrite <-Htk, app_assoc, take_drop. f_equal. rewrite <-slice_take.
    rewrite <-(slice_all row (aligned_len r ids)), <-(slice_all row (length ids)).
    apply slice_split; lia.
  - split.
    + unfold kv'. rewrite length_app, length_drop. lia.
    + cbn. done.
    + cbn [cache_protected_len with_prefix cache req_extra_key]. unfold kv'.
      rewrite take_app_length' by done. apply (sc_cached _ _ _ Hsc6).
      apply (lk_cached _ _ _ _ Hl5), (lk_cached _ _ _ _ Hl4). done.
  - cbn [cache]. unfold owned at 1. cbn [cache_protected_len with_prefix]. rewrite Hdk.
    rewrite (same_content_slots _ _ Hsc'). unfold all_slots, owned.
    rewrite Ht2, Hs2, (is_slots _ _ _ _ _ _ _ _ _ Hspec), Hval.
    destruct (is_frame _ _ _ _ _ _ _ _ _ Hspec) as (-> & _).
    rewrite <-slice_take, <-(slice_all kv (cache_protected_len r)).
    rewrite (slice_split kv _ plen (length kv)) by lia.
    rewrite (slice_split kv plen (aligned_len r ids) (length kv)) by lia.
    rewrite (slice_all kv (aligned_len r ids)). solve_perm.
  - intros e us w Hc. cbn [cache]. apply (sc_cached _ _ _ Hsc'). rewrite Ht2.
    apply (is_cached _ _ _ _ _ _ _ _ _ Hspec). by left.
  - cbn [cache]. unfold kv'. rewrite take_app_length' by done.
    rewrite (sc_root _ _ _ Hsc6), (lk_root _ _ _ _ Hl5), (lk_root _ _ _ _ Hl4).
    by apply (sc_down _ _ _ Hsc6), (lk_down _ _ _ _ Hl5), (lk_down _ _ _ _ Hl4).
  - cbn [cache]. eapply kept_trans; [by eapply kept_insert|]. eapply kept_trans; [by eapply kept_free|].
    by apply kept_same_content.
Qed.
End req_inv.
