(* ===== verification/ReqAlloc.v ===== *)
(** Allocation of KV slots for requests: the interface [KVAllocLaws] of an
    allocator that hands out slots, its implementation by the token allocator,
    and what [alloc_token_slots], [alloc_req_slots] and the request pool
    guarantee on top of it. *)

From stdpp Require Import base gmap strings list relations.
From Stdlib Require Import ZArith Lia.
From S2P Require Import Prelude.
From S2P Require Import PyData.
From S2P Require Import Allocator.
From S2P Require Import AllocatorInv.
From S2P Require Import RadixKey.
From S2P Require Import RadixTree.
From S2P Require Import RadixInv.
From S2P Require Import RadixContent.
From S2P Require Import RadixOps.
From S2P Require Import RadixEvict.
From S2P Require Import RadixSession.
From S2P Require Import ReqCache.
From S2P Require Import ReqCacheInv.

Open Scope Z_scope.

(** ** The allocator's side *)

(** An allocator that counts its free slots: in a ready state (no free group is
    open) an allocation within the available size succeeds with distinct entries
    of its own, and freed slots become available at once. *)
Class KVAllocLaws (A : Type) `{KVPool A} `{!KVPoolSlots A} `{KVAlloc A} := {
  kv_ready : A → Prop;
  kv_available_nonneg a : 0 ≤ kv_available_size a;
  kv_alloc_enough a n : kv_ready a → 0 ≤ n ≤ kv_available_size a →
    ∃ l a', kv_alloc a n = (Some l, a') ∧ Z.of_nat (length l) = n ∧
      kv_slots a ≡ₚ l ++ kv_slots a' ∧ kv_ready a' ∧
      kv_available_size a' = kv_available_size a - n;
  kv_alloc_short a n : kv_ready a → kv_available_size a < n → ∃ a', kv_alloc a n = (None, a');
  kv_free_ready a l a' : kv_ready a → kv_free a l = Ok a' →
    kv_ready a' ∧ kv_available_size a' = kv_available_size a + Z.of_nat (length l);
  kv_available_slots a : kv_ready a → kv_available_size a = Z.of_nat (length (kv_slots a));
}.

(** The token allocator. *)
Global Instance token_kvpool : KVPool Allocator := token_free.
Global Instance token_kvpool_total : KVPoolTotal Allocator.
Proof.
  intros st idx. unfold kv_free, token_kvpool, token_free. repeat case_match; eauto.
Qed.
Global Instance token_kvpool_slots : KVPoolSlots Allocator :=
  { kv_slots st := held st ++ pending st;
    kv_free_slots st l st' Hf := proj1 (token_free_held st l st' Hf) }.
Global Instance token_kvalloc : KVAlloc Allocator :=
  { kv_available_size := token_available_size; kv_alloc := token_alloc }.

Definition token_ready (st : Allocator) : Prop :=
  is_not_in_free_group st = true ∧ (need_sort st = false → release_pages st = []).

Lemma token_available_held st : token_available_size st = Z.of_nat (length (held st)).
Proof. unfold token_available_size, held. rewrite length_app. lia. Qed.

Lemma token_available_nonneg st : 0 ≤ token_available_size st.
Proof. unfold token_available_size. lia. Qed.

Lemma token_alloc_ready st n :
  token_ready st → 0 ≤ n ≤ token_available_size st →
  ∃ l st', token_alloc st n = (Some l, st') ∧ Z.of_nat (length l) = n ∧
    held st ++ pending st ≡ₚ l ++ (held st' ++ pending st') ∧ token_ready st' ∧
    token_available_size st' = token_available_size st - n.
Proof.
  intros [Hg Hr] Hn. destruct (token_alloc st n) as [[l|] st'] eqn:Ha.
  - exists l, st'. pose proof (token_alloc_Some st n l st' ltac:(lia) Ha) as Hl.
    pose proof (token_alloc_release _ _ _ _ Ha) as Hrel.
    apply token_alloc_held in Ha as (Hh & Hp & _ & Hns & Hg'). cbn in Hh.
    split_and!; try done.
    + rewrite Hp, Hh. by rewrite app_assoc.
    + split; [congruence|]. intros Hf. apply Hrel; [congruence|]. apply Hr. congruence.
    + rewrite !token_available_held. apply Permutation_length in Hh. rewrite length_app in Hh.
      cbn in Hh. lia.
  - apply token_alloc_None in Ha; [lia|done].
Qed.

Lemma token_alloc_refuses st n :
  token_available_size st < n → ∃ st', token_alloc st n = (None, st').
Proof.
  intros Hn. destruct (token_alloc st n) as [[l|] st'] eqn:Ha; [|eauto].
  destruct (decide (0 ≤ n)); [|unfold token_available_size in Hn; lia].
  pose proof (token_alloc_Some st n l st' ltac:(done) Ha) as Hl.
  apply token_alloc_held in Ha as (Hh & _). apply Permutation_length in Hh.
  cbn in Hh. rewrite length_app in Hh. rewrite token_available_held in Hn. lia.
Qed.

Lemma token_free_ready st idx st' :
  token_ready st → token_free st idx = Ok st' →
  token_ready st' ∧ token_available_size st' = token_available_size st + Z.of_nat (length idx).
Proof.
  intros [Hg Hr]. unfold token_free, token_available_size, token_ready. rewrite Hg.
  destruct (Z.eqb_spec (Z.of_nat (length idx)) 0); [intros; simplify_eq; split; [done|lia]|].
  destruct (need_sort st) eqn:Hn; intros; simplify_eq/=; (split; [by rewrite ?Hn|]);
    rewrite length_app; lia.
Qed.

Lemma token_available_slots st :
  token_ready st → token_available_size st = Z.of_nat (length (held st ++ pending st)).
Proof. intros [Hg _]. unfold pending. rewrite Hg, app_nil_r. apply token_available_held. Qed.

Global Instance token_kvalloc_laws : KVAllocLaws Allocator :=
  { kv_ready := token_ready; kv_available_nonneg st := token_available_nonneg st; kv_alloc_enough := token_alloc_ready;
    kv_alloc_short st n _ := token_alloc_refuses st n; kv_free_ready := token_free_ready;
    kv_available_slots := token_available_slots }.

(** ** The caller's side *)

Section alloc.
Context {A : Type} `{KVPool A} `{!KVPoolTotal A} `{!KVPoolSlots A} `{KVAlloc A} `{!KVAllocLaws A}.
Context `{Env} `{!EnvLaws} `{HeapQ} `{!HeapQLaws}.
Variable cfg : Config.
Implicit Types st : RadixCache A.
Notation ps := (page_size cfg).

(** The walks to locked nodes survive. *)
Definition locked_kept st st' : Prop :=
  root_node (tree st') = root_node (tree st) ∧
  ∀ y nd, nodes (tree st) !! y = Some nd → 0 < lock_ref nd →
    ∀ e m us w, down (tree st) e m us w y → down (tree st') e m us w y.

Lemma frees_ready (a a' : A) :
  rtc (λ a a', ∃ l, kv_free a l = Ok a') a a' → kv_ready a → kv_ready a'.
Proof. induction 1 as [|? ? ? [l Hl] _ IH]; [done|]. intros Hr. by eapply IH, kv_free_ready. Qed.

(** Every evicted token is available to the allocator. *)
Lemma evict_spec_available num_tokens n st xs n' st' L :
  cache_wf cfg st L → kv_ready (allocator st) → evict_spec cfg num_tokens n st xs n' st' →
  kv_ready (allocator st') ∧
  kv_available_size (allocator st') = kv_available_size (allocator st) + (n' - n).
Proof.
  intros Hw Hr Hs. revert Hw Hr.
  induction Hs as [n st Hge|n st Hnone|n st x len st1 xs n' st' Hlt Hst Hfirst Hs IH]; intros Hw Hr;
    [split; [done|lia]..|].
  destruct (evict_step_inv cfg st L x len st1 Hw Hst) as (xnd & p & pnd & ck & v & Hx & Hleaf & Hv & -> &
    Hvl & Hxp & Hp & Hxr & Hpx & Ha & Hw2 & Ht2).
  destruct (kv_free_ready _ _ _ Hr Ha) as [Hr1 Hav]. destruct (IH Hw2 Hr1) as [Hr' Hav'].
  split; [done|lia].
Qed.

Lemma evict_from_tree_cache_ok n st L :
  cache_wf cfg st L → disable cfg = false → kv_ready (allocator st) →
  ∃ st', evict_from_tree_cache cfg n st = Ok st' ∧ cache_wf cfg st' L ∧ kv_ready (allocator st') ∧
    all_slots st' ≡ₚ all_slots st ∧
    kv_available_size (allocator st') + evictable_size_ (tree st') =
      kv_available_size (allocator st) + evictable_size_ (tree st) ∧
    protected_size_ (tree st') = protected_size_ (tree st) ∧
    (n ≤ kv_available_size (allocator st') ∨ evictable_size_ (tree st') = 0) ∧
    (∀ e us w, cached ps (tree st') e us w → cached ps (tree st) e us w) ∧
    locked_kept st st'.
Proof.
  intros Hw Hdis Hr. unfold evict_from_tree_cache.
  destruct (Z.ltb_spec (kv_available_size (allocator st)) n) as [Hlt|Hge].
  - destruct (evict_ok cfg st L n Hw Hdis) as (xs & n' & st' & -> & Hs). cbn [rbind].
    exists st'. destruct (evict_spec_post cfg _ _ _ _ _ _ _ Hw Hs) as [? Hroot [? ?] ? Hen ? Hlk].
    destruct (evict_spec_available _ _ _ _ _ _ _ Hw Hr Hs) as [? Hav].
    split_and!; try done; [by eapply evict_spec_slots|lia| |].
    + destruct Hen; [left|by right]. pose proof (kv_available_nonneg (allocator st)). lia.
    + split; [done|]. intros y nd Hy Hl. by apply Hlk with nd.
  - exists st. split_and!; try done. by left.
Qed.

(** Enough slots in the allocator and in the evictable part of the tree are
    enough for an allocation, and only then it is refused. *)
Lemma alloc_token_slots_ok n st L :
  cache_wf cfg st L → disable cfg = false → kv_ready (allocator st) →
  0 ≤ n ≤ kv_available_size (allocator st) + evictable_size_ (tree st) →
  ∃ l st', alloc_token_slots cfg n st = Ok (l, st') ∧ Z.of_nat (length l) = n ∧
    cache_wf cfg st' L ∧ kv_ready (allocator st') ∧ all_slots st ≡ₚ l ++ all_slots st' ∧
    protected_size_ (tree st') = protected_size_ (tree st) ∧ locked_kept st st'.
Proof.
  intros Hw Hdis Hr Hn. unfold alloc_token_slots.
  destruct (evict_from_tree_cache_ok n st L Hw Hdis Hr) as
    (st1 & -> & Hw1 & Hr1 & Hs1 & Hsum & Hp1 & Hen & _ & Hlk). cbn [rbind].
  destruct (kv_alloc_enough (allocator st1) n Hr1) as (l & a & -> & Hl & Hs & Hr' & _); [lia|].
  eexists _, _; split; [done|]. split_and!; try done.
  - destruct Hw1 as [? ? ? [? ? ?]]. by split.
  - unfold all_slots. cbn. rewrite <-Hs1. unfold all_slots. rewrite Hs. solve_perm.
Qed.

Lemma evictable_nonneg st L : cache_wf cfg st L → 0 ≤ evictable_size_ (tree st).
Proof.
  intros Hw. rewrite (aw_free _ (tw_acct _ _ _ _ (cw_tree _ _ _ Hw))). apply map_sum_nonneg.
  intros k nd _. unfold free_len, len_if. case_match; lia.
Qed.

Lemma alloc_token_slots_refuses n st L :
  cache_wf cfg st L → disable cfg = false → kv_ready (allocator st) →
  kv_available_size (allocator st) + evictable_size_ (tree st) < n →
  alloc_token_slots cfg n st = Raise RuntimeError.
Proof.
  intros Hw Hdis Hr Hn. unfold alloc_token_slots.
  destruct (evict_from_tree_cache_ok n st L Hw Hdis Hr) as
    (st1 & -> & Hw1 & Hr1 & Hs1 & Hsum & _ & Hen & _). cbn [rbind].
  pose proof (evictable_nonneg _ _ Hw1).
  destruct (kv_alloc_short (allocator st1) n Hr1) as [a ->]; [lia|done].
Qed.
End alloc.

(** ** Request slots *)

(** The rows of the pool are the free ones and those of the running requests;
    row 0 belongs to nobody. *)
Definition rows_of (reqs : list Req) : list nat := omap req_pool_idx reqs.

Definition pool_inv (p : ReqToTokenPool) (reqs : list Req) : Prop :=
  rp_free_slots p ++ rows_of reqs ≡ₚ seq 1 (rp_size p).

(** The requests of a batch that get their first row. *)
Definition fresh_reqs (reqs : list Req) : nat :=
  length (filter (λ r, req_pool_idx r = None) reqs).

Lemma fresh_reqs_count reqs :
  (length reqs - length (filter (λ r, is_Some (req_pool_idx r)) reqs))%nat = fresh_reqs reqs.
Proof.
  unfold fresh_reqs. induction reqs as [|r reqs IH]; [done|]. rewrite !filter_cons.
  pose proof (length_filter (λ r, is_Some (req_pool_idx r)) reqs).
  destruct (req_pool_idx r) eqn:E; repeat case_decide; simplify_eq/=; try lia;
    try (exfalso; naive_solver).
Qed.

Lemma assign_slots_ok reqs sel :
  length sel = fresh_reqs reqs →
  ∃ reqs', assign_slots reqs sel = Ok reqs' ∧ rows_of reqs' ≡ₚ sel ++ rows_of reqs ∧
    Forall (λ r, is_Some (req_pool_idx r)) reqs' ∧
    Forall2 (λ r r', r' = with_pool_idx (req_pool_idx r') r ∧
      (req_pool_idx r = None ∨ r' = r)) reqs reqs'.
Proof.
  revert sel; induction reqs as [|r reqs IH]; intros sel Hl.
  { unfold fresh_reqs in Hl. destruct sel; [|done]. exists []. by split_and!. }
  unfold fresh_reqs in Hl. rewrite filter_cons in Hl. cbn [assign_slots].
  destruct (req_pool_idx r) as [i|] eqn:E.
  - rewrite decide_False in Hl by done. destruct (IH sel Hl) as (l & -> & Hp & Hall & Hf).
    cbn [rbind]. exists (r :: l). unfold rows_of in *. cbn. rewrite E, Hp.
    split_and!; [done|solve_perm|by constructor; [rewrite E|]|].
    constructor; [|done]. split; [|by right]. by destruct r.
  - rewrite decide_True in Hl by done. destruct sel as [|i sel]; [done|]. injection Hl as Hl.
    destruct (IH sel Hl) as (l & -> & Hp & Hall & Hf). cbn [rbind].
    eexists; split; [done|]. unfold rows_of in *. cbn. rewrite E, Hp.
    split_and!; [done|by constructor|]. constructor; [|done]. split; [done|by left].
Qed.

(** [pool_alloc] gives a row to every request of the batch or changes nothing. *)
Lemma pool_alloc_ok p reqs others :
  pool_inv p (reqs ++ others) →
  Forall (λ r, is_Some (req_pool_idx r) → 0 < inflight_middle_chunks r ∨ (0 < kv_committed_len r)%nat) reqs →
  if (length (rp_free_slots p) <? fresh_reqs reqs)%nat
  then pool_alloc p reqs = Ok (None, reqs, p)
  else ∃ l reqs' p', pool_alloc p reqs = Ok (Some l, reqs', p') ∧ l = rows_of reqs' ∧
    length l = length reqs ∧ NoDup l ∧ pool_inv p' (reqs' ++ others) ∧
    req_to_token p' = req_to_token p ∧ rp_size p' = rp_size p ∧
    Forall2 (λ r r', r' = with_pool_idx (req_pool_idx r') r ∧
      (req_pool_idx r = None ∨ r' = r)) reqs reqs'.
Proof.
  intros Hinv Hok. unfold pool_alloc. rewrite fresh_reqs_count.
  assert (forallb (λ r, (0 <? inflight_middle_chunks r) || (0 <? kv_committed_len r)%nat)
    (filter (λ r, is_Some (req_pool_idx r)) reqs) = true) as ->.
  { apply forallb_forall. intros r Hr%list_elem_of_In. apply list_elem_of_filter in Hr as [Hs Hr].
    rewrite Forall_forall in Hok. destruct (Hok r Hr Hs) as [Hz|Hz].
    - apply Z.ltb_lt in Hz. by rewrite Hz.
    - apply Nat.ltb_lt in Hz. rewrite Hz. by rewrite orb_true_r. }
  cbn [py_assert rbind]. case_match eqn:Hlt; [done|]. apply Nat.ltb_ge in Hlt.
  set (k := fresh_reqs reqs) in *.
  destruct (assign_slots_ok reqs (take k (rp_free_slots p))) as (reqs' & -> & Hp & Hall & Hf).
  { rewrite length_take. lia. }
  cbn [rbind]. eexists _, _, _; split; [done|].
  assert (Hinv' : pool_inv (mkPool (rp_size p) (max_context_len p) (req_to_token p)
      (drop k (rp_free_slots p))) (reqs' ++ others)).
  { unfold pool_inv, rows_of in *. cbn. rewrite !omap_app in *.
    rewrite <-(take_drop k (rp_free_slots p)) in Hinv. solve_perm. }
  split_and!; try done.
  - assert (length reqs' = length reqs) as <- by (by apply Forall2_length in Hf).
    clear -Hall. induction Hall as [|r l [i Hi] _ IH]; [done|]. cbn. rewrite Hi. cbn. lia.
  - unfold pool_inv, rows_of in Hinv'. rewrite omap_app in Hinv'.
    assert (Hnd : NoDup (seq 1 (rp_size p))) by apply NoDup_seq. cbn in Hinv'. rewrite <-Hinv' in Hnd.
    apply NoDup_app in Hnd as (_ & _ & Hnd). by apply NoDup_app in Hnd as [? _].
Qed.

Lemma pool_free_ok p r others :
  pool_inv p (r :: others) → is_Some (req_pool_idx r) →
  ∃ r' p', pool_free p r = Ok (r', p') ∧ r' = with_pool_idx None r ∧ pool_inv p' (r' :: others) ∧
    req_to_token p' = req_to_token p ∧ rp_size p' = rp_size p.
Proof.
  intros Hinv [i Hi]. unfold pool_free. rewrite Hi. eexists _, _; split; [done|].
  split_and!; try done. unfold pool_inv, rows_of in *. cbn in *. rewrite Hi in Hinv. solve_perm.
Qed.

Lemma pool_init_ok size mcl : pool_inv (pool_init size mcl) [].
Proof. unfold pool_inv, pool_init. cbn. by rewrite app_nil_r. Qed.

(** *** The life of the request rows *)

(** Between two calls requests arrive, change and leave; only [alloc] and
    [free] touch their row. *)
Inductive pool_step : ReqToTokenPool * list Req → ReqToTokenPool * list Req → Prop :=
| ps_arrive p rs r : req_pool_idx r = None → pool_step (p, rs) (p, r :: rs)
| ps_leave p rs r others : rs ≡ₚ r :: others → req_pool_idx r = None → pool_step (p, rs) (p, others)
| ps_change p rs r r' others :
    rs ≡ₚ r :: others → req_pool_idx r' = req_pool_idx r → pool_step (p, rs) (p, r' :: others)
| ps_alloc p rs batch others o batch' p' :
    rs ≡ₚ batch ++ others → pool_alloc p batch = Ok (o, batch', p') →
    pool_step (p, rs) (p', batch' ++ others)
| ps_free p rs r others r' p' :
    rs ≡ₚ r :: others → pool_free p r = Ok (r', p') → pool_step (p, rs) (p', r' :: others).

Global Instance rows_of_Proper : Proper ((≡ₚ) ==> (≡ₚ)) rows_of.
Proof. intros l l' Hp. unfold rows_of. by rewrite Hp. Qed.

Lemma pool_alloc_reusing p reqs x :
  pool_alloc p reqs = Ok x →
  Forall (λ r, is_Some (req_pool_idx r) → 0 < inflight_middle_chunks r ∨ (0 < kv_committed_len r)%nat) reqs.
Proof.
  unfold pool_alloc. intros Ha. inv_ok. apply Forall_forall. intros r Hr Hs.
  match goal with E : forallb _ _ = true |- _ => rename E into Hb end.
  rewrite forallb_forall in Hb. specialize (Hb r).
  rewrite <-list_elem_of_In, list_elem_of_filter in Hb. specialize (Hb (conj Hs Hr)).
  apply orb_true_iff in Hb as [Hb|Hb]; [left; by apply Z.ltb_lt|right; by apply Nat.ltb_lt].
Qed.

Lemma pool_step_inv p rs p' rs' :
  pool_step (p, rs) (p', rs') → pool_inv p rs → pool_inv p' rs' ∧ rp_size p' = rp_size p.
Proof.
  intros Hst Hi. inversion Hst as [? ? r Hn|? ? r ? Hp Hn|? ? r r' ? Hp Hn|? ? batch others o ? ? Hp Ha|? ? r ? ? ? Hp Hf];
    subst; unfold pool_inv in *; try rewrite Hp in Hi.
  - split; [|done]. unfold rows_of in *. cbn. by rewrite Hn.
  - split; [|done]. unfold rows_of in *. cbn in Hi. by rewrite Hn in Hi.
  - split; [|done]. unfold rows_of in *. cbn in *. by rewrite Hn.
  - pose proof (pool_alloc_ok p batch others Hi (pool_alloc_reusing _ _ _ Ha)) as Hok.
    case_match; [rewrite Ha in Hok; by simplify_eq|].
    destruct Hok as (l & reqs' & p1 & Ha' & _ & _ & _ & Hi' & _ & Hsz & _). same_run. done.
  - destruct (req_pool_idx r) as [i|] eqn:Hr; [|by unfold pool_free in Hf; rewrite Hr in Hf].
    destruct (pool_free_ok p r others Hi) as (r1 & p1 & Hf' & _ & Hi' & _ & Hsz); [by rewrite Hr|].
    same_run. done.
Qed.

Lemma pool_reach_inv s s' :
  rtc pool_step s s' → pool_inv s.1 s.2 → pool_inv s'.1 s'.2 ∧ rp_size s'.1 = rp_size s.1.
Proof.
  induction 1 as [s|[p rs] [p1 rs1] s' Hst _ IH]; intros Hi; [done|].
  destruct (pool_step_inv _ _ _ _ Hst Hi) as [Hi1 Hs1]. destruct (IH Hi1) as [? Hs2]. cbn in *.
  split; [done|congruence].
Qed.
