(* ===== verification/ReqLife.v ===== *)
(** The ends of a request's life: [init_next_round_input] finds its cached prefix,
    [release_kv_cache] gives every slot of it back, drops its lock and frees its
    row; both leave the other clients of the cache alone. *)

From stdpp Require Import base gmap strings list relations.
From Stdlib Require Import ZArith Lia.
From S2P Require Import Prelude.
From S2P Require Import PyData.
From S2P Require Import RadixKey.
From S2P Require Import RadixTree.
From S2P Require Import RadixInv.
From S2P Require Import RadixContent.
From S2P Require Import RadixOps.
From S2P Require Import RadixInsert.
From S2P Require Import RadixEvict.
From S2P Require Import RadixSession.
From S2P Require Import ReqCache.
From S2P Require Import ReqCacheInv.
From S2P Require Import ReqAlloc.

Open Scope Z_scope.

(** ** Keys of growing token sequences *)

Lemma prefix_of_take_le {B} (l : list B) a b : (a ≤ b)%nat → take a l `prefix_of` take b l.
Proof. intros Hab. rewrite <-(Nat.min_l a b Hab), <-take_take. apply prefix_take. Qed.

Lemma omap_map {B C D} (f : C → option D) (g : B → C) (l : list B) : omap f (g <$> l) = omap (f ∘ g) l.
Proof. induction l as [|x l IH]; [done|]. csimpl. by rewrite IH. Qed.

Section keys.
Variable cfg : Config.

Lemma key_len_prefix r ids ids' :
  ids `prefix_of` ids' → (key_len (token_key cfg r ids) ≤ key_len (token_key cfg r ids'))%nat.
Proof.
  intros Hp%prefix_length. unfold token_key, key_len, raw_len. cbn [limit token_ids is_bigram].
  destruct (is_eagle cfg); [|done].
  repeat match goal with |- context [(?a <? ?b)%nat] => destruct (Nat.ltb_spec a b) end; lia.
Qed.

Lemma aligned_len_prefix r ids ids' :
  (1 ≤ page_size cfg)%nat → ids `prefix_of` ids' → (aligned_len cfg r ids ≤ aligned_len cfg r ids')%nat.
Proof.
  intros Hps Hp. unfold aligned_len. apply page_floor_greatest; [done|apply page_floor_divide|].
  etrans; [apply page_floor_le|]. by apply key_len_prefix.
Qed.

(** The units of a prefix are a prefix of the units. *)
Lemma take_units_prefix r ids ids' k :
  ids `prefix_of` ids' → (k ≤ key_len (token_key cfg r ids))%nat →
  take k (units (token_key cfg r ids)) = take k (units (token_key cfg r ids')).
Proof.
  intros Hp Hk. pose proof (key_len_prefix r _ _ Hp) as Hle.
  apply lcp_take; [rewrite length_units; lia..|]. rewrite lcp_units by done.
  cbn [token_key token_ids is_bigram]. rewrite (lcp_prefix _ _ Hp).
  unfold token_key, key_len, raw_len in *. cbn [limit token_ids is_bigram] in *.
  destruct (is_eagle cfg); [|lia].
  repeat match goal with H : context [(?a <? ?b)%nat] |- _ => destruct (Nat.ltb_spec a b) end;
  repeat match goal with |- context [(?a <? ?b)%nat] => destruct (Nat.ltb_spec a b) end; lia.
Qed.
End keys.

(** ** The next round *)

(** All tokens of a request. *)
Definition all_ids (r : Req) : list Z := origin_input_ids r ++ output_ids r.

(** The fill ids of a request are a prefix of its tokens, unless they are to be
    rebuilt. *)
Definition fill_ok (r : Req) : Prop :=
  fill_is_origin r = false →
  full_untruncated_fill_ids r `prefix_of` origin_input_ids r ++ output_ids r ∨
  (length (full_untruncated_fill_ids r) < length (origin_input_ids r))%nat.

Lemma refresh_fill_ids_all r :
  fill_ok r →
  full_untruncated_fill_ids (refresh_fill_ids r) = origin_input_ids r ++ output_ids r ∧
  fill_is_origin (refresh_fill_ids r) = false.
Proof.
  unfold refresh_fill_ids, fill_ok. intros Hok.
  destruct (fill_is_origin r); [done|]. cbn [negb andb].
  destruct (Z.leb_spec 0 (Z.of_nat (length (full_untruncated_fill_ids r)) -
    Z.of_nat (length (origin_input_ids r)))) as [Hge|]; [|done]. cbn [andb].
  case_match; [|done]. cbn. split; [|done].
  destruct (Hok eq_refl) as [[k Hk]|]; [|lia].
  set (f := full_untruncated_fill_ids r) in *.
  replace (Z.to_nat _) with (length f - length (origin_input_ids r))%nat by lia.
  rewrite <-(drop_app_ge (origin_input_ids r)) by lia. rewrite Hk.
  by rewrite drop_app_length.
Qed.

Lemma view_raw_len eagle ids e lim :
  (key_len (view eagle (mkKey ids e false lim)) ≤ Nat.min (length ids) (default (length ids) lim))%nat.
Proof.
  unfold view, maybe_to_bigram_view, key_len, raw_len. destruct eagle, lim as [l|]; cbn;
    repeat match goal with |- context [(?a <? ?b)%nat] => destruct (Nat.ltb_spec a b) end; lia.
Qed.

(** The request that looks its tokens up. *)
Definition refreshed (r : Req) : Req :=
  let r := refresh_fill_ids r in
  if session_streaming r && return_logprob r && (0 <=? logprob_start_len r)
  then with_logprob_start (-1) r else r.

(** Nothing but the fill ids and the start of the logprobs may differ. *)
Record same_but_fill (r r' : Req) : Prop := {
  sf_fill : full_untruncated_fill_ids r' = all_ids r;
  sf_ids : origin_input_ids r' = origin_input_ids r ∧ output_ids r' = output_ids r;
  sf_key : req_extra_key r' = req_extra_key r;
  sf_idx : req_pool_idx r' = req_pool_idx r;
  sf_lens : kv_committed_len r' = kv_committed_len r ∧ kv_allocated_len r' = kv_allocated_len r;
  sf_flags : kv_committed_freed r' = kv_committed_freed r ∧ kv_overallocated_freed r' = kv_overallocated_freed r;
  sf_chunks : inflight_middle_chunks r' = inflight_middle_chunks r;
  sf_logprob : return_logprob r' = return_logprob r;
  sf_start : session_streaming r = false → logprob_start_len r' = logprob_start_len r;
  sf_prefix : prefix_indices r' = prefix_indices r ∧ cache_protected_len r' = cache_protected_len r ∧
    last_node r' = last_node r;
}.

Lemma refreshed_same r : fill_ok r → same_but_fill r (refreshed r).
Proof.
  intros Hok. destruct (refresh_fill_ids_all r Hok) as [Hf _]. unfold refreshed.
  assert (Hs : session_streaming (refresh_fill_ids r) = session_streaming r)
    by (unfold refresh_fill_ids; by case_match).
  rewrite Hs. unfold all_ids. destruct (session_streaming r) eqn:Hst; cbn [andb].
  - case_match; (split; [exact Hf|rewrite ?Hst; unfold refresh_fill_ids; by case_match..]).
  - split; [exact Hf|unfold refresh_fill_ids; by case_match..].
Qed.

Section round.
Context {A : Type} `{KVPool A} `{!KVPoolTotal A} `{!KVPoolSlots A} `{KVAlloc A}.
Context `{Env} `{!EnvLaws} `{HeapQ} `{!HeapQLaws}.
Variable cfg : Config.
Hypothesis Hdis : disable cfg = false.

(** A limit cuts the tokens. *)
Lemma view_limit_units r ids lim :
  units (view (is_eagle cfg) (mkKey ids (req_extra_key r) false lim)) =
  units (token_key cfg r (take (default (length ids) lim) ids)) ∧
  key_len (view (is_eagle cfg) (mkKey ids (req_extra_key r) false lim)) =
  key_len (token_key cfg r (take (default (length ids) lim) ids)).
Proof.
  assert (Hraw : ∀ b, take (raw_len (mkKey ids (req_extra_key r) b lim)) ids
    = take (default (length ids) lim) ids ∧
    raw_len (mkKey ids (req_extra_key r) b lim) = length (take (default (length ids) lim) ids)).
  { intros b. unfold raw_len. cbn [limit token_ids]. rewrite length_take. destruct lim as [l|]; cbn [default from_option id].
    - destruct (Nat.ltb_spec l (length ids)); (split; [|lia]); [done|].
      by rewrite firstn_all, take_ge by lia.
    - split; [done|lia]. }
  unfold view, maybe_to_bigram_view, token_key, units, key_len.
  destruct (is_eagle cfg); cbn [andb negb is_bigram fst token_ids extra_key limit];
    rewrite !(proj1 (Hraw _)), !(proj2 (Hraw _)); unfold raw_len; cbn [limit token_ids]; by rewrite firstn_all.
Qed.

(** [init_next_round_input]: the request gets a cached prefix of all its tokens but
    the last, or of those before the first wanted logprob. *)
Lemma next_round_ok (s : Sys A) r L :
  cache_wf cfg (cache s) L → fill_ok r →
  ∃ vs n st', init_next_round_input cfg r s =
      Ok (with_prefix vs (length vs) (Some n) (refreshed r), mkSys st' (req_to_token_pool s)) ∧
    cache_wf cfg st' L ∧ kept (cache s) st' ∧ all_slots st' ≡ₚ all_slots (cache s) ∧
    (length vs ≤ length (all_ids r) - 1)%nat ∧
    (return_logprob r = true → session_streaming r = false → 0 ≤ logprob_start_len r →
       Z.of_nat (length vs) ≤ logprob_start_len r) ∧
    down (tree st') (req_extra_key r) (root_node (tree st'))
      (take (length vs) (units (token_key cfg r (all_ids r)))) vs n ∧
    allocator st' = allocator (cache s) ∧ (length vs ≤ key_len (token_key cfg r (all_ids r)))%nat.
Proof.
  intros Hw Hok. unfold init_next_round_input. fold (refreshed r).
  destruct (refreshed_same r Hok) as [Hf _ Hk _ _ _ _ Hrl Hls _].
  rewrite Hf, Hk, (proj1 (refresh_fill_ids_all r Hok)). fold (all_ids r).
  destruct (if has_embed_overrides (refreshed r) then _ else _) as [ids lim] eqn:Hids.
  set (key := mkKey ids (req_extra_key r) false lim).
  destruct (match_prefix_ok cfg (cache s) L key Hw Hdis) as (vs & n & st' & -> & Hs); [done|].
  cbn [rbind]. pose proof (match_same_content cfg _ _ _ _ _ _ Hs) as Hsc. destruct force_miss.
  { exists [], (root_node (tree st')), st'. split; [done|]. split_and!; cbn [length]; try lia.
    - apply Hs.
    - by apply (kept_same_content cfg).
    - by apply (same_content_slots cfg).
    - constructor.
    - apply Hsc. }
  exists vs, n, st'. split; [done|].
  pose proof (ms_len _ _ _ _ _ _ _ Hs) as Hl.
  destruct (view_limit_units r ids lim) as [Hu Hkl]. fold key in Hu, Hkl. rewrite Hkl in Hl.
  assert (Hpre : take (default (length ids) lim) ids `prefix_of` all_ids r).
  { destruct (has_embed_overrides (refreshed r)); injection Hids as <- <-; [by exists (all_ids r)|apply prefix_take]. }
  assert (Hlen : (length vs ≤ Z.to_nat (compute_max_prefix_len (refreshed r) (Z.of_nat (length (all_ids r)))))%nat).
  { pose proof (view_raw_len (is_eagle cfg) ids (req_extra_key r) lim) as Hv. fold key in Hv. rewrite Hkl in Hv.
    assert (Hv' : (length vs ≤ Nat.min (length ids) (default (length ids) lim))%nat) by lia. clear Hv.
    destruct (has_embed_overrides (refreshed r)); injection Hids as <- <-;
      cbn [default from_option id length] in Hv'; lia. }
  unfold compute_max_prefix_len in Hlen. rewrite Hrl in Hlen. split_and!.
  - apply Hs.
  - by apply (kept_same_content cfg).
  - by apply (same_content_slots cfg).
  - case_match; lia.
  - intros Hlp Hst H0le. rewrite Hlp, (Hls Hst) in Hlen. cbn in Hlen.
    rewrite (proj2 (Z.leb_le _ _)) in Hlen by lia. lia.
  - rewrite (ms_root _ _ _ _ _ _ _ Hs). rewrite <-(take_units_prefix cfg r _ (all_ids r) (length vs) Hpre Hl).
    rewrite <-Hu. exact (ms_down _ _ _ _ _ _ _ Hs).
  - apply Hsc.
  - etrans; [exact Hl|]. by apply key_len_prefix.
Qed.
End round.

(** ** Release *)

Section release.
Context {A : Type} `{KVPool A} `{!KVPoolTotal A} `{!KVPoolSlots A} `{KVAlloc A}.
Context `{Env} `{!EnvLaws} `{HeapQ} `{!HeapQLaws}.
Variable cfg : Config.
Variable strip : bool.
Hypothesis Hdis : disable cfg = false.
Notation ps := (page_size cfg).

(** The locks on the tree when [r] holds its own besides [L]. *)
Definition locks_with (r : Req) (L : list nat) : list nat :=
  match last_node r with Some n => n :: L | None => L end.

(** Where the slots allocated beyond the committed ones begin. *)
Definition over_start (r : Req) : nat :=
  let c := cache_commit_len strip r in if (1 <? ps)%nat then ceil_align c ps else c.

(** The part of [release_kv_cache] that frees the over-allocated slots. *)
Lemma free_over_ok (s : Sys A) st r L idx row :
  cache_wf cfg st L → req_to_token (req_to_token_pool s) !! idx = Some row →
  ∃ st2, (if (over_start r <? kv_allocated_len r)%nat then
      let! indices := pool_read (req_to_token_pool s) idx (over_start r) (kv_allocated_len r) in
      free_kv indices st else Ok st) = Ok st2 ∧ cache_wf cfg st2 L ∧ kept st st2 ∧ tree st2 = tree st ∧
    kv_slots (allocator st2) ≡ₚ slice (over_start r) (kv_allocated_len r) row ++ kv_slots (allocator st).
Proof.
  intros Hw Hrow. destruct (Nat.ltb_spec (over_start r) (kv_allocated_len r)) as [Hlt|Hge].
  - unfold pool_read. rewrite Hrow. cbn [of_option rbind].
    destruct (free_kv_ok cfg st (slice (over_start r) (kv_allocated_len r) row) L Hw)
      as (st2 & ? & ? & ? & _ & ?). exists st2. split_and!; try done. by eapply kept_free.
  - exists st. split_and!; try done; [by apply (kept_same_content cfg), (same_content_tree cfg)|]. unfold slice.
    by replace (kv_allocated_len r - over_start r)%nat with 0%nat by lia.
Qed.

(** The rows of the table are untouched. *)
Definition same_table (p p' : ReqToTokenPool) : Prop :=
  req_to_token p' = req_to_token p ∧ rp_size p' = rp_size p ∧ max_context_len p' = max_context_len p.

Definition released (r : Req) : Req := with_pool_idx None (with_freed true true r).

Lemma release_kv_cache_ok s r spec_algo is_insert L others idx row ids kv :
  cache_wf cfg (cache s) (locks_with r L) →
  kv_committed_freed r = false → kv_overallocated_freed r = false →
  req_pool_idx r = Some idx → req_to_token (req_to_token_pool s) !! idx = Some row →
  ids = take (cache_commit_len strip r) (origin_input_ids r ++ output_ids r) →
  kv = take (length ids) row → req_slots cfg (cache s) r ids kv →
  (spec_algo = false → strip = false → cache_commit_len strip r = kv_allocated_len r) →
  pool_inv (req_to_token_pool s) (r :: others) →
  ∃ s', release_kv_cache cfg strip spec_algo r is_insert s = Ok (released r, s') ∧
    cache_wf cfg (cache s') L ∧ pool_inv (req_to_token_pool s') (released r :: others) ∧
    same_table (req_to_token_pool s) (req_to_token_pool s') ∧
    all_slots (cache s') ≡ₚ all_slots (cache s) ++ owned r kv ++
      slice (over_start r) (kv_allocated_len r) row ∧
    (∀ e us w, cached ps (tree (cache s)) e us w → cached ps (tree (cache s')) e us w) ∧
    (is_insert = true → skip_radix_cache_insert r = false → disable_finished_insert cfg = false →
       ∃ vs, cached ps (tree (cache s')) (req_extra_key r)
         (take (aligned_len cfg r ids) (units (token_key cfg r ids))) vs) ∧
    kept (cache s) (cache s').
Proof.
  intros Hw Hc Ho Hidx Hrow Hids Hkv Hrs Hspec Hpool.
  assert (Hread : pool_read (req_to_token_pool s) idx 0 (length ids) = Ok kv).
  { unfold pool_read. rewrite Hrow. cbn. by rewrite Hkv, slice_take. }
  unfold release_kv_cache. rewrite Hidx.
  destruct (cache_finished_req_ok cfg strip s r (is_insert && negb (skip_radix_cache_insert r)) L idx ids kv)
    as ([st1 p1] & -> & Hw1 & Hp1 & Hs1 & Hmono & Hins & Hk1); try done.
  cbn [cache req_to_token_pool] in Hw1, Hp1, Hs1, Hmono, Hins, Hk1. subst p1.
  unfold rbind at 1. unfold pop_overallocated_kv_cache.
  cbn [kv_overallocated_freed with_freed]. rewrite Ho. cbn [negb py_assert rbind].
  set (r2 := with_freed _ true _).
  change (cache_commit_len strip r2) with (cache_commit_len strip r).
  change (kv_allocated_len r2) with (kv_allocated_len r).
  assert ((if negb spec_algo && negb strip
    then py_assert (cache_commit_len strip r =? kv_allocated_len r)%nat else Ok ()) = Ok ()) as ->.
  { destruct spec_algo, strip; try done. rewrite Hspec by done. cbn. by rewrite Nat.eqb_refl. }
  cbn [rbind]. fold (over_start r). unfold row_of. cbn [req_pool_idx with_freed r2]. rewrite Hidx.
  cbn [of_option rbind req_to_token_pool cache].
  destruct (free_over_ok s st1 r L idx row Hw1 Hrow) as (st2 & -> & Hw2 & Hk2 & Ht2 & Hs2). cbn [rbind].
  destruct (pool_free_ok (req_to_token_pool s) r2 others) as (r3 & p3 & Hpf & -> & Hp3 & _).
  { unfold pool_inv, rows_of in *. cbn in *. done. }
  { by eexists. }
  rewrite Hpf. cbn [rbind]. eexists; split; [done|]. cbn [cache req_to_token_pool].
  split_and!; try done.
  - unfold pool_free in Hpf. case_match; [|done]. by simplify_eq.
  - unfold all_slots in *. rewrite Ht2, Hs2. solve_perm.
  - intros e us w Hcd. rewrite Ht2. by apply Hmono.
  - intros Hi Hsk Hd. rewrite Ht2. apply Hins; [by rewrite Hi, Hsk|done].
  - by eapply kept_trans.
Qed.
End release.
