(* ===== verification/BatchAlloc.v ===== *)
(** The KV cache of a whole batch: [alloc_for_extend], [alloc_for_decode] and the
    paged allocation helpers of mem_cache/common.py, for batches without
    sliding-window layers and encoder parts.  Every request of a batch gets a row
    that holds its prefix and its new slots, and no two requests get a slot in
    common. *)

From stdpp Require Import base gmap strings list.
From Stdlib Require Import ZArith Lia.
From S2P Require Import Prelude.
From S2P Require Import PyData.
From S2P Require Import Allocator.
From S2P Require Import RadixKey.
From S2P Require Import RadixTree.
From S2P Require Import RadixInv.
From S2P Require Import RadixContent.
From S2P Require Import RadixOps.
From S2P Require Import RadixEvict.
From S2P Require Import RadixSession.
From S2P Require Import ReqCache.
From S2P Require Import ReqCacheInv.
From S2P Require Import ReqAlloc.

Open Scope Z_scope.

(** ** Sizes *)

(** The server arguments the sizes depend on. *)
Record SpecArgs := mkSpecArgs {
  speculative_algorithm : option string;
  speculative_num_steps : option Z;
  speculative_eagle_topk : option Z;
  max_speculative_num_draft_tokens : option Z;
  sa_page_size : Z;
  (** [SpeculativeAlgorithm.has_draft_kv()] *)
  has_draft_kv : bool;
}.

(** [x or d]: [None] and zero are false. *)
Definition or_default (d : Z) (x : option Z) : Z :=
  match x with Some v => if v =? 0 then d else v | None => d end.

Definition get_alloc_len_per_decode (a : SpecArgs) : result Z :=
  match speculative_algorithm a with
  | None => Ok 1
  | Some _ =>
      let spec_steps := or_default 1 (speculative_num_steps a) in
      let spec_topk := or_default 1 (speculative_eagle_topk a) in
      let page_size := sa_page_size a in
      let! spec_tokens := of_option TypeError (max_speculative_num_draft_tokens a) in
      if (page_size =? 1) || (spec_topk =? 1) || negb (has_draft_kv a)
      then Ok (Z.max (spec_steps * spec_topk) spec_tokens)
      else
        let num_new_pages_per_topk := ((page_size - 1) + spec_steps + page_size - 1) / page_size in
        Ok (Z.max (num_new_pages_per_topk * page_size * spec_topk) spec_tokens)
  end.

Definition get_alloc_reserve_per_decode (a : SpecArgs) : result Z :=
  let! n := get_alloc_len_per_decode a in Ok (2 * n).

Definition get_req_to_token_extra_context_len (a : SpecArgs) : result Z :=
  let extra := 4 + default 0 (max_speculative_num_draft_tokens a) in
  match speculative_algorithm a with
  | Some _ =>
      if (1 <? sa_page_size a) && (1 <? or_default 1 (speculative_eagle_topk a))
      then let! n := get_alloc_reserve_per_decode a in Ok (Z.max extra n)
      else Ok extra
  | None => Ok extra
  end.

(** ** Operations *)

(** What the batches need of a paged allocator. *)
Class KVPaged (A : Type) := {
  kv_page_size : A → Z;
  kv_alloc_extend : A → list Z → list Z → list Z → Z → result (option (list Z) * A);
  kv_alloc_decode : A → list Z → list Z → result (option (list Z) * A);
}.

(** The methods of the allocator classes. *)
Definition allocator_paged (junk : Z → Z) (grid : nat → list nat) : KVPaged Allocator := {|
  kv_page_size := al_page_size;
  kv_alloc_extend st pres seqs lasts n := paged_alloc_extend junk grid st pres seqs lasts n None;
  kv_alloc_decode st seqs lasts := paged_alloc_decode junk grid st seqs lasts;
|}.

Record ExtendBatch := mkBatch {
  b_reqs : list Req;
  b_prefix_lens : list nat;
  b_extend_lens : list nat;
  b_seq_lens : list nat;
  b_extend_num_tokens : Z;
}.

(** One store of a gather of rows: [req_to_token[idx, loc] = v]. *)
Definition pool_write_at (p : ReqToTokenPool) (idx loc : nat) (v : Z) : result ReqToTokenPool :=
  let! row := of_option IndexError (req_to_token p !! idx) in
  if (loc <? length row)%nat then
    Ok (mkPool (rp_size p) (max_context_len p) (<[idx := <[loc := v]> row]> (req_to_token p))
      (rp_free_slots p))
  else Raise IndexError.

(** [write((indices, locs), values)], one value per row. *)
Fixpoint pool_write_rows (p : ReqToTokenPool) (idxs locs : list nat) (vs : list Z)
    : result ReqToTokenPool :=
  match idxs, locs, vs with
  | [], [], [] => Ok p
  | i :: idxs, l :: locs, v :: vs =>
      let! p := pool_write_at p i l v in
      pool_write_rows p idxs locs vs
  | _, _, _ => Raise RuntimeError
  end.

(** [req_to_token[indices, seq_lens - 1]]; index -1 reads the last column. *)
Fixpoint pool_gather (p : ReqToTokenPool) (idxs seq_lens : list nat) : result (list Z) :=
  match idxs, seq_lens with
  | [], [] => Ok []
  | i :: idxs, n :: seq_lens =>
      let! row := of_option IndexError (req_to_token p !! i) in
      let! x := of_option IndexError (match n with O => last row | S m => row !! m end) in
      let! xs := pool_gather p idxs seq_lens in
      Ok (x :: xs)
  | _, _ => Raise RuntimeError
  end.

Section batch_ops.
Context {A : Type} `{KVPool A} `{KVAlloc A} `{KVPaged A} `{Env} `{HeapQ}.
Variable cfg : Config.
Implicit Types st : RadixCache A.

Definition alloc_paged_token_slots_extend (prefix_lens seq_lens last_loc : list Z)
    (extend_num_tokens : Z) st : result (list Z * RadixCache A) :=
  let num_tokens :=
    extend_num_tokens + Z.of_nat (length seq_lens) * kv_page_size (allocator st) in
  let! st := evict_from_tree_cache cfg num_tokens st in
  let! (out_cache_loc, a) :=
    kv_alloc_extend (allocator st) prefix_lens seq_lens last_loc extend_num_tokens in
  match out_cache_loc with
  | None => Raise RuntimeError
  | Some l => Ok (l, with_allocator a st)
  end.

Definition alloc_paged_token_slots_decode (seq_lens last_loc : list Z) st
    : result (list Z * RadixCache A) :=
  let num_tokens := Z.of_nat (length seq_lens) * kv_page_size (allocator st) in
  let! st := evict_from_tree_cache cfg num_tokens st in
  let! (out_cache_loc, a) := kv_alloc_decode (allocator st) seq_lens last_loc in
  match out_cache_loc with
  | None => Raise RuntimeError
  | Some l => Ok (l, with_allocator a st)
  end.

(** The arguments of [write_cache_indices], request by request. *)
Definition write_args (idxs : list nat) (b : ExtendBatch) : list (nat * nat * nat * nat) :=
  zip (zip (zip idxs (b_prefix_lens b)) (b_seq_lens b)) (b_extend_lens b).

Definition last_locs (prefixes : list (list Z)) : list Z := (λ t, default (-1) (last t)) <$> prefixes.

(** Returns the new slots, the rows and the requests with their rows. *)
Definition alloc_for_extend (b : ExtendBatch) (s : Sys A)
    : result (list Z * list nat * list Req * Sys A) :=
  let prefix_tensors := prefix_indices <$> b_reqs b in
  let! (req_pool_indices, reqs, s) := alloc_req_slots (b_reqs b) s in
  let! (out_cache_loc, st) :=
    if (page_size cfg =? 1)%nat then alloc_token_slots cfg (b_extend_num_tokens b) (cache s)
    else
      alloc_paged_token_slots_extend (Z.of_nat <$> b_prefix_lens b) (Z.of_nat <$> b_seq_lens b)
        (last_locs prefix_tensors) (b_extend_num_tokens b) (cache s) in
  let! p := write_cache_indices out_cache_loc (write_args req_pool_indices b) prefix_tensors 0
    (req_to_token_pool s) in
  Ok (out_cache_loc, req_pool_indices, reqs, mkSys st p).

Definition alloc_for_decode (req_pool_indices seq_lens : list nat) (token_per_req : nat) (s : Sys A)
    : result (list Z * Sys A) :=
  let bs := length seq_lens in
  let! (out_cache_loc, st) :=
    if (page_size cfg =? 1)%nat then alloc_token_slots cfg (Z.of_nat (bs * token_per_req)) (cache s)
    else
      let! last_loc := pool_gather (req_to_token_pool s) req_pool_indices seq_lens in
      alloc_paged_token_slots_decode ((λ n, Z.of_nat (n + token_per_req)) <$> seq_lens) last_loc
        (cache s) in
  let! p := pool_write_rows (req_to_token_pool s) req_pool_indices seq_lens out_cache_loc in
  Ok (out_cache_loc, mkSys st p).
End batch_ops.

(** ** Writing the rows *)

(** The rows a batch is written to, and the new tokens of its requests. *)
Definition arg_row (x : nat * nat * nat * nat) : nat := x.1.1.1.
Definition arg_ext (x : nat * nat * nat * nat) : nat := x.2.
Definition ext_sum (l : list (nat * nat * nat * nat)) : nat := foldr (λ x n, (arg_ext x + n)%nat) 0%nat l.

(** A request fits its row. *)
Definition arg_ok (p : ReqToTokenPool) (x : nat * nat * nat * nat) (pre : list Z) : Prop :=
  length pre = x.1.1.2 ∧ x.1.2 = (x.1.1.2 + x.2)%nat ∧
  ∃ row, req_to_token p !! arg_row x = Some row ∧ (x.1.2 ≤ length row)%nat.

Lemma write_one_ok p i row pre new sl :
  req_to_token p !! i = Some row → sl = (length pre + length new)%nat → (sl ≤ length row)%nat →
  ∃ p1 p2, pool_write p i 0 (length pre) pre = Ok p1 ∧ pool_write p1 i (length pre) sl new = Ok p2 ∧
    rp_free_slots p2 = rp_free_slots p ∧ rp_size p2 = rp_size p ∧
    req_to_token p2 = <[i := pre ++ new ++ drop sl row]> (req_to_token p).
Proof.
  intros Hrow Hsl Hle.
  destruct (pool_write_ok p i row 0 (length pre) pre) as (p1 & Hw1 & Hf1 & Hs1 & Ht1); [done|lia..|].
  cbn [take app] in Ht1. set (row1 := pre ++ drop (length pre) row) in *.
  assert (Hrow1 : req_to_token p1 !! i = Some row1).
  { rewrite Ht1. apply list_lookup_insert_eq. by eapply lookup_lt_Some. }
  assert (Hlen1 : length row1 = length row) by (unfold row1; rewrite length_app, length_drop; lia).
  destruct (pool_write_ok p1 i row1 (length pre) sl new) as (p2 & Hw2 & Hf2 & Hs2 & Ht2); [done|lia..|].
  exists p1, p2. split_and!; [done..|congruence|congruence|].
  rewrite Ht2, Ht1, list_insert_insert_eq. f_equal. unfold row1.
  rewrite take_app_length. f_equal. f_equal. rewrite drop_app_ge by lia. rewrite drop_drop.
  f_equal. lia.
Qed.

Lemma write_cache_indices_ok out args prefixes pt p :
  NoDup (arg_row <$> args) → Forall2 (arg_ok p) args prefixes →
  (pt + ext_sum args ≤ length out)%nat →
  ∃ p', write_cache_indices out args prefixes pt p = Ok p' ∧
    rp_free_slots p' = rp_free_slots p ∧ rp_size p' = rp_size p ∧
    (∀ i, i ∉ arg_row <$> args → req_to_token p' !! i = req_to_token p !! i) ∧
    ∀ k x pre row, args !! k = Some x → prefixes !! k = Some pre →
      req_to_token p !! arg_row x = Some row →
      req_to_token p' !! arg_row x = Some (pre ++
        slice (pt + ext_sum (take k args)) (pt + ext_sum (take k args) + arg_ext x) out ++ drop x.1.2 row).
Proof.
  intros Hnd Hf. revert pt p Hnd Hf. revert prefixes.
  induction args as [|[[[i pl] sl] el] args IH]; intros prefixes pt p Hnd Hf Hout.
  { inversion Hf; subst. exists p. split_and!; try done. }
  inversion Hf as [|? pre ? pres (Hpl & Hsl & row & Hrow & Hle) Hf']; subst. cbn in Hpl, Hsl, Hrow, Hle.
  cbn [fmap list_fmap] in Hnd. apply NoDup_cons in Hnd as [Hni Hnd]. cbn [arg_row fst] in Hni.
  cbn [ext_sum foldr arg_ext snd] in Hout. fold (ext_sum args) in Hout.
  assert (Hlen : length (slice pt (pt + el) out) = el).
  { unfold slice. rewrite length_take, length_drop. lia. }
  destruct (write_one_ok p i row pre (slice pt (pt + el) out) sl) as (p1 & p2 & Hw1 & Hw2 & Hf2 & Hs2 & Ht2);
    [done|lia|done|].
  cbn [write_cache_indices]. rewrite <-Hpl, Hw1. cbn [rbind]. rewrite Hw2. cbn [rbind].
  destruct (IH pres (pt + el)%nat p2 Hnd) as (p' & -> & Hf3 & Hs3 & Hother & Hrows).
  { apply Forall2_same_length_lookup. split; [by eapply Forall2_length|]. intros k x pre' Hx Hp.
    destruct (Forall2_lookup_lr _ _ _ _ _ _ Hf' Hx Hp) as (? & ? & row' & Hr & ?).
    split_and!; [done..|]. exists row'. rewrite Ht2. split; [|done].
    rewrite list_lookup_insert_ne; [done|]. intros ->. apply Hni.
    apply list_elem_of_fmap. exists x. split; [done|]. by eapply list_elem_of_lookup_2. }
  { lia. }
  exists p'. split; [done|]. split_and!; [congruence..| |].
  - intros j Hj. cbn in Hj. apply not_elem_of_cons in Hj as [Hji Hj].
    rewrite Hother by done. rewrite Ht2. by apply list_lookup_insert_ne.
  - intros [|k] x pre' row' Hx Hp Hr; cbn in Hx, Hp; simplify_eq.
    + cbn [arg_row fst snd arg_ext] in *. rewrite Hr in Hrow. injection Hrow as ->.
      rewrite Hother by done. rewrite Ht2, list_lookup_insert_eq by (by eapply lookup_lt_Some).
      cbn [take ext_sum foldr]. by rewrite Nat.add_0_r.
    + assert (Hr2 : req_to_token p2 !! arg_row x = Some row').
      { rewrite Ht2, list_lookup_insert_ne; [done|]. intros ->. apply Hni. apply list_elem_of_fmap.
        exists x. split; [done|]. by eapply list_elem_of_lookup_2. }
      rewrite (Hrows k x pre' row' Hx Hp Hr2). cbn [take ext_sum foldr arg_ext snd].
      by rewrite Nat.add_assoc.
Qed.

(** ** A batch gets its slots *)

(** The lengths of a batch fit together. *)
Record batch_ok (b : ExtendBatch) : Prop := {
  bo_prefix : b_prefix_lens b = (λ r, length (prefix_indices r)) <$> b_reqs b;
  bo_ext : length (b_extend_lens b) = length (b_reqs b);
  bo_seq : b_seq_lens b = zip_with Nat.add (b_prefix_lens b) (b_extend_lens b);
  bo_total : b_extend_num_tokens b = Z.of_nat (sum_list (b_extend_lens b));
}.

(** Every row of the pool but the first has room for a whole context. *)
Definition rows_ok (p : ReqToTokenPool) : Prop :=
  ∀ i, (1 ≤ i ≤ rp_size p)%nat → ∃ row, req_to_token p !! i = Some row ∧ length row = max_context_len p.

Lemma write_args_lookup idxs b k i r el :
  batch_ok b → idxs !! k = Some i → b_reqs b !! k = Some r → b_extend_lens b !! k = Some el →
  write_args idxs b !! k =
    Some (i, length (prefix_indices r), (length (prefix_indices r) + el)%nat, el).
Proof.
  intros [Hp _ Hs _] Hi Hr He. unfold write_args.
  assert (Hpl : b_prefix_lens b !! k = Some (length (prefix_indices r))) by (by rewrite Hp, list_lookup_fmap, Hr).
  rewrite !lookup_zip_with, Hi, Hpl, Hs, lookup_zip_with, Hpl, He. done.
Qed.

Lemma write_args_map idxs b :
  batch_ok b → length idxs = length (b_reqs b) →
  arg_row <$> write_args idxs b = idxs ∧ arg_ext <$> write_args idxs b = b_extend_lens b ∧
  length (write_args idxs b) = length (b_reqs b).
Proof.
  intros Hb Hl. pose proof Hb as [Hp He Hs _].
  assert (Hlp : length (b_prefix_lens b) = length (b_reqs b)) by (by rewrite Hp, length_fmap).
  assert (Hls : length (b_seq_lens b) = length (b_reqs b)) by (rewrite Hs, length_zip_with; lia).
  assert (Hlen : length (write_args idxs b) = length (b_reqs b)).
  { unfold write_args. rewrite !length_zip_with. lia. }
  split_and!; [| |done]; apply list_eq_same_length with (length (b_reqs b)); rewrite ?length_fmap; try lia;
    intros k x y Hk; rewrite list_lookup_fmap; intros Hx Hy;
    destruct (lookup_lt_is_Some_2 (b_reqs b) k Hk) as [r Hr];
    destruct (lookup_lt_is_Some_2 idxs k) as [i Hi]; try lia;
    destruct (lookup_lt_is_Some_2 (b_extend_lens b) k) as [el Hel]; try lia;
    rewrite (write_args_lookup idxs b k i r el) in Hx by done; cbn in Hx; congruence.
Qed.

Lemma ext_sum_take idxs b k :
  batch_ok b → length idxs = length (b_reqs b) →
  ext_sum (take k (write_args idxs b)) = sum_list (take k (b_extend_lens b)).
Proof.
  intros Hb Hl. destruct (write_args_map idxs b Hb Hl) as (_ & <- & _).
  generalize (write_args idxs b) as l. clear. intros l. revert k.
  induction l as [|x l IH]; intros [|k]; cbn; [done..|]. by rewrite <-IH.
Qed.

(** Every request of a batch fits the row it got. *)
Lemma batch_args_ok b idxs p m :
  batch_ok b → length idxs = length (b_reqs b) →
  (∀ i, i ∈ idxs → ∃ row, req_to_token p !! i = Some row ∧ length row = m) →
  Forall (λ n, n ≤ m)%nat (b_seq_lens b) →
  Forall2 (arg_ok p) (write_args idxs b) (prefix_indices <$> b_reqs b).
Proof.
  intros Hb Hlen Hin Hctx. destruct (write_args_map idxs b Hb Hlen) as (_ & _ & Hla).
  apply Forall2_same_length_lookup. rewrite length_fmap, Hla. split; [done|].
  intros k x pre Hx Hpre. rewrite list_lookup_fmap in Hpre.
  destruct (b_reqs b !! k) as [r|] eqn:Hk; [|done]. cbn in Hpre. injection Hpre as <-.
  destruct (lookup_lt_is_Some_2 idxs k) as [i Hi]; [rewrite Hlen; by eapply lookup_lt_Some|].
  destruct (lookup_lt_is_Some_2 (b_extend_lens b) k) as [el Hel];
    [rewrite (bo_ext _ Hb); by eapply lookup_lt_Some|].
  rewrite (write_args_lookup idxs b k i r el Hb Hi Hk Hel) in Hx. injection Hx as <-.
  split_and!; [done..|]. destruct (Hin i) as (row & Hr0 & Hrl); [by eapply list_elem_of_lookup_2|].
  exists row. split; [done|]. cbn. rewrite Hrl.
  apply (Forall_lookup_1 _ _ k (length (prefix_indices r) + el)%nat Hctx).
  rewrite (bo_seq _ Hb), lookup_zip_with, (bo_prefix _ Hb), list_lookup_fmap, Hk, Hel. done.
Qed.

(** A row of a request of the pool is a row of the table. *)
Lemma pool_rows_there p p0 reqs others :
  pool_inv p (reqs ++ others) → rp_size p = rp_size p0 → req_to_token p = req_to_token p0 → rows_ok p0 →
  ∀ i, i ∈ rows_of reqs → ∃ row, req_to_token p !! i = Some row ∧ length row = max_context_len p0.
Proof.
  intros Hpi Hsz Hrt Hrows i Hi. rewrite Hrt. apply Hrows. unfold pool_inv in Hpi. rewrite Hsz in Hpi.
  assert (i ∈ seq 1 (rp_size p0)) as Hs%elem_of_seq; [|lia].
  rewrite <-Hpi. unfold rows_of in *. rewrite omap_app. set_solver.
Qed.

(** The stores of a decode step. *)
Lemma pool_write_rows_ok p idxs locs vs :
  NoDup idxs → length locs = length idxs → length vs = length idxs →
  (∀ k i n, idxs !! k = Some i → locs !! k = Some n →
     ∃ row, req_to_token p !! i = Some row ∧ (n < length row)%nat) →
  ∃ p', pool_write_rows p idxs locs vs = Ok p' ∧ rp_free_slots p' = rp_free_slots p ∧
    rp_size p' = rp_size p ∧
    (∀ i, i ∉ idxs → req_to_token p' !! i = req_to_token p !! i) ∧
    ∀ k i n x, idxs !! k = Some i → locs !! k = Some n → vs !! k = Some x →
      req_to_token p' !! i = <[n := x]> <$> req_to_token p !! i.
Proof.
  intros Hnd. revert p locs vs. induction Hnd as [|i idxs Hi Hnd IH]; intros p locs vs Hll Hlv Hrows.
  { destruct locs, vs; try done. exists p. by split_and!. }
  destruct locs as [|n locs]; [done|]. destruct vs as [|v vs]; [done|]. cbn [pool_write_rows].
  destruct (Hrows 0%nat i n eq_refl eq_refl) as (row & Hrow & Hn).
  unfold pool_write_at. rewrite Hrow. cbn [of_option rbind]. rewrite (proj2 (Nat.ltb_lt _ _)) by done.
  cbn [rbind]. set (p1 := mkPool _ _ _ _).
  assert (Hne : ∀ j, j ≠ i → req_to_token p1 !! j = req_to_token p !! j).
  { intros j Hj. by apply list_lookup_insert_ne. }
  destruct (IH p1 locs vs) as (p' & -> & Hf & Hs & Hother & Hwr); [cbn in *; lia..| |].
  { intros k j m Hk Hm. rewrite Hne; [by apply (Hrows (S k))|]. intros ->. by apply Hi; eapply list_elem_of_lookup_2. }
  exists p'. split_and!; try done.
  - intros j [? ?]%not_elem_of_cons. rewrite Hother, Hne; done.
  - intros [|k] j m x Hj Hm Hx; cbn in Hj, Hm, Hx; simplify_eq.
    + rewrite Hother, Hrow by done. cbn. apply list_lookup_insert_eq. by eapply lookup_lt_Some.
    + rewrite (Hwr k j m x), Hne; try done. intros ->. by apply Hi; eapply list_elem_of_lookup_2.
Qed.

Section batch_laws.
Context {A : Type} `{KVPool A} `{!KVPoolTotal A} `{!KVPoolSlots A} `{KVAlloc A} `{!KVAllocLaws A} `{KVPaged A}.
Context `{Env} `{!EnvLaws} `{HeapQ} `{!HeapQLaws}.
Variable cfg : Config.
Hypothesis Hdis : disable cfg = false.

Lemma alloc_for_extend_ok b s L others :
  page_size cfg = 1%nat → cache_wf cfg (cache s) L → kv_ready (allocator (cache s)) → batch_ok b →
  pool_inv (req_to_token_pool s) (b_reqs b ++ others) → rows_ok (req_to_token_pool s) →
  Forall (λ r, is_Some (req_pool_idx r) → 0 < inflight_middle_chunks r ∨ (0 < kv_committed_len r)%nat) (b_reqs b) →
  (fresh_reqs (b_reqs b) ≤ pool_available_size (req_to_token_pool s))%nat →
  Forall (λ n, n ≤ max_context_len (req_to_token_pool s))%nat (b_seq_lens b) →
  b_extend_num_tokens b ≤ kv_available_size (allocator (cache s)) + evictable_size_ (tree (cache s)) →
  ∃ out idxs reqs' s', alloc_for_extend cfg b s = Ok (out, idxs, reqs', s') ∧
    Z.of_nat (length out) = b_extend_num_tokens b ∧ length idxs = length (b_reqs b) ∧ NoDup idxs ∧
    idxs = rows_of reqs' ∧
    cache_wf cfg (cache s') L ∧ all_slots (cache s) ≡ₚ out ++ all_slots (cache s') ∧
    pool_inv (req_to_token_pool s') (reqs' ++ others) ∧
    (∀ i, i ∉ idxs → req_to_token (req_to_token_pool s') !! i = req_to_token (req_to_token_pool s) !! i) ∧
    (∀ k i r el, idxs !! k = Some i → b_reqs b !! k = Some r → b_extend_lens b !! k = Some el →
      let pt := sum_list (take k (b_extend_lens b)) in
      ∃ row, req_to_token (req_to_token_pool s) !! i = Some row ∧
        req_to_token (req_to_token_pool s') !! i = Some (prefix_indices r ++ slice pt (pt + el) out ++
          drop (length (prefix_indices r) + el) row)) ∧
    kv_ready (allocator (cache s')) ∧ locked_kept (cache s) (cache s') ∧
    Forall2 (λ r r', r' = with_pool_idx (req_pool_idx r') r ∧ (req_pool_idx r = None ∨ r' = r))
      (b_reqs b) reqs'.
Proof.
  intros Hps Hw Hr Hb Hpi Hrows Hreuse Hfree Hctx Htok. unfold alloc_for_extend, alloc_req_slots.
  pose proof (pool_alloc_ok (req_to_token_pool s) (b_reqs b) others Hpi Hreuse) as Hpa.
  unfold pool_available_size in Hfree. rewrite (proj2 (Nat.ltb_ge _ _)) in Hpa by done.
  destruct Hpa as (idxs & reqs' & p' & -> & Hidx & Hlen & Hnd & Hpi' & Hrt & Hsz & Hf2).
  cbn [rbind cache req_to_token_pool]. rewrite Hps, Nat.eqb_refl.
  pose proof (bo_total _ Hb) as Htot.
  destruct (alloc_token_slots_ok cfg (b_extend_num_tokens b) (cache s) L Hw Hdis Hr)
    as (out & st' & -> & Hout & Hw' & Hrdy & Hslots & _ & Hlk); [lia|]. cbn [rbind].
  destruct (write_args_map idxs b Hb Hlen) as (Hrow & Hext & Hla).
  assert (Hin := pool_rows_there p' _ reqs' others Hpi' Hsz Hrt Hrows). rewrite <-Hidx in Hin.
  destruct (write_cache_indices_ok out (write_args idxs b) (prefix_indices <$> b_reqs b) 0 p')
    as (p2 & -> & Hfs2 & Hs2 & Hother & Hwr).
  - by rewrite Hrow.
  - by eapply batch_args_ok.
  - pose proof (ext_sum_take idxs b (length (write_args idxs b)) Hb Hlen) as Hes.
    rewrite firstn_all, Hla, <-(bo_ext _ Hb), firstn_all in Hes. lia.
  - cbn [rbind]. exists out, idxs, reqs', (mkSys st' p2). cbn [cache req_to_token_pool].
    split_and!; try done.
    + unfold pool_inv in *. by rewrite Hfs2, Hs2.
    + intros i Hi. rewrite Hother, Hrt; [done|]. by rewrite Hrow.
    + intros k i r el Hi Hk Hel. destruct (Hin i) as (row & Hr0 & _); [by eapply list_elem_of_lookup_2|].
      pose proof (Hwr k _ (prefix_indices r) row (write_args_lookup idxs b k i r el Hb Hi Hk Hel)) as Hres.
      rewrite (ext_sum_take idxs b k Hb Hlen) in Hres. cbn in Hres. exists row. rewrite <-Hrt. split; [done|].
      apply Hres; [|done]. by rewrite list_lookup_fmap, Hk.
Qed.

Lemma alloc_for_decode_ok idxs seq_lens s L :
  page_size cfg = 1%nat → cache_wf cfg (cache s) L → kv_ready (allocator (cache s)) →
  NoDup idxs → length seq_lens = length idxs →
  (∀ k i n, idxs !! k = Some i → seq_lens !! k = Some n →
     ∃ row, req_to_token (req_to_token_pool s) !! i = Some row ∧ (n < length row)%nat) →
  Z.of_nat (length idxs) ≤ kv_available_size (allocator (cache s)) + evictable_size_ (tree (cache s)) →
  ∃ out s', alloc_for_decode cfg idxs seq_lens 1 s = Ok (out, s') ∧ length out = length idxs ∧
    cache_wf cfg (cache s') L ∧ all_slots (cache s) ≡ₚ out ++ all_slots (cache s') ∧
    (∀ i, i ∉ idxs → req_to_token (req_to_token_pool s') !! i = req_to_token (req_to_token_pool s) !! i) ∧
    (∀ k i n x, idxs !! k = Some i → seq_lens !! k = Some n → out !! k = Some x →
      req_to_token (req_to_token_pool s') !! i = <[n := x]> <$> req_to_token (req_to_token_pool s) !! i) ∧
    kv_ready (allocator (cache s')) ∧ locked_kept (cache s) (cache s') ∧
    rp_free_slots (req_to_token_pool s') = rp_free_slots (req_to_token_pool s) ∧
    rp_size (req_to_token_pool s') = rp_size (req_to_token_pool s).
Proof.
  intros Hps Hw Hr Hnd Hlen Hrows Htok. unfold alloc_for_decode. rewrite Hps, Nat.eqb_refl, Nat.mul_1_r.
  destruct (alloc_token_slots_ok cfg (Z.of_nat (length seq_lens)) (cache s) L Hw Hdis Hr)
    as (out & st' & -> & Hout & Hw' & ? & Hslots & _ & ?); [lia|]. cbn [rbind].
  destruct (pool_write_rows_ok (req_to_token_pool s) idxs seq_lens out Hnd Hlen)
    as (p' & -> & ? & ? & Hother & Hwr); [lia|done|]. cbn [rbind].
  exists out, (mkSys st' p'). split_and!; try done. lia.
Qed.

(** The dimensions of the table never change. *)
Definition same_shape (p p' : ReqToTokenPool) : Prop :=
  rp_size p' = rp_size p ∧ max_context_len p' = max_context_len p ∧
  length <$> req_to_token p' = length <$> req_to_token p.

Global Instance same_shape_preorder : PreOrder same_shape.
Proof.
  split; [by intros p|]. intros p1 p2 p3 (?&?&?) (?&?&?). split_and!; congruence.
Qed.

Lemma rows_ok_shape p p' : same_shape p p' → rows_ok p → rows_ok p'.
Proof.
  intros (Hs & Hm & Hl) Hp i Hi. rewrite Hs in Hi. destruct (Hp i Hi) as (row & Hrow & Hlen).
  apply (f_equal (.!! i)) in Hl. rewrite !list_lookup_fmap, Hrow in Hl. cbn in Hl.
  destruct (req_to_token p' !! i) as [row'|]; [|done]. exists row'. split; [done|]. cbn in Hl. congruence.
Qed.

Lemma insert_lengths (t : list (list Z)) i row row' :
  t !! i = Some row → length row' = length row → length <$> <[i := row']> t = length <$> t.
Proof.
  intros Hi Hl. rewrite list_fmap_insert. apply list_insert_id. by rewrite list_lookup_fmap, Hi, Hl.
Qed.

Lemma pool_write_shape p idx a b vs p' : pool_write p idx a b vs = Ok p' → same_shape p p'.
Proof.
  unfold pool_write. intros Hw. inv_ok. rename ra into row. case_match eqn:Hl; [|done]. injection Hw as <-.
  split_and!; try done. cbn. eapply insert_lengths; [done|]. apply Nat.eqb_eq in Hl.
  rewrite !length_app, Hl, length_take, length_drop. lia.
Qed.

Lemma write_cache_indices_shape out args prefixes pt p p' :
  write_cache_indices out args prefixes pt p = Ok p' → same_shape p p'.
Proof.
  revert prefixes pt p; induction args as [|[[[i pl] sl] el] args IH]; intros [|pre prefixes] pt p;
    cbn [write_cache_indices]; try (intros; by simplify_eq).
  intros Hw. inv_ok. etrans; [by eapply pool_write_shape|]. etrans; [by eapply pool_write_shape|]. by eapply IH.
Qed.

Lemma pool_alloc_shape p rs o rs' p' : pool_alloc p rs = Ok (o, rs', p') → same_shape p p'.
Proof. unfold pool_alloc. intros Ha. inv_ok. case_match; inv_ok; done. Qed.

Lemma alloc_for_extend_shape b s out idxs rs s' :
  alloc_for_extend cfg b s = Ok (out, idxs, rs, s') → same_shape (req_to_token_pool s) (req_to_token_pool s').
Proof.
  intros Ha. apply rbind_Ok in Ha as ([[i r] s1] & Hs & Ha). apply rbind_Ok in Ha as ([l st] & _ & Ha).
  apply rbind_Ok in Ha as (p & Hp & Ha). simplify_eq. cbn. etrans; [|by eapply write_cache_indices_shape].
  apply rbind_Ok in Hs as ([[o r'] p'] & Hpa & Hs). case_match; simplify_eq. by eapply pool_alloc_shape.
Qed.

Lemma pool_write_rows_shape p idxs locs vs p' : pool_write_rows p idxs locs vs = Ok p' → same_shape p p'.
Proof.
  revert p locs vs; induction idxs as [|i idxs IH]; intros p [|l locs] [|v vs]; cbn [pool_write_rows];
    try done; [by intros; simplify_eq|]. intros Hw. inv_ok. etrans; [|by eapply IH].
  unfold pool_write_at in *. inv_ok. case_match; [|done]. simplify_eq. split_and!; try done. cbn.
  eapply insert_lengths; [done|]. apply length_insert.
Qed.

Lemma alloc_for_decode_shape idxs sl n s out s' :
  alloc_for_decode cfg idxs sl n s = Ok (out, s') → same_shape (req_to_token_pool s) (req_to_token_pool s').
Proof.
  intros Ha. apply rbind_Ok in Ha as ([l st] & _ & Ha). apply rbind_Ok in Ha as (p & Hp & Ha).
  simplify_eq. by eapply pool_write_rows_shape.
Qed.
End batch_laws.
