(* ===== verification/WriteKernel.v ===== *)
(** The Triton branch of [write_cache_indices] (mem_cache/common.py):
    [write_req_to_token_pool_triton] of mem_cache/triton_ops/common.py, one program per
    request over the flat memory of [req_to_token].  Whatever order the programs run in,
    it leaves the rows the torch branch leaves. *)

From stdpp Require Import base list.
From Stdlib Require Import ZArith Lia.
From S2P Require Import Prelude.
From S2P Require Import Allocator.
From S2P Require Import AllocKernel.
From S2P Require Import ReqCache.
From S2P Require Import BatchAlloc.

Open Scope Z_scope.

(** ** The kernel *)

Definition BLOCK_SIZE : nat := 512.

(** [for i in range(tl.cdiv(n, BLOCK_SIZE))]: lane [o] of block [i] copies the word at
    [i * BLOCK_SIZE + o] when it is below [n]; a load of a masked lane has no effect. *)
Definition copy_blocks (dst : Z) (src : Z → Z) (n : Z) (mem : list Z) : list Z :=
  foldl (λ mem (i : nat),
      tl_store (dst + Z.of_nat i * Z.of_nat BLOCK_SIZE) BLOCK_SIZE
        (λ o, src (Z.of_nat i * Z.of_nat BLOCK_SIZE + o))
        (λ o, Z.of_nat i * Z.of_nat BLOCK_SIZE + o <? n) mem)
    mem (seq 0 (Z.to_nat ((n + Z.of_nat BLOCK_SIZE - 1) / Z.of_nat BLOCK_SIZE))).

(** The program [pid] of the grid; [junk] are the words behind the tensors. *)
Definition write_req_to_token_pool_triton (junk : Z → Z) (req_pool_indices : list nat)
    (prefix_tensors : list (list Z)) (pre_lens seq_lens extend_lens : list nat) (out_cache_loc : list Z)
    (req_to_token_ptr_stride : nat) (pid : nat) (mem : list Z) : list Z :=
  let req_pool_index := Z.of_nat (nth pid req_pool_indices 0%nat) in
  let pre_len := Z.of_nat (nth pid pre_lens 0%nat) in
  let seq_len := Z.of_nat (nth pid seq_lens 0%nat) in
  let prefix_tensor := nth pid prefix_tensors [] in
  let row := req_pool_index * Z.of_nat req_to_token_ptr_stride in
  let mem := copy_blocks row (load_or junk prefix_tensor) pre_len mem in
  let cumsum_start := torch_sum (Z.of_nat <$> take pid extend_lens) in
  copy_blocks (row + pre_len) (λ offset, load_or junk out_cache_loc (cumsum_start + offset)) (seq_len - pre_len) mem.

(** ** What a program writes *)

Lemma copy_blocks_overwrite dst src n mem :
  0 ≤ dst → 0 ≤ n → copy_blocks dst src n mem = overwrite (Z.to_nat dst) (src <$> seqZ 0 n) mem.
Proof.
  intros Hd Hn. unfold copy_blocks. rewrite blocks_overwrite by done. do 3 f_equal. apply Z.min_l.
  assert (0 < Z.of_nat BLOCK_SIZE) by (unfold BLOCK_SIZE; lia). generalize dependent (Z.of_nat BLOCK_SIZE). intros B HB.
  assert (0 ≤ (n + B - 1) / B) by (apply Z.div_pos; lia). rewrite Z2Nat.id by done.
  pose proof (Z.div_mod (n + B - 1) B ltac:(lia)). pose proof (Z.mod_pos_bound (n + B - 1) B HB). nia.
Qed.

Lemma loads_slice junk (l : list Z) a n :
  (a + n ≤ length l)%nat →
  (λ o, load_or junk l (Z.of_nat a + o)) <$> seqZ 0 (Z.of_nat n) = slice a (a + n) l.
Proof.
  intros Hl. unfold slice. replace (a + n - a)%nat with n by lia. apply list_eq_same_length with n.
  - rewrite length_take, length_drop. lia.
  - rewrite length_fmap, length_seqZ. lia.
  - intros i x y Hi. rewrite list_lookup_fmap, lookup_seqZ_lt by lia. rewrite lookup_take_lt, lookup_drop by lia.
    cbn. intros [= <-] Hy. unfold load_or. pose proof (lookup_lt_Some _ _ _ Hy).
    rewrite (proj2 (Z.leb_le _ _)), (proj2 (Z.ltb_lt _ _)) by lia. cbn. unfold nthZ.
    replace (Z.to_nat (Z.of_nat a + (0 + Z.of_nat i))) with (a + i)%nat by lia. by apply nth_lookup_Some.
Qed.

Section grid.
Variables (junk : Z → Z) (out : list Z) (args : list (nat * nat * nat * nat)) (prefixes : list (list Z)) (stride : nat).

(** The columns of the arguments. *)
Notation idxs := (arg_row <$> args).
Notation pls := ((λ x, x.1.1.2) <$> args).
Notation sls := ((λ x, x.1.2) <$> args).
Notation els := (arg_ext <$> args).
Notation program := (write_req_to_token_pool_triton junk idxs prefixes pls sls els out stride).

(** What program [k] puts at the front of its row. *)
Definition written (k : nat) (x : nat * nat * nat * nat) (pre : list Z) : list Z :=
  pre ++ slice (ext_sum (take k args)) (ext_sum (take k args) + arg_ext x) out.

Lemma cumsum_start_eq k : torch_sum (Z.of_nat <$> take k els) = Z.of_nat (ext_sum (take k args)).
Proof.
  rewrite <-fmap_take. unfold torch_sum, ext_sum. induction (take k args) as [|x l IH]; [done|]. csimpl. rewrite IH. lia.
Qed.

Lemma ext_sum_take_le k x : args !! k = Some x → (ext_sum (take k args) + arg_ext x ≤ ext_sum args)%nat.
Proof.
  intros Hx. rewrite <-(take_drop_middle args k x Hx) at 2. unfold ext_sum.
  rewrite foldr_app. cbn. generalize (foldr (λ x n, (arg_ext x + n)%nat) 0%nat (drop (S k) args)) as m. intros m.
  generalize (arg_ext x + m)%nat (Nat.le_add_r (arg_ext x) m). induction (take k args) as [|y l IH]; intros s Hs; cbn; [lia|].
  specialize (IH s Hs). lia.
Qed.

Lemma program_overwrite k x pre mem :
  args !! k = Some x → prefixes !! k = Some pre → length pre = x.1.1.2 → x.1.2 = (x.1.1.2 + x.2)%nat →
  (ext_sum args ≤ length out)%nat →
  program k mem = overwrite (arg_row x * stride) (written k x pre) mem.
Proof.
  intros Hx Hpre Hpl Hsl Hout. unfold write_req_to_token_pool_triton.
  assert (Hnth : ∀ {B} (f : _ → B) d, nth k (f <$> args) d = f x).
  { intros B f d. apply nth_lookup_Some. by rewrite list_lookup_fmap, Hx. }
  rewrite !Hnth, (nth_lookup_Some _ _ _ _ Hpre), cumsum_start_eq. cbn zeta.
  rewrite !copy_blocks_overwrite by lia. pose proof (ext_sum_take_le k x Hx).
  assert (Hload : load_or junk pre <$> seqZ 0 (Z.of_nat x.1.1.2) = pre).
  { rewrite <-Hpl. etrans; [apply (loads_slice junk pre 0 (length pre)); lia|]. unfold slice. cbn. by rewrite Nat.sub_0_r, firstn_all. }
  rewrite Hload. replace (Z.of_nat x.1.2 - Z.of_nat x.1.1.2) with (Z.of_nat (arg_ext x)) by (unfold arg_ext; lia).
  rewrite loads_slice by lia. unfold written. rewrite <-overwrite_app. f_equal; [lia|]. f_equal. lia.
Qed.

(** A write within a row of the flat memory. *)
Lemma overwrite_row (rows : list (list Z)) i row vals :
  Forall (λ r, length r = stride) rows → rows !! i = Some row → (length vals ≤ stride)%nat →
  overwrite (i * stride) vals (concat rows) = concat (<[i := vals ++ drop (length vals) row]> rows).
Proof.
  intros Hs. revert i. induction Hs as [|r rows Hr Hs IH]; intros i Hi Hv; [done|].
  assert (Happ : ∀ a (l k : list Z), overwrite a vals (l ++ k) =
    overwrite a vals l ++ imap (λ j x, if (a <=? length l + j)%nat && (length l + j <? a + length vals)%nat
      then nth (length l + j - a) vals x else x) k).
  { intros a l k. unfold overwrite. by rewrite imap_app. }
  destruct i as [|i]; cbn in Hi.
  - simplify_eq. cbn [list_insert insert concat]. rewrite Happ. cbn [Nat.mul]. f_equal.
    + apply list_eq. intros j. rewrite lookup_overwrite. cbn. destruct (decide (j < length row)%nat) as [Hj|Hj].
      * destruct (lookup_lt_is_Some_2 row j Hj) as [y Hy]. rewrite Hy. case_decide as Hd.
        { rewrite lookup_app_l by lia. by rewrite Nat.sub_0_r. }
        rewrite lookup_app_r by lia. rewrite lookup_drop, <-Hy. f_equal. lia.
      * rewrite (lookup_ge_None_2 row) by lia. rewrite decide_False by lia.
        symmetry. apply lookup_ge_None_2. rewrite length_app, length_drop. lia.
    + apply list_eq. intros j. rewrite list_lookup_imap. destruct (concat rows !! j); [|done]. cbn.
      by rewrite (proj2 (Nat.ltb_ge _ _)), ?andb_false_r by lia.
  - change (concat (<[S i := _]> (r :: rows))) with (r ++ concat (<[i := vals ++ drop (length vals) row]> rows)). rewrite <-(IH i Hi Hv).
    change (concat (r :: rows)) with (r ++ concat rows). rewrite Happ. f_equal.
    + apply list_eq. intros j. rewrite lookup_overwrite. case_decide as Hd; [|done].
      rewrite (lookup_ge_None_2 r) by lia. done.
    + unfold overwrite. apply imap_ext. intros j x _. rewrite Hr. cbn.
      replace (stride + i * stride <=? stride + j)%nat with (i * stride <=? j)%nat
        by (destruct (Nat.leb_spec (i * stride) j), (Nat.leb_spec (stride + i * stride) (stride + j)); lia).
      replace (stride + j <? stride + i * stride + length vals)%nat with (j <? i * stride + length vals)%nat
        by (destruct (Nat.ltb_spec j (i * stride + length vals)), (Nat.ltb_spec (stride + j) (stride + i * stride + length vals)); lia).
      by replace (stride + j - (stride + i * stride))%nat with (j - i * stride)%nat by lia.
Qed.

(** ** Any order of the programs *)

Variable p : ReqToTokenPool.
Hypothesis Hnd : NoDup idxs.
Hypothesis Hargs : Forall2 (arg_ok p) args prefixes.
Hypothesis Hout : (ext_sum args ≤ length out)%nat.
Hypothesis Hstride : Forall (λ row, length row = stride) (req_to_token p).

Lemma program_args k : (k < length args)%nat →
  ∃ x pre row, args !! k = Some x ∧ prefixes !! k = Some pre ∧ arg_ok p x pre ∧ req_to_token p !! arg_row x = Some row ∧
    (length (written k x pre) = x.1.2 ∧ x.1.2 ≤ stride)%nat.
Proof.
  intros Hk. destruct (lookup_lt_is_Some_2 args k Hk) as [x Hx].
  destruct (Forall2_lookup_l _ _ _ _ _ Hargs Hx) as (pre & Hpre & Hok).
  pose proof Hok as (Hpl & Hsl & row & Hrow & Hle). exists x, pre, row. split_and!; try done.
  - unfold written, slice. pose proof (ext_sum_take_le k x Hx). rewrite length_app, length_take, length_drop, Hpl, Hsl.
    unfold arg_ext in *. lia.
  - by rewrite <-(Forall_lookup_1 _ _ _ _ Hstride Hrow).
Qed.

(** The programs on rows instead of flat memory. *)
Definition write_row (rows : list (list Z)) (k : nat) : list (list Z) :=
  match args !! k, prefixes !! k with
  | Some x, Some pre => alter (λ row, written k x pre ++ drop x.1.2 row) (arg_row x) rows
  | _, _ => rows
  end.

Lemma write_row_other rows k x j : args !! k = Some x → j ≠ arg_row x → write_row rows k !! j = rows !! j.
Proof. intros Hx Hj. unfold write_row. rewrite Hx. case_match; [|done]. by apply list_lookup_alter_ne. Qed.

Lemma write_row_lengths rows k :
  (k < length args)%nat → Forall (λ r, length r = stride) rows → Forall (λ r, length r = stride) (write_row rows k).
Proof.
  intros Hk Hr. destruct (program_args k Hk) as (x & pre & row & Hx & Hpre & _ & _ & Hlen & Hle).
  unfold write_row. rewrite Hx, Hpre. apply Forall_alter; [done|]. intros r0 Hr0 Hl.
  rewrite length_app, length_drop, Hlen. lia.
Qed.

Lemma programs_rows order rows :
  Forall (λ k, k < length args)%nat order → Forall (λ r, length r = stride) rows → length rows = length (req_to_token p) →
  foldl (λ mem k, program k mem) (concat rows) order = concat (foldl write_row rows order).
Proof.
  intros Ho. revert rows. induction Ho as [|k order Hk Ho IH]; intros rows Hr Hl; [done|]. cbn [foldl].
  destruct (program_args k Hk) as (x & pre & row & Hx & Hpre & (Hpl & Hsl & _) & Hrow & Hlen & Hle).
  rewrite (program_overwrite k x pre) by done.
  destruct (lookup_lt_is_Some_2 rows (arg_row x)) as [row1 Hrow1]; [rewrite Hl; by eapply lookup_lt_Some|].
  rewrite (overwrite_row rows _ row1) by (done || lia).
  assert (<[arg_row x := written k x pre ++ drop (length (written k x pre)) row1]> rows = write_row rows k) as ->.
  { unfold write_row. rewrite Hx, Hpre, Hlen. apply list_eq. intros j. destruct (decide (j = arg_row x)) as [->|Hj].
    - rewrite list_lookup_alter_eq, list_lookup_insert_eq by (by eapply lookup_lt_Some). by rewrite Hrow1.
    - by rewrite list_lookup_insert_ne, list_lookup_alter_ne by done. }
  apply IH; [by apply write_row_lengths|]. rewrite <-Hl. unfold write_row. rewrite Hx, Hpre. apply length_alter.
Qed.

Lemma rows_other order rows j :
  (∀ k x, k ∈ order → args !! k = Some x → j ≠ arg_row x) → foldl write_row rows order !! j = rows !! j.
Proof.
  revert rows. induction order as [|k order IH]; intros rows Hj; [done|]. cbn [foldl].
  rewrite IH by (intros k' x Hk'; apply Hj; by right).
  destruct (args !! k) as [x|] eqn:Hx; [apply (write_row_other _ _ x); [done|apply (Hj k); [by left|done]]|].
  unfold write_row. by rewrite Hx.
Qed.

(** Two programs with the same row are the same. *)
Lemma row_unique k k' x x' : args !! k = Some x → args !! k' = Some x' → arg_row x = arg_row x' → k = k'.
Proof.
  intros Hx Hx' E. eapply (NoDup_lookup idxs); [exact Hnd| |]; rewrite list_lookup_fmap; [by rewrite Hx|by rewrite Hx', E].
Qed.

Lemma rows_written order rows k x pre row :
  NoDup order → k ∈ order → args !! k = Some x → prefixes !! k = Some pre → rows !! arg_row x = Some row →
  foldl write_row rows order !! arg_row x = Some (written k x pre ++ drop x.1.2 row).
Proof.
  revert rows. induction order as [|k0 order IH]; intros rows Hno Hk Hx Hpre Hrow; [by apply not_elem_of_nil in Hk|].
  apply NoDup_cons in Hno as [Hk0 Hno]. cbn [foldl]. destruct (decide (k = k0)) as [->|Hne].
  - rewrite rows_other.
    + unfold write_row. rewrite Hx, Hpre. by rewrite list_lookup_alter_eq, Hrow.
    + intros k' x' Hk' Hx' E. apply Hk0. by rewrite (row_unique k0 k' x x' Hx Hx' E).
  - apply elem_of_cons in Hk as [?|Hk]; [done|]. apply IH; try done.
    destruct (args !! k0) as [x0|] eqn:Hx0; [|unfold write_row; by rewrite Hx0].
    rewrite (write_row_other _ _ x0); [done..|]. intros E. apply Hne. by eapply row_unique.
Qed.

Lemma kernel_rows order :
  order ≡ₚ seq 0 (length args) →
  ∃ p', write_cache_indices out args prefixes 0 p = Ok p' ∧
    foldl (λ mem k, program k mem) (concat (req_to_token p)) order = concat (req_to_token p').
Proof.
  intros Ho. destruct (write_cache_indices_ok out args prefixes 0 p Hnd Hargs) as (p' & Hw & _ & _ & Hother & Hrows); [lia|].
  exists p'. split; [done|]. rewrite programs_rows; [|rewrite Ho; apply Forall_seq; lia|done..]. f_equal.
  apply list_eq. intros j. destruct (decide (j ∈ idxs)) as [Hj|Hj].
  - apply list_elem_of_fmap in Hj as (x & -> & Hx). apply list_elem_of_lookup in Hx as [k Hx].
    destruct (program_args k ltac:(by eapply lookup_lt_Some)) as (x' & pre & row & Hx' & Hpre & _ & Hrow & _). simplify_eq.
    rewrite (Hrows k x pre row Hx Hpre Hrow), (rows_written order _ k x pre row); try done.
    + unfold written. by rewrite <-app_assoc.
    + rewrite Ho. apply NoDup_seq.
    + rewrite Ho. apply elem_of_seq. pose proof (lookup_lt_Some _ _ _ Hx). lia.
  - rewrite Hother by done. apply rows_other. intros k x _ Hx ->. apply Hj.
    apply list_elem_of_fmap. exists x. split; [done|]. by eapply list_elem_of_lookup_2.
Qed.
End grid.
