(* ===== verification/Finish.v ===== *)
(** The stop conditions of a request: [Req.update_finish_state] and what it calls
    in managers/schedule_batch.py, with the finish reasons.  The tokenizer's
    [decode] and the regular expression search are parameters. *)

From stdpp Require Import base list strings.
From Stdlib Require Import ZArith Lia.
From S2P Require Import Prelude.

Open Scope Z_scope.

(** ** Data *)

Inductive FinishReason :=
  | FINISH_MATCHED_TOKEN (matched : Z)
  | FINISH_MATCHED_STR (matched : string)
  | FINISHED_MATCHED_REGEX (matched : string)
  | FINISH_LENGTH (length : Z)
  | FINISH_ABORT (message : string).

(** A set of ids is a list in its iteration order; [None] and the empty set are
    both false. *)
Record SamplingParams := mkParams {
  sp_max_new_tokens : Z;
  sp_ignore_eos : bool;
  stop_token_ids : list Z;
  stop_strs : list string;
  stop_regex_strs : list string;
  stop_str_max_len : nat;
  stop_regex_max_len : nat;
}.

Record Tokenizer := mkTokenizer {
  eos_token_id : option Z;
  additional_stop_token_ids : list Z;
}.

Record FReq := mkFReq {
  f_output_ids : list Z;
  decoded_text : string;
  vocab_size : Z;
  eos_token_ids : list Z;
  sampling_params : SamplingParams;
  tokenizer : option Tokenizer;
  (** [grammar.is_terminated()], if there is a grammar *)
  grammar_terminated : option bool;
  finished_reason : option FinishReason;
  finished_len : option Z;
  to_finish : option FinishReason;
}.

(** Sets the reason and the length of the output. *)
Definition finish (reason : FinishReason) (len : option Z) (r : FReq) : FReq :=
  mkFReq (f_output_ids r) (decoded_text r) (vocab_size r) (eos_token_ids r) (sampling_params r)
    (tokenizer r) (grammar_terminated r) (Some reason) len (to_finish r).
Definition set_output (l : list Z) (r : FReq) : FReq :=
  mkFReq l (decoded_text r) (vocab_size r) (eos_token_ids r) (sampling_params r)
    (tokenizer r) (grammar_terminated r) (finished_reason r) (finished_len r) (to_finish r).

Definition finished (r : FReq) : bool :=
  match finished_reason r with Some _ => true | None => false end.

(** [l[-n:]]; [l[-0:]] is the whole list. *)
Definition py_last {A} (n : nat) (l : list A) : list A :=
  if (n =? 0)%nat then l else drop (length l - n) l.

(** [s in t] *)
Definition str_in (s t : string) : bool :=
  match String.index 0 s t with Some _ => true | None => false end.

(** [t[-i:]] and [s[:i]] for strings, [i] positive. *)
Definition str_last (i : nat) (t : string) : string :=
  String.substring (String.length t - i) i t.
Definition str_first (i : nat) (s : string) : string := String.substring 0 i s.

(** ** Operations *)

Section finish_ops.
(** [tokenizer.decode] and [re.search(pattern, text) is not None]. *)
Context (decode : list Z → string) (re_search : string → string → bool).

Definition stop_match_tail_len (new_accepted_len : nat) (r : FReq) : nat :=
  let max_len_tail_str :=
    Nat.max (stop_str_max_len (sampling_params r) + 1) (stop_regex_max_len (sampling_params r) + 1) in
  Nat.min (max_len_tail_str + (new_accepted_len - 1)) (length (f_output_ids r)).

Definition no_stop_strs (r : FReq) : bool :=
  (length (stop_strs (sampling_params r)) =? 0)%nat &&
  (length (stop_regex_strs (sampling_params r)) =? 0)%nat.

Definition tail_str (new_accepted_len : nat) (r : FReq) : result string :=
  if no_stop_strs r then Ok EmptyString
  else
    let tail_len := stop_match_tail_len new_accepted_len r in
    let! _ := of_option AttributeError (tokenizer r) in
    Ok (decode (py_last tail_len (f_output_ids r))).

Definition overlaps (tail_str stop_str : string) : bool :=
  negb (String.length stop_str =? 0)%nat &&
  (str_in stop_str tail_str ||
   existsb (λ i, String.eqb (str_last i tail_str) (str_first i stop_str))
     (seq 1 (Nat.min (String.length tail_str) (String.length stop_str)))).

Definition check_match_stop_str_prefix (r : FReq) : result bool :=
  match stop_strs (sampling_params r) with
  | [] => Ok false
  | strs =>
      let! tail := tail_str 1 r in
      if (String.length tail =? 0)%nat then Ok false else Ok (existsb (overlaps tail) strs)
  end.

(** The tests of one token. *)
Definition is_stop_token (r : FReq) (token_id : Z) : bool :=
  bool_decide (token_id ∈ stop_token_ids (sampling_params r)) ||
  bool_decide (token_id ∈ eos_token_ids r) ||
  match tokenizer r with
  | Some t => bool_decide (eos_token_id t = Some token_id) ||
      bool_decide (token_id ∈ additional_stop_token_ids t)
  | None => false
  end.

(** The loop over the new tokens, [pos] being the position of the first. *)
Fixpoint first_stop_token (r : FReq) (pos : Z) (l : list Z) : option (Z * Z) :=
  match l with
  | [] => None
  | t :: l => if is_stop_token r t then Some (t, pos + 1) else first_stop_token r (pos + 1) l
  end.

Definition new_pos (new_accepted_tokens : list Z) (r : FReq) : Z :=
  Z.of_nat (length (f_output_ids r)) - Z.of_nat (length new_accepted_tokens).

Definition check_token_based_finish (new_accepted_tokens : list Z) (r : FReq) : bool * FReq :=
  if sp_ignore_eos (sampling_params r) then (false, r)
  else
    match first_stop_token r (new_pos new_accepted_tokens r) new_accepted_tokens with
    | Some (t, len) => (true, finish (FINISH_MATCHED_TOKEN t) (Some len) r)
    | None => (false, r)
    end.

(** The shortest new prefix of the window that matches, or the whole output. *)
Definition locate_str_stop_finished_len (new_accepted_len : nat) (matched : string → bool)
    (r : FReq) : Z :=
  let tail_len := stop_match_tail_len new_accepted_len r in
  let start := (length (f_output_ids r) - tail_len)%nat in
  let token_window := drop start (f_output_ids r) in
  let w := length token_window in
  let first := Nat.max 1 (w + 1 - new_accepted_len) in
  match list_find (λ token_count, matched (decode (take token_count token_window)) = true)
          (seq first (w - first)) with
  | Some (_, token_count) => Z.of_nat (start + token_count)
  | None => Z.of_nat (length (f_output_ids r))
  end.

Definition check_stop_strs (new_accepted_len : nat) (tail : string) (r : FReq) : option FReq :=
  match list_find (λ s, str_in s tail || str_in s (decoded_text r) = true) (stop_strs (sampling_params r)) with
  | Some (_, s) =>
      Some (finish (FINISH_MATCHED_STR s)
        (if str_in s tail
         then Some (locate_str_stop_finished_len new_accepted_len (str_in s) r)
         else finished_len r) r)
  | None => None
  end.

Definition check_stop_regexes (new_accepted_len : nat) (tail : string) (r : FReq) : option FReq :=
  match list_find (λ p, re_search p tail = true) (stop_regex_strs (sampling_params r)) with
  | Some (_, p) =>
      Some (finish (FINISHED_MATCHED_REGEX p)
        (Some (locate_str_stop_finished_len new_accepted_len (re_search p) r)) r)
  | None => None
  end.

Definition check_str_based_finish (new_accepted_len : nat) (r : FReq) : result (bool * FReq) :=
  if no_stop_strs r then Ok (false, r)
  else
    let! tail := tail_str new_accepted_len r in
    match check_stop_strs new_accepted_len tail r with
    | Some r => Ok (true, r)
    | None =>
        match check_stop_regexes new_accepted_len tail r with
        | Some r => Ok (true, r)
        | None => Ok (false, r)
        end
    end.

(** The position of the first new token outside of the vocabulary. *)
Fixpoint first_bad_token (vocab pos : Z) (l : list Z) : option Z :=
  match l with
  | [] => None
  | t :: l => if (vocab <=? t) || (t <? 0) then Some pos else first_bad_token vocab (pos + 1) l
  end.

Definition check_vocab_boundary_finish (new_accepted_tokens : list Z) (r : FReq) : bool * FReq :=
  match first_bad_token (vocab_size r) (new_pos new_accepted_tokens r) new_accepted_tokens with
  | None => (false, r)
  | Some offset =>
      let out := f_output_ids r in
      let out := match stop_token_ids (sampling_params r) with
                 | t :: _ => <[Z.to_nat offset := t]> out
                 | [] => out
                 end in
      let out := match eos_token_ids r with
                 | t :: _ => <[Z.to_nat offset := t]> out
                 | [] => out
                 end in
      (true, finish (FINISH_MATCHED_STR "NaN happened") (Some (offset + 1)) (set_output out r))
  end.

Definition update_finish_state (new_accepted_len : nat) (r : FReq) : result FReq :=
  if finished r then Ok r
  else
  match to_finish r with
  | Some reason =>
      Ok (mkFReq (f_output_ids r) (decoded_text r) (vocab_size r) (eos_token_ids r) (sampling_params r)
        (tokenizer r) (grammar_terminated r) (Some reason) (finished_len r) None)
  | None =>
  let max_new := sp_max_new_tokens (sampling_params r) in
  if max_new <=? Z.of_nat (length (f_output_ids r))
  then Ok (finish (FINISH_LENGTH max_new) (Some max_new) r)
  else
  match grammar_terminated r with
  | Some true =>
      let! t := of_option IndexError (last (f_output_ids r)) in
      Ok (finish (FINISH_MATCHED_TOKEN t) (finished_len r) r)
  | _ =>
      let new_accepted_tokens := py_last new_accepted_len (f_output_ids r) in
      let '(done, r) := check_vocab_boundary_finish new_accepted_tokens r in
      if done then Ok r
      else
        let! (done, r) := check_str_based_finish new_accepted_len r in
        if done then Ok r
        else Ok (check_token_based_finish new_accepted_tokens r).2
  end
  end.

(** [output_ids_through_stop] *)
Definition output_ids_through_stop (r : FReq) : list Z :=
  match finished_len r with
  | Some n => py_take n (f_output_ids r)
  | None => f_output_ids r
  end.
End finish_ops.

(** ** Properties *)

Lemma first_stop_token_spec r pos l :
  match first_stop_token r pos l with
  | Some (t, len) => ∃ i, l !! i = Some t ∧ len = pos + Z.of_nat i + 1 ∧ is_stop_token r t = true ∧
      Forall (λ t', is_stop_token r t' = false) (take i l)
  | None => Forall (λ t, is_stop_token r t = false) l
  end.
Proof.
  revert pos; induction l as [|t l IH]; intros pos; cbn [first_stop_token]; [done|].
  destruct (is_stop_token r t) eqn:E.
  - exists 0%nat. split_and!; [done|lia|done..].
  - specialize (IH (pos + 1)). destruct (first_stop_token r (pos + 1) l) as [[t' len]|].
    + destruct IH as (i & ? & -> & ? & ?). exists (S i). split_and!; [done|lia|done|]. by constructor.
    + by constructor.
Qed.

Lemma first_bad_token_spec vocab pos l :
  match first_bad_token vocab pos l with
  | Some p => ∃ i t, l !! i = Some t ∧ p = pos + Z.of_nat i ∧ ¬ (0 ≤ t < vocab) ∧
      Forall (λ t, 0 ≤ t < vocab) (take i l)
  | None => Forall (λ t, 0 ≤ t < vocab) l
  end.
Proof.
  revert pos; induction l as [|t l IH]; intros pos; cbn [first_bad_token]; [done|].
  destruct (Z.leb_spec vocab t), (Z.ltb_spec t 0); cbn [orb];
    try (exists 0%nat, t; cbn; split_and!; [done|lia|lia|done]).
  specialize (IH (pos + 1)). destruct (first_bad_token vocab (pos + 1) l).
  - destruct IH as (i & t' & ? & -> & ? & ?). exists (S i), t'. cbn. split_and!; [done|lia|done|].
    by constructor.
  - by constructor.
Qed.

Lemma length_py_last {A} n (l : list A) : (length (py_last n l) ≤ length l)%nat.
Proof. unfold py_last. case_match; [done|]. rewrite length_drop. lia. Qed.

Lemma py_last_lookup {A} n (l : list A) i :
  (i < length (py_last n l))%nat → py_last n l !! i = l !! (length l - length (py_last n l) + i)%nat.
Proof.
  unfold py_last. case_match; intros Hi.
  - f_equal. lia.
  - rewrite lookup_drop. f_equal. rewrite length_drop in *. lia.
Qed.

Section finish_props.
Context (decode : list Z → string) (re_search : string → string → bool).
Implicit Types r : FReq.

(** The window the stop strings are searched in. *)
Definition window_start (n : nat) (r : FReq) : nat :=
  (length (f_output_ids r) - stop_match_tail_len n r)%nat.

(** The output is cut behind the first new token that completes a match. *)
Lemma locate_first n (matched : string → bool) r :
  let start := window_start n r in
  let window := drop start (f_output_ids r) in
  let k := locate_str_stop_finished_len decode n matched r in
  matched (decode window) = true →
  Z.of_nat start ≤ k ≤ Z.of_nat (length (f_output_ids r)) ∧
  matched (decode (take (Z.to_nat k - start) window)) = true ∧
  ∀ c, (Nat.max 1 (length window + 1 - n) ≤ c)%nat → Z.of_nat (start + c) < k →
    matched (decode (take c window)) = false.
Proof.
  intros start window k Hm. unfold k, locate_str_stop_finished_len.
  fold (window_start n r) start window. set (first := Nat.max 1 (length window + 1 - n)).
  assert (Hw : (start + length window)%nat = length (f_output_ids r)).
  { unfold window. rewrite length_drop. unfold start, window_start, stop_match_tail_len. lia. }
  assert (Hlk : ∀ i c, seq first (length window - first) !! i = Some c ↔
    c = (first + i)%nat ∧ (i < length window - first)%nat) by (intros; apply lookup_seq).
  destruct (list_find _ _) as [[i c]|] eqn:E.
  - apply list_find_Some in E as (Hc & Hmc & Hbefore). apply Hlk in Hc as [-> Hi].
    split_and!; [lia|lia| |].
    + by replace (Z.to_nat (Z.of_nat (start + (first + i))) - start)%nat with (first + i)%nat by lia.
    + intros c Hfc Hck. apply not_true_is_false. apply (Hbefore (c - first)%nat); [|lia].
      apply Hlk. lia.
  - apply list_find_None in E. split_and!; [lia|lia| |].
    + replace (Z.to_nat (Z.of_nat (length (f_output_ids r))) - start)%nat with (length window) by lia.
      by rewrite firstn_all.
    + intros c Hfc Hck. apply not_true_is_false. eapply (proj1 (Forall_forall _ _) E).
      apply list_elem_of_lookup. exists (c - first)%nat. apply Hlk. lia.
Qed.

(** The text of the window, and the test of one stop string. *)
Definition window_text (n : nat) (r : FReq) : string := decode (drop (window_start n r) (f_output_ids r)).
Definition stop_str_match (n : nat) (r : FReq) (s : string) : bool :=
  str_in s (window_text n r) || str_in s (decoded_text r).

Lemma py_last_window n r :
  py_last (stop_match_tail_len n r) (f_output_ids r) = drop (window_start n r) (f_output_ids r).
Proof.
  unfold py_last. destruct (Nat.eqb_spec (stop_match_tail_len n r) 0) as [E|E]; [|done].
  unfold stop_match_tail_len in E. assert (length (f_output_ids r) = 0%nat) as Hl by lia.
  rewrite (nil_length_inv _ Hl). by rewrite drop_nil.
Qed.

(** What a match of a stop string or of a regular expression says. *)
Definition str_post (n : nat) r r' : Prop :=
  match finished_reason r' with
  | Some (FINISH_MATCHED_STR s) => s ∈ stop_strs (sampling_params r) ∧ stop_str_match n r s = true ∧
      finished_len r' = (if str_in s (window_text n r)
        then Some (locate_str_stop_finished_len decode n (str_in s) r) else finished_len r)
  | Some (FINISHED_MATCHED_REGEX p) => p ∈ stop_regex_strs (sampling_params r) ∧
      re_search p (window_text n r) = true ∧
      finished_len r' = Some (locate_str_stop_finished_len decode n (re_search p) r)
  | _ => False
  end.
Definition no_str_match (n : nat) r : Prop :=
  Forall (λ s, stop_str_match n r s = false) (stop_strs (sampling_params r)) ∧
  Forall (λ p, re_search p (window_text n r) = false) (stop_regex_strs (sampling_params r)).

(** The checks that need strings answer when a tokenizer is there. *)
Lemma check_str_ok n r :
  no_stop_strs r = true ∨ is_Some (tokenizer r) →
  ∃ b r', check_str_based_finish decode re_search n r = Ok (b, r') ∧
    f_output_ids r' = f_output_ids r ∧
    if b then str_post n r r' else r' = r ∧ no_str_match n r.
Proof.
  intros Ht. unfold check_str_based_finish, tail_str. destruct (no_stop_strs r) eqn:Hn.
  { unfold no_stop_strs in Hn. apply andb_true_iff in Hn as [H1%Nat.eqb_eq H2%Nat.eqb_eq].
    exists false, r. do 3 (split; [done|]). unfold no_str_match.
    by rewrite (nil_length_inv _ H1), (nil_length_inv _ H2). }
  destruct Ht as [?|[tk ->]]; [done|]. cbn [of_option rbind]. rewrite py_last_window. fold (window_text n r).
  unfold check_stop_strs. destruct (list_find _ (stop_strs _)) as [[i s]|] eqn:Es.
  { apply list_find_Some in Es as (Hs & Hm & _). eexists true, _; split; [done|]. split; [done|].
    unfold str_post. cbn. split_and!; [by eapply list_elem_of_lookup_2|done..]. }
  unfold check_stop_regexes. destruct (list_find _ (stop_regex_strs _)) as [[i s]|] eqn:Er.
  { apply list_find_Some in Er as (Hs & Hm & _). eexists true, _; split; [done|]. split; [done|].
    unfold str_post. cbn. split_and!; [by eapply list_elem_of_lookup_2|done..]. }
  apply list_find_None in Es, Er. exists false, r. do 3 (split; [done|]).
  split; (eapply Forall_impl; [eassumption|]); intros s Hs; by apply not_true_is_false.
Qed.

(** What the state says after [update_finish_state]. *)
Definition finish_post (n : nat) r r' : Prop :=
  let len := Z.of_nat (length (f_output_ids r)) in
  let new := py_last n (f_output_ids r) in
  let max_new := sp_max_new_tokens (sampling_params r) in
  match finished_reason r' with
  | None => r' = r ∧ len < max_new ∧ Forall (λ t, 0 ≤ t < vocab_size r) new ∧ no_str_match n r ∧
      (sp_ignore_eos (sampling_params r) = false → Forall (λ t, is_stop_token r t = false) new)
  | Some (FINISH_LENGTH m) => m = max_new ∧ m ≤ len ∧ finished_len r' = Some m
  | Some (FINISH_MATCHED_TOKEN t) => ∃ i, new !! i = Some t ∧ is_stop_token r t = true ∧
      Forall (λ t', is_stop_token r t' = false) (take i new) ∧
      last (output_ids_through_stop r') = Some t ∧ no_str_match n r
  | Some (FINISH_ABORT _) => False
  | Some _ => str_post n r r' ∨
      (finished_reason r' = Some (FINISH_MATCHED_STR "NaN happened") ∧
       ∃ i t, new !! i = Some t ∧ ¬ (0 ≤ t < vocab_size r) ∧
         Forall (λ t, 0 ≤ t < vocab_size r) (take i new) ∧
         finished_len r' = Some (len - Z.of_nat (length new) + Z.of_nat i + 1))
  end.

Lemma last_take_lookup {A} (l : list A) k x : l !! k = Some x → last (take (S k) l) = Some x.
Proof. intros Hk. rewrite (take_S_r _ _ _ Hk). by rewrite last_snoc. Qed.

Lemma check_token_ok n r r' b :
  check_token_based_finish (py_last n (f_output_ids r)) r = (b, r') → finished_reason r = None →
  no_str_match n r →
  if b then f_output_ids r' = f_output_ids r ∧ is_Some (finished_reason r') ∧ finish_post n r r'
  else r' = r ∧ (sp_ignore_eos (sampling_params r) = false →
    Forall (λ t, is_stop_token r t = false) (py_last n (f_output_ids r))).
Proof.
  unfold check_token_based_finish. intros Hc Hf Hnm. case_match; [by simplify_eq|].
  set (new := py_last n (f_output_ids r)) in *.
  pose proof (first_stop_token_spec r (new_pos new r) new) as Hs.
  destruct (first_stop_token _ _ new) as [[t len]|]; simplify_eq; [|done].
  destruct Hs as (i & Hi & -> & Hst & Hb). split_and!; [done|by eexists|].
  unfold finish_post. cbn. fold new. exists i. split_and!; try done.
  unfold output_ids_through_stop, py_take. cbn. unfold new_pos.
  pose proof (length_py_last n (f_output_ids r)) as Hln. fold new in Hln.
  rewrite (proj2 (Z.ltb_ge _ 0)) by lia.
  pose proof (lookup_lt_Some _ _ _ Hi) as Hlt.
  unfold new in Hi. rewrite py_last_lookup in Hi by done. fold new in Hi.
  apply last_take_lookup in Hi. rewrite <-Hi. do 2 f_equal. lia.
Qed.

(** A vocabulary error is found before anything is decoded. *)
Lemma update_finish_ok n r :
  finished_reason r = None → to_finish r = None → grammar_terminated r ≠ Some true →
  no_stop_strs r = true ∨ is_Some (tokenizer r) ∨ ¬ Forall (λ t, 0 ≤ t < vocab_size r) (py_last n (f_output_ids r)) →
  ∃ r', update_finish_state decode re_search n r = Ok r' ∧
    length (f_output_ids r') = length (f_output_ids r) ∧ finish_post n r r'.
Proof.
  intros Hf Ht Hg Htk. unfold update_finish_state, finished. rewrite Hf, Ht.
  destruct (Z.leb_spec (sp_max_new_tokens (sampling_params r)) (Z.of_nat (length (f_output_ids r)))) as [Hm|Hm].
  { eexists; split; [done|]. split; [done|]. by unfold finish_post. }
  assert (∀ (a b : result FReq), match grammar_terminated r with Some true => a | _ => b end = b) as ->
    by (intros; by destruct (grammar_terminated r) as [[]|]).
  set (new := py_last n (f_output_ids r)). unfold check_vocab_boundary_finish.
  pose proof (first_bad_token_spec (vocab_size r) (new_pos new r) new) as Hv.
  pose proof (length_py_last n (f_output_ids r)) as Hln. fold new in Hln.
  destruct (first_bad_token _ _ new) as [off|].
  { destruct Hv as (i & t & Hi & -> & Hbad & Hgood). eexists; split; [done|]. cbn. split.
    - repeat case_match; by rewrite ?length_insert.
    - unfold finish_post. cbn. right. split; [done|]. exists i, t. by split_and!. }
  destruct (check_str_ok n r ltac:(destruct Htk as [?|[?|[]]]; auto)) as (b & r' & -> & Ho & Hb). cbn [rbind]. destruct b.
  { eexists; split; [done|]. rewrite Ho. split; [done|]. unfold finish_post.
    pose proof Hb as Hb'. unfold str_post in Hb'. repeat case_match; try done; by left. }
  destruct Hb as [-> Hnm]. destruct (check_token_based_finish new r) as [b r'] eqn:Hc. cbn [snd].
  pose proof (check_token_ok n r r' b Hc Hf Hnm) as Hp. exists r'. split; [done|]. destruct b.
  - destruct Hp as (-> & _ & ?). done.
  - destruct Hp as [-> Hs]. split; [done|]. unfold finish_post. rewrite Hf. by split_and!.
Qed.

Lemma update_finish_no_tokenizer n r :
  finished_reason r = None → to_finish r = None → grammar_terminated r ≠ Some true →
  Z.of_nat (length (f_output_ids r)) < sp_max_new_tokens (sampling_params r) →
  Forall (λ t, 0 ≤ t < vocab_size r) (py_last n (f_output_ids r)) →
  no_stop_strs r = false → tokenizer r = None → update_finish_state decode re_search n r = Raise AttributeError.
Proof.
  intros Hf Ht Hg Hm Hvoc Hn Htk. unfold update_finish_state, finished. rewrite Hf, Ht, (proj2 (Z.leb_gt _ _)) by done.
  assert (∀ (a b : result FReq), match grammar_terminated r with Some true => a | _ => b end = b) as ->
    by (intros; by destruct (grammar_terminated r) as [[]|]).
  set (new := py_last n (f_output_ids r)) in *. unfold check_vocab_boundary_finish.
  pose proof (first_bad_token_spec (vocab_size r) (new_pos new r) new) as Hv.
  destruct (first_bad_token _ _ new) as [off|].
  { destruct Hv as (i & t & Hi & _ & Hbad & _). by apply (Forall_lookup_1 _ _ _ _ Hvoc) in Hi. }
  unfold check_str_based_finish, tail_str. by rewrite Hn, Htk.
Qed.

(** The reasons that are found before the new tokens are looked at. *)
Lemma update_finish_pending n r reason :
  finished_reason r = None → to_finish r = Some reason →
  ∃ r', update_finish_state decode re_search n r = Ok r' ∧ finished_reason r' = Some reason ∧ to_finish r' = None ∧
    f_output_ids r' = f_output_ids r ∧ finished_len r' = finished_len r.
Proof. intros Hf Ht. unfold update_finish_state, finished. rewrite Hf, Ht. by eexists. Qed.

Lemma update_finish_grammar n r :
  finished_reason r = None → to_finish r = None → grammar_terminated r = Some true →
  Z.of_nat (length (f_output_ids r)) < sp_max_new_tokens (sampling_params r) →
  match last (f_output_ids r) with
  | Some t => ∃ r', update_finish_state decode re_search n r = Ok r' ∧ finished_reason r' = Some (FINISH_MATCHED_TOKEN t) ∧
      f_output_ids r' = f_output_ids r ∧ finished_len r' = finished_len r
  | None => update_finish_state decode re_search n r = Raise IndexError
  end.
Proof.
  intros Hf Ht Hg Hm. unfold update_finish_state, finished. rewrite Hf, Ht, (proj2 (Z.leb_gt _ _)), Hg by done.
  destruct (last (f_output_ids r)); cbn; [by eexists|done].
Qed.

Lemma update_finish_length n r :
  finished_reason r = None → to_finish r = None →
  sp_max_new_tokens (sampling_params r) ≤ Z.of_nat (length (f_output_ids r)) →
  update_finish_state decode re_search n r =
    Ok (finish (FINISH_LENGTH (sp_max_new_tokens (sampling_params r))) (Some (sp_max_new_tokens (sampling_params r))) r).
Proof. intros Hf Ht Hm. unfold update_finish_state, finished. by rewrite Hf, Ht, (proj2 (Z.leb_le _ _)). Qed.
End finish_props.
