(* ===== verification/Delayer.v ===== *)
(** Gates in front of the scheduler: [PrefillDelayer] and its single-pass
    executor (managers/prefill_delayer.py), [MinFreeSlotsDelayer]
    (managers/min_free_slots_delayer.py), [SchedulerInputBlocker] with
    [PollBasedBarrier] (managers/scheduler_input_blocker.py,
    utils/poll_based_barrier.py) and [SchedulerRecvSkipper]
    (managers/scheduler_recv_skipper.py).

    Floats (token usage, seconds, ratios) are rationals.  The collective calls
    of torch.distributed are parameters: the rows an all-gather returns, and the
    minimum an all-reduce returns. *)

From stdpp Require Import base gmap strings list relations.
From Stdlib Require Import ZArith QArith Lia.
From S2P Require Import Prelude.

Open Scope Z_scope.

(** Python [int] of a float: rounding towards zero. *)
Definition py_int (q : Q) : Z := Z.quot (Qnum q) (Zpos (Qden q)).
Definition qltb (a b : Q) : bool := negb (Qle_bool b a).

(** [tensor.max().item()] and [tensor.min().item()] *)
Definition tmax (l : list Z) : result Z :=
  match l with [] => Raise RuntimeError | x :: l => Ok (foldr Z.max x l) end.
Definition tmin (l : list Z) : result Z :=
  match l with [] => Raise RuntimeError | x :: l => Ok (foldr Z.min x l) end.
Definition tsum (l : list Z) : Z := foldr Z.add 0 l.

(** ** PrefillDelayer *)

Module Delayer.

Record State := mkState { delayed_count : Z; start_time : Q }.

Definition bump_delayed_count (s : State) : State := mkState (delayed_count s + 1) (start_time s).

Inductive Estimation := All | None_ | Mixed.
Inductive Reason := TokenWatermark | Delay | WaitSuccess | NoWait | NoReason | WaitTimeout.

Global Instance reason_eq_dec : EqDecision Reason.
Proof. solve_decision. Defined.
Global Instance estimation_eq_dec : EqDecision Estimation.
Proof. solve_decision. Defined.

Record NegotiateOutput := mkOut {
  next_state : option State;
  input_estimation : Estimation;
  output_allow : bool;
  output_reason : Reason;
  num_prefillable : Z;
  num_token_watermark_force_allow : Z;
  wait_forward_passes : Z;
  wait_seconds : Q;
}.

(** One row of the gathered tensor. *)
Record Info := mkInfo {
  i_prefillable : Z;
  i_force_allow : Z;
  i_running_batch : Z;
  i_max_prefill_bs : Z;
  i_waiting_queue_len : Z;
}.

Record PrefillDelayer := mkDelayer {
  max_delay_passes : Z;
  token_usage_low_watermark : option Q;
  queue_min_ratio : option Q;
  max_delay_ms : Q;
  dp_size : Z;
  enable_dp_attention : bool;
  curr_state : option State;
  skip_first_delayer : bool;
}.

(** The arguments of a negotiation. *)
Record Args := mkArgs {
  local_prefillable : bool;
  token_usage : Q;
  running_batch : Z;
  max_prefill_bs : Z;
  max_running_requests : Z;
  waiting_queue_len : Z;
}.

Definition init (max_delay_passes : Z) (low_watermark queue_min_ratio max_delay_ms : option Q)
    (dp_size : Z) (enable_dp_attention disable_overlap_schedule : bool) : result PrefillDelayer :=
  let! _ := py_assert (negb disable_overlap_schedule) in
  Ok (mkDelayer max_delay_passes low_watermark queue_min_ratio (default (5000 # 1) max_delay_ms)
        dp_size enable_dp_attention None true).

Definition set_state (s : option State) (skip : bool) (d : PrefillDelayer) : PrefillDelayer :=
  mkDelayer (max_delay_passes d) (token_usage_low_watermark d) (queue_min_ratio d)
    (max_delay_ms d) (dp_size d) (enable_dp_attention d) s skip.

Section negotiate.
(** The rows of rank 0 of every attention group, as the all-gather returns
    them, and the readings of [time.perf_counter()] of one call. *)
Context (gather : Info → list Info) (perf_counter : nat → Q).

Definition b2z (b : bool) : Z := if b then 1 else 0.

Definition local_force_allow (d : PrefillDelayer) (a : Args) : bool :=
  local_prefillable a &&
  match token_usage_low_watermark d with Some x => qltb (token_usage a) x | None => false end.

Definition gather_info (d : PrefillDelayer) (a : Args) : list Info :=
  gather (mkInfo (b2z (local_prefillable a)) (b2z (local_force_allow d a)) (running_batch a)
    (max_prefill_bs a) (waiting_queue_len a)).

Definition prefillable_status (rows : list Info) : result Estimation :=
  let! mn := tmin (i_prefillable <$> rows) in
  let! mx := tmax (i_prefillable <$> rows) in
  Ok (if 0 <? mn then All else if mx =? 0 then None_ else Mixed).

(** The queue-based trigger. *)
Definition queue_condition (d : PrefillDelayer) (prev : option State)
    (running_max prefill_bs_max waiting_max : Z) : bool :=
  match queue_min_ratio d with
  | Some ratio =>
      if 0 <? running_max then
        let queue_min_effective :=
          Z.min (py_int (Qmult (inject_Z running_max) ratio)) prefill_bs_max in
        let c := (0 <? queue_min_effective) && (waiting_max <? queue_min_effective) in
        match prev with
        | Some s =>
            let elapsed_ms := Qmult (Qminus (perf_counter 1) (start_time s)) (1000 # 1) in
            if c && Qle_bool (max_delay_ms d) elapsed_ms then false else c
        | None => c
        end
      else false
  | None => false
  end.

Definition ceil_share (d : PrefillDelayer) (max_running_requests : Z) : Z :=
  if enable_dp_attention d then max_running_requests
  else (max_running_requests + dp_size d - 1) / dp_size d.

(** Returns the output and [skip_first_delayer]. *)
Definition negotiate_pure (d : PrefillDelayer) (prev : option State) (a : Args)
    : result (NegotiateOutput * bool) :=
  let rows := gather_info d a in
  let! status := prefillable_status rows in
  let! force := tmax (i_force_allow <$> rows) in
  let nump := tsum (i_prefillable <$> rows) in
  let numf := tsum (i_force_allow <$> rows) in
  let wait_passes := match prev with Some s => delayed_count s | None => 0 end in
  let wait_secs := match prev with Some s => Qminus (perf_counter 0) (start_time s) | None => 0%Q end in
  let release reason skip :=
    Ok (mkOut None status true reason nump numf wait_passes wait_secs, skip) in
  let delay skip :=
    let s := match prev with Some s => s | None => mkState 0 (perf_counter 2) end in
    Ok (mkOut (Some (bump_delayed_count s)) status false Delay nump numf 0 0%Q, skip) in
  match status with
  | All =>
      if 0 <? force then release TokenWatermark (skip_first_delayer d)
      else
        let max_running_requests := ceil_share d (max_running_requests a) in
        let! running_max := tmax (i_running_batch <$> rows) in
        let! prefill_bs_max := tmax (i_max_prefill_bs <$> rows) in
        let! waiting_max := tmax (i_waiting_queue_len <$> rows) in
        let queue_condition := queue_condition d prev running_max prefill_bs_max waiting_max in
        let slot_condition := max_running_requests - running_max <? prefill_bs_max in
        let done skip :=
          release (match prev with Some _ => WaitSuccess | None => NoWait end) skip in
        if slot_condition || queue_condition then
          if skip_first_delayer d then done false else delay false
        else done (skip_first_delayer d)
  | None_ => release NoReason (skip_first_delayer d)
  | Mixed =>
      if 0 <? force then release TokenWatermark (skip_first_delayer d)
      else if wait_passes <? max_delay_passes d - 1 then delay (skip_first_delayer d)
      else release WaitTimeout (skip_first_delayer d)
  end.

Definition negotiate (d : PrefillDelayer) (a : Args) : result (NegotiateOutput * PrefillDelayer) :=
  let! (out, skip) := negotiate_pure d (curr_state d) a in
  Ok (out, set_state (next_state out) skip d).

(** [PrefillDelayerSinglePassExecutor]: at most one negotiation per pass. *)
Record Executor := mkExec {
  prefill_delayer : PrefillDelayer;
  exec_token_usage : Q;
  exec_result : option NegotiateOutput;
}.

Definition executor_init (d : PrefillDelayer) (token_usage : Q) : Executor :=
  mkExec d token_usage None.

Definition negotiate_should_allow_prefill (e : Executor) (prefillable : bool)
    (running_batch max_prefill_bs max_running_requests waiting_queue_len : Z)
    : result (bool * Executor) :=
  match exec_result e with
  | Some out => Ok (output_allow out, e)
  | None =>
      let! (out, d) := negotiate (prefill_delayer e)
        (mkArgs prefillable (exec_token_usage e) running_batch max_prefill_bs
           max_running_requests waiting_queue_len) in
      Ok (output_allow out, mkExec d (exec_token_usage e) (Some out))
  end.

Definition finalize (e : Executor) : result Executor :=
  match exec_result e with
  | Some _ => Ok e
  | None => let! (_, e) := negotiate_should_allow_prefill e false 0 0 0 0 in Ok e
  end.
End negotiate.

(** *** Properties *)

(** An output releases the prefill and forgets the wait, or delays it and
    counts one more pass. *)
Lemma negotiate_cases gather pc d a out d' :
  negotiate gather pc d a = Ok (out, d') →
  curr_state d' = next_state out ∧ max_delay_passes d' = max_delay_passes d ∧
  let prev := match curr_state d with Some s => delayed_count s | None => 0 end in
  (output_allow out = true ∧ next_state out = None ∧ output_reason out ≠ Delay ∧
   wait_forward_passes out = prev) ∨
  (output_allow out = false ∧ output_reason out = Delay ∧
   ∃ s, next_state out = Some s ∧ delayed_count s = prev + 1 ∧
     (∀ s0, curr_state d = Some s0 → start_time s = start_time s0)).
Proof.
  unfold negotiate, negotiate_pure. intros Hn. inv_ok. destruct ra as [o skip]. simplify_eq/=.
  split_and!; [done..|]. repeat (case_match; inv_ok);
    first [by left | right; split_and!; [done..|]; eexists; split_and!; [done|cbn; lia|];
             intros; by simplify_eq/=].
Qed.

(** In a mixed pass without a low watermark the prefill is delayed exactly
    while fewer than [max_delay_passes - 1] passes were delayed. *)
Lemma negotiate_mixed gather pc d a out d' :
  negotiate gather pc d a = Ok (out, d') → input_estimation out = Mixed →
  output_reason out ≠ TokenWatermark →
  output_allow out = false ↔
    match curr_state d with Some s => delayed_count s | None => 0 end < max_delay_passes d - 1.
Proof.
  unfold negotiate, negotiate_pure. intros Hn He Hr. inv_ok. destruct ra as [o skip]. simplify_eq/=.
  destruct (match curr_state d with Some s => delayed_count s | None => 0 end <? max_delay_passes d - 1)
    eqn:Hc; repeat (case_match; inv_ok); (apply Z.ltb_lt in Hc || apply Z.ltb_ge in Hc); split;
    (done || lia).
Qed.

(** A run of passes of the scheduler, each with its own gathered rows, clock and
    arguments. *)
Inductive run (d : PrefillDelayer) : list NegotiateOutput → PrefillDelayer → Prop :=
  | run_nil : run d [] d
  | run_snoc outs d1 gather pc a out d2 :
      run d outs d1 → negotiate gather pc d1 a = Ok (out, d2) → run d (outs ++ [out]) d2.

Lemma run_inv d outs d' :
  run d outs d' → curr_state d = None → 0 ≤ max_delay_passes d →
  max_delay_passes d' = max_delay_passes d ∧
  0 ≤ match curr_state d' with Some s => delayed_count s | None => 0 end ≤ Z.of_nat (length outs) ∧
  (Forall (λ o, output_allow o = false) outs →
     match curr_state d' with Some s => delayed_count s | None => 0 end = Z.of_nat (length outs)).
Proof.
  intros Hr Hd Hm. induction Hr as [|outs d1 gather pc a out d2 Hr IH Hn].
  { rewrite Hd. by split_and!. }
  destruct IH as (Hm1 & Hb & Hall). apply negotiate_cases in Hn as (-> & Hm2 & Hc).
  rewrite length_app. cbn [length]. destruct Hc as [(Ha & -> & _)|(Ha & _ & s & -> & Hs & _)].
  - split_and!; [congruence|lia|lia|]. intros [_ Hf]%Forall_app. inversion Hf; congruence.
  - split_and!; [congruence|lia|lia|]. intros [Hf _]%Forall_app. rewrite Hs, Hall by done. lia.
Qed.

(** The decision is the same on every rank that gathers the same rows and has
    the same history, when the clock is not consulted. *)
Lemma negotiate_agree gather1 gather2 pc1 pc2 d1 d2 a1 a2 o1 d1' :
  queue_min_ratio d1 = None → queue_min_ratio d2 = None →
  max_delay_passes d1 = max_delay_passes d2 → dp_size d1 = dp_size d2 →
  enable_dp_attention d1 = enable_dp_attention d2 → skip_first_delayer d1 = skip_first_delayer d2 →
  delayed_count <$> curr_state d1 = delayed_count <$> curr_state d2 →
  max_running_requests a1 = max_running_requests a2 →
  gather_info gather1 d1 a1 = gather_info gather2 d2 a2 →
  negotiate gather1 pc1 d1 a1 = Ok (o1, d1') →
  ∃ o2 d2', negotiate gather2 pc2 d2 a2 = Ok (o2, d2') ∧ output_allow o2 = output_allow o1 ∧
    output_reason o2 = output_reason o1 ∧ skip_first_delayer d2' = skip_first_delayer d1' ∧
    delayed_count <$> curr_state d2' = delayed_count <$> curr_state d1'.
Proof.
  intros Hq1 Hq2 Hm Hdp He Hs Hc Ha Hg. unfold negotiate, negotiate_pure, queue_condition, ceil_share.
  rewrite Hq1, Hq2, Hm, Hdp, He, Hs, Ha, Hg. intros Hn. inv_ok. rewrite Hra0, Hra1. cbn [rbind].
  destruct (curr_state d1) as [[c1 t1]|], (curr_state d2) as [[c2 t2]|]; simplify_eq/=;
    repeat (case_match; inv_ok); repeat (match goal with H : tmax _ = Ok _ |- _ => rewrite H; clear H end);
    cbn [rbind];
    repeat match goal with
    | H : ?b = true |- context [if ?b then _ else _] => rewrite H
    | H : ?b = false |- context [if ?b then _ else _] => rewrite H
    end; (eexists _, _; split; [done|]; by simplify_eq/=).
Qed.

End Delayer.

(** ** MinFreeSlotsDelayer *)

Module MinFreeSlots.

Definition formula (max_running_requests : Z) : Z :=
  Z.min 4 (Z.max 2 ((max_running_requests + 5) / 6)).

Definition resolve_min_free_slots (user_value : option Z) (max_running_requests : Z)
    (is_dflash : bool) : option Z :=
  let max_running_requests := Z.max 0 max_running_requests in
  let formula := formula max_running_requests in
  let user_value :=
    match user_value with
    | None => if is_dflash then Some formula else None
    | Some v => Some v
    end in
  match user_value with
  | None => None
  | Some v =>
      if v <=? 1 then None
      else if max_running_requests <? 8 then None
      else Some (Z.min v formula)
  end.

Definition should_delay (min_free_slots running_bs num_allocatable_reqs : Z) : bool :=
  (0 <? running_bs) && (num_allocatable_reqs <? min_free_slots).

(** A threshold lies between 2 and 4, is never above the user's value, and is
    small enough that an idle server reaches it. *)
Lemma resolve_bounds user m dflash n :
  resolve_min_free_slots user m dflash = Some n →
  2 ≤ n ≤ 4 ∧ n < m ∧ (∀ v, user = Some v → n ≤ v).
Proof.
  unfold resolve_min_free_slots. set (f := formula (Z.max 0 m)).
  assert (2 ≤ f ≤ 4) by (unfold f, formula; lia). intros Hr.
  repeat case_match; simplify_eq; repeat match goal with
    | H : (_ <=? _) = false |- _ => apply Z.leb_gt in H
    | H : (_ <? _) = false |- _ => apply Z.ltb_ge in H
    end; split_and!; try lia; intros; simplify_eq; lia.
Qed.

(** Fresh prefills are never delayed on an idle server, nor once the threshold
    of free slots is reached. *)
Lemma should_delay_iff n running free :
  should_delay n running free = true ↔ 0 < running ∧ free < n.
Proof. unfold should_delay. rewrite andb_true_iff, !Z.ltb_lt. done. Qed.

End MinFreeSlots.

(** ** SchedulerInputBlocker *)

Module Blocker.

Section blocker.
(** The requests that are not block or unblock messages. *)
Context {R : Type}.

Inductive BlockReqType := BLOCK | UNBLOCK.
Inductive RecvReq := BlockReqInput (t : BlockReqType) | Other (r : R).
Inductive State := UNBLOCKED | BLOCKED | GLOBAL_UNBLOCK_BARRIER.

Global Instance state_eq_dec : EqDecision State.
Proof. solve_decision. Defined.

(** The blocker with its [PollBasedBarrier]. *)
Record SchedulerInputBlocker := mkBlocker {
  state : State;
  pending_reqs : list R;
  noop : bool;
  local_arrived : bool;
}.

Definition init (noop : bool) : SchedulerInputBlocker := mkBlocker UNBLOCKED [] noop false.

Definition change_state (original target : State) (b : SchedulerInputBlocker)
    : result SchedulerInputBlocker :=
  let! _ := py_assert (bool_decide (state b = original)) in
  Ok (mkBlocker target (pending_reqs b) (noop b) (local_arrived b)).

Definition local_arrive (b : SchedulerInputBlocker) : result SchedulerInputBlocker :=
  let! _ := py_assert (negb (local_arrived b)) in
  Ok (mkBlocker (state b) (pending_reqs b) (noop b) true).

(** [peers] is the minimum of the arrivals of the other ranks. *)
Definition compute_global_arrived (peers : bool) (b : SchedulerInputBlocker) : bool :=
  (noop b || local_arrived b) && peers.

Definition poll_global_arrived (peers : bool) (b : SchedulerInputBlocker)
    : bool * SchedulerInputBlocker :=
  let output := local_arrived b && compute_global_arrived peers b in
  (output, if output then mkBlocker (state b) (pending_reqs b) (noop b) false else b).

Definition execute_block_req := change_state UNBLOCKED BLOCKED.
Definition execute_unblock_req (b : SchedulerInputBlocker) : result SchedulerInputBlocker :=
  let! b := change_state BLOCKED GLOBAL_UNBLOCK_BARRIER b in
  local_arrive b.

Definition handle_recv_req (recv_req : RecvReq) (b : SchedulerInputBlocker)
    : result (list R * SchedulerInputBlocker) :=
  match recv_req with
  | BlockReqInput BLOCK => let! b := execute_block_req b in Ok ([], b)
  | BlockReqInput UNBLOCK => let! b := execute_unblock_req b in Ok ([], b)
  | Other r =>
      match state b with
      | UNBLOCKED => Ok ([r], b)
      | _ => Ok ([], mkBlocker (state b) (pending_reqs b ++ [r]) (noop b) (local_arrived b))
      end
  end.

Definition handle_arrive_unblock_barrier (b : SchedulerInputBlocker)
    : result (list R * SchedulerInputBlocker) :=
  let! b := change_state GLOBAL_UNBLOCK_BARRIER UNBLOCKED b in
  Ok (pending_reqs b, mkBlocker (state b) [] (noop b) (local_arrived b)).

Fixpoint handle_recv_reqs (reqs : list RecvReq) (out : list R) (b : SchedulerInputBlocker)
    : result (list R * SchedulerInputBlocker) :=
  match reqs with
  | [] => Ok (out, b)
  | r :: reqs =>
      let! (o, b) := handle_recv_req r b in
      handle_recv_reqs reqs (out ++ o) b
  end.

(** [handle]; the caller passes [None] exactly on the ranks that do not
    receive. *)
Definition handle (recv_reqs : option (list RecvReq)) (peers : bool) (b : SchedulerInputBlocker)
    : result (option (list R) * SchedulerInputBlocker) :=
  let! _ := py_assert (Bool.eqb (match recv_reqs with None => true | Some _ => false end) (noop b)) in
  let! (output_reqs, b) :=
    if noop b then Ok (None, b)
    else let! (o, b) := handle_recv_reqs (default [] recv_reqs) [] b in Ok (Some o, b) in
  let '(arrived, b) := poll_global_arrived peers b in
  let! (output_reqs, b) :=
    if bool_decide (state b = GLOBAL_UNBLOCK_BARRIER) && arrived then
      let! o := of_option RuntimeError output_reqs in
      let! (o', b) := handle_arrive_unblock_barrier b in
      Ok (Some (o ++ o'), b)
    else Ok (output_reqs, b) in
  Ok (output_reqs, b).

(** *** Properties *)

Definition data (l : list RecvReq) : list R :=
  omap (λ r, match r with Other x => Some x | _ => None end) l.

(** Nothing waits while unblocked, and the barrier is waited for exactly in
    the third state. *)
Record blocker_inv (b : SchedulerInputBlocker) : Prop := {
  bi_pending : state b = UNBLOCKED → pending_reqs b = [];
  bi_arrived : local_arrived b = bool_decide (state b = GLOBAL_UNBLOCK_BARRIER);
  bi_noop : noop b = false;
}.

(** A message is in order when it blocks an unblocked or unblocks a blocked
    scheduler. *)
Definition in_order (s : State) (r : RecvReq) : option State :=
  match r, s with
  | BlockReqInput BLOCK, UNBLOCKED => Some BLOCKED
  | BlockReqInput UNBLOCK, BLOCKED => Some GLOBAL_UNBLOCK_BARRIER
  | Other _, s => Some s
  | _, _ => None
  end.
Fixpoint all_in_order (s : State) (l : list RecvReq) : option State :=
  match l with
  | [] => Some s
  | r :: l => match in_order s r with Some s => all_in_order s l | None => None end
  end.

Lemma handle_recv_req_ok r b s :
  blocker_inv b → in_order (state b) r = Some s →
  ∃ o b', handle_recv_req r b = Ok (o, b') ∧ state b' = s ∧ blocker_inv b' ∧
    o ++ pending_reqs b' = pending_reqs b ++ data [r].
Proof.
  intros [Hp Ha Hn] Hs. destruct b as [st pend no la], r as [[]|x]; destruct st; simplify_eq/=;
    unfold execute_block_req, execute_unblock_req, change_state, local_arrive; cbn;
    (eexists _, _; split; [done|]); (split; [done|]); split; try (split; by eauto); cbn;
    rewrite ?app_nil_r; try done; by rewrite Hp.
Qed.

Lemma handle_recv_req_fails r b :
  blocker_inv b → in_order (state b) r = None → handle_recv_req r b = Raise AssertionError.
Proof.
  intros [Hp Ha Hn] Hs. destruct b as [st pend no la], r as [[]|x]; destruct st; simplify_eq/=; done.
Qed.

Lemma handle_recv_reqs_ok l out b s :
  blocker_inv b → all_in_order (state b) l = Some s →
  ∃ o b', handle_recv_reqs l out b = Ok (out ++ o, b') ∧ state b' = s ∧ blocker_inv b' ∧
    o ++ pending_reqs b' = pending_reqs b ++ data l.
Proof.
  revert out b. induction l as [|r l IH]; intros out b Hi Hs; cbn in *.
  { simplify_eq. exists [], b. rewrite !app_nil_r. by split_and!. }
  destruct (in_order (state b) r) as [s1|] eqn:E; [|done].
  destruct (handle_recv_req_ok r b s1 Hi E) as (o & b1 & -> & <- & Hi1 & Ho). cbn [rbind].
  destruct (IH (out ++ o) b1 Hi1 Hs) as (o' & b' & -> & Hs' & Hi' & Ho').
  exists (o ++ o'), b'. rewrite app_assoc. split_and!; try done.
  rewrite <-app_assoc, Ho', app_assoc, Ho. rewrite <-app_assoc. f_equal.
  unfold data. by rewrite <-omap_app.
Qed.

(** One pass of the scheduler: requests come out in the order they came in,
    held back ones first; all of them when the barrier is passed. *)
Lemma handle_ok l peers b s :
  blocker_inv b → all_in_order (state b) l = Some s →
  ∃ o b', handle (Some l) peers b = Ok (Some o, b') ∧ blocker_inv b' ∧
    o ++ pending_reqs b' = pending_reqs b ++ data l ∧
    state b' = (if bool_decide (s = GLOBAL_UNBLOCK_BARRIER) && peers then UNBLOCKED else s).
Proof.
  intros Hi Hs. unfold handle. rewrite (bi_noop _ Hi). cbn [Bool.eqb py_assert rbind from_option id].
  destruct (handle_recv_reqs_ok l [] b s Hi Hs) as (o & b1 & -> & <- & Hi1 & Ho). cbn [rbind app].
  unfold poll_global_arrived, compute_global_arrived. rewrite (bi_noop _ Hi1), (bi_arrived _ Hi1). cbn [orb].
  destruct (bool_decide_reflect (state b1 = GLOBAL_UNBLOCK_BARRIER)) as [Hg|Hg], peers; cbn.
  - rewrite Hg. cbn. eexists _, _; split; [done|]. split_and!; [|by rewrite app_nil_r|done].
    by split.
  - rewrite bool_decide_true by done. cbn. exists o, b1. by split_and!.
  - rewrite bool_decide_false by done. cbn. exists o, b1. by split_and!.
  - rewrite bool_decide_false by done. cbn. exists o, b1. by split_and!.
Qed.

Lemma handle_recv_reqs_fails l out b :
  blocker_inv b → all_in_order (state b) l = None → handle_recv_reqs l out b = Raise AssertionError.
Proof.
  revert out b. induction l as [|r l IH]; intros out b Hi Hs; cbn in *; [done|].
  destruct (in_order (state b) r) as [s1|] eqn:E; [|by rewrite handle_recv_req_fails].
  destruct (handle_recv_req_ok r b s1 Hi E) as (o & b1 & -> & <- & Hi1 & _). by apply IH.
Qed.

Lemma handle_fails l peers b :
  blocker_inv b → all_in_order (state b) l = None → handle (Some l) peers b = Raise AssertionError.
Proof.
  intros Hi Hs. unfold handle. rewrite (bi_noop _ Hi). cbn. by rewrite handle_recv_reqs_fails.
Qed.

Lemma init_inv : blocker_inv (init false).
Proof. by split. Qed.

(** *** Sequences of calls *)

(** The passes of a receiving scheduler: a call of [handle] each, with what was
    received and whether the other ranks have arrived at the barrier.  An
    exception of a call ends the run. *)
Fixpoint handle_all (calls : list (list RecvReq * bool)) (b : SchedulerInputBlocker)
    : result (list R * SchedulerInputBlocker) :=
  match calls with
  | [] => Ok ([], b)
  | (l, peers) :: calls =>
      let! (o, b) := handle (Some l) peers b in
      let! (out, b) := handle_all calls b in
      Ok (default [] o ++ out, b)
  end.

(** The state after the calls, if every message was in order. *)
Fixpoint calls_in_order (s : State) (calls : list (list RecvReq * bool)) : option State :=
  match calls with
  | [] => Some s
  | (l, peers) :: calls =>
      match all_in_order s l with
      | Some s => calls_in_order (if bool_decide (s = GLOBAL_UNBLOCK_BARRIER) && peers then UNBLOCKED else s) calls
      | None => None
      end
  end.

Lemma handle_all_ok calls b s :
  blocker_inv b → calls_in_order (state b) calls = Some s →
  ∃ out b', handle_all calls b = Ok (out, b') ∧ state b' = s ∧ blocker_inv b' ∧
    out ++ pending_reqs b' = pending_reqs b ++ mjoin (data <$> calls.*1).
Proof.
  revert b. induction calls as [|[l peers] calls IH]; intros b Hi Hs; cbn in *.
  { simplify_eq. exists [], b. by rewrite app_nil_r. }
  destruct (all_in_order (state b) l) as [s1|] eqn:E; [|done].
  destruct (handle_ok l peers b s1 Hi E) as (o & b1 & -> & Hi1 & Ho & Hs1). rewrite <-Hs1 in Hs. cbn [rbind].
  destruct (IH b1 Hi1 Hs) as (out & b2 & -> & Hs2 & Hi2 & Hout). cbn.
  eexists _, _; split; [done|]. split_and!; [done..|].
  by rewrite <-app_assoc, Hout, app_assoc, Ho, <-app_assoc.
Qed.

Lemma handle_all_fails calls b :
  blocker_inv b → calls_in_order (state b) calls = None → handle_all calls b = Raise AssertionError.
Proof.
  revert b. induction calls as [|[l peers] calls IH]; intros b Hi Hs; cbn in *; [done|].
  destruct (all_in_order (state b) l) as [s1|] eqn:E; [|by rewrite handle_fails].
  destruct (handle_ok l peers b s1 Hi E) as (o & b1 & -> & Hi1 & _ & Hs1). rewrite <-Hs1 in Hs. cbn [rbind].
  by rewrite (IH b1 Hi1 Hs).
Qed.
End blocker.

Arguments RecvReq : clear implicits.
Arguments SchedulerInputBlocker : clear implicits.

End Blocker.

(** ** SchedulerRecvSkipper *)

Module RecvSkipper.

Section skipper.
(** Forward modes and the weights of the environment. *)
Context {Mode : Type} `{EqDecision Mode} (DECODE TARGET_VERIFY : Mode).
Context (w_default w_decode w_verify w_none : Z).

Record Skipper := mkSkipper { counter : Z; threshold : Z }.

Definition maybe_create (scheduler_recv_interval : Z) (enable_dp_attention : bool)
    : result (option Skipper) :=
  if scheduler_recv_interval <=? 1 then Ok None
  else
    let! _ := py_assert (negb enable_dp_attention) in
    Ok (Some (mkSkipper 0 scheduler_recv_interval)).

Definition weight_of (last_forward_mode : option Mode) : Z :=
  match last_forward_mode with
  | None => w_none
  | Some m =>
      if decide (m = TARGET_VERIFY) then w_verify
      else if decide (m = DECODE) then w_decode
      else w_default
  end.

Definition handle (last_forward_mode : option Mode) (s : Skipper) : bool * Skipper :=
  let counter := counter s + weight_of last_forward_mode in
  if threshold s <=? counter then (true, mkSkipper 0 (threshold s))
  else (false, mkSkipper counter (threshold s)).

Fixpoint handles (l : list (option Mode)) (s : Skipper) : list bool * Skipper :=
  match l with
  | [] => ([], s)
  | m :: l =>
      let '(b, s) := handle m s in
      let '(bs, s) := handles l s in
      (b :: bs, s)
  end.

(** With weights of at least one, the scheduler never skips [threshold] polls
    in a row. *)
Lemma handles_bounded l s :
  (∀ m, 1 ≤ weight_of m) → 0 ≤ counter s →
  Forall (λ b, b = false) (handles l s).1 →
  counter s + Z.of_nat (length l) ≤ counter (handles l s).2 ∧
  (l ≠ [] → counter (handles l s).2 < threshold s).
Proof.
  intros Hw. revert s. induction l as [|m l IH]; intros s Hc Hf; cbn in *; [split; [lia|done]|].
  unfold handle in *. destruct (Z.leb_spec (threshold s) (counter s + weight_of m)) as [Hl|Hl].
  - destruct (handles l _). inversion Hf; done.
  - destruct (handles l (mkSkipper (counter s + weight_of m) (threshold s))) as [bs s'] eqn:E.
    inversion Hf; subst. pose proof (Hw m).
    destruct (IH (mkSkipper (counter s + weight_of m) (threshold s))) as [Hlo Hhi];
      [cbn; lia|by rewrite E|]. rewrite E in Hlo, Hhi. cbn in *. split; [lia|].
    intros _. destruct l; [cbn in E; simplify_eq/=; done|by apply Hhi].
Qed.
End skipper.

End RecvSkipper.
