(* ===== verification/PrefillAdder.v ===== *)
(** Admission of requests to a prefill batch: [AddReqResult] and class
    [PrefillAdder] of managers/schedule_policy.py, over the interface
    [PrefixCache] of what the adder needs of mem_cache/base_prefix_cache.py and
    of the KV allocator, and its implementation by the radix cache.

    Floats are rationals: [rem_total_token_offset] and the estimates made with
    [new_token_ratio] are exact.  Requests are identified by [rid].  The lock
    identifiers of sliding-window caches ([swa_uuid_for_lock]) are not kept. *)

From stdpp Require Import base gmap strings list.
From Stdlib Require Import ZArith QArith Lia.
From S2P Require Import Prelude.
From S2P Require Import PyData.
From S2P Require Import RadixKey.
From S2P Require Import RadixTree.
From S2P Require Import ReqCache.
From S2P Require Import Delayer.

Open Scope Z_scope.

(** ** Requests as the scheduler sees them *)

Record SReq := mkSReq {
  kv : Req;
  rid : string;
  max_new_tokens : Z;
  ignore_eos : bool;
  wait_queue_entry_time : Z;
  routing_key : option string;
  num_matched_prefix_tokens : Z;
  host_hit_length : Z;
  swa_host_hit_length : Z;
  mamba_host_hit_length : Z;
  mamba_pool_idx : option nat;
  retracted_stain : bool;
  is_finished : bool;
}.

Definition with_kv (k : Req) (r : SReq) : SReq :=
  mkSReq k (rid r) (max_new_tokens r) (ignore_eos r) (wait_queue_entry_time r) (routing_key r)
    (num_matched_prefix_tokens r) (host_hit_length r) (swa_host_hit_length r)
    (mamba_host_hit_length r) (mamba_pool_idx r) (retracted_stain r) (is_finished r).

(** The scheduler's part of [Req.reset_for_retract]. *)
Definition stain (r : SReq) : SReq :=
  mkSReq (kv r) (rid r) (max_new_tokens r) (ignore_eos r) (wait_queue_entry_time r)
    (routing_key r) 0 (host_hit_length r) (swa_host_hit_length r)
    (mamba_host_hit_length r) None true (is_finished r).

Definition needs_host_load_back (r : SReq) : bool :=
  (0 <? host_hit_length r) || (0 <? swa_host_hit_length r) || (0 <? mamba_host_hit_length r).

Definition prefix_len (r : SReq) : Z := Z.of_nat (length (prefix_indices (kv r))).
Definition fill_len (r : SReq) : Z := Z.of_nat (length (full_untruncated_fill_ids (kv r))).
Definition output_len (r : SReq) : Z := Z.of_nat (length (output_ids (kv r))).

(** [len(req.full_untruncated_fill_ids) - len(req.prefix_indices)] *)
Definition cand_extend_input_len (r : SReq) : Z := fill_len r - prefix_len r.

Definition extend_length (r : SReq) : Z :=
  match extend_range (kv r) with Some (a, b) => b - a | None => 0 end.

Definition set_range (start stop : Z) (r : SReq) : SReq :=
  with_kv (set_extend_range start stop (kv r)) r.

(** ** What the adder needs of a prefix cache and its allocator *)

Class PrefixCache (S : Type) := {
  pc_disable : S → bool;
  pc_available_size : S → Z;
  pc_evictable_size : S → Z;
  pc_full_available_size : S → Z;
  pc_full_evictable_size : S → Z;
  pc_swa_available_size : S → Z;
  pc_swa_evictable_size : S → Z;
  pc_sliding_window_size : S → Z;
  pc_inc_lock_ref : option nat → S → result S;
  pc_dec_lock_ref : option nat → S → result S;
  (** [req_to_token_pool.available_size()] *)
  pc_req_slots : S → Z;
  (** [Req.init_next_round_input(tree_cache)] *)
  pc_init_next_round : SReq → S → result (SReq * S);
  (** the loaded indices, the new last node and the cache *)
  pc_init_load_back : SReq → S → result (list Z * option nat * S);
  (** [ScheduleBatch.release_req] *)
  pc_release_req : SReq → Z → S → result (SReq * S);
}.

(** ** PrefillAdder *)

Inductive AddReqResult := CONTINUE | NO_TOKEN | OTHER.

Global Instance add_req_result_eq_dec : EqDecision AddReqResult.
Proof. solve_decision. Defined.

Definition IGNORE_EOS_RESERVE_TOKENS : Z := 1.

(** What a pass fixes. *)
Record AdderCfg := mkAdderCfg {
  ac_page_size : Z;
  clip_max_new_tokens : Z;
  new_token_ratio : Q;
  is_hybrid_swa : bool;
  is_all_swa : bool;
  is_hybrid_ssm_cache : bool;
  mamba_slot_cost : Z;
  preemption_threshold : Z;
  dsa_prefill_cp_in_seq_split : bool;
  ac_max_running_requests : Z;
  prefill_max_requests : option Z;
  ac_max_prefill_bs : Z;
  ac_waiting_queue_len : Z;
  dllm_block_size : option Z;
}.

(** The remaining budgets and the counters of the log. *)
Record Budget := mkBudget {
  rem_input_tokens : Z;
  rem_chunk_tokens : option Z;
  rem_dllm_tokens : Z;
  rem_total_token_offset : Q;
  cur_rem_token_offset : Z;
  rem_swa_token_offset : Z;
  rem_mamba_slots : option Z;
  log_hit_tokens : Z;
  log_input_tokens : Z;
  reprocessed_log_hit_tokens : Z;
  reprocessed_log_input_tokens : Z;
}.

Record Adder (S : Type) := mkAdder {
  ad_cache : S;
  ad_exec : option Delayer.Executor;
  ad_running : option (list SReq);
  ad_budget : Budget;
  req_states : option (list (Q * Z));
  can_run_list : list SReq;
  preempt_list : list SReq;
  new_chunked_req : option SReq;
}.
Arguments mkAdder {S} _ _ _ _ _ _ _ _.
Arguments ad_cache {S} _.
Arguments ad_exec {S} _.
Arguments ad_running {S} _.
Arguments ad_budget {S} _.
Arguments req_states {S} _.
Arguments can_run_list {S} _.
Arguments preempt_list {S} _.
Arguments new_chunked_req {S} _.

Definition set_cache {S} (s : S) (ad : Adder S) : Adder S :=
  mkAdder s (ad_exec ad) (ad_running ad) (ad_budget ad) (req_states ad) (can_run_list ad)
    (preempt_list ad) (new_chunked_req ad).
Definition set_exec {S} (e : option Delayer.Executor) (ad : Adder S) : Adder S :=
  mkAdder (ad_cache ad) e (ad_running ad) (ad_budget ad) (req_states ad) (can_run_list ad)
    (preempt_list ad) (new_chunked_req ad).
Definition set_budget {S} (b : Budget) (ad : Adder S) : Adder S :=
  mkAdder (ad_cache ad) (ad_exec ad) (ad_running ad) b (req_states ad) (can_run_list ad)
    (preempt_list ad) (new_chunked_req ad).
Definition set_req_states {S} (l : option (list (Q * Z))) (ad : Adder S) : Adder S :=
  mkAdder (ad_cache ad) (ad_exec ad) (ad_running ad) (ad_budget ad) l (can_run_list ad)
    (preempt_list ad) (new_chunked_req ad).
(** [can_run_list.append(req)] *)
Definition push_can_run {S} (r : SReq) (ad : Adder S) : Adder S :=
  mkAdder (ad_cache ad) (ad_exec ad) (ad_running ad) (ad_budget ad) (req_states ad)
    (can_run_list ad ++ [r]) (preempt_list ad) (new_chunked_req ad).
Definition set_new_chunked {S} (r : SReq) (ad : Adder S) : Adder S :=
  mkAdder (ad_cache ad) (ad_exec ad) (ad_running ad) (ad_budget ad) (req_states ad)
    (can_run_list ad) (preempt_list ad) (Some r).

Section adder.
Context {S : Type} `{PrefixCache S} (ac : AdderCfg).
(** The collective and the clock behind the prefill delayer. *)
Context (gather : Delayer.Info → list Delayer.Info) (perf_counter : nat → Q).
Implicit Types ad : Adder S.

Definition get_running_request_total_token_offset (r : SReq) : Q :=
  Qmult (inject_Z (Z.min (max_new_tokens r - output_len r) (clip_max_new_tokens ac)))
    (new_token_ratio ac).

Definition qsum (l : list Q) : Q := foldr Qplus 0%Q l.

Definition init_adder (s : S) (exec : option Delayer.Executor) (running : option (list SReq))
    (rem_input_tokens : Z) (rem_chunk_tokens : option Z) (num_mixed_decode_tokens : Z)
    (dllm_max_running_requests : Z) (mamba_available mamba_evictable : Z) : Adder S :=
  let rem_total :=
    Qplus (inject_Z num_mixed_decode_tokens)
      (qsum (get_running_request_total_token_offset <$> default [] running)) in
  let dllm :=
    match dllm_block_size ac with Some b => dllm_max_running_requests * b | None => 0 end in
  let mamba :=
    if mamba_slot_cost ac =? 0 then None
    else Some (mamba_available + (if is_hybrid_ssm_cache ac then mamba_evictable else 0)) in
  mkAdder s exec running
    (mkBudget (rem_input_tokens - num_mixed_decode_tokens)
      ((λ c, c - num_mixed_decode_tokens) <$> rem_chunk_tokens) dllm rem_total
      num_mixed_decode_tokens 0 mamba 0 0 0 0)
    None [] [] None.

Definition available_and_evictable (s : S) : Z :=
  if is_all_swa ac then pc_swa_available_size s + pc_swa_evictable_size s
  else if is_hybrid_swa ac then pc_full_available_size s + pc_full_evictable_size s
  else if is_hybrid_ssm_cache ac then pc_available_size s + pc_full_evictable_size s
  else pc_available_size s + pc_evictable_size s.

Definition rem_total_tokens ad : Q :=
  Qminus (inject_Z (available_and_evictable (ad_cache ad))) (rem_total_token_offset (ad_budget ad)).

Definition rem_swa_tokens ad : Z :=
  pc_swa_available_size (ad_cache ad) + pc_swa_evictable_size (ad_cache ad)
  - rem_swa_token_offset (ad_budget ad).

Definition cur_rem_tokens ad : Z :=
  available_and_evictable (ad_cache ad) - cur_rem_token_offset (ad_budget ad).

(** [-(-tokens // page_size) * page_size] *)
Definition ceil_paged_tokens (tokens : Z) : Z :=
  - ((- tokens) / ac_page_size ac) * ac_page_size ac.

Definition swa_budget_for_req ad (extend_input_len swa_host_hit_length : Z) : Z :=
  let alloc :=
    match rem_chunk_tokens (ad_budget ad) with
    | Some c => Z.min extend_input_len c
    | None => extend_input_len
    end in
  let budget := Z.max alloc (pc_sliding_window_size (ad_cache ad)) + ac_page_size ac in
  if 0 <? swa_host_hit_length then budget + ceil_paged_tokens swa_host_hit_length else budget.

Definition mamba_gap_budget_for_req (r : SReq) : Z :=
  match mamba_pool_idx r with
  | None => if negb (mamba_slot_cost ac =? 0) then mamba_slot_cost ac else 0
  | Some _ => 0
  end.

Definition budget_state ad : AddReqResult :=
  let b := ad_budget ad in
  let no_token := Qle_bool (rem_total_tokens ad) 0 || (cur_rem_tokens ad <=? 0) in
  let no_token :=
    if negb no_token && is_hybrid_swa ac then rem_swa_tokens ad <=? 0 else no_token in
  let no_token :=
    match rem_mamba_slots b with
    | Some m => if negb no_token then m <=? 0 else no_token
    | None => no_token
    end in
  if no_token then NO_TOKEN
  else if rem_input_tokens b <=? 0 then OTHER
  else
    match dllm_block_size ac with
    | Some _ => if rem_dllm_tokens b <=? 0 then OTHER else CONTINUE
    | None =>
        match rem_chunk_tokens b with
        | Some c => if c <=? 0 then OTHER else CONTINUE
        | None => CONTINUE
        end
    end.

Definition update_prefill_budget (prefix_len extend_input_len max_new_tokens : Z)
    (retracted_stain : bool) (mamba_gap_reserve : Z) ad : Adder S :=
  let b := ad_budget ad in
  let extend_input_len := ceil_paged_tokens extend_input_len in
  let page_overhead := ac_page_size ac in
  let swa_charge :=
    if is_hybrid_swa ac then swa_budget_for_req ad extend_input_len 0 else 0 in
  let is_dllm := match dllm_block_size ac with Some _ => true | None => false end in
  set_budget
    (mkBudget
      (rem_input_tokens b - extend_input_len)
      (if is_dllm then rem_chunk_tokens b
       else (λ c, c - extend_input_len) <$> rem_chunk_tokens b)
      (if is_dllm then rem_dllm_tokens b - extend_input_len else rem_dllm_tokens b)
      (Qplus (rem_total_token_offset b)
        (inject_Z (extend_input_len + max_new_tokens + page_overhead + mamba_gap_reserve)))
      (cur_rem_token_offset b + (extend_input_len + page_overhead + mamba_gap_reserve))
      (rem_swa_token_offset b + swa_charge)
      (if negb (mamba_gap_reserve =? 0) then (λ m, m - 1) <$> rem_mamba_slots b
       else rem_mamba_slots b)
      (log_hit_tokens b + prefix_len)
      (log_input_tokens b + extend_input_len)
      (if retracted_stain then reprocessed_log_hit_tokens b + prefix_len
       else reprocessed_log_hit_tokens b)
      (if retracted_stain then reprocessed_log_input_tokens b + extend_input_len
       else reprocessed_log_input_tokens b)) ad.

(** [_update_prefill_budget] with the gap of the request. *)
Definition charge (prefix_len extend_input_len max_new : Z) (r : SReq) ad : Adder S :=
  update_prefill_budget prefix_len extend_input_len max_new (retracted_stain r)
    (mamba_gap_budget_for_req r) ad.

Definition get_dllm_remain_tokens (block : Z) ad : Z :=
  let rem := rem_dllm_tokens (ad_budget ad) in
  let t := Z.min (Z.min rem block) (py_int (rem_total_tokens ad)) in
  if t <=? 0 then rem else t.

Definition add_dllm_req (block : Z) (r : SReq) (prefix_len : Z) ad : SReq * Adder S :=
  let trunc_len :=
    Z.min (rem_dllm_tokens (ad_budget ad)) block / ac_page_size ac * ac_page_size ac in
  let r := set_range prefix_len (prefix_len + trunc_len) r in
  (r, charge prefix_len trunc_len 0 r (push_can_run r ad)).

Definition req_inc_lock_ref (r : SReq) ad : result (Adder S) :=
  let! s := pc_inc_lock_ref (last_node (kv r)) (ad_cache ad) in
  Ok (set_cache s ad).

(** Truncates the input to [rem_tokens] and charges the budget; says whether
    the request was truncated. *)
Definition add_truncated (rem_tokens : Z) (r : SReq) ad : bool * SReq * Adder S :=
  let cand := cand_extend_input_len r in
  let truncated := rem_tokens <? cand in
  let new_len := Z.min cand rem_tokens in
  let r := set_range (prefix_len r) (prefix_len r + new_len) r in
  (truncated, r,
   charge 0 (extend_length r)
     (if truncated then 0 else Z.min (max_new_tokens r) (clip_max_new_tokens ac)) r
     (push_can_run r ad)).

Definition add_dllm_staging_req (r : SReq) ad : result (AddReqResult * SReq * Adder S) :=
  match dllm_block_size ac with
  | None => Raise AssertionError
  | Some block =>
      let rem_tokens := get_dllm_remain_tokens block ad in
      if rem_tokens <=? 0 then Ok (NO_TOKEN, r, ad)
      else
        let '(_, r, ad) := add_truncated rem_tokens r ad in
        Ok (if get_dllm_remain_tokens block ad <=? 0 then NO_TOKEN else CONTINUE, r, ad)
  end.

(** Returns the request when its prefill is not finished. *)
Definition add_chunked_req (r : SReq) ad : result (option SReq * Adder S) :=
  let finish rem_tokens :=
    let '(truncated, r, ad) := add_truncated rem_tokens r ad in
    Ok (if truncated then Some r else None, ad) in
  match dllm_block_size ac with
  | Some block => finish (get_dllm_remain_tokens block ad)
  | None =>
      let! chunk := of_option TypeError (rem_chunk_tokens (ad_budget ad)) in
      let rem_tokens := Z.min chunk (py_int (rem_total_tokens ad)) in
      let rem_tokens :=
        if is_hybrid_swa ac then Z.min rem_tokens (rem_swa_tokens ad - ac_page_size ac)
        else rem_tokens in
      if rem_tokens <=? 0 then
        if is_hybrid_swa ac then Ok (Some r, ad) else finish chunk
      else finish rem_tokens
  end.

(** *** Requests that ignore the end token *)

(** The tokens a request still needs and those it occupies, if any are left. *)
Definition req_state (r : SReq) : option (Q * Z) :=
  let ratio := if ignore_eos r then 1%Q else new_token_ratio ac in
  let tokens_left := Qminus (Qmult (inject_Z (max_new_tokens r)) ratio) (inject_Z (output_len r)) in
  if Qle_bool tokens_left 0 then None
  else Some (tokens_left, Z.of_nat (length (origin_input_ids (kv r))) + output_len r).

(** The value of the loop variable after the search of the insertion point. *)
Fixpoint insert_index (i : nat) (tokens_left : Q) (l : list (Q * Z)) : nat :=
  match l with
  | [] => (i - 1)%nat
  | (t, _) :: l => if Qle_bool tokens_left t then i else insert_index (i + 1) tokens_left l
  end.

Definition add_req_state_sorted (r : SReq) (l : list (Q * Z)) : list (Q * Z) :=
  match req_state r with
  | None => l
  | Some x => let i := insert_index 0 x.1 l in take i l ++ x :: drop i l
  end.

Definition by_tokens_left (x y : Q * Z) : bool := qltb x.1 y.1.

Definition updated_req_states (r : SReq) ad : list (Q * Z) :=
  match req_states ad with
  | None => py_sort by_tokens_left
      (omap req_state (r :: default [] (ad_running ad) ++ can_run_list ad))
  | Some l => add_req_state_sorted r l
  end.

(** The simulation of the running requests to their ends; [false] when the
    memory runs out. *)
Fixpoint enough_to_finish (cur_rem tokens_freed : Z) (l : list (Q * Z)) : bool :=
  match l with
  | [] => true
  | (tokens_left, tokens_occupied) :: l' =>
      let bs := Z.of_nat (length l) in
      let min_free_tokens :=
        Qminus (inject_Z (cur_rem + tokens_freed)) (Qmult tokens_left (inject_Z bs)) in
      if Qle_bool min_free_tokens (inject_Z (IGNORE_EOS_RESERVE_TOKENS * bs)) then false
      else enough_to_finish cur_rem (tokens_freed + tokens_occupied) l'
  end.

(** [prefill_delayer_single_pass is not None and not negotiate(...)] *)
Definition delayed (running_batch max_prefill_bs max_running_requests waiting_queue_len : Z) ad
    : result (bool * Adder S) :=
  match ad_exec ad with
  | None => Ok (false, ad)
  | Some e =>
      let! (allow, e) := Delayer.negotiate_should_allow_prefill gather perf_counter e true
        running_batch max_prefill_bs max_running_requests waiting_queue_len in
      Ok (negb allow, set_exec (Some e) ad)
  end.

Definition add_one_req_ignore_eos (r : SReq) ad : result (AddReqResult * SReq * Adder S) :=
  let cand := cand_extend_input_len r in
  let paged_input := ceil_paged_tokens cand + mamba_gap_budget_for_req r in
  if (cur_rem_tokens ad <? paged_input) || qltb (rem_total_tokens ad) (inject_Z paged_input)
  then Ok (NO_TOKEN, r, ad)
  else if is_hybrid_swa ac && (rem_swa_tokens ad <? swa_budget_for_req ad cand 0)
  then Ok (NO_TOKEN, r, ad)
  else
  let ad := set_req_states (Some (updated_req_states r ad)) ad in
  if negb (is_hybrid_swa ac) &&
     negb (enough_to_finish (cur_rem_tokens ad - ceil_paged_tokens cand) 0
             (default [] (req_states ad)))
  then Ok (NO_TOKEN, r, ad)
  else
  let! (d, ad) := delayed 0 0 0 0 ad in
  if d then Ok (OTHER, r, ad)
  else
  match dllm_block_size ac with
  | Some block =>
      if rem_dllm_tokens (ad_budget ad) <=? 0 then Ok (OTHER, r, ad)
      else let '(r, ad) := add_dllm_req block r 0 ad in Ok (budget_state ad, r, ad)
  | None =>
      let whole r :=
        let r := set_range (prefix_len r) (fill_len r) r in
        let ad := charge 0 (extend_length r) (Z.min (max_new_tokens r) (clip_max_new_tokens ac)) r
          (push_can_run r ad) in
        Ok (budget_state ad, r, ad) in
      match rem_chunk_tokens (ad_budget ad) with
      | None => whole r
      | Some chunk =>
          if cand <=? chunk then whole r
          else if chunk <=? 0 then Ok (OTHER, r, ad)
          else
            let trunc_len := chunk in
            let! _ := py_assert (prefix_len r =? 0) in
            let r := set_range (prefix_len r) (prefix_len r + trunc_len) r in
            let ad := charge 0 trunc_len 0 r (set_new_chunked r (push_can_run r ad)) in
            Ok (budget_state ad, r, ad)
      end
  end.

(** *** [add_one_req] *)

(** Without chunked prefill, a further request must fit the input budget. *)
Definition input_exhausted (input_tokens : Z) ad : bool :=
  match rem_chunk_tokens (ad_budget ad) with
  | None => negb (length (can_run_list ad) =? 0)%nat && (rem_input_tokens (ad_budget ad) <=? input_tokens)
  | Some _ => false
  end.

(** The two token gates, in front of the lock and under it. *)
Definition no_token (total_tokens : Z) (r : SReq) ad : bool :=
  Qle_bool (rem_total_tokens ad) (inject_Z total_tokens) ||
  (is_hybrid_swa ac &&
   (rem_swa_tokens ad <=? swa_budget_for_req ad (cand_extend_input_len r) (swa_host_hit_length r))).

(** The length of the chunk of a request that does not fit; [None] when no
    page is left for it. *)
Definition chunk_trunc_len (chunk prefix_len : Z) (truncation_align_size : option Z) : option Z :=
  let trunc_len := chunk / ac_page_size ac * ac_page_size ac in
  if trunc_len <=? 0 then None
  else
    let aligned :=
      match truncation_align_size with
      | None => Some trunc_len
      | Some al => if trunc_len <? al then None else Some (al * (trunc_len / al))
      end in
    match aligned with
    | None => None
    | Some trunc_len =>
        let now_input_len := trunc_len + prefix_len in
        let now_input_len := now_input_len / ac_page_size ac * ac_page_size ac in
        let trunc_len := now_input_len - prefix_len in
        if trunc_len <=? 0 then None else Some trunc_len
    end.

(** The body of the [with self._lock_node(...)] block: [Some] result for a
    return from inside it. *)
Definition add_one_req_locked (total_tokens : Z) (truncation_align_size : option Z) (r : SReq) ad
    : result (option AddReqResult * SReq * Adder S) :=
  if no_token total_tokens r ad then Ok (Some NO_TOKEN, r, ad)
  else
  let! (r, ad) :=
    if needs_host_load_back r then
      let! (new_indices, node, s) := pc_init_load_back r (ad_cache ad) in
      let p := prefix_indices (kv r) ++ new_indices in
      Ok (with_kv (with_prefix p (length p) node (kv r)) r, set_cache s ad)
    else Ok (r, ad) in
  let prefix_len := prefix_len r in
  let input_tokens := ceil_paged_tokens (cand_extend_input_len r) in
  if input_exhausted input_tokens ad then Ok (Some OTHER, r, ad)
  else
  match dllm_block_size ac with
  | Some block =>
      if rem_dllm_tokens (ad_budget ad) <=? 0 then Ok (Some OTHER, r, ad)
      else
        let! _ := py_assert (match truncation_align_size with None => true | Some _ => false end) in
        let '(r, ad) := add_dllm_req block r prefix_len ad in
        let! ad := req_inc_lock_ref r ad in
        Ok (None, r, ad)
  | None =>
      let whole r :=
        let r := set_range prefix_len (fill_len r) r in
        let! ad := req_inc_lock_ref r (push_can_run r ad) in
        Ok (None, r,
            charge prefix_len input_tokens (Z.min (max_new_tokens r) (clip_max_new_tokens ac)) r ad) in
      match rem_chunk_tokens (ad_budget ad) with
      | None => whole r
      | Some chunk =>
          if input_tokens <=? chunk then whole r
          else
            match chunk_trunc_len chunk prefix_len truncation_align_size with
            | None => Ok (Some OTHER, r, ad)
            | Some trunc_len =>
                let r := set_range prefix_len (prefix_len + trunc_len) r in
                let! ad := req_inc_lock_ref r (set_new_chunked r (push_can_run r ad)) in
                Ok (None, r, charge prefix_len trunc_len 0 r ad)
            end
      end
  end.

Definition add_one_req (truncation_align_size : option Z) (r : SReq) ad
    : result (AddReqResult * SReq * Adder S) :=
  let! batch_size :=
    match ad_exec ad, ad_running ad with
    | None, _ => Ok 0
    | Some _, Some l => Ok (Z.of_nat (length l))
    | Some _, None => Raise AttributeError
    end in
  let! (d, ad) := delayed batch_size (ac_max_prefill_bs ac) (ac_max_running_requests ac)
    (ac_waiting_queue_len ac) ad in
  if d then Ok (OTHER, r, ad)
  else if dsa_prefill_cp_in_seq_split ac && (1 <=? length (can_run_list ad))%nat
  then Ok (OTHER, r, ad)
  else if match prefill_max_requests ac with
          | Some x => x <=? Z.of_nat (length (can_run_list ad))
          | None => false
          end
  then Ok (OTHER, r, ad)
  else if ignore_eos r && pc_disable (ad_cache ad) then add_one_req_ignore_eos r ad
  else
  let max_new :=
    Z.min (Z.max (max_new_tokens r - output_len r) 0) (clip_max_new_tokens ac) in
  let total_tokens :=
    cand_extend_input_len r + max_new + ac_page_size ac + mamba_gap_budget_for_req r in
  let real_input_tokens := ceil_paged_tokens (cand_extend_input_len r - host_hit_length r) in
  if no_token total_tokens r ad then Ok (NO_TOKEN, r, ad)
  else if input_exhausted real_input_tokens ad then Ok (OTHER, r, ad)
  else
  let node := last_node (kv r) in
  let! s := pc_inc_lock_ref node (ad_cache ad) in
  let! (early, r, ad) := add_one_req_locked total_tokens truncation_align_size r (set_cache s ad) in
  let! s := pc_dec_lock_ref node (ad_cache ad) in
  let ad := set_cache s ad in
  match early with
  | Some res => Ok (res, r, ad)
  | None => Ok (budget_state ad, r, ad)
  end.

(** *** Preemption *)

(** The sort key of the running requests; a missing priority cannot be
    multiplied. *)
Definition preempt_key (sign : Z) (r : SReq) : result (list Z) :=
  let! p := of_option TypeError (req_priority (kv r)) in
  Ok [p * - sign; - wait_queue_entry_time r].

Fixpoint with_keys (key : SReq → result (list Z)) (l : list SReq) : result (list (list Z * SReq)) :=
  match l with
  | [] => Ok []
  | r :: l => let! k := key r in let! l := with_keys key l in Ok ((k, r) :: l)
  end.

Definition by_key (x y : list Z * SReq) : bool := lex_ltb x.1 y.1.

(** [sorted(l, key=key)] *)
Definition sorted_reqs (key : SReq → result (list Z)) (l : list SReq) : result (list SReq) :=
  let! l := with_keys key l in
  Ok ((py_sort by_key l).*2).

(** The loop that collects victims until enough tokens are gained. *)
Fixpoint collect_victims (sign prio : Z) (need : Q) (l : list SReq) : result (list SReq * Q) :=
  match l with
  | [] => Ok ([], need)
  | v :: l =>
      let! p := of_option TypeError (req_priority (kv v)) in
      let priority_diff := (prio - p) * - sign in
      if preemption_threshold ac <? priority_diff then
        let need := Qminus need (get_running_request_total_token_offset v) in
        if Qle_bool need 0 then Ok ([v], need)
        else let! (vs, need) := collect_victims sign prio need l in Ok (v :: vs, need)
      else Ok ([], need)
  end.

Definition rids (l : list SReq) : list string := rid <$> l.

(** The loop over the running batch: victims are released, the others kept. *)
Fixpoint release_victims (victims : list string) (total : Z) (released : Z) (l : list SReq)
    (offset : Q) (s : S) : result (list SReq * list SReq * Q * S) :=
  match l with
  | [] => Ok ([], [], offset, s)
  | r :: l =>
      if bool_decide (rid r ∈ victims) then
        let offset := Qminus offset (get_running_request_total_token_offset r) in
        let released := released + 1 in
        let! (r, s) := pc_release_req r (total - released) s in
        let! (keep, gone, offset, s) := release_victims victims total released l offset s in
        Ok (keep, r :: gone, offset, s)
      else
        let! (keep, gone, offset, s) := release_victims victims total released l offset s in
        Ok (r :: keep, gone, offset, s)
  end.

Definition set_total_offset (q : Q) (b : Budget) : Budget :=
  mkBudget (rem_input_tokens b) (rem_chunk_tokens b) (rem_dllm_tokens b) q
    (cur_rem_token_offset b) (rem_swa_token_offset b) (rem_mamba_slots b) (log_hit_tokens b)
    (log_input_tokens b) (reprocessed_log_hit_tokens b) (reprocessed_log_input_tokens b).

Definition preempt_to_schedule (r : SReq) (schedule_low_priority_values_first : bool) ad
    : result (bool * Adder S) :=
  let sign := if schedule_low_priority_values_first then 1 else -1 in
  let! running := of_option AttributeError (ad_running ad) in
  let valid := filter (λ x, rid x ∉ rids (preempt_list ad) ∧ is_finished x = false) running in
  let! sorted := sorted_reqs (preempt_key sign) valid in
  let need :=
    Qminus (inject_Z (cand_extend_input_len r + Z.min (max_new_tokens r) (clip_max_new_tokens ac)))
      (rem_total_tokens ad) in
  let! prio :=
    match sorted with [] => Ok 0 | _ => of_option TypeError (req_priority (kv r)) end in
  let! (victims, need) := collect_victims sign prio need sorted in
  if (length victims =? 0)%nat || negb (Qle_bool need 0) then Ok (false, ad)
  else
    let! (keep, gone, offset, s) :=
      release_victims (rids victims) (Z.of_nat (length running)) 0 running
        (rem_total_token_offset (ad_budget ad)) (ad_cache ad) in
    Ok (true, mkAdder s (ad_exec ad) (Some keep) (set_total_offset offset (ad_budget ad))
      (req_states ad) (can_run_list ad) (preempt_list ad ++ gone) (new_chunked_req ad)).

(** *** The pass over the waiting queue *)

(** [Scheduler.get_num_allocatable_reqs] *)
Definition get_num_allocatable_reqs (pp_max_micro_batch_size running_bs : Z) (s : S) : Z :=
  Z.min (pp_max_micro_batch_size - running_bs) (pc_req_slots s).

(** The loop of [Scheduler._get_new_batch_prefill_raw] over the waiting queue,
    for servers without LoRA, storage prefetch, prefill disaggregation and
    hierarchical cache.  Returns [batch_is_full] and the queue, whose requests the
    lookups update. *)
Fixpoint add_waiting (pp_max_micro_batch_size : Z) (enable_priority_preemption low_first : bool)
    (truncation_align_size : option Z) (batch_is_full : bool) (waiting_queue : list SReq) ad
    : result (bool * list SReq * Adder S) :=
  match waiting_queue with
  | [] => Ok (batch_is_full, [], ad)
  | r :: queue =>
      let running_bs := Z.of_nat (length (default [] (ad_running ad))) in
      let batch_is_full :=
        (get_num_allocatable_reqs pp_max_micro_batch_size running_bs (ad_cache ad)
           <=? Z.of_nat (length (can_run_list ad))) || batch_is_full in
      let! (stop, ad) :=
        if batch_is_full then
          if enable_priority_preemption then
            let! (done, ad) := preempt_to_schedule r low_first ad in Ok (negb done, ad)
          else Ok (true, ad)
        else Ok (false, ad) in
      if stop then Ok (batch_is_full, waiting_queue, ad)
      else
        let! (r, s) := pc_init_next_round r (ad_cache ad) in
        let! (res, r, ad) := add_one_req truncation_align_size r (set_cache s ad) in
        match res with
        | CONTINUE =>
            let! (batch_is_full, queue, ad) :=
              add_waiting pp_max_micro_batch_size enable_priority_preemption low_first
                truncation_align_size batch_is_full queue ad in
            Ok (batch_is_full, r :: queue, ad)
        | NO_TOKEN => Ok (true, r :: queue, ad)
        | OTHER => Ok (batch_is_full, r :: queue, ad)
        end
  end.
End adder.

(** ** The radix cache as a [PrefixCache] *)

Section radix_instance.
Context {A : Type} `{KVPool A} `{KVAlloc A} `{Env} `{HeapQ}.
Variable cfg : Config.
Variables (strip spec_algo : bool) (retract_decode_steps : Z).

Definition radix_inc_lock_ref (n : option nat) (s : Sys A) : result (Sys A) :=
  if disable cfg then Ok s
  else
    let! n := of_option AttributeError n in
    let! (_, st) := inc_lock_ref cfg n (cache s) in
    Ok (mkSys st (req_to_token_pool s)).

Definition radix_dec_lock_ref (n : option nat) (s : Sys A) : result (Sys A) :=
  if disable cfg then Ok s
  else
    let! n := of_option AttributeError n in
    let! (_, st) := dec_lock_ref cfg n (cache s) in
    Ok (mkSys st (req_to_token_pool s)).

Definition radix_release_req (r : SReq) (remaining : Z) (s : Sys A) : result (SReq * Sys A) :=
  let! (k, s) := release_req cfg strip spec_algo retract_decode_steps (kv r) remaining s in
  Ok (stain (with_kv k r), s).

Definition with_match (k : Req) (r : SReq) : SReq :=
  mkSReq k (rid r) (max_new_tokens r) (ignore_eos r) (wait_queue_entry_time r) (routing_key r)
    (num_matched_prefix_tokens r) 0 0 0 (mamba_pool_idx r) (retracted_stain r) (is_finished r).

(** The match result of a radix cache has no host part. *)
Definition radix_init_next_round (r : SReq) (s : Sys A) : result (SReq * Sys A) :=
  let! (k, s) := init_next_round_input cfg (kv r) s in
  Ok (with_match k r, s).

(** A radix cache has no sliding-window and no host part: the base class
    reports zero sizes for them and cannot load back. *)
Definition radix_prefix_cache : PrefixCache (Sys A) := {|
  pc_disable _ := disable cfg;
  pc_available_size s := kv_available_size (allocator (cache s));
  pc_evictable_size s := evictable_size_ (tree (cache s));
  pc_full_available_size s := kv_available_size (allocator (cache s));
  pc_full_evictable_size _ := 0;
  pc_swa_available_size _ := 0;
  pc_swa_evictable_size _ := 0;
  pc_sliding_window_size _ := 0;
  pc_inc_lock_ref := radix_inc_lock_ref;
  pc_dec_lock_ref := radix_dec_lock_ref;
  pc_req_slots s := Z.of_nat (pool_available_size (req_to_token_pool s));
  pc_init_next_round := radix_init_next_round;
  pc_init_load_back _ _ := Raise NotImplementedError;
  pc_release_req := radix_release_req;
|}.
End radix_instance.
