(* ===== verification/ScheduleBatch.v ===== *)
(** Batches of requests: class [ScheduleBatch] and the functions around it of
    managers/schedule_batch.py, [update_running_batch] of managers/scheduler.py,
    the token-ratio tracker of
    managers/scheduler_components/new_token_ratio_tracker.py, and the KV part of
    managers/scheduler_components/batch_result_processor.py.

    A batch holds one entry per request in every column; columns that live on the
    device and on the host are kept apart.  Sampling and penalty state, encoder
    parts, multimodal and embedding inputs, mamba states and the drafts of
    speculative decoding are left out. *)

From stdpp Require Import base gmap strings list.
From Stdlib Require Import ZArith QArith Qminmax Lia.
From S2P Require Import Prelude.
From S2P Require Import PyData.
From S2P Require Import RadixKey.
From S2P Require Import RadixTree.
From S2P Require Import ReqCache.
From S2P Require Import BatchAlloc.
From S2P Require Import Delayer.
From S2P Require Import PrefillAdder.

Open Scope Z_scope.

(** ** Data *)

(** A request as a batch sees it: what batches read and write besides the fields
    the scheduler orders requests by. *)
Record BReq := mkBReq {
  sreq : SReq;
  extend_batch_idx : Z;
  decode_batch_idx : Z;
  cached_tokens : Z;
  already_computed : Z;
  cache_breakdown_computed : bool;
  cached_tokens_device : Z;
  cached_tokens_host : Z;
  cached_tokens_storage : Z;
  storage_hit_length : Z;
  is_retracted : bool;
  retraction_count : Z;
  top_logprobs_num : Z;
  token_ids_logprob : option (list Z);
  has_grammar : bool;
  wants_hidden_states : bool;
  (** the message of the [FINISH_ABORT] in [to_finish] *)
  abort_message : option string;
}.

Definition bkv (r : BReq) : Req := kv (sreq r).

Definition with_sreq (x : SReq) (r : BReq) : BReq :=
  mkBReq x (extend_batch_idx r) (decode_batch_idx r) (cached_tokens r) (already_computed r)
    (cache_breakdown_computed r) (cached_tokens_device r) (cached_tokens_host r)
    (cached_tokens_storage r) (storage_hit_length r) (is_retracted r) (retraction_count r)
    (top_logprobs_num r) (token_ids_logprob r) (has_grammar r) (wants_hidden_states r)
    (abort_message r).
Definition with_bkv (k : Req) (r : BReq) : BReq := with_sreq (with_kv k (sreq r)) r.

(** [kv_committed_len] and [kv_allocated_len]. *)
Definition with_kv_lens (c a : nat) (r : Req) : Req :=
  mkReq (origin_input_ids r) (output_ids r) (full_untruncated_fill_ids r) (fill_is_origin r)
    (extend_range r) (req_extra_key r) (req_pool_idx r) c a (kv_committed_freed r)
    (kv_overallocated_freed r) (cache_protected_len r) (prefix_indices r) (last_node r)
    (req_priority r) (session_id r) (inflight_middle_chunks r) (return_logprob r)
    (logprob_start_len r) (reasoning_tokens r) (skip_radix_cache_insert r)
    (has_embed_overrides r) (session_streaming r) (swa_evict_floor r) (swa_evicted_seqlen r).
Definition with_output (out : list Z) (chunks : Z) (r : Req) : Req :=
  mkReq (origin_input_ids r) out (full_untruncated_fill_ids r) (fill_is_origin r)
    (extend_range r) (req_extra_key r) (req_pool_idx r) (kv_committed_len r) (kv_allocated_len r)
    (kv_committed_freed r) (kv_overallocated_freed r) (cache_protected_len r) (prefix_indices r)
    (last_node r) (req_priority r) (session_id r) chunks (return_logprob r)
    (logprob_start_len r) (reasoning_tokens r) (skip_radix_cache_insert r)
    (has_embed_overrides r) (session_streaming r) (swa_evict_floor r) (swa_evicted_seqlen r).

Inductive ForwardMode := EXTEND | SPLIT_PREFILL | MIXED | DECODE.

(** The columns of the device, with the host copies the scheduler keeps. *)
Record Columns := mkCols {
  req_pool_indices : list nat;
  req_pool_indices_cpu : list nat;
  seq_lens : list nat;
  seq_lens_cpu : option (list nat);
  orig_seq_lens : list nat;
}.

Record ExtendInfo := mkExt {
  prefix_lens : list nat;
  extend_lens : list Z;
  extend_num_tokens : Z;
  extend_logprob_start_lens : list Z;
  prefill_input_ids : list Z;
  extend_input_logprob_token_ids : option (list Z);
}.

Record LogprobInfo := mkLogp {
  batch_return_logprob : bool;
  top_logprobs_nums : option (list Z);
  token_ids_logprobs : option (list (option (list Z)));
}.

Record BatchFlags := mkFlags {
  batch_has_grammar : bool;
  return_hidden_states : bool;
  is_prefill_only : bool;
}.

Record ScheduleBatch := mkSB {
  reqs : list BReq;
  forward_mode : option ForwardMode;
  enable_overlap : bool;
  cols : Columns;
  ext : ExtendInfo;
  logp : LogprobInfo;
  flags : BatchFlags;
  input_ids : option (list Z);
  mix_running_indices : option (list nat);
  out_cache_loc : option (list Z);
  batch_is_full : bool;
}.

Definition batch_size (b : ScheduleBatch) : nat := length (reqs b).
Definition is_empty (b : ScheduleBatch) : bool := (length (reqs b) =? 0)%nat.

Definition set_reqs (rs : list BReq) (b : ScheduleBatch) : ScheduleBatch :=
  mkSB rs (forward_mode b) (enable_overlap b) (cols b) (ext b) (logp b) (flags b) (input_ids b)
    (mix_running_indices b) (out_cache_loc b) (batch_is_full b).
Definition set_mode (m : ForwardMode) (b : ScheduleBatch) : ScheduleBatch :=
  mkSB (reqs b) (Some m) (enable_overlap b) (cols b) (ext b) (logp b) (flags b) (input_ids b)
    (mix_running_indices b) (out_cache_loc b) (batch_is_full b).
Definition set_full (x : bool) (b : ScheduleBatch) : ScheduleBatch :=
  mkSB (reqs b) (forward_mode b) (enable_overlap b) (cols b) (ext b) (logp b) (flags b) (input_ids b)
    (mix_running_indices b) (out_cache_loc b) x.

(** [Req.is_prefill_only]; [spec] says that speculative decoding is on. *)
Definition req_prefill_only (spec : bool) (r : BReq) : bool :=
  (max_new_tokens (sreq r) =? 0) && negb spec.

(** The tensors of a new batch are [None] until it is prepared. *)
Definition init_new (rs : list BReq) (overlap spec : bool) : ScheduleBatch :=
  mkSB rs None overlap (mkCols [] [] [] None []) (mkExt [] [] 0 [] [] None)
    (mkLogp (existsb (λ r, return_logprob (bkv r)) rs) None None)
    (mkFlags (existsb has_grammar rs) (existsb wants_hidden_states rs) (forallb (req_prefill_only spec) rs))
    None None None false.

(** [[l[i] for i in idx]] *)
Fixpoint pick {A} (l : list A) (idx : list nat) : result (list A) :=
  match idx with
  | [] => Ok []
  | i :: idx =>
      let! x := of_option IndexError (l !! i) in
      let! xs := pick l idx in
      Ok (x :: xs)
  end.

Definition pick_opt {A} (l : option (list A)) (idx : list nat) : result (option (list A)) :=
  match l with None => Ok None | Some l => let! l := pick l idx in Ok (Some l) end.

(** ** Extending *)

Definition compute_extend_logprob_start_len (logprob_start_len prefix_len extend_len full_len : Z) : Z :=
  let resolved_start :=
    if logprob_start_len =? -1 then full_len else Z.max logprob_start_len prefix_len in
  Z.min (resolved_start - prefix_len) extend_len.

(** [l[a:b]] for bounds that may lie behind the end. *)
Definition slice_from (a b : Z) (l : list Z) : list Z := slice (Z.to_nat a) (Z.to_nat b) l.

(** The token ids whose logprobs a chunk of the input computes, padded. *)
Definition input_logprob_token_ids (r : Req) (stop ext_len start : Z) : list Z :=
  let global_start_idx := Z.of_nat (length (prefix_indices r)) in
  let logprob_start_len :=
    if logprob_start_len r =? -1 then Z.of_nat (length (origin_input_ids r)) else logprob_start_len r in
  let global_start_idx :=
    if global_start_idx <? logprob_start_len then logprob_start_len else global_start_idx in
  let logprob_token_ids := slice_from (global_start_idx + 1) (stop + 1) (origin_input_ids r) in
  logprob_token_ids ++
    replicate (Z.to_nat (ext_len - start - Z.of_nat (length logprob_token_ids))) 0.

Definition clamp (lo hi x : Z) : Z := Z.min (Z.max x lo) hi.

(** The counters of cached tokens, counted once per request. *)
Definition count_cached (pre_len seq_len : Z) (r : BReq) : BReq :=
  let seen := cache_breakdown_computed r in
  let host_total := host_hit_length (sreq r) in
  let storage_portion := Z.min host_total (storage_hit_length r) in
  if retracted_stain (sreq r) then
    mkBReq (sreq r) (extend_batch_idx r) (decode_batch_idx r) (cached_tokens r) (already_computed r)
      (cache_breakdown_computed r) (cached_tokens_device r) (cached_tokens_host r)
      (cached_tokens_storage r) (storage_hit_length r) false (retraction_count r)
      (top_logprobs_num r) (token_ids_logprob r) (has_grammar r) (wants_hidden_states r) (abort_message r)
  else
    mkBReq (sreq r) (extend_batch_idx r) (decode_batch_idx r)
      (cached_tokens r + (pre_len - already_computed r)) seq_len true
      (if seen then cached_tokens_device r else Z.max 0 (prefix_len (sreq r) - host_total))
      (if seen then cached_tokens_host r else host_total - storage_portion)
      (if seen then cached_tokens_storage r else storage_portion)
      (storage_hit_length r) false (retraction_count r)
      (top_logprobs_num r) (token_ids_logprob r) (has_grammar r) (wants_hidden_states r) (abort_message r).

Definition bump_extend (r : BReq) : BReq :=
  mkBReq (sreq r) (extend_batch_idx r + 1) (decode_batch_idx r) (cached_tokens r) (already_computed r)
    (cache_breakdown_computed r) (cached_tokens_device r) (cached_tokens_host r)
    (cached_tokens_storage r) (storage_hit_length r) (is_retracted r) (retraction_count r)
    (top_logprobs_num r) (token_ids_logprob r) (has_grammar r) (wants_hidden_states r) (abort_message r).
Definition bump_decode (r : BReq) : BReq :=
  mkBReq (sreq r) (extend_batch_idx r) (decode_batch_idx r + 1) (cached_tokens r) (already_computed r)
    (cache_breakdown_computed r) (cached_tokens_device r) (cached_tokens_host r)
    (cached_tokens_storage r) (storage_hit_length r) (is_retracted r) (retraction_count r)
    (top_logprobs_num r) (token_ids_logprob r) (has_grammar r) (wants_hidden_states r) (abort_message r).

(** One iteration of the loop of [prepare_for_extend]. *)
Definition extend_one (seq_len pre_len : nat) (r : BReq) : result BReq :=
  let! (start, stop) := of_option AttributeError (extend_range (bkv r)) in
  let! _ := py_assert (Z.of_nat seq_len - Z.of_nat pre_len =? stop - start) in
  let r := bump_extend r in
  let r := with_bkv (with_kv_lens seq_len seq_len (bkv r)) r in
  Ok (count_cached (Z.of_nat pre_len) (Z.of_nat seq_len) r).

Fixpoint extend_all (sl pl : list nat) (rs : list BReq) : result (list BReq) :=
  match sl, pl, rs with
  | s :: sl, p :: pl, r :: rs =>
      let! r := extend_one s p r in
      let! rs := extend_all sl pl rs in
      Ok (r :: rs)
  | _, _, _ => Ok []
  end.

(** What the batch computes of each request before it allocates. *)
Definition new_input_ids (r : BReq) : result (list Z) :=
  let! ids := get_fill_ids (bkv r) in
  Ok (drop (length (prefix_indices (bkv r))) ids).

Fixpoint mapM_res {A B} (f : A → result B) (l : list A) : result (list B) :=
  match l with
  | [] => Ok []
  | x :: l => let! y := f x in let! ys := mapM_res f l in Ok (y :: ys)
  end.

(** The requests with the rows they got. *)
Definition put_kvs (ks : list Req) (rs : list BReq) : list BReq := zip_with with_bkv ks rs.

Section extend_ops.
Context {A : Type} `{KVPool A} `{KVAlloc A} `{KVPaged A} `{Env} `{HeapQ}.
Variable cfg : Config.
Variable vocab_size : Z.

Definition logprob_ids (b : ScheduleBatch) (starts : list Z) : result (option (list Z)) :=
  if batch_return_logprob (logp b) then
    let! ls := mapM_res (λ '(r, start),
      let! (lo, stop) := of_option AttributeError (extend_range (bkv r)) in
      Ok (input_logprob_token_ids (bkv r) stop (stop - lo) start)) (zip (reqs b) starts) in
    Ok (Some (clamp 0 (vocab_size - 1) <$> concat ls))
  else Ok None.

(** Ranges and lengths are non-negative. *)
Definition prepare_for_extend (b : ScheduleBatch) (s : Sys A) : result (ScheduleBatch * Sys A) :=
  let rs := reqs b in
  let! ids := mapM_res new_input_ids rs in
  let! ranges := mapM_res (λ r, of_option AttributeError (extend_range (bkv r))) rs in
  let sl := (λ x, Z.to_nat x.2) <$> ranges in
  let orig := zip_with (λ n r, Nat.max n (length (origin_input_ids (bkv r)))) sl rs in
  let pl := (λ r, length (prefix_indices (bkv r))) <$> rs in
  let el := (λ x, x.2 - x.1) <$> ranges in
  let starts := zip_with (λ r '(p, e),
    compute_extend_logprob_start_len (logprob_start_len (bkv r)) (Z.of_nat p) e
      (Z.of_nat (length (full_untruncated_fill_ids (bkv r))))) rs (zip pl el) in
  let num := Z.of_nat (length (concat ids)) in
  let! (out, rows, ks, s) := alloc_for_extend cfg
    (mkBatch (bkv <$> rs) pl (Z.to_nat <$> el) sl num) s in
  let! rs' := extend_all sl pl (put_kvs ks rs) in
  let! lids := logprob_ids b starts in
  let lg := if batch_return_logprob (logp b)
    then mkLogp true (Some (top_logprobs_num <$> rs)) (Some (token_ids_logprob <$> rs)) else logp b in
  Ok (mkSB rs' (Some EXTEND) (enable_overlap b) (mkCols rows rows sl (Some sl) orig)
    (mkExt pl el num starts (concat ids) lids) lg (flags b) None (mix_running_indices b) (Some out)
    (batch_is_full b), s).

Definition prepare_for_split_prefill (b : ScheduleBatch) (s : Sys A) : result (ScheduleBatch * Sys A) :=
  let! (b, s) := prepare_for_extend b s in Ok (set_mode SPLIT_PREFILL b, s).
End extend_ops.

(** ** Filtering and merging *)

(** [keep_indices] given: every column is picked at the same positions. *)
Definition filter_keep (keep : list nat) (b : ScheduleBatch) : result ScheduleBatch :=
  if (length keep =? 0)%nat then Ok (set_reqs [] b)
  else if (length keep =? length (reqs b))%nat then Ok b
  else
    let! rs := pick (reqs b) keep in
    let! rows := pick (req_pool_indices (cols b)) keep in
    let! rows_cpu := pick (req_pool_indices_cpu (cols b)) keep in
    let! sl := pick (seq_lens (cols b)) keep in
    let! orig := pick (orig_seq_lens (cols b)) keep in
    let! ids := pick_opt (input_ids b) keep in
    let! sl_cpu := pick_opt (seq_lens_cpu (cols b)) keep in
    let want := existsb (λ r, return_logprob (bkv r)) rs in
    let! lg :=
      if want then
        let! tops := of_option TypeError (top_logprobs_nums (logp b)) in
        let! tops := pick tops keep in
        let! toks := of_option TypeError (token_ids_logprobs (logp b)) in
        let! toks := pick toks keep in
        Ok (mkLogp true (Some tops) (Some toks))
      else Ok (mkLogp false None None) in
    Ok (mkSB rs (forward_mode b) (enable_overlap b) (mkCols rows rows_cpu sl sl_cpu orig) (ext b) lg
      (mkFlags (existsb has_grammar rs) (return_hidden_states (flags b)) (is_prefill_only (flags b)))
      ids (mix_running_indices b) None (batch_is_full b)).

(** The positions that stay when no indices are given: requests that run and are
    not to be excluded.  Requests are compared by [rid]. *)
Definition stays (exclude : list string) (rs : list BReq) (i : nat) : bool :=
  match rs !! i with
  | Some r => negb (is_finished (sreq r)) && negb (bool_decide (rid (sreq r) ∈ exclude))
  | None => false
  end.
Definition default_keep (exclude : list string) (rs : list BReq) : list nat :=
  filter (λ i, stays exclude rs i = true) (seq 0 (length rs)).

Definition filter_batch (exclude : list string) (keep_indices : option (list nat)) (b : ScheduleBatch)
    : result ScheduleBatch :=
  filter_keep (default (default_keep exclude (reqs b)) keep_indices) b.

Definition cat_opt {A} (x y : option (list A)) : option (list A) :=
  match x, y with Some x, Some y => Some (x ++ y) | _, _ => None end.

(** [l.extend(k)] on an attribute that may be [None]. *)
Definition extend_attr {A} (x : option (list A)) (y : list A) : result (list A) :=
  let! x := of_option AttributeError x in Ok (x ++ y).

Definition merge_logp (n m : nat) (x y : LogprobInfo) : result LogprobInfo :=
  match batch_return_logprob x, batch_return_logprob y with
  | true, true =>
      let! yt := of_option TypeError (top_logprobs_nums y) in
      let! t := extend_attr (top_logprobs_nums x) yt in
      let! yk := of_option TypeError (token_ids_logprobs y) in
      let! k := extend_attr (token_ids_logprobs x) yk in
      Ok (mkLogp true (Some t) (Some k))
  | true, false =>
      let! t := extend_attr (top_logprobs_nums x) (replicate m 0) in
      let! k := extend_attr (token_ids_logprobs x) (replicate m None) in
      Ok (mkLogp true (Some t) (Some k))
  | false, true =>
      let! yt := of_option TypeError (top_logprobs_nums y) in
      let! yk := of_option TypeError (token_ids_logprobs y) in
      Ok (mkLogp true (Some (replicate n 0 ++ yt)) (Some (replicate n None ++ yk)))
  | false, false => Ok x
  end.

Definition merge_cols (x y : Columns) : Columns :=
  mkCols (req_pool_indices x ++ req_pool_indices y) (req_pool_indices_cpu x ++ req_pool_indices_cpu y)
    (seq_lens x ++ seq_lens y) (cat_opt (seq_lens_cpu x) (seq_lens_cpu y))
    (orig_seq_lens x ++ orig_seq_lens y).

Definition merge_flags (x y : BatchFlags) : BatchFlags :=
  mkFlags (batch_has_grammar x || batch_has_grammar y) (return_hidden_states x || return_hidden_states y)
    (is_prefill_only x && is_prefill_only y).

Definition merge_batch (b other : ScheduleBatch) : result ScheduleBatch :=
  let! lg := merge_logp (length (reqs b)) (length (reqs other)) (logp b) (logp other) in
  Ok (mkSB (reqs b ++ reqs other) (forward_mode b) (enable_overlap b) (merge_cols (cols b) (cols other)) (ext b) lg
    (merge_flags (flags b) (flags other)) (cat_opt (input_ids b) (input_ids other)) (mix_running_indices b)
    None (batch_is_full b)).

(** The part of [Scheduler.get_next_batch_to_run] that moves the last prefill batch
    to the running one; [exclude] are the requests between two chunks. *)
Definition merge_last_batch (exclude : list string) (last running : ScheduleBatch) : result ScheduleBatch :=
  let last_bs := batch_size last in
  let! last := filter_batch exclude None last in
  let running := if (batch_size last <? last_bs)%nat then set_full false running else running in
  if is_empty last then Ok running
  else if is_empty running then Ok last
  else merge_batch running last.

(** The running requests join a prefill batch with one new token each. *)
Definition mix_req (r : BReq) : BReq :=
  let k := refresh_fill_ids (bkv r) in
  let full_len := Z.of_nat (length (full_untruncated_fill_ids k)) in
  with_bkv (set_extend_range (full_len - 1) full_len k) r.

Definition mix_with_running (b running : ScheduleBatch) : result ScheduleBatch :=
  let running_bs := length (reqs running) in
  let running := set_reqs (mix_req <$> reqs running) running in
  let! x := of_option TypeError (out_cache_loc b) in
  let! y := of_option TypeError (out_cache_loc running) in
  let! m := merge_batch b running in
  let delta := if enable_overlap b then 0%nat else 1%nat in
  let pl := (λ r, (length (origin_input_ids (bkv r)) + length (output_ids (bkv r)) - delta)%nat)
    <$> reqs running in
  let e := mkExt (prefix_lens (ext b) ++ pl) (extend_lens (ext b) ++ replicate running_bs 1)
    (extend_num_tokens (ext b) + Z.of_nat running_bs)
    (extend_logprob_start_lens (ext b) ++ replicate running_bs 0) (prefill_input_ids (ext b))
    (extend_input_logprob_token_ids (ext b)) in
  Ok (mkSB (reqs m) (Some MIXED) (enable_overlap m) (cols m) e (logp m)
    (mkFlags (batch_has_grammar (flags m)) (return_hidden_states (flags m)) false) None
    (Some (req_pool_indices (cols running))) (Some (x ++ y)) (batch_is_full m)).

(** ** The ratio of tokens to reserve *)

(** The floats of the code are exact rationals here: the rounding of the decay steps is
    not modelled, so a decayed ratio may differ from the code's in the last digits. *)

Section ratio.
Local Open Scope Q_scope.

Record NewTokenRatioTracker := mkTracker {
  tr_init : Q;
  tr_min : Q;
  tr_decay : Q;
  tr_current : Q;
}.

Definition from_server_args (init_ratio conservativeness min_factor : Q) (decay_steps : positive)
    : NewTokenRatioTracker :=
  let init := Qmin (init_ratio * conservativeness) 1 in
  let min_ratio := Qmin (init * min_factor) 1 in
  mkTracker init min_ratio ((init - min_ratio) / (Zpos decay_steps # 1)) init.

Definition set_current (q : Q) (t : NewTokenRatioTracker) : NewTokenRatioTracker :=
  mkTracker (tr_init t) (tr_min t) (tr_decay t) q.
Definition decay_step (t : NewTokenRatioTracker) : NewTokenRatioTracker :=
  set_current (Qmax (tr_current t - tr_decay t) (tr_min t)) t.
Definition reset_ratio (t : NewTokenRatioTracker) : NewTokenRatioTracker := set_current (tr_init t) t.

Definition sumZ (l : list Z) : Z := foldr Z.add 0%Z l.

Definition estimate_new_token_ratio_after_retract (retract_decode_steps : Z) (rs : list BReq) : Q :=
  let total_decoded_tokens := sumZ ((λ r, output_len (sreq r)) <$> rs) in
  let total_max_new_tokens := sumZ ((λ r, max_new_tokens (sreq r)) <$> rs) in
  Qmin 1 (inject_Z (total_decoded_tokens + retract_decode_steps * Z.of_nat (length rs))
    / inject_Z (total_max_new_tokens + 1)).
End ratio.

(** ** Decoding *)

(** The part of [Req.reset_for_retract] that only batches see. *)
Definition retract_fields (x : SReq) (r : BReq) : BReq :=
  mkBReq x 0 0 (cached_tokens r) 0 (cache_breakdown_computed r) (cached_tokens_device r)
    (cached_tokens_host r) (cached_tokens_storage r) (storage_hit_length r) true (retraction_count r + 1)
    (top_logprobs_num r) (token_ids_logprob r) (has_grammar r) (wants_hidden_states r) (abort_message r).
Definition set_abort (msg : string) (r : BReq) : BReq :=
  mkBReq (sreq r) (extend_batch_idx r) (decode_batch_idx r) (cached_tokens r) (already_computed r)
    (cache_breakdown_computed r) (cached_tokens_device r) (cached_tokens_host r)
    (cached_tokens_storage r) (storage_hit_length r) (is_retracted r) (retraction_count r)
    (top_logprobs_num r) (token_ids_logprob r) (has_grammar r) (wants_hidden_states r) (Some msg).

Definition oom_message : string :=
  "Out of memory even after retracting all other requests in the decode batch. Aborting the last request.".

Section decode_ops.
Context {A : Type} `{KVPool A} `{KVAlloc A} `{KVPaged A} `{Env} `{HeapQ}.
Variable cfg : Config.
Variables (strip : bool) (args : SpecArgs) (retract_decode_steps : Z).
Notation ps := (page_size cfg).
(** The page size of the allocator is that of the cache. *)

Definition spec_on : bool := match speculative_algorithm args with Some _ => true | None => false end.

Definition new_tokens_required_next_decode_spec_v2 (rs : list BReq) : result Z :=
  let! reserve := get_alloc_reserve_per_decode args in
  Ok (sumZ ((λ r,
    let cur := kv_allocated_len (bkv r) in
    let x := Z.max 0 (Z.of_nat (kv_committed_len (bkv r)) + reserve - Z.of_nat cur) in
    Z.of_nat (ceil_align (cur + Z.to_nat x) ps) - Z.of_nat (ceil_align cur ps)) <$> rs)).

Definition new_tokens_required_next_decode (rs : list BReq) : result Z :=
  if spec_on then new_tokens_required_next_decode_spec_v2 rs
  else
    let new_pages := length (filter (λ r, (kv_committed_len (bkv r) mod ps)%nat = 0%nat) rs) in
    Ok (Z.of_nat (new_pages * ps)).

(** [check_decode_mem] for the requests at the given positions. *)
Definition check_decode_mem (idx : list nat) (rs : list BReq) (s : Sys A) : result (bool * Sys A) :=
  let! sel := pick rs idx in
  let! num_tokens := new_tokens_required_next_decode sel in
  let! st := evict_from_tree_cache cfg num_tokens (cache s) in
  Ok (num_tokens <=? kv_available_size (allocator st), mkSys st (req_to_token_pool s)).

Definition batch_release_req (r : BReq) (remaining : Z) (s : Sys A) : result (BReq * Sys A) :=
  let! (x, s) := radix_release_req cfg strip spec_on retract_decode_steps (sreq r) remaining s in
  Ok (retract_fields x r, s).

Definition batch_retract_all (rs : list BReq) (s : Sys A) : result (list BReq * Sys A) :=
  (fix go (rs : list BReq) (s : Sys A) :=
    match rs with
    | [] => Ok ([], s)
    | r :: rest =>
        let! (r, s) := batch_release_req r (Z.of_nat (length rs)) s in
        let! (rest, s) := go rest s in
        Ok (r :: rest, s)
    end) rs s.

(** Most output tokens first, then fewest input tokens; [sort(reverse=True)] keeps
    the order of equals. *)
Definition retract_key (rs : list BReq) (i : nat) : list Z :=
  match rs !! i with
  | Some r => [output_len (sreq r); - Z.of_nat (length (origin_input_ids (bkv r)))]
  | None => []
  end.
Definition retract_order (rs : list BReq) : list nat :=
  let idx := seq 0 (length rs) in
  if spec_on then idx
  else py_sort (λ i j, lex_ltb (retract_key rs j) (retract_key rs i)) idx.

(** The loop, on the stack of positions whose top is the last of
    [sorted_indices]: the positions left, the requests, the retracted ones. *)
Fixpoint retract_loop (first_iter : bool) (stack : list nat) (rs : list BReq) (gone : list nat) (s : Sys A)
    : result (list nat * list BReq * list nat * Sys A) :=
  let! (go, s) :=
    if first_iter then Ok (true, s)
    else let! (enough, s) := check_decode_mem (rev stack) rs s in Ok (negb enough, s) in
  if negb go then Ok (stack, rs, gone, s)
  else
    match stack with
    | [] => Raise IndexError
    | [_] => Ok (stack, rs, gone, s)
    | idx :: stack =>
        let! r := of_option IndexError (rs !! idx) in
        let! (r, s) := batch_release_req r (Z.of_nat (length stack)) s in
        retract_loop false stack (<[idx := r]> rs) (gone ++ [idx]) s
    end.

(** The last request is aborted when not even it fits. *)
Definition abort_last (stack : list nat) (rs : list BReq) (s : Sys A)
    : result (list nat * list BReq * list nat * Sys A) :=
  if (length stack <=? 1)%nat then
    let! (enough, s) := check_decode_mem (rev stack) rs s in
    if enough then Ok (stack, rs, [], s)
    else
      match stack with
      | [] => Raise IndexError
      | idx :: stack =>
          let! r := of_option IndexError (rs !! idx) in
          let! (r, s) := batch_release_req (set_abort oom_message r) 0 s in
          Ok (stack, <[idx := r]> rs, [idx], s)
      end
  else Ok (stack, rs, [], s).

(** The batch that stays, the retracted and the aborted requests, and the new
    estimate of the token ratio. *)
Definition retract_decode (b : ScheduleBatch) (s : Sys A)
    : result (ScheduleBatch * list BReq * list BReq * Q * Sys A) :=
  let! (stack, rs, gone, s) := retract_loop true (rev (retract_order (reqs b))) (reqs b) [] s in
  let! (stack, rs, aborted, s) := abort_last stack rs s in
  let! retracted := pick rs gone in
  let! aborted := pick rs aborted in
  let! b := filter_keep (rev stack) (set_reqs rs b) in
  Ok (b, retracted, aborted, estimate_new_token_ratio_after_retract retract_decode_steps (reqs b), s).

Definition decode_one (r : BReq) : BReq :=
  let k := bkv r in
  bump_decode (with_bkv (with_kv_lens (kv_committed_len k + 1) (kv_allocated_len k + 1) k) r).

(** For batches without speculative decoding. *)
Definition prepare_for_decode (b : ScheduleBatch) (s : Sys A) : result (ScheduleBatch * Sys A) :=
  let c := cols b in
  let! (out, s) := alloc_for_decode cfg (req_pool_indices c) (seq_lens c) 1 s in
  let! cpu := of_option (if enable_overlap b then TypeError else AttributeError) (seq_lens_cpu c) in
  let succ := fmap (λ n, n + 1)%nat in
  Ok (mkSB (decode_one <$> reqs b) (Some DECODE) (enable_overlap b)
    (mkCols (req_pool_indices c) (req_pool_indices_cpu c) (succ (seq_lens c)) (Some (succ cpu))
      (succ (orig_seq_lens c)))
    (ext b) (logp b) (flags b) (input_ids b) (mix_running_indices b) (Some out) (batch_is_full b), s).

(** [Scheduler.update_running_batch] without a hierarchical cache; [test_retract]
    says that retraction is tested in this pass. *)
Definition update_running_batch (test_retract : bool) (b : ScheduleBatch) (t : NewTokenRatioTracker)
    (s : Sys A) : result (ScheduleBatch * list BReq * list BReq * NewTokenRatioTracker * Sys A) :=
  let initial_bs := batch_size b in
  let! b := filter_batch [] None b in
  if is_empty b then Ok (set_full false b, [], [], t, s)
  else
    let! (enough, s) := check_decode_mem (seq 0 (length (reqs b))) (reqs b) s in
    let! (b, retracted, aborted, t, s) :=
      if negb enough || test_retract then
        let! (b, retracted, aborted, ratio, s) := retract_decode b s in
        Ok (b, retracted, aborted, set_current ratio t, s)
      else Ok (b, [], [], decay_step t, s) in
    let b := if (batch_size b <? initial_bs)%nat then set_full false b else b in
    if is_empty b then Ok (b, retracted, aborted, t, s)
    else
      let! (b, s) := prepare_for_decode b s in
      Ok (b, retracted, aborted, t, s).
End decode_ops.

(** ** Results of a forward pass *)

(** A free group of the allocator. *)
Class KVGroup (A : Type) := {
  kv_group_begin : A → A;
  kv_group_end : A → result A;
}.

Definition with_finished (x : bool) (r : SReq) : SReq :=
  mkSReq (kv r) (rid r) (max_new_tokens r) (ignore_eos r) (wait_queue_entry_time r) (routing_key r)
    (num_matched_prefix_tokens r) (host_hit_length r) (swa_host_hit_length r)
    (mamba_host_hit_length r) (mamba_pool_idx r) (retracted_stain r) x.

Section result_ops.
Context {A : Type} `{KVPool A} `{KVAlloc A} `{KVGroup A} `{Env} `{HeapQ}.
Variable cfg : Config.
Variables (strip spec : bool).
(** Whether [update_finish_state], called with the number of new tokens, finds the
    request finished. *)
Variable verdict : nat → BReq → bool.

(** Append the tokens and test the stop conditions; counting the tokens of a
    reasoning block is left out. *)
Definition append_tokens (toks : list Z) (r : BReq) : BReq :=
  let k := bkv r in
  let r := with_bkv (with_output (output_ids k ++ toks) (inflight_middle_chunks k) k) r in
  with_sreq (with_finished (is_finished (sreq r) || verdict (length toks) r) (sreq r)) r.

Definition release_finished (r : BReq) (s : Sys A) : result (BReq * Sys A) :=
  let! (k, s) := release_kv_cache cfg strip spec (bkv r) true s in
  Ok (with_bkv k r, s).

(** One request of [process_batch_result_prefill], for generation; [decoding] says
    that it is one of the decoding requests of a mixed batch. *)
Definition prefill_result_one (decoding : bool) (t : Z) (r : BReq) (s : Sys A) : result (BReq * Sys A) :=
  let chunks := inflight_middle_chunks (bkv r) in
  if (is_finished (sreq r) && (chunks <=? 0)) || is_retracted r then Ok (r, s)
  else if chunks <=? 0 then
    let r := append_tokens [t] r in
    if is_finished (sreq r) then release_finished r s
    else if decoding then Ok (r, s)
    else
      let! (k, s) := maybe_cache_unfinished_req cfg (bkv r) false s in
      Ok (with_bkv k r, s)
  else Ok (with_bkv (with_output (output_ids (bkv r)) (chunks - 1) (bkv r)) r, s).

(** [zip(batch.reqs, next_token_ids)]: requests without a token stay as they are. *)
Fixpoint process_batch_result_prefill (decoding : list string) (toks : list Z) (rs : list BReq) (s : Sys A)
    : result (list BReq * Sys A) :=
  match rs, toks with
  | r :: rs, t :: toks =>
      let! (r, s) := prefill_result_one (bool_decide (rid (sreq r) ∈ decoding)) t r s in
      let! (rs, s) := process_batch_result_prefill decoding toks rs s in
      Ok (r :: rs, s)
  | _, _ => Ok (rs, s)
  end.

(** One request of the branch for embedding and reward models, which appends a
    dummy token; the embeddings themselves are left out. *)
Definition embedding_result_one (r : BReq) (s : Sys A) : result (BReq * Sys A) :=
  let chunks := inflight_middle_chunks (bkv r) in
  if is_retracted r then Ok (r, s)
  else if chunks <=? 0 then
    let r := append_tokens [0] r in
    if is_finished (sreq r) then release_finished r s
    else
      let! (k, s) := maybe_cache_unfinished_req cfg (bkv r) false s in
      Ok (with_bkv k r, s)
  else Ok (with_bkv (with_output (output_ids (bkv r)) (chunks - 1) (bkv r)) r, s).

Fixpoint process_batch_result_embedding (rs : list BReq) (s : Sys A) : result (list BReq * Sys A) :=
  match rs with
  | [] => Ok ([], s)
  | r :: rs =>
      let! (r, s) := embedding_result_one r s in
      let! (rs, s) := process_batch_result_embedding rs s in
      Ok (r :: rs, s)
  end.

(** One request of [process_batch_result_decode]; its tokens are read only when it
    is not skipped. *)
Definition decode_result_one (overlap : bool) (toks : option (list Z)) (r : BReq) (s : Sys A)
    : result (BReq * Sys A) :=
  if overlap && (is_finished (sreq r) || is_retracted r) then Ok (r, s)
  else
    let! toks := of_option IndexError toks in
    let r := append_tokens toks r in
    if is_finished (sreq r) then release_finished r s else Ok (r, s).

Fixpoint decode_results (overlap : bool) (toks : list (list Z)) (rs : list BReq) (s : Sys A)
    : result (list BReq * Sys A) :=
  match rs with
  | [] => Ok ([], s)
  | r :: rs =>
      let! (r, s) := decode_result_one overlap (head toks) r s in
      let! (rs, s) := decode_results overlap (tail toks) rs s in
      Ok (r :: rs, s)
  end.

Definition with_group (f : A → A) (s : Sys A) : Sys A :=
  mkSys (with_allocator (f (allocator (cache s))) (cache s)) (req_to_token_pool s).

Definition process_batch_result_decode (overlap : bool) (toks : list (list Z)) (rs : list BReq) (s : Sys A)
    : result (list BReq * Sys A) :=
  let s := with_group kv_group_begin s in
  let! (rs, s) := decode_results overlap toks rs s in
  let! a := kv_group_end (allocator (cache s)) in
  Ok (rs, with_group (λ _, a) s).
End result_ops.
