(* ===== verification/BatchInv.v ===== *)
(** The columns of a batch: every column of a non-empty batch has one entry per
    request, and for a request that holds a row these entries are its row, its
    length and its logprob arguments.  [filter_batch], [merge_batch] and
    [prepare_for_extend] keep them so, and raise nothing. *)

From stdpp Require Import base gmap strings list.
From Stdlib Require Import ZArith QArith Lia.
From S2P Require Import Prelude.
From S2P Require Import PyData.
From S2P Require Import RadixKey.
From S2P Require Import RadixTree.
From S2P Require Import ReqCache.
From S2P Require Import BatchAlloc.
From S2P Require Import Delayer.
From S2P Require Import PrefillAdder.
From S2P Require Import ScheduleBatch.

Open Scope Z_scope.

(** ** Picking positions *)

(** The entries of [l] at [idx]. *)
Definition at_indices {A} (l : list A) (idx : list nat) : list A := omap (λ i, l !! i) idx.

Definition in_range (n : nat) (idx : list nat) : Prop := Forall (λ i, i < n)%nat idx.

Lemma pick_ok {A} (l : list A) idx :
  in_range (length l) idx → pick l idx = Ok (at_indices l idx).
Proof.
  induction 1 as [|i idx Hi _ IH]; [done|]. cbn [pick].
  destruct (lookup_lt_is_Some_2 l i Hi) as [x Hx]. rewrite Hx. py_run. rewrite IH. py_run.
  cbn. by rewrite Hx.
Qed.

Lemma pick_opt_ok {A} (o : option (list A)) idx :
  (∀ l, o = Some l → in_range (length l) idx) →
  pick_opt o idx = Ok ((λ l, at_indices l idx) <$> o).
Proof. destruct o as [l|]; [|done]. intros Hl. cbn. by rewrite pick_ok by auto. Qed.

Lemma at_indices_length {A} (l : list A) idx :
  in_range (length l) idx → length (at_indices l idx) = length idx.
Proof.
  induction 1 as [|i idx Hi _ IH]; [done|]. cbn.
  destruct (lookup_lt_is_Some_2 l i Hi) as [x ->]. cbn. by f_equal.
Qed.

Lemma at_indices_lookup {A} (l : list A) idx k :
  in_range (length l) idx → at_indices l idx !! k = idx !! k ≫= λ i, l !! i.
Proof.
  intros Hr. revert k. induction Hr as [|i idx Hi _ IH]; intros k; [done|]. cbn.
  destruct (lookup_lt_is_Some_2 l i Hi) as [x Hx]. rewrite Hx. destruct k as [|k]; cbn; [by rewrite Hx|].
  apply IH.
Qed.

Lemma at_indices_fmap {A B} (f : A → B) (l : list A) idx :
  f <$> at_indices l idx = at_indices (f <$> l) idx.
Proof.
  induction idx as [|i idx IH]; [done|]. cbn. rewrite list_lookup_fmap.
  destruct (l !! i); cbn; [by f_equal|done].
Qed.

Lemma at_indices_all {A} (l : list A) : at_indices l (seq 0 (length l)) = l.
Proof.
  assert (∀ pre, omap (λ i, (pre ++ l) !! i) (seq (length pre) (length l)) = l) as Hg; [|apply (Hg [])].
  induction l as [|x l IH]; intros pre; [done|]. cbn. rewrite list_lookup_middle by done. f_equal.
  specialize (IH (pre ++ [x])). rewrite <-app_assoc, length_app in IH. cbn in IH.
  by rewrite Nat.add_1_r in IH.
Qed.

Lemma at_indices_filter {A} (P : A → Prop) `{!∀ x, Decision (P x)} (p : nat → bool) (l : list A) :
  (∀ i x, l !! i = Some x → p i = true ↔ P x) →
  at_indices l (filter (λ i, p i = true) (seq 0 (length l))) = filter P l.
Proof.
  assert (∀ l pre, (∀ i x, l !! i = Some x → p (length pre + i)%nat = true ↔ P x) →
    omap (λ i, (pre ++ l) !! i) (filter (λ i, p i = true) (seq (length pre) (length l))) = filter P l)
    as Hg; [|apply (Hg l [])].
  clear l. induction l as [|x l IH]; intros pre Hp; [done|]. cbn [length seq]. rewrite !filter_cons.
  pose proof (Hp 0%nat x eq_refl) as Hx. rewrite Nat.add_0_r in Hx.
  specialize (IH (pre ++ [x])). rewrite <-app_assoc, length_app, Nat.add_1_r in IH. cbn [app] in IH.
  assert (∀ i y, l !! i = Some y → p (S (length pre) + i)%nat = true ↔ P y) as Hp'.
  { intros i y Hy. rewrite Nat.add_succ_comm. by apply (Hp (S i)). }
  case_decide as Hd; [|rewrite decide_False by tauto; by apply IH].
  rewrite decide_True by tauto. cbn. rewrite list_lookup_middle by done. f_equal. by apply IH.
Qed.

Lemma at_indices_perm {A} (l : list A) idx :
  NoDup idx → in_range (length l) idx → length idx = length l → at_indices l idx ≡ₚ l.
Proof.
  intros Hnd Hr Hlen. assert (idx ≡ₚ seq 0 (length l)) as Hp.
  { apply submseteq_length_Permutation; [|rewrite length_seq; lia].
    apply NoDup_submseteq; [done|]. intros i Hi. apply elem_of_seq.
    unfold in_range in Hr. rewrite Forall_forall in Hr. specialize (Hr i Hi). lia. }
  unfold at_indices. rewrite Hp. fold (at_indices l (seq 0 (length l))). by rewrite at_indices_all.
Qed.

(** Filters that keep nothing or everything. *)
Lemma filter_none {B} (P : B → Prop) `{!∀ y, Decision (P y)} (l : list B) : (∀ y, y ∈ l → ¬ P y) → filter P l = [].
Proof.
  induction l as [|y l IH]; intros Hl; [done|]. rewrite filter_cons, decide_False by (apply Hl; set_solver). apply IH. set_solver.
Qed.

Lemma filter_every {B} (P : B → Prop) `{!∀ y, Decision (P y)} (l : list B) : (∀ y, y ∈ l → P y) → filter P l = l.
Proof.
  induction l as [|y l IH]; intros Hl; [done|]. rewrite filter_cons, decide_True by (apply Hl; set_solver). f_equal. apply IH. set_solver.
Qed.

Lemma filter_full {A} (P : A → Prop) `{!∀ x, Decision (P x)} (l : list A) :
  length (filter P l) = length l → filter P l = l.
Proof.
  induction l as [|x l IH]; [done|]. rewrite filter_cons. pose proof (length_filter P l).
  case_decide; cbn; [|lia]. intros [= Hl]. f_equal. auto.
Qed.

Lemma in_range_seq n : in_range n (seq 0 n).
Proof. apply Forall_forall. intros i Hi%elem_of_seq. lia. Qed.

Lemma in_range_filter n p : in_range n (filter (λ i, p i = true) (seq 0 n)).
Proof. apply Forall_forall. intros i [_ Hi%elem_of_seq]%list_elem_of_filter. lia. Qed.

(** ** The columns *)

Definition running (r : BReq) : Prop := is_finished (sreq r) = false.
Global Instance running_dec r : Decision (running r) := decide (is_finished (sreq r) = false).

(** The logprob columns. *)
Record logp_ok (rs : list BReq) (lg : LogprobInfo) : Prop := {
  lo_any : batch_return_logprob lg = existsb (λ r, return_logprob (bkv r)) rs;
  lo_cols : batch_return_logprob lg = true → ∃ tops toks,
    top_logprobs_nums lg = Some tops ∧ token_ids_logprobs lg = Some toks ∧
    length tops = length rs ∧ length toks = length rs ∧
    ∀ i r, rs !! i = Some r → return_logprob (bkv r) = true →
      tops !! i = Some (top_logprobs_num r) ∧ toks !! i = Some (token_ids_logprob r);
}.

(** The columns agree with the requests.  The request determines its row, its length
    and its logprob arguments; for [input_ids] and [orig_seq_lens], which it does not
    determine, only the number of entries is fixed here, and [batch_rows] and
    [batch_inputs] below say that they move together with the requests. *)
Record columns_ok (b : ScheduleBatch) : Prop := {
  co_len : length (req_pool_indices (cols b)) = length (reqs b) ∧
    length (seq_lens (cols b)) = length (reqs b) ∧ length (orig_seq_lens (cols b)) = length (reqs b);
  co_cpu : req_pool_indices_cpu (cols b) = req_pool_indices (cols b) ∧
    seq_lens_cpu (cols b) = Some (seq_lens (cols b));
  co_ids l : input_ids b = Some l → length l = length (reqs b);
  co_req i r : reqs b !! i = Some r → is_Some (req_pool_idx (bkv r)) →
    req_pool_idx (bkv r) = req_pool_indices (cols b) !! i ∧
    seq_lens (cols b) !! i = Some (kv_committed_len (bkv r));
  co_logp : logp_ok (reqs b) (logp b);
  co_grammar : batch_has_grammar (flags b) = existsb has_grammar (reqs b);
}.

(** [is_empty] goes by the requests: an emptied batch keeps stale columns. *)
Definition batch_cols_ok (b : ScheduleBatch) : Prop := reqs b = [] ∨ columns_ok b.

Lemma existsb_elem {A} (f : A → bool) l : existsb f l = true ↔ ∃ x, x ∈ l ∧ f x = true.
Proof. rewrite existsb_exists. by setoid_rewrite list_elem_of_In. Qed.

Lemma at_indices_elem {A} (l : list A) idx x : x ∈ at_indices l idx → x ∈ l.
Proof. intros (i & _ & Hx)%list_elem_of_omap. by eapply list_elem_of_lookup_2. Qed.

(** The logprob part of [filter_batch]. *)
Lemma filter_logp_ok (rs : list BReq) lg keep :
  in_range (length rs) keep → logp_ok rs lg →
  let rs' := at_indices rs keep in
  ∃ lg', (if existsb (λ r, return_logprob (bkv r)) rs' then
      let! tops := of_option TypeError (top_logprobs_nums lg) in
      let! tops := pick tops keep in
      let! toks := of_option TypeError (token_ids_logprobs lg) in
      let! toks := pick toks keep in
      Ok (mkLogp true (Some tops) (Some toks))
    else Ok (mkLogp false None None)) = Ok lg' ∧ logp_ok rs' lg'.
Proof.
  intros Hr [Hany Hcols] rs'. destruct (existsb _ rs') eqn:He.
  - assert (batch_return_logprob lg = true) as Ht.
    { rewrite Hany. apply existsb_elem in He as (x & Hx & Hf). apply existsb_elem.
      exists x. split; [by eapply at_indices_elem|done]. }
    destruct (Hcols Ht) as (tops & toks & -> & -> & Hl1 & Hl2 & Hat). py_run.
    rewrite pick_ok by (by rewrite Hl1). py_run. rewrite pick_ok by (by rewrite Hl2). py_run.
    eexists; split; [done|]. split; [done|]. intros _. eexists _, _. split; [done|]. split; [done|].
    unfold rs'. rewrite !at_indices_length by (by rewrite ?Hl1, ?Hl2). split_and!; [done..|].
    intros i r. rewrite !at_indices_lookup by (by rewrite ?Hl1, ?Hl2).
    destruct (keep !! i) as [j|]; [|done]. cbn. by apply Hat.
  - eexists; split; [done|]. by split; [|].
Qed.

(** With [keep_indices] given, every column keeps exactly those positions. *)
Lemma filter_keep_ok keep b :
  NoDup keep → in_range (length (reqs b)) keep → batch_cols_ok b →
  ∃ b', filter_keep keep b = Ok b' ∧ batch_cols_ok b' ∧ reqs b' ≡ₚ at_indices (reqs b) keep ∧
    ((length keep = length (reqs b) → keep = seq 0 (length (reqs b))) → reqs b' = at_indices (reqs b) keep) ∧
    enable_overlap b' = enable_overlap b.
Proof.
  intros Hnd Hr Hb. unfold filter_keep. destruct (Nat.eqb_spec (length keep) 0) as [Hz|Hz].
  { destruct keep; [|done]. eexists; split; [done|]. split_and!; [by left|done..]. }
  destruct (Nat.eqb_spec (length keep) (length (reqs b))) as [Hl|Hl].
  { eexists; split; [done|]. split_and!; [done| | |done].
    - symmetry. by apply at_indices_perm.
    - intros Hk. by rewrite Hk, at_indices_all by done. }
  destruct Hb as [Hb|[(L1 & L2 & L3) (C1 & C2) Hids Hreq Hlogp Hg]].
  { rewrite Hb in Hr. destruct keep as [|i keep]; [done|]. apply Forall_cons in Hr as [? _]. cbn in *. lia. }
  rewrite pick_ok by done. py_run. rewrite pick_ok by (by rewrite L1). py_run.
  rewrite C1, pick_ok by (by rewrite L1). py_run. rewrite pick_ok by (by rewrite L2). py_run.
  rewrite pick_ok by (by rewrite L3). py_run.
  rewrite pick_opt_ok by (intros l Hl'; by rewrite (Hids l Hl')). py_run. rewrite C2.
  rewrite pick_opt_ok by (intros l [= <-]; by rewrite L2). py_run.
  destruct (filter_logp_ok (reqs b) (logp b) keep Hr Hlogp) as (lg & -> & Hlg). py_run.
  eexists; split; [done|]. split_and!; [|done..]. right.
  split; cbn [reqs cols req_pool_indices req_pool_indices_cpu seq_lens seq_lens_cpu orig_seq_lens input_ids logp flags
    batch_has_grammar fmap option_fmap option_map]; try done.
  - by rewrite !at_indices_length by (by rewrite ?L1, ?L2, ?L3).
  - intros l. destruct (input_ids b) as [l0|] eqn:Hl0; [|done]. intros [= <-].
    by rewrite !at_indices_length by (by rewrite ?(Hids l0 eq_refl)).
  - intros i r. rewrite !at_indices_lookup by (by rewrite ?L1, ?L2).
    destruct (keep !! i) as [j|]; [|done]. cbn. by apply Hreq.
Qed.

(** Without [keep_indices], the requests that run and are not excluded stay, in
    order. *)
Definition kept_in_batch (exclude : list string) (r : BReq) : Prop :=
  running r ∧ rid (sreq r) ∉ exclude.

Lemma filter_batch_ok exclude b :
  batch_cols_ok b →
  ∃ b', filter_batch exclude None b = Ok b' ∧ batch_cols_ok b' ∧
    reqs b' = filter (kept_in_batch exclude) (reqs b) ∧ enable_overlap b' = enable_overlap b.
Proof.
  intros Hb. unfold filter_batch. cbn [default]. set (keep := default_keep exclude (reqs b)).
  destruct (filter_keep_ok keep b) as (b' & -> & Hb' & _ & Heq & Hov).
  { apply NoDup_filter, NoDup_seq. }
  { apply in_range_filter. }
  { done. }
  exists b'. split_and!; [done..| |done]. rewrite Heq.
  - apply at_indices_filter. intros i r Hr. unfold stays, kept_in_batch, running. rewrite Hr.
    rewrite andb_true_iff, !negb_true_iff, bool_decide_eq_false. done.
  - intros Hl. apply filter_full. by rewrite length_seq.
Qed.

(** ** Merging *)

Lemma merge_logp_ok (xs ys : list BReq) x y :
  logp_ok xs x → logp_ok ys y →
  ∃ z, merge_logp (length xs) (length ys) x y = Ok z ∧ logp_ok (xs ++ ys) z.
Proof.
  intros [Hx1 Hx2] [Hy1 Hy2]. unfold merge_logp.
  assert (Hrep : ∀ (l : list BReq) i r, existsb (λ r, return_logprob (bkv r)) l = false →
    l !! i = Some r → return_logprob (bkv r) = true → False).
  { intros l i r Hf Hr Ht. assert (existsb (λ r, return_logprob (bkv r)) l = true) as Hc; [|congruence].
    apply existsb_elem. exists r. split; [by eapply list_elem_of_lookup_2|done]. }
  assert (Happ : ∀ tx kx ty ky, length tx = length xs → length kx = length xs → length ty = length ys →
    length ky = length ys →
    (∀ i r, xs !! i = Some r → return_logprob (bkv r) = true →
      tx !! i = Some (top_logprobs_num r) ∧ kx !! i = Some (token_ids_logprob r)) →
    (∀ i r, ys !! i = Some r → return_logprob (bkv r) = true →
      ty !! i = Some (top_logprobs_num r) ∧ ky !! i = Some (token_ids_logprob r)) →
    batch_return_logprob x || batch_return_logprob y = true →
    logp_ok (xs ++ ys) (mkLogp true (Some (tx ++ ty)) (Some (kx ++ ky)))).
  { intros tx kx ty ky L1 L2 L3 L4 A1 A2 Hor. split; cbn.
    - by rewrite existsb_app, <-Hx1, <-Hy1.
    - intros _. eexists _, _. split_and!; [done..|rewrite !length_app; lia|rewrite !length_app; lia|].
      intros i r [Hr|[Hge Hr]]%lookup_app_Some Ht.
      + destruct (A1 i r Hr Ht) as [E1 E2]. rewrite !lookup_app_l by (by eapply lookup_lt_Some). done.
      + destruct (A2 _ r Hr Ht) as [E1 E2]. rewrite !lookup_app_r by lia. by rewrite L1, L2. }
  destruct (batch_return_logprob x) eqn:Ex, (batch_return_logprob y) eqn:Ey; unfold extend_attr.
  - destruct (Hx2 eq_refl) as (tx & kx & -> & -> & L1 & L2 & A1).
    destruct (Hy2 eq_refl) as (ty & ky & -> & -> & L3 & L4 & A2). py_run. eexists; split; [done|]. by apply Happ.
  - destruct (Hx2 eq_refl) as (tx & kx & -> & -> & L1 & L2 & A1). py_run. eexists; split; [done|].
    apply Happ; rewrite ?length_replicate; try done. intros i r Hr Ht. by destruct (Hrep ys i r).
  - destruct (Hy2 eq_refl) as (ty & ky & -> & -> & L3 & L4 & A2). py_run. eexists; split; [done|].
    apply Happ; rewrite ?length_replicate; try done. intros i r Hr Ht. by destruct (Hrep xs i r).
  - eexists; split; [done|]. split; [by rewrite Ex, existsb_app, <-Hx1, <-Hy1|by rewrite Ex].
Qed.

Lemma merge_batch_ok b other :
  columns_ok b → columns_ok other →
  ∃ m, merge_batch b other = Ok m ∧ columns_ok m ∧ reqs m = reqs b ++ reqs other ∧
    enable_overlap m = enable_overlap b.
Proof.
  intros [(L1 & L2 & L3) (C1 & C2) Hi Hr Hl Hg] [(M1 & M2 & M3) (D1 & D2) Ki Kr Kl Kg].
  unfold merge_batch. destruct (merge_logp_ok _ _ _ _ Hl Kl) as (z & -> & Hz). py_run.
  eexists; split; [done|]. split_and!; [|done..].
  split; cbn [reqs cols merge_cols req_pool_indices req_pool_indices_cpu seq_lens seq_lens_cpu orig_seq_lens
    input_ids logp flags merge_flags batch_has_grammar]; try done.
  - rewrite !length_app. lia.
  - by rewrite C1, C2, D1, D2.
  - intros l. destruct (input_ids b) as [x|] eqn:Ex, (input_ids other) as [y|] eqn:Ey; try done.
    intros [= <-]. by rewrite !length_app, (Hi x), (Ki y).
  - intros i r [Hx|[Hge Hx]]%lookup_app_Some Hn.
    + rewrite !lookup_app_l by (rewrite ?L1, ?L2; by eapply lookup_lt_Some). by apply Hr.
    + rewrite !lookup_app_r by lia. rewrite L1, L2. by apply Kr.
  - by rewrite existsb_app, Hg, Kg.
Qed.

Lemma merge_last_batch_ok exclude last b :
  batch_cols_ok last → batch_cols_ok b →
  ∃ b', merge_last_batch exclude last b = Ok b' ∧ batch_cols_ok b' ∧
    reqs b' = reqs b ++ filter (kept_in_batch exclude) (reqs last).
Proof.
  intros Hl Hb. unfold merge_last_batch. destruct (filter_batch_ok exclude last Hl) as (l & -> & Hl' & Hr & _). py_run.
  set (b1 := if (batch_size l <? batch_size last)%nat then _ else b).
  assert (reqs b1 = reqs b ∧ batch_cols_ok b1) as [Hr1 Hb1].
  { unfold b1. destruct (batch_size l <? batch_size last)%nat; [|done]. split; [done|].
    destruct Hb as [?|[]]; [by left|right; by split]. }
  rewrite <-Hr, <-Hr1. unfold is_empty. destruct (Nat.eqb_spec (length (reqs l)) 0) as [Hz|Hz].
  { apply nil_length_inv in Hz. rewrite Hz, app_nil_r. eauto. }
  destruct (Nat.eqb_spec (length (reqs b1)) 0) as [Hz1|Hz1].
  { apply nil_length_inv in Hz1. rewrite Hz1. eauto. }
  destruct Hl' as [E|Hl']; [by rewrite E in Hz|]. destruct Hb1 as [E|Hb1]; [by rewrite E in Hz1|].
  destruct (merge_batch_ok b1 l Hb1 Hl') as (m & -> & Hm & Hrm & _). exists m. split_and!; [done|by right|done].
Qed.

(** ** What a request takes along *)

(** The requests of a batch, each with its entries of the device columns: its row,
    its length and its original length. *)
Definition batch_rows (b : ScheduleBatch) : list (BReq * (nat * (nat * nat))) :=
  zip (reqs b) (zip (req_pool_indices (cols b)) (zip (seq_lens (cols b)) (orig_seq_lens (cols b)))).
(** The requests, each with the token it feeds to the next forward pass. *)
Definition batch_inputs (b : ScheduleBatch) : option (list (BReq * Z)) := zip (reqs b) <$> input_ids b.

Lemma at_indices_zip {A B} (l : list A) (k : list B) idx :
  length l = length k → in_range (length l) idx →
  zip (at_indices l idx) (at_indices k idx) = at_indices (zip l k) idx.
Proof.
  intros Hl. induction 1 as [|i idx Hi _ IH]; [done|]. cbn in *.
  destruct (lookup_lt_is_Some_2 l i Hi) as [x Hx]. rewrite Hl in Hi.
  destruct (lookup_lt_is_Some_2 k i Hi) as [y Hy].
  rewrite (proj2 (lookup_zip_Some l k i x y)) by done. rewrite Hx, Hy. cbn. f_equal. exact IH.
Qed.

Section filtered.
Variable exclude : list string.
Notation kept := (kept_in_batch exclude).

Lemma stays_kept (rs : list BReq) i r : rs !! i = Some r → stays exclude rs i = true ↔ kept r.
Proof.
  intros Hr. unfold stays, kept_in_batch, running. rewrite Hr.
  by rewrite andb_true_iff, !negb_true_iff, bool_decide_eq_false.
Qed.

Lemma zip_filtered {B} (rs : list BReq) (k : list B) :
  length k = length rs →
  zip (at_indices rs (default_keep exclude rs)) (at_indices k (default_keep exclude rs))
    = filter (λ x, kept x.1) (zip rs k).
Proof.
  intros Hl. rewrite at_indices_zip by (done || apply in_range_filter). unfold default_keep.
  replace (length rs) with (length (zip rs k)) by (rewrite length_zip; lia).
  apply at_indices_filter. intros i [r y] [Hr _]%lookup_zip_Some. by apply stays_kept.
Qed.

(** Every column is filtered like the requests. *)
Lemma filter_batch_rows b b' :
  batch_cols_ok b → filter_batch exclude None b = Ok b' →
  batch_rows b' = filter (λ x, kept x.1) (batch_rows b) ∧
  batch_inputs b' = filter (λ x, kept x.1) <$> batch_inputs b.
Proof.
  intros Hb Hf. unfold filter_batch in Hf. cbn [default from_option] in Hf. unfold filter_keep in Hf.
  assert (Hkept : at_indices (reqs b) (default_keep exclude (reqs b)) = filter kept (reqs b)).
  { apply at_indices_filter. intros i r. apply stays_kept. }
  pose proof (at_indices_length _ _ (in_range_filter (length (reqs b)) (stays exclude (reqs b)))) as Hkl.
  fold (default_keep exclude (reqs b)) in Hkl. rewrite Hkept in Hkl.
  unfold batch_rows, batch_inputs. destruct (Nat.eqb_spec (length (default_keep exclude (reqs b))) 0) as [Hz|Hz].
  { simplify_eq/=. rewrite Hz in Hkl. apply nil_length_inv in Hkl.
    assert (Hn : ∀ B (k : list B), filter (λ x : BReq * B, kept x.1) (zip (reqs b) k) = []).
    { intros B k. apply filter_none. intros [r y] Hin Hr. apply elem_of_zip_l in Hin.
      assert (r ∈ filter kept (reqs b)) as Hc by (by apply list_elem_of_filter). rewrite Hkl in Hc. by apply not_elem_of_nil in Hc. }
    split; [by rewrite Hn|]. destruct (input_ids b); [|done]. cbn. by rewrite Hn. }
  destruct (Nat.eqb_spec (length (default_keep exclude (reqs b))) (length (reqs b))) as [Hl|Hl].
  { simplify_eq/=. rewrite Hl in Hkl. apply filter_full in Hkl.
    assert (Ha : ∀ B (k : list B), filter (λ x : BReq * B, kept x.1) (zip (reqs b') k) = zip (reqs b') k).
    { intros B k. apply filter_every. intros [r y] Hin%elem_of_zip_l. rewrite <-Hkl in Hin.
      by apply list_elem_of_filter in Hin as [? _]. }
    split; [by rewrite Ha|]. destruct (input_ids b'); [|done]. cbn. by rewrite Ha. }
  destruct Hb as [Hb|[(L1 & L2 & L3) (C1 & C2) Hids _ _ _]]; [rewrite Hb in Hz; done|].
  pose proof (in_range_filter (length (reqs b)) (stays exclude (reqs b))) as Hr. fold (default_keep exclude (reqs b)) in Hr.
  rewrite !pick_ok in Hf by (by rewrite ?C1, ?L1, ?L2, ?L3). cbn [rbind] in Hf.
  rewrite pick_opt_ok in Hf by (intros l Hl'; by rewrite (Hids l Hl')). cbn [rbind] in Hf. inv_ok.
  cbn [reqs cols req_pool_indices seq_lens orig_seq_lens input_ids]. split.
  - rewrite !at_indices_zip by (rewrite ?length_zip, ?L1, ?L2, ?L3; first [done|lia]).
    rewrite <-at_indices_zip by (rewrite ?length_zip, ?L1, ?L2, ?L3; first [done|lia]).
    apply zip_filtered. rewrite !length_zip. lia.
  - destruct (input_ids b) as [l|] eqn:E; [|done]. cbn. by rewrite zip_filtered by (by apply Hids).
Qed.
End filtered.

(** Every column is concatenated like the requests. *)
Lemma merge_batch_rows b other m :
  columns_ok b → columns_ok other → merge_batch b other = Ok m →
  batch_rows m = batch_rows b ++ batch_rows other ∧
  batch_inputs m = cat_opt (batch_inputs b) (batch_inputs other).
Proof.
  intros [(L1 & L2 & L3) _ Hi _ _ _] _ Hm. unfold merge_batch in Hm. inv_ok.
  unfold batch_rows, batch_inputs. cbn [reqs cols merge_cols req_pool_indices seq_lens orig_seq_lens input_ids]. split.
  - rewrite !zip_with_app by (rewrite ?length_zip; lia). done.
  - destruct (input_ids b) as [x|] eqn:Ex, (input_ids other) as [y|]; try done. cbn. f_equal.
    apply zip_with_app. symmetry. by apply Hi.
Qed.

(** The last prefill batch: what it keeps comes behind the running requests. *)
Lemma merge_last_batch_rows exclude last b b' :
  batch_cols_ok last → batch_cols_ok b → merge_last_batch exclude last b = Ok b' →
  batch_rows b' = batch_rows b ++ filter (λ x, kept_in_batch exclude x.1) (batch_rows last) ∧
  batch_inputs b' =
    let new := filter (λ x, kept_in_batch exclude x.1) <$> batch_inputs last in
    if (length (filter (kept_in_batch exclude) (reqs last)) =? 0)%nat then batch_inputs b
    else if is_empty b then new else cat_opt (batch_inputs b) new.
Proof.
  intros Hl Hb Hm. unfold merge_last_batch in Hm.
  destruct (filter_batch_ok exclude last Hl) as (l & Hf & Hl' & Hr & _). rewrite Hf in Hm. cbn [rbind] in Hm.
  destruct (filter_batch_rows exclude last l Hl Hf) as [Hrows Hin]. cbn zeta. rewrite <-Hrows, <-Hin, <-Hr. clear Hin Hrows.
  set (b1 := if (batch_size l <? batch_size last)%nat then set_full false b else b) in Hm.
  assert (batch_rows b1 = batch_rows b ∧ batch_inputs b1 = batch_inputs b ∧ reqs b1 = reqs b ∧ batch_cols_ok b1)
    as (E1 & E2 & E3 & Hb1).
  { unfold b1. destruct (_ <? _)%nat; [|by split_and!]. split_and!; [done..|]. destruct Hb as [?|[]]; [by left|right; by split]. }
  rewrite <-E1, <-E2. unfold is_empty in *. rewrite <-E3.
  destruct (Nat.eqb_spec (length (reqs l)) 0) as [Hz|Hz].
  { simplify_eq. apply nil_length_inv in Hz. unfold batch_rows at 3. by rewrite Hz, app_nil_r. }
  destruct (Nat.eqb_spec (length (reqs b1)) 0) as [Hz1|Hz1].
  { simplify_eq. apply nil_length_inv in Hz1. unfold batch_rows at 2. by rewrite Hz1. }
  destruct Hl' as [E|Hl']; [by rewrite E in Hz|]. destruct Hb1 as [E|Hb1]; [by rewrite E in Hz1|].
  by apply merge_batch_rows.
Qed.

(** ** Changing requests in place *)

(** [r'] is [r] later: it has left its row or it is where it was. *)
Record same_place (r r' : BReq) : Prop := {
  sp_row : req_pool_idx (bkv r') = None ∨
    req_pool_idx (bkv r') = req_pool_idx (bkv r) ∧ kv_committed_len (bkv r') = kv_committed_len (bkv r);
  sp_logp : return_logprob (bkv r') = return_logprob (bkv r);
  sp_tops : top_logprobs_num r' = top_logprobs_num r;
  sp_toks : token_ids_logprob r' = token_ids_logprob r;
  sp_grammar : has_grammar r' = has_grammar r;
}.

Global Instance same_place_preorder : PreOrder same_place.
Proof.
  split; [intros r; split; auto|]. intros r1 r2 r3 [A1 A2 A3 A4 A5] [B1 B2 B3 B4 B5]. split; try congruence.
  destruct B1 as [?|[E1 E2]]; [by left|]. destruct A1 as [?|[F1 F2]]; [left|right]; [congruence|].
  split; congruence.
Qed.

Lemma existsb_Forall2 {A} (f : A → bool) l k : Forall2 (λ x y, f y = f x) l k → existsb f k = existsb f l.
Proof. induction 1 as [|x y l k Hxy _ IH]; [done|]. cbn. by rewrite Hxy, IH. Qed.

Lemma columns_same_place b rs :
  columns_ok b → Forall2 same_place (reqs b) rs → columns_ok (set_reqs rs b).
Proof.
  intros [(L1 & L2 & L3) C Hi Hr [Ha Hlc] Hg] Hf. pose proof (Forall2_length _ _ _ Hf) as Hlen.
  split; cbn [reqs set_reqs cols input_ids logp flags]; rewrite <-?Hlen; try done.
  - intros i r' Hr' Hrow. destruct (Forall2_lookup_r _ _ _ _ _ Hf Hr') as (r & Hri & Hsp).
    destruct (sp_row _ _ Hsp) as [Hn|[E1 E2]]; [rewrite Hn in Hrow; by destruct Hrow|].
    rewrite E1, E2 in *. by apply Hr.
  - split.
    + rewrite Ha. symmetry. apply (existsb_Forall2 (λ r, return_logprob (bkv r))).
      eapply Forall2_impl; [exact Hf|]. by intros ? ? [].
    + intros Ht. destruct (Hlc Ht) as (tops & toks & E1 & E2 & E3 & E4 & Hat). exists tops, toks.
      split_and!; [done..|congruence|congruence|]. intros i r' Hr' Hlp.
      destruct (Forall2_lookup_r _ _ _ _ _ Hf Hr') as (r & Hri & [_ Hsl Hst Hsk _]).
      rewrite Hst, Hsk. apply Hat; [done|congruence].
  - rewrite Hg. symmetry. apply existsb_Forall2. eapply Forall2_impl; [exact Hf|]. by intros ? ? [].
Qed.

Lemma batch_cols_same_place b rs :
  batch_cols_ok b → Forall2 same_place (reqs b) rs → batch_cols_ok (set_reqs rs b).
Proof.
  intros [Hb|Hb] Hf; [left|right; by apply columns_same_place].
  rewrite Hb in Hf. by apply Forall2_nil_inv_l in Hf.
Qed.
