(* ===== verification/ServeInv.v ===== *)
(** The KV cache under a running server: every slot of the pool is at any time in
    the tree, in the allocator, or owned by exactly one request, which is running
    or admitted; every request points at slots of the tree for its protected
    prefix and holds a lock on it.  The lemmas of this file show for every thing
    the scheduler does to requests that it succeeds and keeps this invariant, with
    pages of one token and without speculative decoding. *)

From stdpp Require Import base gmap strings list relations.
From Stdlib Require Import ZArith Lia.
From S2P Require Import Prelude.
From S2P Require Import PyData.
From S2P Require Import RadixKey.
From S2P Require Import RadixTree.
From S2P Require Import RadixInv.
From S2P Require Import RadixContent.
From S2P Require Import RadixOps.
From S2P Require Import RadixInsert.
From S2P Require Import RadixEvict.
From S2P Require Import RadixSession.
From S2P Require Import ReqCache.
From S2P Require Import ReqCacheInv.
From S2P Require Import ReqAlloc.
From S2P Require Import ReqLife.
From S2P Require Import BatchAlloc.
From S2P Require Import Delayer.
From S2P Require Import PrefillAdder.
From S2P Require Import ScheduleBatch.

Open Scope Z_scope.

(** ** The invariant *)

(** The row of a request. *)
Definition row_at (p : ReqToTokenPool) (r : Req) : list Z :=
  default [] (req_pool_idx r ≫= λ i, req_to_token p !! i).

(** ** Rows and locks of lists of requests *)

Lemma last_nodes r n (rs : list Req) : r ∈ rs → last_node r = Some n → n ∈ omap last_node rs.
Proof. intros Hr Hn. apply list_elem_of_omap. eauto. Qed.

(** Two requests never share a row. *)
Lemma row_of_other p rs r r' i :
  pool_inv p (r :: rs) → r' ∈ rs → req_pool_idx r = Some i → req_pool_idx r' ≠ Some i.
Proof.
  intros Hp Hr Hi Hi'. pose proof (NoDup_seq 1 (rp_size p)) as Hnd. unfold pool_inv in Hp. rewrite <-Hp in Hnd.
  apply NoDup_app in Hnd as (_ & _ & Hnd). unfold rows_of in Hnd. cbn in Hnd. rewrite Hi in Hnd.
  apply NoDup_cons in Hnd as [Hni _]. apply Hni, list_elem_of_omap. eauto.
Qed.

(** The numbers of rows and columns of the request pool. *)
Definition pool_dims {A} (s : Sys A) : nat * nat :=
  (rp_size (req_to_token_pool s), max_context_len (req_to_token_pool s)).
Lemma dims_ctx {A} (s s' : Sys A) :
  pool_dims s' = pool_dims s → max_context_len (req_to_token_pool s') = max_context_len (req_to_token_pool s).
Proof. by intros [= _ ->]. Qed.

Lemma dims_size {A} (s s' : Sys A) :
  pool_dims s' = pool_dims s → rp_size (req_to_token_pool s') = rp_size (req_to_token_pool s).
Proof. by intros [= -> _]. Qed.
Lemma dims_same {A} (s s' : Sys A) : req_to_token_pool s' = req_to_token_pool s → pool_dims s' = pool_dims s.
Proof. unfold pool_dims. by intros ->. Qed.
Lemma shape_dims {A} (s s' : Sys A) :
  same_shape (req_to_token_pool s) (req_to_token_pool s') → pool_dims s' = pool_dims s.
Proof. unfold pool_dims. by intros (-> & -> & _). Qed.

(** The row of a request is a row of the table. *)
Lemma row_at_there p rs r i :
  pool_inv p rs → rows_ok p → r ∈ rs → req_pool_idx r = Some i →
  req_to_token p !! i = Some (row_at p r) ∧ length (row_at p r) = max_context_len p.
Proof.
  intros Hp Hrows Hr Hi. destruct (Hrows i) as (row & Hrow & Hl).
  { assert (i ∈ seq 1 (rp_size p)) as Hs%elem_of_seq; [|lia]. unfold pool_inv in Hp. rewrite <-Hp.
    apply elem_of_app. right. apply list_elem_of_omap. eauto. }
  unfold row_at. rewrite Hi. cbn. by rewrite Hrow.
Qed.

(** The rows of requests that all have one. *)
Lemma rows_of_lookup rs k :
  Forall (λ r, is_Some (req_pool_idx r)) rs → rows_of rs !! k = rs !! k ≫= req_pool_idx.
Proof.
  intros Hall. revert k. induction Hall as [|r rs [i Hi] _ IH]; intros k; [done|]. cbn. rewrite Hi.
  destruct k as [|k]; cbn; [done|]. apply IH.
Qed.

Lemma rows_of_length rs : Forall (λ r, is_Some (req_pool_idx r)) rs → length (rows_of rs) = length rs.
Proof. induction 1 as [|r rs [i Hi] _ IH]; [done|]. cbn. rewrite Hi. cbn. by f_equal. Qed.

Lemma rows_of_full rs : length (rows_of rs) = length rs → Forall (λ r, is_Some (req_pool_idx r)) rs.
Proof.
  assert (Hle : ∀ rs, (length (rows_of rs) ≤ length rs)%nat).
  { clear. intros rs. induction rs as [|r rs IH]; [done|]. cbn. destruct (req_pool_idx r); cbn; unfold rows_of in IH; lia. }
  induction rs as [|r rs IH]; [done|]. specialize (Hle rs). unfold rows_of in *. cbn.
  destruct (req_pool_idx r) eqn:E; cbn; intros Hl; [|lia]. constructor; [by eexists|]. apply IH. lia.
Qed.

Lemma pool_rows_NoDup p rs others : pool_inv p (rs ++ others) → NoDup (rows_of rs).
Proof.
  intros Hp. pose proof (NoDup_seq 1 (rp_size p)) as Hnd. unfold pool_inv in Hp. rewrite <-Hp in Hnd.
  apply NoDup_app in Hnd as (_ & _ & Hnd). unfold rows_of in Hnd. rewrite omap_app in Hnd.
  by apply NoDup_app in Hnd as [? _].
Qed.

Lemma pool_rows_disjoint p rs others r : pool_inv p (rs ++ others) → r ∈ others →
  ∀ i, req_pool_idx r = Some i → i ∉ rows_of rs.
Proof.
  intros Hp Hr i Hi Hin. pose proof (NoDup_seq 1 (rp_size p)) as Hnd. unfold pool_inv in Hp. rewrite <-Hp in Hnd.
  apply NoDup_app in Hnd as (_ & _ & Hnd). unfold rows_of in Hnd, Hin. rewrite omap_app in Hnd.
  apply NoDup_app in Hnd as (_ & Hd & _). apply (Hd i Hin). apply list_elem_of_omap. eauto.
Qed.

(** Growing every list at its end. *)
Lemma concat_zip_app (f ys : list (list Z)) :
  length f = length ys → concat (zip_with app f ys) ≡ₚ concat f ++ concat ys.
Proof.
  revert ys; induction f as [|x f IH]; intros [|y ys] Hl; try done. cbn. injection Hl as Hl.
  rewrite (IH ys Hl). solve_perm.
Qed.

Lemma concat_singletons {B} (l : list B) : concat ((λ x, [x]) <$> l) = l.
Proof. induction l as [|x l IH]; [done|]. cbn. by f_equal. Qed.

(** ** What requests take from the pool *)

(** Of a list of pairs of slots owned alone and slots held in the tree, the former are
    taken once each, the latter once all together. *)
Definition taken_by (l : list (list Z * list Z)) : Z :=
  Z.of_nat (length (concat l.*1)) + Z.of_nat (size (list_to_set (concat l.*2) : gset Z)).

Global Instance taken_by_perm : Proper ((≡ₚ) ==> (=)) taken_by.
Proof. intros l l' Hl. unfold taken_by. by rewrite Hl. Qed.

Lemma taken_by_cons o h l :
  taken_by ((o, h) :: l) =
    Z.of_nat (length o) + Z.of_nat (length (concat l.*1)) +
    Z.of_nat (size (list_to_set h ∪ list_to_set (concat l.*2) : gset Z)).
Proof. unfold taken_by. csimpl. rewrite length_app, list_to_set_app_L. lia. Qed.

Lemma taken_by_drop x l : taken_by l ≤ taken_by (x :: l).
Proof.
  destruct x as [o h]. rewrite taken_by_cons. unfold taken_by.
  assert (size (list_to_set (concat l.*2) : gset Z) ≤ size (list_to_set h ∪ list_to_set (concat l.*2) : gset Z))%nat
    by (apply subseteq_size; set_solver). lia.
Qed.

Lemma taken_by_more o new h l : taken_by ((o ++ new, h) :: l) = taken_by ((o, h) :: l) + Z.of_nat (length new).
Proof. rewrite !taken_by_cons, length_app. lia. Qed.

(** Slots that go from a request to the tree are not taken twice. *)
Lemma taken_by_hold o o' h new l :
  (length o' + length new ≤ length o)%nat → taken_by ((o', h ++ new) :: l) ≤ taken_by ((o, h) :: l).
Proof.
  intros Hl. rewrite !taken_by_cons, list_to_set_app_L.
  assert (size (list_to_set h ∪ list_to_set new ∪ list_to_set (concat l.*2) : gset Z) ≤
    size (list_to_set h ∪ list_to_set (concat l.*2) : gset Z) + length new)%nat; [|lia].
  transitivity (size ((list_to_set h ∪ list_to_set (concat l.*2)) ∪ list_to_set new : gset Z)).
  { apply subseteq_size. set_solver. }
  rewrite size_union_alt.
  assert (size (list_to_set new ∖ (list_to_set h ∪ list_to_set (concat l.*2)) : gset Z) ≤ length new)%nat; [|lia].
  transitivity (size (list_to_set new : gset Z)); [apply subseteq_size; set_solver|].
  clear. induction new as [|x new IH]; [done|]. cbn [list_to_set length].
  pose proof (size_union_alt ({[x]} : gset Z) (list_to_set new)) as Hu. rewrite size_singleton in Hu.
  assert (size (list_to_set new ∖ {[x]} : gset Z) ≤ size (list_to_set new : gset Z))%nat
    by (apply subseteq_size; set_solver). lia.
Qed.

Section serve.
Context {A : Type} `{KVPool A} `{!KVPoolTotal A} `{!KVPoolSlots A} `{KVAlloc A} `{!KVAllocLaws A} `{KVPaged A}.
Context `{Env} `{!EnvLaws} `{HeapQ} `{!HeapQLaws}.
Variable cfg : Config.
Implicit Types st : RadixCache A.
Implicit Types s : Sys A.

(** The protected prefix of [r] is the walk to its last node, with the slots [kv]. *)
Definition prefix_walk st (r : Req) (kv : list Z) : Prop :=
  ∃ n, last_node r = Some n ∧
    down (tree st) (req_extra_key r) (root_node (tree st))
      (take (cache_protected_len r) (units (token_key cfg r (all_ids r))))
      (take (cache_protected_len r) kv) n.

(** A request whose tokens up to [kv_committed_len] have slots in its row. *)
Record run_ok s (r : Req) : Prop := {
  ru_row : is_Some (req_pool_idx r);
  ru_len : (kv_committed_len r ≤ length (row_at (req_to_token_pool s) r))%nat;
  ru_alloc : kv_allocated_len r = kv_committed_len r;
  ru_flags : kv_committed_freed r = false ∧ kv_overallocated_freed r = false;
  ru_prot : (cache_protected_len r ≤ aligned_len cfg r (take (kv_committed_len r) (all_ids r)))%nat;
  ru_walk : prefix_walk (cache s) r (row_at (req_to_token_pool s) r);
  ru_some : (0 < kv_committed_len r)%nat;
}.

(** The slots that belong to it alone. *)
Definition run_owned s (r : Req) : list Z :=
  slice (cache_protected_len r) (kv_committed_len r) (row_at (req_to_token_pool s) r).

(** A request admitted to the next prefill: new, with a cached prefix, or between
    two chunks of its input. *)
Record ready_ok st (r : Req) (stop : nat) : Prop := {
  rd_range : extend_range r = Some (Z.of_nat (length (prefix_indices r)), Z.of_nat stop);
  rd_stop : (length (prefix_indices r) ≤ stop)%nat ∧ (0 < stop ≤ length (all_ids r))%nat;
  rd_fill : full_untruncated_fill_ids r = all_ids r;
  rd_flags : kv_committed_freed r = false ∧ kv_overallocated_freed r = false;
  rd_prot : (cache_protected_len r ≤ length (prefix_indices r))%nat ∧
    (cache_protected_len r ≤ aligned_len cfg r (take stop (all_ids r)))%nat;
  rd_walk : prefix_walk st r (prefix_indices r);
  rd_reuse : is_Some (req_pool_idx r) → 0 < inflight_middle_chunks r ∨ (0 < kv_committed_len r)%nat;
}.
Definition ready_owned (r : Req) : list Z := drop (cache_protected_len r) (prefix_indices r).

Record serve_core (S0 : list Z) s (run ready : list Req) : Prop := {
  sv_wf : cache_wf cfg (cache s) (omap last_node (run ++ ready));
  sv_slots : all_slots (cache s) ++ concat (run_owned s <$> run) ++ concat (ready_owned <$> ready) ≡ₚ S0;
  sv_rows : pool_inv (req_to_token_pool s) (run ++ ready);
  sv_table : rows_ok (req_to_token_pool s);
  sv_run : Forall (run_ok s) run;
  sv_ready : Forall (λ r, ∃ stop, ready_ok (cache s) r stop) ready;
}.

(** ** What stays for the others *)

(** A walk to a node somebody holds a lock on survives evictions. *)
Lemma locked_walk st st' L e us w n :
  cache_wf cfg st L → n ∈ L → locked_kept st st' →
  down (tree st) e (root_node (tree st)) us w n → down (tree st') e (root_node (tree st')) us w n.
Proof.
  intros Hw Hn [Hroot Hkeep] Hd. rewrite Hroot.
  pose proof (tw_shape _ _ _ _ (cw_tree _ _ _ Hw)) as Hsh.
  destruct (sw_root _ _ _ Hsh) as (rn & Hr & _).
  assert (is_Some (nodes (tree st) !! n)) as [nd Hnd] by (eapply down_node; eauto).
  destruct (decide (n = root_node (tree st))) as [->|Hne].
  { destruct (down_root_unique _ _ _ _ _ _ _ _ _ Hsh ltac:(eauto) Hd (down_nil _ _ _)) as [-> ->].
    constructor. }
  apply (Hkeep n nd Hnd); [|done].
  destruct (tw_lock _ _ _ _ (cw_tree _ _ _ Hw)) as (P & HP & Hcnt). rewrite (Hcnt n nd Hnd Hne).
  apply list_elem_of_lookup in Hn as [i Hi]. destruct (Forall2_lookup_l _ _ _ _ _ HP Hi) as (l & Hl & Hup).
  inversion Hup; subst; [done|].
  assert (0 < pcount n (concat P))%nat; [|lia]. apply pcount_pos, elem_of_concat.
  eexists. split; [|by eapply list_elem_of_lookup_2]. by left.
Qed.

(** What one client may do to the walks of the others. *)
Definition walks_kept (L : list nat) st st' : Prop :=
  ∀ n e us w, n ∈ L → down (tree st) e (root_node (tree st)) us w n →
    down (tree st') e (root_node (tree st')) us w n.

Lemma walks_kept_kept L st st' : kept st st' → walks_kept L st st'.
Proof. intros [Hr Hd _] n e us w _ Hn. rewrite Hr. auto. Qed.
Lemma walks_kept_locked L L' st st' :
  cache_wf cfg st L → L' ⊆ L → locked_kept st st' → walks_kept L' st st'.
Proof. intros Hw Hs Hk n e us w Hn. eapply locked_walk; [done|set_solver|done]. Qed.
Lemma walks_kept_trans L st1 st2 st3 :
  walks_kept L st1 st2 → walks_kept L st2 st3 → walks_kept L st1 st3.
Proof. intros H12 H23 n e us w Hn Hd. eauto. Qed.

Lemma prefix_walk_kept st st' r kv L :
  prefix_walk st r kv → (∀ n, last_node r = Some n → n ∈ L) → walks_kept L st st' → prefix_walk st' r kv.
Proof. intros (n & Hn & Hd) HL Hk. exists n. split; [done|]. by apply Hk; [apply HL|]. Qed.

(** A request whose row is untouched keeps running. *)
Lemma run_ok_kept s s' r L :
  run_ok s r → row_at (req_to_token_pool s') r = row_at (req_to_token_pool s) r →
  (∀ n, last_node r = Some n → n ∈ L) → walks_kept L (cache s) (cache s') →
  run_ok s' r ∧ run_owned s' r = run_owned s r.
Proof.
  intros [? ? ? ? ? Hw ?] Hrow HL Hk. split; [|unfold run_owned; by rewrite Hrow].
  split; rewrite ?Hrow; try done. by eapply prefix_walk_kept.
Qed.

Lemma run_oks_kept s s' rs L :
  Forall (run_ok s) rs →
  (∀ r, r ∈ rs → row_at (req_to_token_pool s') r = row_at (req_to_token_pool s) r) →
  (∀ r n, r ∈ rs → last_node r = Some n → n ∈ L) → walks_kept L (cache s) (cache s') →
  Forall (run_ok s') rs ∧ run_owned s' <$> rs = run_owned s <$> rs.
Proof.
  intros Hall Hrow HL Hk. induction Hall as [|r rs Hr Hall IH]; [done|].
  destruct IH as [IH1 IH2]; [set_solver..|].
  destruct (run_ok_kept s s' r L Hr) as [? ?]; [set_solver..|done|].
  split; [by constructor|]. csimpl. congruence.
Qed.

Lemma ready_oks_kept st st' rs L :
  Forall (λ r, ∃ stop, ready_ok st r stop) rs →
  (∀ r n, r ∈ rs → last_node r = Some n → n ∈ L) → walks_kept L st st' →
  Forall (λ r, ∃ stop, ready_ok st' r stop) rs.
Proof.
  intros Hall HL Hk. rewrite Forall_forall in Hall |- *. intros r Hr.
  destruct (Hall r Hr) as (stop & [? ? ? ? ? Hw ?]). exists stop. split; try done.
  eapply prefix_walk_kept; [done| |done]. intros n. by apply HL.
Qed.

Global Instance serve_core_perm S0 s : Proper ((≡ₚ) ==> (≡ₚ) ==> iff) (serve_core S0 s).
Proof.
  assert (∀ run run' ready ready', run ≡ₚ run' → ready ≡ₚ ready' →
    serve_core S0 s run ready → serve_core S0 s run' ready') as Himp.
  { intros run run' ready ready' Hq1 Hq2 [Hw Hs Hp Ht Hr Hd]. split; try done.
    - eapply cache_wf_perm; [|exact Hw]. by rewrite Hq1, Hq2.
    - by rewrite <-Hs, Hq1, Hq2.
    - unfold pool_inv in *. by rewrite <-Hp, Hq1, Hq2.
    - by rewrite <-Hq1.
    - by rewrite <-Hq2. }
  intros run run' Hq1 ready ready' Hq2. split; by apply Himp.
Qed.
(** The slots of the tree a request holds a lock on. *)
Definition run_held s (r : Req) : list Z := take (cache_protected_len r) (row_at (req_to_token_pool s) r).
Definition ready_held (r : Req) : list Z := take (cache_protected_len r) (prefix_indices r).
Definition run_share s (r : Req) : list Z * list Z := (run_owned s r, run_held s r).
Definition ready_share (r : Req) : list Z * list Z := (ready_owned r, ready_held r).

(** The slots that are neither free nor evictable. *)
Definition taken s (run ready : list Req) : Z :=
  taken_by ((run_share s <$> run) ++ (ready_share <$> ready)).

Global Instance taken_perm s : Proper ((≡ₚ) ==> (≡ₚ) ==> (=)) (taken s).
Proof. intros run run' Hq1 ready ready' Hq2. unfold taken. by rewrite Hq1, Hq2. Qed.

Lemma taken_eq s run ready :
  taken s run ready =
    Z.of_nat (length (concat (run_owned s <$> run) ++ concat (ready_owned <$> ready))) +
    Z.of_nat (size (list_to_set (concat (run_held s <$> run) ++ concat (ready_held <$> ready)) : gset Z)).
Proof.
  unfold taken, taken_by. rewrite !fmap_app, <-!list_fmap_compose, !concat_app. done.
Qed.

Lemma run_share_kept s s' r :
  row_at (req_to_token_pool s') r = row_at (req_to_token_pool s) r → run_share s' r = run_share s r.
Proof. unfold run_share, run_owned, run_held. by intros ->. Qed.

Lemma run_shares_kept s s' (rs : list Req) :
  (∀ r, r ∈ rs → row_at (req_to_token_pool s') r = row_at (req_to_token_pool s) r) →
  run_share s' <$> rs = run_share s <$> rs.
Proof.
  intros Hr. apply list_fmap_ext. intros i r Hi. apply run_share_kept, Hr. by eapply list_elem_of_lookup_2.
Qed.

(** ** Leaving *)

(** The slots of a running request as the cache operations want them. *)
Lemma run_req_slots s r ids :
  (1 ≤ page_size cfg)%nat → (∃ L, cache_wf cfg (cache s) L) → run_ok s r →
  ids `prefix_of` all_ids r → (length ids ≤ kv_committed_len r)%nat →
  (cache_protected_len r ≤ aligned_len cfg r ids)%nat →
  req_slots cfg (cache s) r ids (take (length ids) (row_at (req_to_token_pool s) r)).
Proof.
  intros Hps [L Hw] [_ Hlen _ _ _ (n & Hn & Hd) _] Hpre Hids Hprot.
  pose proof (aligned_len_le cfg r ids) as Hal. split.
  - rewrite length_take. lia.
  - done.
  - rewrite take_take, Nat.min_l by lia.
    rewrite (take_units_prefix cfg r ids (all_ids r)); [by eapply cached_whole|done|].
    etrans; [exact Hprot|]. apply page_floor_le.
Qed.

(** Evictions leave everybody alone. *)
Lemma serve_evicted S0 s st' run ready :
  serve_core S0 s run ready → cache_wf cfg st' (omap last_node (run ++ ready)) →
  all_slots st' ≡ₚ all_slots (cache s) → locked_kept (cache s) st' →
  serve_core S0 (mkSys st' (req_to_token_pool s)) run ready.
Proof.
  intros [Hw Hs Hp Ht Hrun Hready] Hw' Hs' Hk.
  assert (Hkept : walks_kept (omap last_node (run ++ ready)) (cache s) st') by (by eapply walks_kept_locked).
  destruct (run_oks_kept s (mkSys st' (req_to_token_pool s)) run (omap last_node (run ++ ready)) Hrun)
    as [Hrun2 Hown]; [done| |exact Hkept|].
  { intros r' n Hr' Hn. eapply last_nodes; [|done]. set_solver. }
  split; try done.
  - cbn [cache]. by rewrite <-Hs, Hs', Hown.
  - eapply ready_oks_kept; [done| |exact Hkept]. intros r' n Hr' Hn. eapply last_nodes; [|done]. set_solver.
Qed.

Hypothesis Hdis : disable cfg = false.

Lemma serve_evict S0 s run ready n :
  serve_core S0 s run ready → kv_ready (allocator (cache s)) →
  ∃ st', evict_from_tree_cache cfg n (cache s) = Ok st' ∧
    serve_core S0 (mkSys st' (req_to_token_pool s)) run ready ∧ kv_ready (allocator st') ∧
    kv_available_size (allocator st') + evictable_size_ (tree st') =
      kv_available_size (allocator (cache s)) + evictable_size_ (tree (cache s)) ∧
    (n ≤ kv_available_size (allocator st') ∨ evictable_size_ (tree st') = 0).
Proof.
  intros Hi Hrd. pose proof Hi as [Hw _ _ _ _ _].
  destruct (evict_from_tree_cache_ok cfg n (cache s) _ Hw Hdis Hrd) as
    (st' & -> & Hw' & Hrd' & Hs' & Hsum & _ & Hen & _ & Hk).
  exists st'. split_and!; [done|by apply serve_evicted|done..].
Qed.

Hypothesis Hps1 : page_size cfg = 1%nat.

Lemma serve_release S0 s r others ready is_insert :
  serve_core S0 s (r :: others) ready → (kv_committed_len r ≤ length (all_ids r))%nat →
  ∃ s', release_kv_cache cfg false false r is_insert s = Ok (released r, s') ∧
    serve_core S0 s' others ready ∧ frees (allocator (cache s)) (allocator (cache s')) ∧
    taken s' others ready ≤ taken s (r :: others) ready ∧
    pool_dims s' = pool_dims s.
Proof.
  intros [Hw Hs Hp Ht Hrun Hready] Hc. apply Forall_cons in Hrun as [Hr Hrun].
  pose proof Hr as [[idx Hidx] Hlen Halloc [Hf1 Hf2] Hprot Hwalk Hpos]. pose proof Hwalk as (n & Hn & _).
  cbn [app omap list_omap] in Hw, Hp. rewrite Hn in Hw. set (L := omap last_node (others ++ ready)) in *.
  destruct (row_at_there _ _ r idx Hp Ht ltac:(by left) Hidx) as [Hrow Hrl].
  set (row := row_at (req_to_token_pool s) r) in *.
  set (ids := take (kv_committed_len r) (all_ids r)) in *.
  assert (Hli : length ids = kv_committed_len r) by (unfold ids; rewrite length_take; lia).
  pose proof (cw_ps _ _ _ Hw) as Hps.
  destruct (release_kv_cache_ok cfg false Hdis s r false is_insert L (others ++ ready) idx row ids
    (take (length ids) row)) as (s' & Hrun' & Hw' & Hp' & (Ht1 & Ht2 & Ht3) & Hs' & _ & _ & Hk); try done.
  { unfold locks_with. by rewrite Hn. }
  { apply run_req_slots; [done|by eauto|done|apply prefix_take|lia|done]. }
  exists s'. split; [done|].
  assert (Hrows : ∀ r', row_at (req_to_token_pool s') r' = row_at (req_to_token_pool s) r')
    by (intros; unfold row_at; by rewrite Ht1).
  destruct (run_oks_kept s s' others L Hrun) as [Hrun2 Hown]; [done| |by apply walks_kept_kept|].
  { intros r' m Hr' Hm. eapply last_nodes; [|done]. set_solver. }
  split_and!; [|apply Hk| |unfold pool_dims; by rewrite Ht2, Ht3].
  2:{ unfold taken. rewrite (run_shares_kept s s') by done. cbn [fmap list_fmap app]. apply taken_by_drop. }
  split; try done.
  - rewrite <-Hs, Hs', Hown. cbn [fmap list_fmap concat].
    assert (slice (over_start cfg false r) (kv_allocated_len r) row = []) as ->.
    { unfold over_start. rewrite Hps1. cbn. rewrite Halloc. unfold slice. by rewrite Nat.sub_diag. }
    assert (owned r (take (length ids) row) = run_owned s r) as ->.
    { unfold owned, run_owned. by rewrite Hli, slice_take. }
    rewrite app_nil_r. solve_perm.
  - unfold rows_ok in *. by rewrite Ht1, Ht2, Ht3.
  - eapply ready_oks_kept; [done| |by apply (walks_kept_kept L)].
    intros r' m Hr' Hm. eapply last_nodes; [|done]. set_solver.
Qed.

(** [release_req]: the request leaves for the waiting queue, and room is made for
    the others. *)
Lemma serve_retract S0 s r others ready steps remaining :
  serve_core S0 s (r :: others) ready → kv_ready (allocator (cache s)) →
  (kv_committed_len r ≤ length (all_ids r))%nat →
  ∃ s', release_req cfg false false steps r remaining s = Ok (reset_for_retract (released r), s') ∧
    serve_core S0 s' others ready ∧ kv_ready (allocator (cache s')) ∧
    pool_dims s' = pool_dims s.
Proof.
  intros Hi Hrd Hc. destruct (serve_release S0 s r others ready false Hi Hc) as (s1 & Hr1 & Hi1 & Hf & _ & Hm).
  unfold release_req. rewrite Hr1. py_run.
  assert (Hrd1 : kv_ready (allocator (cache s1))) by (by eapply frees_ready).
  destruct (serve_evict S0 s1 others ready (remaining * steps) Hi1 Hrd1) as (st' & -> & Hi2 & Hrd2 & _). py_run.
  eauto 10.
Qed.

(** ** Decoding *)

(** One more slot at the end of what is committed. *)
Definition decoded (r : Req) : Req := with_kv_lens (kv_committed_len r + 1) (kv_allocated_len r + 1) r.

Lemma run_ok_decoded s s' r x L :
  (1 ≤ page_size cfg)%nat → run_ok s r → (kv_committed_len r < length (row_at (req_to_token_pool s) r))%nat →
  row_at (req_to_token_pool s') r = <[kv_committed_len r := x]> (row_at (req_to_token_pool s) r) →
  (∀ n, last_node r = Some n → n ∈ L) → walks_kept L (cache s) (cache s') →
  run_ok s' (decoded r) ∧ run_owned s' (decoded r) = run_owned s r ++ [x].
Proof.
  intros Hps [Hrow Hlen Halloc Hfl Hprot (n & Hn & Hd) Hpos] Hlt Hr HL Hk.
  assert (Hpc : (cache_protected_len r ≤ kv_committed_len r)%nat).
  { etrans; [exact Hprot|]. etrans; [apply aligned_len_le|]. rewrite length_take. lia. }
  change (row_at (req_to_token_pool s') r) with (row_at (req_to_token_pool s') (decoded r)) in Hr.
  set (row := row_at (req_to_token_pool s) r) in *. set (c := kv_committed_len r) in *.
  split; [split|]; rewrite ?Hr; cbn [decoded with_kv_lens req_pool_idx kv_committed_len kv_allocated_len
    kv_committed_freed kv_overallocated_freed cache_protected_len]; try done.
  - rewrite length_insert. fold c. lia.
  - rewrite Halloc. done.
  - etrans; [exact Hprot|]. change (all_ids (decoded r)) with (all_ids r). fold c.
    apply (aligned_len_prefix cfg r); [done|].
    apply prefix_of_take_le. lia.
  - exists n. split; [done|]. cbn [decoded with_kv_lens cache_protected_len req_extra_key].
    rewrite take_insert_ge by lia. apply Hk; [by apply HL|]. exact Hd.
  - fold c. lia.
  - unfold run_owned. rewrite Hr. cbn [decoded with_kv_lens cache_protected_len kv_committed_len]. fold c row.
    rewrite !slice_take. replace (c + 1)%nat with (S c) by lia.
    rewrite (take_S_r _ _ x) by (apply list_lookup_insert_eq; lia). rewrite take_insert_ge by lia.
    rewrite drop_app_le; [done|]. rewrite length_take. lia.
Qed.

(** The rows after the stores of a step, one by one. *)
Lemma serve_decode_reqs s s' run out L :
  (1 ≤ page_size cfg)%nat → Forall (run_ok s) run → length out = length run →
  (∀ r, r ∈ run → (kv_committed_len r < length (row_at (req_to_token_pool s) r))%nat) →
  (∀ k r x, run !! k = Some r → out !! k = Some x →
    row_at (req_to_token_pool s') r = <[kv_committed_len r := x]> (row_at (req_to_token_pool s) r)) →
  (∀ r n, r ∈ run → last_node r = Some n → n ∈ L) → walks_kept L (cache s) (cache s') →
  Forall (run_ok s') (decoded <$> run) ∧
  run_owned s' <$> (decoded <$> run) = zip_with app (run_owned s <$> run) ((λ x, [x]) <$> out).
Proof.
  intros Hps Hrun Hlo Hctx Hrow HL Hk.
  assert (Hall : ∀ k r, run !! k = Some r → ∃ x, out !! k = Some x ∧ run_ok s' (decoded r) ∧
    run_owned s' (decoded r) = run_owned s r ++ [x]).
  { intros k r Hr. destruct (lookup_lt_is_Some_2 out k) as [x Hx]; [rewrite Hlo; by eapply lookup_lt_Some|].
    exists x. split; [done|]. apply list_elem_of_lookup_2 in Hr as Hin.
    eapply run_ok_decoded; [done|by apply (Forall_lookup_1 _ _ _ _ Hrun Hr)|by apply Hctx|by eapply Hrow| |exact Hk].
    intros n. by apply HL. }
  split.
  - apply Forall_fmap, Forall_lookup. intros k r Hr. by destruct (Hall k r Hr) as (? & _ & ? & _).
  - apply list_eq_same_length with (length run); rewrite ?length_zip_with, ?length_fmap; [lia..|].
    intros k y z Hlt. rewrite !list_lookup_fmap, lookup_zip_with, !list_lookup_fmap.
    destruct (lookup_lt_is_Some_2 run k Hlt) as [r Hr]. rewrite Hr.
    destruct (Hall k r Hr) as (x & Hx & _ & Ho). rewrite Hx. intros [= <-] [= <-]. exact Ho.
Qed.

(** One more slot for the requests of [run]; the [rest] waits. *)
Lemma serve_decode S0 s run rest ready :
  serve_core S0 s (run ++ rest) ready → kv_ready (allocator (cache s)) →
  Forall (λ r, (kv_committed_len r < max_context_len (req_to_token_pool s))%nat) run →
  Z.of_nat (length run) ≤ kv_available_size (allocator (cache s)) + evictable_size_ (tree (cache s)) →
  ∃ out s', alloc_for_decode cfg (rows_of run) (kv_committed_len <$> run) 1 s = Ok (out, s') ∧
    length out = length run ∧ serve_core S0 s' ((decoded <$> run) ++ rest) ready ∧ kv_ready (allocator (cache s')) ∧
    (∀ k r x, run !! k = Some r → out !! k = Some x →
      row_at (req_to_token_pool s') r = <[kv_committed_len r := x]> (row_at (req_to_token_pool s) r)) ∧
    pool_dims s' = pool_dims s.
Proof.
  intros [Hw Hs Hp Ht [Hrun Hrest]%Forall_app Hready] Hrd Hctx Htok. pose proof (cw_ps _ _ _ Hw) as Hps.
  set (L := omap last_node ((run ++ rest) ++ ready)) in *.
  assert (Hall : Forall (λ r, is_Some (req_pool_idx r)) run) by (eapply Forall_impl; [exact Hrun|]; by intros ? []).
  assert (Hthere : ∀ k r, run !! k = Some r → ∃ i, req_pool_idx r = Some i ∧ rows_of run !! k = Some i ∧
    req_to_token (req_to_token_pool s) !! i = Some (row_at (req_to_token_pool s) r) ∧
    (kv_committed_len r < length (row_at (req_to_token_pool s) r))%nat).
  { intros k r Hk. destruct (Forall_lookup_1 _ _ _ _ Hall Hk) as [i Hi].
    destruct (row_at_there _ _ r i Hp Ht) as [Hrow Hl]; [apply list_elem_of_lookup_2 in Hk; set_solver|done|].
    exists i. rewrite rows_of_lookup, Hk, Hl by done. split_and!; [done..|]. by apply (Forall_lookup_1 _ _ _ _ Hctx Hk). }
  destruct (alloc_for_decode_ok cfg Hdis (rows_of run) (kv_committed_len <$> run) s L)
    as (out & s' & Hrun' & Hlo & Hw' & Hs' & Hother & Hwr & Hrd' & Hlk & Hfs & Hsz); try done.
  { rewrite <-app_assoc in Hp. by eapply pool_rows_NoDup. }
  { by rewrite length_fmap, rows_of_length. }
  { intros k i n Hi Hn. rewrite list_lookup_fmap in Hn. destruct (run !! k) as [r|] eqn:Hk; [|done].
    cbn in Hn. injection Hn as <-. destruct (Hthere k r Hk) as (j & _ & Hj & ? & ?). simplify_eq. eauto. }
  { by rewrite rows_of_length. }
  rewrite rows_of_length in Hlo by done. pose proof (alloc_for_decode_shape cfg _ _ _ _ _ _ Hrun') as Hshape.
  assert (Hkept : walks_kept L (cache s) (cache s')) by (by eapply walks_kept_locked).
  assert (Hrow' : ∀ k r x, run !! k = Some r → out !! k = Some x →
    row_at (req_to_token_pool s') r = <[kv_committed_len r := x]> (row_at (req_to_token_pool s) r)).
  { intros k r x Hk Hx. destruct (Hthere k r Hk) as (i & Hi & Hik & Hrow & _). unfold row_at at 1. rewrite Hi. cbn.
    rewrite (Hwr k i (kv_committed_len r) x), Hrow; [done..| |done]. by rewrite list_lookup_fmap, Hk. }
  destruct (serve_decode_reqs s s' run out L) as [Hrun2 Hown2]; try done.
  { intros r [k Hk]%list_elem_of_lookup. by destruct (Hthere k r Hk) as (? & _ & _ & _ & ?). }
  { intros r n Hr Hn. eapply last_nodes; [|done]. set_solver. }
  destruct (run_oks_kept s s' rest L Hrest) as [Hrest2 Hown3]; [| |exact Hkept|].
  { intros r Hr. unfold row_at. destruct (req_pool_idx r) as [j|] eqn:Hj; [|done]. cbn. rewrite Hother; [done|].
    rewrite <-app_assoc in Hp. eapply (pool_rows_disjoint _ run (rest ++ ready) r Hp); [set_solver|done]. }
  { intros r n Hr Hn. eapply last_nodes; [|done]. set_solver. }
  exists out, s'. split_and!; [done|done| |done|done|by apply shape_dims]. split.
  - eapply cache_wf_perm; [|exact Hw']. unfold L. rewrite !omap_app, omap_map. done.
  - rewrite fmap_app, concat_app, Hown2, Hown3, concat_zip_app by (rewrite !length_fmap; lia).
    rewrite concat_singletons, <-Hs, Hs', fmap_app, concat_app. solve_perm.
  - unfold pool_inv, rows_of in *. rewrite Hfs, Hsz, <-Hp, !omap_app, omap_map. done.
  - by eapply rows_ok_shape.
  - by apply Forall_app.
  - eapply ready_oks_kept; [done| |exact Hkept]. intros r' n Hr' Hn. eapply last_nodes; [|done]. set_solver.
Qed.
End serve.
