(* ===== verification/ServeOps.v ===== *)
(** What happens to a request between admission and release, on the serving
    invariant: it is admitted with a cached prefix under a lock, gets slots for a
    chunk of its input, its new tokens are cached, and it goes on to the next chunk
    or to decoding. *)

From stdpp Require Import base gmap strings list relations.
From Stdlib Require Import ZArith Lia.
From S2P Require Import Prelude.
From S2P Require Import PyData.
From S2P Require Import RadixKey.
From S2P Require Import RadixTree.
From S2P Require Import RadixInv.
From S2P Require Import RadixContent.
From S2P Require Import RadixOps.
From S2P Require Import RadixInsert.
From S2P Require Import RadixEvict.
From S2P Require Import RadixSession.
From S2P Require Import ReqCache.
From S2P Require Import ReqCacheInv.
From S2P Require Import ReqAlloc.
From S2P Require Import ReqLife.
From S2P Require Import BatchAlloc.
From S2P Require Import Delayer.
From S2P Require Import PrefillAdder.
From S2P Require Import ScheduleBatch.
From S2P Require Import ServeInv.

Open Scope Z_scope.

(** ** Cutting a list *)

(** [l] in pieces of the given lengths. *)
Fixpoint cut (els : list nat) (l : list Z) : list (list Z) :=
  match els with
  | [] => []
  | e :: els => take e l :: cut els (drop e l)
  end.

Lemma concat_cut els l : length l = sum_list els → concat (cut els l) = l.
Proof.
  revert l; induction els as [|e els IH]; intros l Hl; cbn in *; [by destruct l|].
  rewrite IH by (rewrite length_drop; lia). apply take_drop.
Qed.

Lemma cut_length els l : length (cut els l) = length els.
Proof. revert l; induction els as [|e els IH]; intros l; cbn; [done|]. by rewrite IH. Qed.

Lemma cut_lookup els l k e :
  els !! k = Some e →
  cut els l !! k = Some (slice (sum_list (take k els)) (sum_list (take k els) + e) l).
Proof.
  revert l k; induction els as [|x els IH]; intros l [|k] Hk; cbn in *; simplify_eq.
  - unfold slice. by rewrite Nat.sub_0_r.
  - rewrite (IH _ k Hk). unfold slice. rewrite drop_drop. do 2 f_equal. cbn. lia.
Qed.

(** A map that forgets what a change touches. *)
Lemma omap_via {B C} (f : B → option C) (l k : list B) : f <$> l = f <$> k → omap f l = omap f k.
Proof.
  assert (∀ l, omap f l = omap id (f <$> l)) as Hid by (intros; by rewrite omap_map).
  intros Hl. by rewrite (Hid l), (Hid k), Hl.
Qed.

Section ops.
Context {A : Type} `{KVPool A} `{!KVPoolTotal A} `{!KVPoolSlots A} `{KVAlloc A} `{!KVAllocLaws A} `{KVPaged A}.
Context `{Env} `{!EnvLaws} `{HeapQ} `{!HeapQLaws}.
Variable cfg : Config.
Hypothesis Hdis : disable cfg = false.
Implicit Types st : RadixCache A.
Implicit Types s : Sys A.

(** ** Tokens *)

(** A request changes in place. *)
Lemma serve_replace S0 s r r' others ready :
  serve_core cfg S0 s (r :: others) ready → run_ok cfg s r' → req_pool_idx r' = req_pool_idx r →
  last_node r' = last_node r → run_owned s r' = run_owned s r → serve_core cfg S0 s (r' :: others) ready.
Proof.
  intros [Hw Hs Hp Ht [Hr Hrun]%Forall_cons Hready] Hr' Hidx Hn Ho. split; try done.
  - cbn in *. by rewrite Hn.
  - cbn in *. by rewrite Ho.
  - unfold pool_inv, rows_of in *. cbn in *. by rewrite Hidx.
  - by constructor.
Qed.

(** New tokens at the end of the output. *)
Lemma run_ok_append s r toks chunks :
  (1 ≤ page_size cfg)%nat → run_ok cfg s r → run_ok cfg s (with_output (output_ids r ++ toks) chunks r).
Proof.
  intros Hps [Hrow Hlen Halloc Hfl Hprot (n & Hn & Hd) Hpos].
  assert (Hpre : all_ids r `prefix_of` all_ids (with_output (output_ids r ++ toks) chunks r)).
  { exists toks. unfold all_ids. cbn. by rewrite app_assoc. }
  split; try done.
  - cbn [cache_protected_len with_output kv_committed_len]. etrans; [exact Hprot|].
    apply (aligned_len_prefix cfg r); [done|]. destruct Hpre as [k ->]. rewrite take_app. by eexists.
  - exists n. split; [done|]. cbn [cache_protected_len with_output req_extra_key].
    change (token_key cfg (with_output (output_ids r ++ toks) chunks r)) with (token_key cfg r).
    rewrite <-(take_units_prefix cfg r _ _ (cache_protected_len r) Hpre); [done|].
    etrans; [exact Hprot|]. etrans; [apply page_floor_le|]. apply key_len_prefix, prefix_take.
Qed.

Lemma serve_append S0 s r others ready toks chunks :
  serve_core cfg S0 s (r :: others) ready →
  serve_core cfg S0 s (with_output (output_ids r ++ toks) chunks r :: others) ready.
Proof.
  intros Hi. pose proof Hi as [Hw _ _ _ Hrun _]. apply Forall_cons in Hrun as [Hr _].
  eapply serve_replace; [done| |done..]. apply run_ok_append; [by eapply cw_ps|done].
Qed.

(** ** Caching the tokens of a request that runs on *)

Lemma cache_unfinished_req_shape r chunked s r' s' :
  cache_unfinished_req cfg r chunked s = Ok (r', s') → same_shape (req_to_token_pool s) (req_to_token_pool s').
Proof.
  unfold cache_unfinished_req. rewrite Hdis. intros Hc.
  do 5 (repeat match goal with x : _ * _ |- _ => destruct x end; inv_ok). cbn. by eapply pool_write_shape.
Qed.

Lemma run_ok_recached s s' r ids kv' y :
  let r' := with_prefix kv' (aligned_len cfg r ids) (Some y) r in
  let row := row_at (req_to_token_pool s) r in
  (1 ≤ page_size cfg)%nat → run_ok cfg s r → ids `prefix_of` all_ids r →
  (length ids ≤ kv_committed_len r)%nat → length kv' = length ids →
  row_at (req_to_token_pool s') r = kv' ++ drop (length ids) row →
  down (tree (cache s')) (req_extra_key r) (root_node (tree (cache s')))
    (take (aligned_len cfg r ids) (units (token_key cfg r ids))) (take (aligned_len cfg r ids) kv') y →
  run_ok cfg s' r' ∧ run_owned s' r' = owned r' kv' ++ slice (length ids) (kv_committed_len r) row.
Proof.
  intros r' row Hps [Hrow Hlr Halloc Hfl Hprot _ Hpos] Hpre Hlen Hlk Hrow' Hd.
  pose proof (aligned_len_le cfg r ids) as Hale.
  change (row_at (req_to_token_pool s') r) with (row_at (req_to_token_pool s') r') in Hrow'.
  split.
  - split; try done.
    + rewrite Hrow', length_app, length_drop, Hlk. unfold row. cbn [kv_committed_len r' with_prefix]. lia.
    + cbn [cache_protected_len kv_committed_len r' with_prefix].
      apply (aligned_len_prefix cfg r); [done|]. destruct Hpre as [k Hk']. unfold all_ids in *. cbn. rewrite Hk'.
      rewrite take_app, take_ge by lia. by eexists.
    + exists y. split; [done|]. rewrite Hrow'. cbn [cache_protected_len r' with_prefix req_extra_key].
      change (token_key cfg r' (all_ids r')) with (token_key cfg r (all_ids r)).
      rewrite take_app_le by lia. rewrite <-(take_units_prefix cfg r ids); [done|done|apply page_floor_le].
  - unfold run_owned, owned. rewrite Hrow'. cbn [cache_protected_len kv_committed_len r' with_prefix].
    rewrite slice_take, take_app, Hlk. rewrite (take_ge kv') by lia. rewrite drop_app_le by lia. done.
Qed.

(** Caching again leaves the first slots alone. *)
Lemma recached_first st st' L r ids kv kv' y :
  let r' := with_prefix kv' (aligned_len cfg r ids) (Some y) r in
  cache_wf cfg st' L → req_slots cfg st r ids kv → req_slots cfg st' r' ids kv' →
  (∀ e us w, cached (page_size cfg) (tree st) e us w → cached (page_size cfg) (tree st') e us w) →
  take (cache_protected_len r) kv' = take (cache_protected_len r) kv.
Proof.
  intros r' Hw [Hl Hp Hc] [Hl' _ Hc'] Hk. apply Hk in Hc. cbn [r' with_prefix cache_protected_len] in Hc'.
  set (p := cache_protected_len r) in *. set (al := aligned_len cfg r ids) in *.
  assert (Hle : (p ≤ length (units (token_key cfg r ids)))%nat).
  { rewrite length_units. etrans; [exact Hp|]. apply page_floor_le. }
  pose proof (tw_shape _ _ _ _ (cw_tree _ _ _ Hw)) as Hsh.
  assert (Hal : (page_size cfg | p)%nat).
  { destruct Hc as [Hd _]. by rewrite length_take, Nat.min_l in Hd by done. }
  eapply cached_prefix with (n := p) in Hc'; [|apply (cw_ps _ _ _ Hw)|done|].
  2:{ rewrite length_take. change (token_key cfg r' ids) with (token_key cfg r ids). lia. }
  rewrite !take_take, Nat.min_l in Hc' by done.
  by eapply cached_functional; [apply (cw_ps _ _ _ Hw)|..].
Qed.

(** The slots the tree takes over are not taken twice. *)
Lemma recache_taken s s' r ids kv' y others ready :
  let r' := with_prefix kv' (aligned_len cfg r ids) (Some y) r in
  let row := row_at (req_to_token_pool s) r in
  run_ok cfg s r → (length ids ≤ kv_committed_len r)%nat → (cache_protected_len r ≤ aligned_len cfg r ids)%nat →
  length kv' = length ids → row_at (req_to_token_pool s') r = kv' ++ drop (length ids) row →
  take (cache_protected_len r) kv' = take (cache_protected_len r) (take (length ids) row) →
  run_owned s' r' = owned r' kv' ++ slice (length ids) (kv_committed_len r) row →
  (∀ r2, r2 ∈ others → row_at (req_to_token_pool s') r2 = row_at (req_to_token_pool s) r2) →
  taken s' (r' :: others) ready ≤ taken s (r :: others) ready.
Proof.
  intros r' row [_ Hlr _ _ _ _ _] Hlen Hal Hlk Hrow' Hfirst Hown Hrows.
  pose proof (aligned_len_le cfg r ids) as Hale. fold row in Hlr.
  unfold taken. cbn [fmap list_fmap app]. rewrite (run_shares_kept s s') by done.
  unfold run_share at 1 3. rewrite Hown.
  assert (run_held s' r' = run_held s r ++ slice (cache_protected_len r) (aligned_len cfg r ids) kv') as ->.
  { unfold run_held. change (row_at (req_to_token_pool s') r') with (row_at (req_to_token_pool s') r). rewrite Hrow'.
    fold row. cbn [r' with_prefix cache_protected_len]. rewrite take_app_le by lia.
    rewrite take_take, Nat.min_l in Hfirst by lia. rewrite <-Hfirst. rewrite slice_take.
    rewrite <-(take_drop (cache_protected_len r) (take (aligned_len cfg r ids) kv')) at 1.
    by rewrite take_take, Nat.min_l by done. }
  apply taken_by_hold. unfold owned, run_owned. fold row. cbn [r' with_prefix cache_protected_len].
  rewrite length_app, length_drop. unfold slice. rewrite !length_take, !length_drop. lia.
Qed.

Lemma serve_recache S0 s r others ready chunked ids :
  serve_core cfg S0 s (r :: others) ready → get_fill_ids r = Ok ids → ids `prefix_of` all_ids r →
  (length ids ≤ kv_committed_len r)%nat → (cache_protected_len r ≤ aligned_len cfg r ids)%nat →
  ∃ s' y kv', cache_unfinished_req cfg r chunked s =
      Ok (with_prefix kv' (aligned_len cfg r ids) (Some y) r, s') ∧ length kv' = length ids ∧
    serve_core cfg S0 s' (with_prefix kv' (aligned_len cfg r ids) (Some y) r :: others) ready ∧
    frees (allocator (cache s)) (allocator (cache s')) ∧
    row_at (req_to_token_pool s') r = kv' ++ drop (length ids) (row_at (req_to_token_pool s) r) ∧
    taken s' (with_prefix kv' (aligned_len cfg r ids) (Some y) r :: others) ready ≤ taken s (r :: others) ready ∧
    pool_dims s' = pool_dims s.
Proof.
  intros [Hw Hs Hp Ht Hrun Hready] Hids Hpre Hlen Hal. apply Forall_cons in Hrun as [Hr Hrun].
  pose proof Hr as [[idx Hidx] Hlr Halloc Hfl Hprot (n & Hn & Hd) Hpos].
  cbn [app omap list_omap] in Hw, Hp. rewrite Hn in Hw. set (L := omap last_node (others ++ ready)) in *.
  pose proof (cw_ps _ _ _ Hw) as Hps. destruct (row_at_there _ _ r idx Hp Ht ltac:(by left) Hidx) as [Hrow Hrl].
  set (row := row_at (req_to_token_pool s) r) in *.
  pose proof (run_req_slots cfg s r ids Hps ltac:(eauto) Hr Hpre Hlen Hal) as Hrs. fold row in Hrs.
  destruct (cache_unfinished_req_ok cfg s r chunked L n idx row ids _ Hw Hdis Hn Hidx Hrow Hids eq_refl Hrs)
    as (r' & s' & y & kv' & Hrun' & -> & Hw' & Htab & Hfs & Hrs' & _ & Hs' & Hcd & Hsz & Hd' & Hk).
  pose proof (rs_len _ _ _ _ _ Hrs') as Hlk. pose proof (aligned_len_le cfg r ids) as Hale.
  pose proof (cache_unfinished_req_shape _ _ _ _ _ Hrun') as Hshape.
  set (r' := with_prefix kv' (aligned_len cfg r ids) (Some y) r) in *.
  assert (Hrow' : row_at (req_to_token_pool s') r = kv' ++ drop (length ids) row).
  { unfold row_at. rewrite Hidx. cbn. rewrite Htab, list_lookup_insert_eq by (by eapply lookup_lt_Some). done. }
  assert (Hrows : ∀ r2, r2 ∈ others → row_at (req_to_token_pool s') r2 = row_at (req_to_token_pool s) r2).
  { intros r2 Hr2. unfold row_at. destruct (req_pool_idx r2) as [j|] eqn:Hj; [|done]. cbn. rewrite Htab.
    rewrite list_lookup_insert_ne; [done|]. intros ->. eapply (row_of_other _ _ r r2 j Hp); [set_solver|done|done]. }
  destruct (run_oks_kept cfg s s' others L Hrun Hrows) as [Hrun2 Hown]; [|by apply walks_kept_kept|].
  { intros r2 m Hr2 Hm. eapply last_nodes; [|done]. set_solver. }
  destruct (run_ok_recached s s' r ids kv' y Hps Hr Hpre Hlen Hlk Hrow' Hd') as [Hr' Hown'].
  fold r' in Hr', Hown'. fold row in Hown'.
  exists s', y, kv'. fold r'. split_and!; [done|done| |by apply Hk|done| |by apply shape_dims].
  2:{ eapply recache_taken; try done. by eapply recached_first. }
  split; try done.
  - rewrite <-Hs. cbn [fmap list_fmap concat]. rewrite Hown, Hown'.
    assert (run_owned s r = owned r (take (length ids) row) ++ slice (length ids) (kv_committed_len r) row) as ->.
    { unfold run_owned, owned. fold row. rewrite <-slice_take. apply slice_split; [|done].
      etrans; [exact Hal|done]. }
    solve_perm.
  - unfold pool_inv, rows_of in *. cbn in *. by rewrite Hfs, Hsz.
  - by eapply rows_ok_shape.
  - by constructor.
  - eapply ready_oks_kept; [done| |by apply (walks_kept_kept L)].
    intros r2 m Hr2 Hm. eapply last_nodes; [|done]. set_solver.
Qed.

(** ** Slots for the next tokens *)

Definition extended (stop : nat) (r : Req) : Req := with_kv_lens stop stop r.

Lemma run_ok_extended s s' r r' stop new rest L :
  ready_ok cfg (cache s) r stop → r' = with_pool_idx (req_pool_idx r') r → is_Some (req_pool_idx r') →
  row_at (req_to_token_pool s') r' = prefix_indices r ++ new ++ rest →
  (length (prefix_indices r) + length new)%nat = stop →
  (∀ n, last_node r = Some n → n ∈ L) → walks_kept L (cache s) (cache s') →
  run_ok cfg s' (extended stop r') ∧ run_owned s' (extended stop r') = ready_owned r ++ new ∧
  run_held s' (extended stop r') = ready_held r.
Proof.
  intros [_ [Hle Hst] _ [Hfl1 Hfl2] [Hp1 Hp2] (n & Hn & Hd) _] Hr' Hsome Hrow Hlen HL Hk.
  assert (Hf : cache_protected_len r' = cache_protected_len r ∧ last_node r' = last_node r ∧
    (kv_committed_freed r' = false ∧ kv_overallocated_freed r' = false) ∧ all_ids r' = all_ids r ∧
    req_extra_key r' = req_extra_key r) by (rewrite Hr'; by split_and!).
  destruct Hf as (F1 & F2 & F3 & F4 & F5). clear Hr'.
  change (row_at (req_to_token_pool s') r') with (row_at (req_to_token_pool s') (extended stop r')) in Hrow.
  split.
  - split; rewrite ?Hrow; try done.
    + cbn. rewrite !length_app. lia.
    + cbn [cache_protected_len kv_committed_len extended with_kv_lens].
      change (all_ids (extended stop r')) with (all_ids r'). rewrite F1, F4.
      unfold aligned_len, token_key in *. cbn [req_extra_key extended with_kv_lens]. by rewrite F5.
    + exists n. split; [cbn; congruence|]. cbn [cache_protected_len req_extra_key extended with_kv_lens].
      change (all_ids (extended stop r')) with (all_ids r'). unfold token_key in *.
      cbn [req_extra_key extended with_kv_lens]. rewrite F1, F4, F5, take_app_le by done. apply Hk; [by apply HL|done].
    + cbn. lia.
  - unfold run_owned, ready_owned. rewrite Hrow. cbn [cache_protected_len kv_committed_len extended with_kv_lens].
    unfold run_held, ready_held. rewrite Hrow. cbn [cache_protected_len extended with_kv_lens]. rewrite F1.
    split; [|by rewrite take_app_le].
    rewrite slice_take, app_assoc, take_app_length' by (rewrite length_app; lia). by rewrite drop_app_le.
Qed.

(** The batch [prepare_for_extend] passes on. *)
Definition extend_batch (batch : list Req) (stops : list nat) : ExtendBatch :=
  let pl := (λ r, length (prefix_indices r)) <$> batch in
  let el := zip_with Nat.sub stops pl in
  mkBatch batch pl el stops (Z.of_nat (sum_list el)).

Lemma extend_batch_ok st batch stops :
  Forall2 (ready_ok cfg st) batch stops → batch_ok (extend_batch batch stops).
Proof.
  intros Hall. pose proof (Forall2_length _ _ _ Hall) as Hl. split; cbn; try done.
  - rewrite length_zip_with, length_fmap. lia.
  - clear Hl. induction Hall as [|r stop batch stops [_ [Hle _] _ _ _ _ _] _ IH]; [done|]. cbn. f_equal; [lia|done].
Qed.

(** What the new requests look like, one by one. *)
Lemma extended_lookup batch batch' stops k r :
  Forall2 (λ r r', r' = with_pool_idx (req_pool_idx r') r ∧ (req_pool_idx r = None ∨ r' = r)) batch batch' →
  length stops = length batch → batch !! k = Some r →
  ∃ r' stop, batch' !! k = Some r' ∧ stops !! k = Some stop ∧ r' = with_pool_idx (req_pool_idx r') r ∧
    zip_with extended stops batch' !! k = Some (extended stop r').
Proof.
  intros Hf Hl Hk. destruct (Forall2_lookup_l _ _ _ _ _ Hf Hk) as (r' & Hr' & He & _).
  destruct (lookup_lt_is_Some_2 stops k) as [stop Hs]; [rewrite Hl; by eapply lookup_lt_Some|].
  exists r', stop. split_and!; [done..|]. by rewrite lookup_zip_with, Hs, Hr'.
Qed.

(** Fields that [alloc_for_extend] leaves alone, as lists. *)
Lemma extended_fields {B} (f : Req → B) batch batch' stops :
  Forall2 (λ r r', r' = with_pool_idx (req_pool_idx r') r ∧ (req_pool_idx r = None ∨ r' = r)) batch batch' →
  length stops = length batch → (∀ stop i r, f (extended stop (with_pool_idx i r)) = f r) →
  f <$> zip_with extended stops batch' = f <$> batch.
Proof.
  intros Hf. revert stops. induction Hf as [|r r' batch batch' [Hr _] Hf IH]; intros [|stop stops] Hl Hsame; try done.
  cbn. f_equal; [by rewrite Hr|]. apply IH; [by injection Hl|done].
Qed.

Lemma extended_rows batch' stops :
  length stops = length batch' → rows_of (zip_with extended stops batch') = rows_of batch'.
Proof.
  intros Hl. apply omap_via. revert stops Hl. induction batch' as [|r batch' IH]; intros [|stop stops] Hl; try done.
  cbn. f_equal. apply IH. by injection Hl.
Qed.

Lemma pool_inv_perm p rs rs' : rs ≡ₚ rs' → pool_inv p rs → pool_inv p rs'.
Proof. unfold pool_inv. by intros ->. Qed.

(** The new rows, one by one. *)
Lemma serve_extend_reqs s s' batch stops batch' out idxs L :
  Forall2 (ready_ok cfg (cache s)) batch stops →
  Z.of_nat (length out) = b_extend_num_tokens (extend_batch batch stops) →
  idxs = rows_of batch' → length idxs = length batch →
  Forall2 (λ r r', r' = with_pool_idx (req_pool_idx r') r ∧ (req_pool_idx r = None ∨ r' = r)) batch batch' →
  (∀ k i r el, idxs !! k = Some i → batch !! k = Some r → b_extend_lens (extend_batch batch stops) !! k = Some el →
    let pt := sum_list (take k (b_extend_lens (extend_batch batch stops))) in
    ∃ row, req_to_token (req_to_token_pool s) !! i = Some row ∧
      req_to_token (req_to_token_pool s') !! i = Some (prefix_indices r ++ slice pt (pt + el) out ++
        drop (length (prefix_indices r) + el) row)) →
  (∀ r n, r ∈ batch → last_node r = Some n → n ∈ L) → walks_kept L (cache s) (cache s') →
  Forall (run_ok cfg s') (zip_with extended stops batch') ∧
  run_owned s' <$> zip_with extended stops batch' =
    zip_with app (ready_owned <$> batch) (cut (b_extend_lens (extend_batch batch stops)) out) ∧
  run_held s' <$> zip_with extended stops batch' = ready_held <$> batch.
Proof.
  intros Hready Hout Hidx Hli Hf Hwr HL Hk. pose proof (Forall2_length _ _ _ Hready) as Hls.
  pose proof (Forall2_length _ _ _ Hf) as Hlb. pose proof (extend_batch_ok _ _ _ Hready) as Hbo.
  assert (Hall : Forall (λ r, is_Some (req_pool_idx r)) batch').
  { apply rows_of_full. by rewrite <-Hidx, Hli. }
  set (els := b_extend_lens (extend_batch batch stops)) in *.
  assert (Hle : length els = length batch) by (exact (bo_ext _ Hbo)).
  assert (Hone : ∀ k r, batch !! k = Some r → ∃ r' stop, stops !! k = Some stop ∧
    zip_with extended stops batch' !! k = Some (extended stop r') ∧ run_ok cfg s' (extended stop r') ∧
    run_held s' (extended stop r') = ready_held r ∧
    ∃ new, cut els out !! k = Some new ∧ run_owned s' (extended stop r') = ready_owned r ++ new).
  { intros k r Hr. destruct (extended_lookup batch batch' stops k r Hf ltac:(done) Hr) as (r' & stop & Hr' & Hst & He & Hz).
    pose proof (Forall2_lookup_lr _ _ _ _ _ _ Hready Hr Hst) as Hrd.
    destruct (Forall_lookup_1 _ _ _ _ Hall Hr') as [i Hi].
    assert (Hel : els !! k = Some (stop - length (prefix_indices r))%nat).
    { unfold els. cbn. by rewrite lookup_zip_with, Hst, list_lookup_fmap, Hr. }
    assert (Hik : idxs !! k = Some i) by (by rewrite Hidx, rows_of_lookup, Hr').
    destruct (Hwr k i r _ Hik Hr Hel) as (row & _ & Hrow).
    assert (Hlen : (length (prefix_indices r) + length (slice (sum_list (take k els))
      (sum_list (take k els) + (stop - length (prefix_indices r))) out) = stop)%nat).
    { unfold slice. rewrite length_take, length_drop. pose proof (rd_stop _ _ _ _ Hrd) as [? _].
      assert (sum_list (take k els) + (stop - length (prefix_indices r)) ≤ length out)%nat; [|lia].
      assert (Hsum : sum_list els = (sum_list (take k els) + ((stop - length (prefix_indices r)) +
        sum_list (drop (S k) els)))%nat).
      { rewrite <-(take_drop_middle els k _ Hel) at 1. rewrite sum_list_with_app. done. }
      change (Z.of_nat (length out) = Z.of_nat (sum_list els)) in Hout. lia. }
    edestruct (run_ok_extended s s' r r' stop) as (Hok & Ho & Hh); [done|done|by eexists| |exact Hlen| |exact Hk|].
    { unfold row_at. rewrite Hi. cbn. by rewrite Hrow. }
    { intros n. apply HL. by eapply list_elem_of_lookup_2. }
    exists r', stop. split_and!; [done..|]. eexists; split; [by apply cut_lookup|done]. }
  split_and!.
  - apply Forall_lookup. intros k x Hx. destruct (lookup_lt_is_Some_2 batch k) as [r Hr].
    { apply lookup_lt_Some in Hx. rewrite length_zip_with in Hx. lia. }
    destruct (Hone k r Hr) as (r' & stop & _ & Hz & Hok & _). by simplify_eq.
  - apply list_eq_same_length with (length batch); rewrite ?length_zip_with, ?length_fmap, ?cut_length,
      ?length_zip_with; [lia..|].
    intros k x y Hlt. rewrite list_lookup_fmap, (lookup_zip_with app), list_lookup_fmap.
    destruct (lookup_lt_is_Some_2 batch k Hlt) as [r Hr]. rewrite Hr.
    destruct (Hone k r Hr) as (r' & stop & _ & -> & _ & _ & new & -> & Ho). intros [= <-] [= <-]. exact Ho.
  - apply list_eq_same_length with (length batch); rewrite ?length_fmap, ?length_zip_with; [lia..|].
    intros k x y Hlt. rewrite !list_lookup_fmap. destruct (lookup_lt_is_Some_2 batch k Hlt) as [r Hr]. rewrite Hr.
    destruct (Hone k r Hr) as (r' & stop & _ & -> & _ & Hh & _). intros [= <-] [= <-]. exact Hh.
Qed.

(** ** Admission *)

(** A request of the waiting queue: new, or reset after a retraction. *)
Record waiting (r : Req) : Prop := {
  wt_row : req_pool_idx r = None;
  wt_flags : kv_committed_freed r = false ∧ kv_overallocated_freed r = false;
  wt_fill : fill_ok r;
  wt_some : all_ids r ≠ [];
}.

(** One more token than the cached prefix is enough for its pages. *)
Lemma walk_aligned st L e r vs n stop :
  cache_wf cfg st L →
  down (tree st) e (root_node (tree st)) (take (length vs) (units (token_key cfg r (all_ids r)))) vs n →
  (length vs ≤ key_len (token_key cfg r (all_ids r)))%nat → (length vs < stop ≤ length (all_ids r))%nat →
  (length vs ≤ aligned_len cfg r (take stop (all_ids r)))%nat.
Proof.
  intros Hw Hd Hk [Hlt Hle]. pose proof (cw_ps _ _ _ Hw) as Hps.
  destruct (down_length _ Hps (tw_shape _ _ _ _ (cw_tree _ _ _ Hw)) _ _ _ _ _ Hd) as [Hl Hdiv].
  rewrite length_take, length_units, Nat.min_l in Hdiv by done.
  apply page_floor_greatest; [done|done|]. unfold token_key, key_len, raw_len. cbn [limit token_ids is_bigram].
  rewrite length_take, Nat.min_l by done.
  destruct (is_eagle cfg); [|lia]. destruct (Nat.ltb_spec 0 stop); lia.
Qed.

(** [init_next_round_input], the lock and the range of [add_one_req]. *)
Lemma serve_admit S0 s run ready r stop :
  serve_core cfg S0 s run ready → waiting r →
  ∃ r1 s1 n d st2, init_next_round_input cfg r s = Ok (r1, s1) ∧ last_node r1 = Some n ∧
    inc_lock_ref cfg n (cache s1) = Ok (d, st2) ∧ (length (prefix_indices r1) < length (all_ids r))%nat ∧
    allocator st2 = allocator (cache s) ∧
    ((length (prefix_indices r1) < stop ≤ length (all_ids r))%nat →
     serve_core cfg S0 (mkSys st2 (req_to_token_pool s1)) run
       (set_extend_range (Z.of_nat (length (prefix_indices r1))) (Z.of_nat stop) r1 :: ready)).
Proof.
  intros [Hw Hs Hp Ht Hrun Hready] [Hrow [Hf1 Hf2] Hfill Hne].
  destruct (next_round_ok cfg Hdis s r _ Hw Hfill) as (vs & n & st1 & -> & Hw1 & Hk1 & Hs1 & Hlen & _ & Hd1 & Ha1 & Hkl).
  assert (is_Some (nodes (tree st1) !! n)) as Hn.
  { destruct (sw_root _ _ _ (tw_shape _ _ _ _ (cw_tree _ _ _ Hw1))) as (rn & ? & _).
    eapply down_node; [exact Hd1|]. eauto. }
  destruct (inc_lock_ref_ok cfg st1 _ n Hw1 Hdis Hn) as (d & st2 & Hinc & Hw2 & Hl2).
  eexists _, _, n, d, st2. split; [done|]. split; [done|]. split; [exact Hinc|]. cbn [prefix_indices with_prefix].
  pose proof (lock_same_content cfg _ _ _ Hl2) as Hsc.
  assert (0 < length (all_ids r))%nat by (destruct (all_ids r); [done|cbn; lia]).
  split; [lia|]. split; [by rewrite (sc_alloc _ _ _ Hsc)|].
  cbn [req_to_token_pool]. intros Hstop.
  destruct (refreshed_same r Hfill) as [F1 [F2 F3] F4 F5 _ [F6 F7] _ _ _ _].
  assert (Hk : kept (cache s) st2) by (eapply kept_trans; [done|by eapply (kept_same_content cfg)]).
  set (r2 := set_extend_range _ _ _).
  assert (Hall : all_ids r2 = all_ids r) by (unfold all_ids; cbn; by rewrite F2, F3).
  destruct (run_oks_kept cfg s (mkSys st2 (req_to_token_pool s)) run (omap last_node run) Hrun) as [Hrun2 Hown];
    [done|by intros; eapply last_nodes|by apply walks_kept_kept|].
  split; try done.
  - cbn [cache]. eapply cache_wf_perm; [|exact Hw2]. rewrite !omap_app. cbn. solve_perm.
  - cbn [cache fmap list_fmap concat]. rewrite Hown. rewrite <-Hs, <-Hs1.
    assert (ready_owned r2 = []) as -> by (unfold ready_owned; cbn; apply drop_ge; lia).
    by rewrite (same_content_slots cfg _ _ Hsc).
  - unfold pool_inv, rows_of in *. rewrite omap_app in *. cbn. rewrite F5, Hrow. done.
  - constructor.
    + exists stop. split.
      * done.
      * rewrite Hall. cbn. lia.
      * rewrite Hall. exact F1.
      * cbn. rewrite F6, F7. done.
      * split; [done|]. rewrite Hall. unfold aligned_len, token_key. cbn [req_extra_key r2 set_extend_range with_range with_prefix].
        rewrite F4. cbn. by eapply (walk_aligned st1).
      * exists n. split; [done|]. cbn [cache cache_protected_len prefix_indices r2 set_extend_range with_range with_prefix].
        rewrite Hall. unfold token_key in *. cbn [req_extra_key r2 set_extend_range with_range with_prefix]. rewrite F4, firstn_all.
        rewrite (sc_root _ _ _ Hsc). by apply Hsc.
      * cbn. rewrite F5, Hrow. by intros [? ?].
    + eapply ready_oks_kept; [done| |by apply (walks_kept_kept (omap last_node ready))].
      intros r' m Hr' Hm. by eapply last_nodes.
Qed.

(** ** The next chunk *)

(** A request whose computed tokens are all cached goes back to the adder. *)
Lemma serve_rechunk S0 s run ready r stop :
  serve_core cfg S0 s (r :: run) ready → fill_ok r →
  prefix_indices r = take (kv_committed_len r) (row_at (req_to_token_pool s) r) →
  (kv_committed_len r < stop ≤ length (all_ids r))%nat →
  let r2 := set_extend_range (Z.of_nat (length (prefix_indices r))) (Z.of_nat stop) (refreshed r) in
  serve_core cfg S0 s run (r2 :: ready) ∧ taken s run (r2 :: ready) = taken s (r :: run) ready.
Proof.
  intros [Hw Hs Hp Ht Hrun Hready] Hfill Hpre Hstop r2. apply Forall_cons in Hrun as [Hr Hrun].
  pose proof Hr as [Hsome Hlen Halloc [Hf1 Hf2] Hprot (n & Hn & Hd) Hpos].
  destruct (refreshed_same r Hfill) as [F1 [F2 F3] F4 F5 [F6 F7] [F8 F9] _ _ _ (F10 & F11 & F12)].
  assert (Hall : all_ids r2 = all_ids r) by (unfold all_ids; cbn; by rewrite F2, F3).
  assert (Hlp : length (prefix_indices r) = kv_committed_len r) by (rewrite Hpre, length_take; lia).
  assert (Hpc : (cache_protected_len r ≤ kv_committed_len r)%nat).
  { etrans; [exact Hprot|]. etrans; [apply aligned_len_le|]. rewrite length_take. lia. }
  assert (Hown : ready_owned r2 = run_owned s r).
  { unfold ready_owned, run_owned. cbn. rewrite F10, F11, Hpre. by rewrite slice_take. }
  pose proof (cw_ps _ _ _ Hw) as Hps. split.
  2:{ unfold taken. cbn [fmap list_fmap app]. rewrite <-Permutation_middle. f_equal. f_equal.
      unfold ready_share, run_share. f_equal; [exact Hown|]. unfold ready_held, run_held. cbn.
      by rewrite F10, F11, Hpre, take_take, Nat.min_l. }
  split; try done.
  - eapply cache_wf_perm; [|exact Hw]. rewrite !omap_app. cbn. rewrite F12, Hn. solve_perm.
  - rewrite <-Hs. cbn [fmap list_fmap concat]. rewrite Hown. solve_perm.
  - eapply (pool_inv_perm _ (r2 :: run ++ ready)); [apply Permutation_middle|].
    unfold pool_inv, rows_of in *. cbn in *. by rewrite F5.
  - constructor; [|done]. exists stop. split.
    + cbn. by rewrite F10.
    + rewrite Hall. cbn. rewrite F10, Hlp. lia.
    + rewrite Hall. exact F1.
    + by cbn; rewrite F8, F9.
    + rewrite Hall. cbn [cache_protected_len prefix_indices r2 set_extend_range with_range].
      rewrite F10, F11, Hlp. split; [done|]. unfold aligned_len, token_key in *. cbn [req_extra_key r2 set_extend_range with_range]. rewrite F4.
      etrans; [exact Hprot|]. apply (aligned_len_prefix cfg r); [done|]. apply prefix_of_take_le. lia.
    + exists n. split; [cbn; congruence|]. cbn [cache_protected_len prefix_indices r2 set_extend_range with_range].
      rewrite F10, F11, Hall. unfold token_key in *. cbn [req_extra_key r2 set_extend_range with_range]. rewrite F4.
      rewrite Hpre, take_take, Nat.min_l by done. exact Hd.
    + cbn. rewrite F6. intros _. by right.
Qed.
(** ** A batch is extended *)

Hypothesis Hps1 : page_size cfg = 1%nat.

Lemma serve_extend S0 s run batch others stops :
  serve_core cfg S0 s run (batch ++ others) → kv_ready (allocator (cache s)) →
  Forall2 (ready_ok cfg (cache s)) batch stops →
  (fresh_reqs batch ≤ pool_available_size (req_to_token_pool s))%nat →
  Forall (λ n, n ≤ max_context_len (req_to_token_pool s))%nat stops →
  b_extend_num_tokens (extend_batch batch stops)
    ≤ kv_available_size (allocator (cache s)) + evictable_size_ (tree (cache s)) →
  ∃ out batch' s', alloc_for_extend cfg (extend_batch batch stops) s = Ok (out, rows_of batch', batch', s') ∧
    Forall2 (λ r r', r' = with_pool_idx (req_pool_idx r') r ∧ (req_pool_idx r = None ∨ r' = r)) batch batch' ∧
    Forall (λ r, is_Some (req_pool_idx r)) batch' ∧
    serve_core cfg S0 s' (run ++ zip_with extended stops batch') others ∧ kv_ready (allocator (cache s')) ∧
    Z.of_nat (length out) = b_extend_num_tokens (extend_batch batch stops) ∧
    taken s' (run ++ zip_with extended stops batch') others =
      taken s run (batch ++ others) + b_extend_num_tokens (extend_batch batch stops) ∧
    pool_dims s' = pool_dims s.
Proof.
  intros [Hw Hs Hp Ht Hrun Hready] Hrd Hall Hfree Hctx Htok. pose proof (Forall2_length _ _ _ Hall) as Hls.
  set (L := omap last_node (run ++ batch ++ others)) in *.
  destruct (alloc_for_extend_ok cfg Hdis (extend_batch batch stops) s L (run ++ others)) as
    (out & idxs & batch' & s' & Hal & Hout & Hli & Hnd & Hidx & Hw' & Hs' & Hp' & Hother & Hwr & Hrd' & Hlk & Hf);
    try done.
  { by eapply extend_batch_ok. }
  { eapply pool_inv_perm; [|exact Hp]. cbn. rewrite !app_assoc. by rewrite (Permutation_app_comm run). }
  { apply Forall_lookup. intros k r Hk. destruct (Forall2_lookup_l _ _ _ _ _ Hall Hk) as (stop & _ & Hr).
    apply Hr. }
  pose proof (alloc_for_extend_shape cfg _ _ _ _ _ _ Hal) as Hshape. cbn [b_reqs extend_batch] in Hf, Hli, Hp', Hwr.
  assert (Hkept : walks_kept L (cache s) (cache s')) by (by eapply walks_kept_locked).
  destruct (serve_extend_reqs s s' batch stops batch' out idxs L) as (Hnew & Hown & Hheld); try done.
  { intros r n Hr Hn. eapply last_nodes; [|done]. set_solver. }
  assert (Hfull : Forall (λ r, is_Some (req_pool_idx r)) batch').
  { apply rows_of_full. rewrite <-Hidx, Hli. by eapply Forall2_length. }
  assert (Hrows : ∀ r, r ∈ run → row_at (req_to_token_pool s') r = row_at (req_to_token_pool s) r).
  { intros r Hr. unfold row_at. destruct (req_pool_idx r) as [j|] eqn:Hj; [|done]. cbn. rewrite Hother; [done|].
    rewrite Hidx. eapply (pool_rows_disjoint _ batch' (run ++ others) r Hp'); [set_solver|done]. }
  destruct (run_oks_kept cfg s s' run L Hrun Hrows) as [Hrun2 Hown2]; [|exact Hkept|].
  { intros r n Hr Hn. eapply last_nodes; [|done]. set_solver. }
  assert (Hcut : concat (zip_with app (ready_owned <$> batch) (cut (b_extend_lens (extend_batch batch stops)) out))
    ≡ₚ concat (ready_owned <$> batch) ++ out).
  { rewrite concat_zip_app.
    - by rewrite concat_cut by (apply Nat2Z.inj; exact Hout).
    - rewrite cut_length, length_fmap. symmetry. exact (bo_ext _ (extend_batch_ok _ _ _ Hall)). }
  exists out, batch', s'. subst idxs. split_and!; try done; [| |by apply shape_dims].
  2:{ rewrite !taken_eq, !fmap_app, !concat_app, Hown, Hown2, Hheld, Hcut, <-Hout.
      assert (run_held s' <$> run = run_held s <$> run) as ->.
      { apply list_fmap_ext. intros i r Hi. unfold run_held. rewrite Hrows; [done|]. by eapply list_elem_of_lookup_2. }
      rewrite !length_app, <-!app_assoc. lia. } apply Forall_app in Hready as [_ Hready]. split.
  - eapply cache_wf_perm; [|exact Hw']. unfold L. rewrite <-app_assoc, !omap_app.
    by rewrite (omap_via last_node (zip_with extended stops batch') batch) by (by apply extended_fields).
  - rewrite fmap_app, concat_app, Hown, Hown2, Hcut. rewrite <-Hs, Hs', fmap_app, concat_app. solve_perm.
  - unfold pool_inv in *. rewrite <-Hp', <-app_assoc. unfold rows_of. rewrite !omap_app.
    change (omap req_pool_idx (zip_with extended stops batch')) with (rows_of (zip_with extended stops batch')).
    rewrite extended_rows by (rewrite <-Hls; by eapply Forall2_length). unfold rows_of. solve_perm.
  - by eapply rows_ok_shape.
  - by apply Forall_app.
  - eapply ready_oks_kept; [done| |exact Hkept]. intros r' n Hr' Hn. eapply last_nodes; [|done]. set_solver.
Qed.
End ops.
