(* ===== verification/Room.v ===== *)
(** How many slots can be had: free ones and those of unlocked nodes.  The number is
    what the pool has, less what requests own, less the slots of the cached prefixes
    somebody holds a lock on.  So it falls by what a batch allocates and does not
    fall when requests are cached or leave. *)

From stdpp Require Import base gmap strings list.
From Stdlib Require Import ZArith Lia.
From S2P Require Import Prelude.
From S2P Require Import PyData.
From S2P Require Import RadixKey.
From S2P Require Import RadixTree.
From S2P Require Import RadixInv.
From S2P Require Import RadixContent.
From S2P Require Import RadixOps.
From S2P Require Import RadixEvict.
From S2P Require Import RadixSession.
From S2P Require Import ReqCache.
From S2P Require Import ReqCacheInv.
From S2P Require Import ReqAlloc.
From S2P Require Import ReqLife.
From S2P Require Import BatchAlloc.
From S2P Require Import ScheduleBatch.
From S2P Require Import ServeInv.
From S2P Require Import ServeOps.

Open Scope Z_scope.

(** ** The slots of locked nodes *)

Section locked.
Context {ps : nat} {eagle : bool} (t : Tree) (L : list nat).
Hypothesis Hw : tree_wf ps eagle t L.

Definition held_slots (x : nat * TreeNode) : list Z :=
  if negb (x.1 =? root_node t)%nat && negb (lock_ref x.2 =? 0) then node_slots x.2 else [].

(** All of them, node by node. *)
Definition locked_slots : list Z := concat (held_slots <$> map_to_list (nodes t)).

Lemma held_slots_length n nd : nodes t !! n = Some nd →
  Z.of_nat (length (held_slots (n, nd))) = held_len (root_node t) n nd.
Proof.
  intros Hn. unfold held_slots, held_len, len_if. cbn [fst snd].
  destruct (Nat.eqb_spec n (root_node t)) as [|Hne]; [done|]. cbn. destruct (lock_ref nd =? 0); [done|]. cbn.
  destruct (sw_node _ _ _ (tw_shape _ _ _ _ Hw) _ _ Hn Hne) as (_ & _ & _ & (v & Hv & Hl) & _).
  unfold node_slots. rewrite Hv. cbn. by rewrite Hl.
Qed.

Lemma locked_slots_length : Z.of_nat (length locked_slots) = protected_size_ t.
Proof.
  rewrite (aw_held _ (tw_acct _ _ _ _ Hw)). unfold locked_slots, map_sum.
  rewrite map_fold_foldr. cbn. set (l := map_to_list (nodes t)).
  assert (Hl : Forall (λ x, nodes t !! x.1 = Some x.2) l).
  { apply Forall_forall. intros [n nd] Hx. by apply elem_of_map_to_list. }
  clearbody l. induction Hl as [|[n nd] l Hn _ IH]; [done|]. csimpl.
  rewrite length_app, Nat2Z.inj_add, IH. f_equal. by apply held_slots_length.
Qed.

Lemma locked_slots_sub : locked_slots `sublist_of` tree_slots t.
Proof.
  unfold locked_slots, tree_slots. induction (map_to_list (nodes t)) as [|x l IH]; [done|]. csimpl.
  apply sublist_app; [|done]. unfold held_slots. case_match; [done|apply sublist_nil_l].
Qed.

(** The slots on the walk to a node are those of its path. *)
Lemma walk_slots e us w x l z :
  down t e (root_node t) us w x → path_up (root_node t) (par_of t) x l →
  z ∈ w ↔ ∃ c nd, c ∈ l ∧ nodes t !! c = Some nd ∧ z ∈ node_slots nd.
Proof.
  intros Hd Hp. revert us w Hd. induction Hp as [|x p l Hx Hpar Hp IH]; intros us w Hd.
  - destruct (sw_root _ _ _ (tw_shape _ _ _ _ Hw)) as (rn & Hr & _).
    destruct (down_root_unique _ _ _ _ _ _ _ _ _ (tw_shape _ _ _ _ Hw) ltac:(eauto) Hd (down_nil _ _ _)) as [-> ->].
    split; [by intros ?%elem_of_nil|]. intros (c & nd & Hc & _). by apply elem_of_nil in Hc.
  - apply down_last in Hd as [(<- & _ & _)|(q & xnd & v & us0 & vs0 & Hd & Hxn & Hq & _ & Hv & -> & ->)]; [done|].
    assert (q = p) as ->.
    { unfold par_of, pk in Hpar. rewrite Hxn in Hpar. cbn in Hpar. congruence. }
    rewrite elem_of_app, (IH _ _ Hd). split.
    + intros [(c & nd & Hc & Hn & Hz)|Hz]; [exists c, nd; split_and!; [by right|done..]|].
      exists x, xnd. split_and!; [by left|done|]. unfold node_slots. by rewrite Hv.
    + intros (c & nd & [->|Hc]%elem_of_cons & Hn & Hz); [right|left; eauto].
      rewrite Hxn in Hn. injection Hn as <-. unfold node_slots in Hz. by rewrite Hv in Hz.
Qed.

Definition walk_to (n : nat) (w : list Z) : Prop := ∃ e us, down t e (root_node t) us w n.

Lemma locked_slots_walks W z : Forall2 walk_to L W → z ∈ locked_slots ↔ z ∈ concat W.
Proof.
  intros HW. destruct (tw_lock _ _ _ _ Hw) as (P & HP & Hcnt). unfold locked_slots. rewrite !elem_of_concat. split.
  - intros (s & Hz & ([n nd] & -> & Hn%elem_of_map_to_list)%list_elem_of_fmap). unfold held_slots in Hz. cbn in Hz.
    destruct (Nat.eqb_spec n (root_node t)) as [|Hne]; [by apply elem_of_nil in Hz|]. cbn in Hz.
    destruct (Z.eqb_spec (lock_ref nd) 0) as [|Hlk]; [by apply elem_of_nil in Hz|]. cbn in Hz.
    rewrite (Hcnt n nd Hn Hne) in Hlk.
    assert (Hin : (0 < pcount n (concat P))%nat) by lia. apply pcount_pos, elem_of_concat in Hin as (l & Hnl & Hl).
    apply list_elem_of_lookup in Hl as [i Hi]. destruct (Forall2_lookup_r _ _ _ _ _ HP Hi) as (x & Hx & Hup).
    destruct (Forall2_lookup_l _ _ _ _ _ HW Hx) as (w & Hwi & e & us & Hd).
    exists w. split; [|by eapply list_elem_of_lookup_2]. rewrite (walk_slots e us w x l z Hd Hup). eauto.
  - intros (w & Hz & Hwl). apply list_elem_of_lookup in Hwl as [i Hi].
    destruct (Forall2_lookup_r _ _ _ _ _ HW Hi) as (x & Hx & e & us & Hd).
    destruct (Forall2_lookup_l _ _ _ _ _ HP Hx) as (l & Hl & Hup).
    apply (walk_slots e us w x l z Hd Hup) in Hz as (c & nd & Hc & Hn & Hz).
    exists (held_slots (c, nd)). split; [|apply list_elem_of_fmap; exists (c, nd); split; [done|by apply elem_of_map_to_list]].
    assert (c ≠ root_node t) as Hne by (intros ->; by eapply path_up_notin_root).
    unfold held_slots. cbn. destruct (Nat.eqb_spec c (root_node t)); [done|]. cbn.
    rewrite (Hcnt c nd Hn Hne).
    assert (0 < pcount c (concat P))%nat.
    { apply pcount_pos, elem_of_concat. exists l. split; [done|by eapply list_elem_of_lookup_2]. }
    by rewrite (proj2 (Z.eqb_neq _ _)) by lia.
Qed.

(** So the protected size counts the slots of the locked prefixes, each once. *)
Lemma protected_walks W :
  NoDup (tree_slots t) → Forall2 walk_to L W →
  protected_size_ t = Z.of_nat (size (list_to_set (concat W) : gset Z)).
Proof.
  intros Hnd HW. rewrite <-locked_slots_length.
  rewrite <-(size_list_to_set (C := gset Z) locked_slots) by (eapply sublist_NoDup; [exact Hnd|apply locked_slots_sub]).
  do 2 f_equal. apply set_eq. intros z. rewrite !elem_of_list_to_set. by apply locked_slots_walks.
Qed.

(** The nodes of a path, with as many slots as the walk has. *)
Lemma walk_nodes e us w x l :
  down t e (root_node t) us w x → path_up (root_node t) (par_of t) x l →
  ∃ lp : list (nat * TreeNode), lp.*1 = l ∧ Forall (λ p, nodes t !! p.1 = Some p.2) lp ∧
    length (concat ((λ p, node_slots p.2) <$> lp)) = length w.
Proof.
  intros Hd Hp. revert us w Hd. induction Hp as [|x p l Hx Hpar Hp IH]; intros us w Hd.
  - destruct (sw_root _ _ _ (tw_shape _ _ _ _ Hw)) as (rn & Hr & _).
    destruct (down_root_unique _ _ _ _ _ _ _ _ _ (tw_shape _ _ _ _ Hw) ltac:(eauto) Hd (down_nil _ _ _)) as [-> ->].
    by exists [].
  - apply down_last in Hd as [(<- & _ & _)|(q & xnd & v & us0 & vs0 & Hd & Hxn & Hq & _ & Hv & -> & ->)]; [done|].
    assert (q = p) as ->.
    { unfold par_of, pk in Hpar. rewrite Hxn in Hpar. cbn in Hpar. congruence. }
    destruct (IH _ _ Hd) as (lp & Hl & Hf & Hlen). exists ((x, xnd) :: lp). cbn. rewrite Hl. split_and!; [done|by constructor|].
    rewrite !length_app. unfold node_slots at 1. rewrite Hv. cbn. rewrite Hlen. lia.
Qed.

(** A locked prefix is protected. *)
Lemma walk_protected n w : n ∈ L → walk_to n w → Z.of_nat (length w) ≤ protected_size_ t.
Proof.
  intros Hn (e & us & Hd). destruct (tw_lock _ _ _ _ Hw) as (P & HP & Hcnt).
  apply list_elem_of_lookup in Hn as [i Hi]. destruct (Forall2_lookup_l _ _ _ _ _ HP Hi) as (l & Hl & Hup).
  destruct (walk_nodes e us w n l Hd Hup) as (lp & <- & Hf & <-). rewrite <-locked_slots_length.
  assert (Hheld : (λ p, node_slots p.2) <$> lp = held_slots <$> lp).
  { apply list_fmap_ext. intros j [c nd] Hc. pose proof (Forall_lookup_1 _ _ _ _ Hf Hc) as Hcn. cbn in Hcn.
    assert (Hin : c ∈ lp.*1) by (apply (list_elem_of_fmap_2 fst lp (c, nd)); by eapply list_elem_of_lookup_2).
    assert (c ≠ root_node t) as Hne by (intros ->; by eapply path_up_notin_root).
    unfold held_slots. cbn. destruct (Nat.eqb_spec c (root_node t)); [done|]. cbn. rewrite (Hcnt c nd Hcn Hne).
    assert (0 < pcount c (concat P))%nat.
    { apply pcount_pos, elem_of_concat. exists lp.*1. split; [done|by eapply list_elem_of_lookup_2]. }
    by rewrite (proj2 (Z.eqb_neq _ _)) by lia. }
  rewrite Hheld. assert (lp ⊆+ map_to_list (nodes t)) as [k Hk]%submseteq_Permutation.
  { apply NoDup_submseteq; [eapply NoDup_fmap_1, path_up_NoDup; exact Hup|].
    intros [c nd] Hc. apply elem_of_map_to_list. rewrite Forall_forall in Hf. by apply (Hf (c, nd)). }
  unfold locked_slots. rewrite Hk, fmap_app, concat_app, length_app. lia.
Qed.

Lemma tree_slots_length : Z.of_nat (length (tree_slots t)) = evictable_size_ t + protected_size_ t.
Proof.
  pose proof (tw_acct _ _ _ _ Hw) as Ha. rewrite (aw_free _ Ha), (aw_held _ Ha), <-map_sum_add.
  unfold tree_slots, map_sum. rewrite map_fold_foldr. cbn. set (l := map_to_list (nodes t)).
  assert (Hl : Forall (λ x, nodes t !! x.1 = Some x.2) l).
  { apply Forall_forall. intros [n nd] Hx. by apply elem_of_map_to_list. }
  clearbody l. induction Hl as [|[n nd] l Hn _ IH]; [done|]. csimpl.
  rewrite length_app, Nat2Z.inj_add, IH. f_equal. cbn in Hn |- *. unfold free_len, held_len, len_if, node_slots.
  destruct (Nat.eqb_spec n (root_node t)) as [->|Hne].
  - destruct (sw_root _ _ _ (tw_shape _ _ _ _ Hw)) as (rn & Hr & _ & Hv & _). simplify_eq. by rewrite Hv.
  - destruct (sw_node _ _ _ (tw_shape _ _ _ _ Hw) _ _ Hn Hne) as (_ & _ & _ & (v & -> & Hvl) & _). cbn.
    rewrite Hvl. destruct (lock_ref nd =? 0); cbn; lia.
Qed.
End locked.

(** ** What can be had *)

Section room.
Context {A : Type} `{KVPool A} `{!KVPoolTotal A} `{!KVPoolSlots A} `{KVAlloc A} `{!KVAllocLaws A} `{KVPaged A}.
Context `{Env} `{!EnvLaws} `{HeapQ} `{!HeapQLaws}.
Variable cfg : Config.
Implicit Types s : Sys A.

Definition room s : Z := kv_available_size (allocator (cache s)) + evictable_size_ (tree (cache s)).

Lemma omap_walks s (rs : list Req) (f : Req → list Z) :
  Forall (λ r, prefix_walk cfg (cache s) r (f r)) rs →
  Forall2 (walk_to (tree (cache s))) (omap last_node rs) ((λ r, take (cache_protected_len r) (f r)) <$> rs).
Proof.
  induction 1 as [|r rs (n & Hn & Hd) _ IH]; [constructor|]. cbn. rewrite Hn. constructor; [|done].
  by eexists _, _.
Qed.

(** What the pool has, less what requests take. *)
Lemma room_eq S0 s run ready :
  serve_core cfg S0 s run ready → NoDup S0 → kv_ready (allocator (cache s)) →
  room s = Z.of_nat (length S0) - taken s run ready.
Proof.
  intros [Hw Hs _ _ Hrun Hready] Hnd Hrd. rewrite taken_eq. unfold room. rewrite kv_available_slots by done.
  set (W := (run_held s <$> run) ++ (ready_held <$> ready)).
  assert (HW : Forall2 (walk_to (tree (cache s))) (omap last_node (run ++ ready)) W).
  { rewrite omap_app. apply Forall2_app; apply omap_walks.
    - eapply Forall_impl; [exact Hrun|]. intros r Hr. apply Hr.
    - eapply Forall_impl; [exact Hready|]. intros r [stop Hr]. apply Hr. }
  pose proof (tree_slots_length _ _ (cw_tree _ _ _ Hw)) as Hlen.
  rewrite (protected_walks _ _ (cw_tree _ _ _ Hw) W) in Hlen; [|clear Hlen|exact HW].
  - unfold W in Hlen. rewrite concat_app in Hlen. rewrite <-Hs. unfold all_slots. rewrite !length_app in *. lia.
  - rewrite <-Hs in Hnd. by do 2 (apply NoDup_app in Hnd as (Hnd & _)).
Qed.
End room.
