(* ===== verification/ServeReach.v ===== *)
(** The life of all requests on one cache, in any order: from an empty cache, after
    any sequence of admissions, batches, results, retractions and evictions every
    slot of the pool is in the tree, in the allocator or owned by one request. *)

From stdpp Require Import base gmap strings list relations.
From Stdlib Require Import ZArith Lia.
From S2P Require Import Prelude.
From S2P Require Import PyData.
From S2P Require Import RadixKey.
From S2P Require Import RadixTree.
From S2P Require Import RadixInv.
From S2P Require Import RadixContent.
From S2P Require Import RadixOps.
From S2P Require Import RadixInsert.
From S2P Require Import RadixEvict.
From S2P Require Import RadixSession.
From S2P Require Import ReqCache.
From S2P Require Import ReqCacheInv.
From S2P Require Import ReqAlloc.
From S2P Require Import ReqLife.
From S2P Require Import BatchAlloc.
From S2P Require Import Delayer.
From S2P Require Import PrefillAdder.
From S2P Require Import ScheduleBatch.
From S2P Require Import ServeInv.
From S2P Require Import ServeOps.
From S2P Require Import Room.

Open Scope Z_scope.

Section reach.
Context {A : Type} `{KVPool A} `{!KVPoolTotal A} `{!KVPoolSlots A} `{KVAlloc A} `{!KVAllocLaws A} `{KVPaged A}.
Context `{Env} `{!EnvLaws} `{HeapQ} `{!HeapQLaws}.
Variable cfg : Config.
Hypothesis Hdis : disable cfg = false.
Hypothesis Hps1 : page_size cfg = 1%nat.
(** [SGLANG_RETRACT_DECODE_STEPS] *)
Variable steps : Z.

(** The cache with the requests that hold slots: those with a row in use, and those
    admitted to the next prefill. *)
Record Serving := mkServing {
  srv : Sys A;
  running_reqs : list Req;
  ready_reqs : list Req;
}.

(** What the scheduler does to them.  A step that allocates has room: without, the
    code retracts first or does not admit. *)
Inductive serve_step : Serving → Serving → Prop :=
(** [init_next_round_input] and [add_one_req] *)
| ss_admit s run ready r r1 s1 n d st2 stop :
    waiting r → init_next_round_input cfg r s = Ok (r1, s1) → last_node r1 = Some n →
    inc_lock_ref cfg n (cache s1) = Ok (d, st2) →
    (length (prefix_indices r1) < stop ≤ length (all_ids r))%nat →
    serve_step (mkServing s run ready) (mkServing (mkSys st2 (req_to_token_pool s1)) run
      (set_extend_range (Z.of_nat (length (prefix_indices r1))) (Z.of_nat stop) r1 :: ready))
(** [prepare_for_extend] *)
| ss_extend s run ready batch others stops out rows batch' s' :
    ready ≡ₚ batch ++ others →
    Forall2 (λ r stop, extend_range r = Some (Z.of_nat (length (prefix_indices r)), Z.of_nat stop)) batch stops →
    (fresh_reqs batch ≤ pool_available_size (req_to_token_pool s))%nat →
    Forall (λ n, n ≤ max_context_len (req_to_token_pool s))%nat stops →
    b_extend_num_tokens (extend_batch batch stops) ≤ room s →
    alloc_for_extend cfg (extend_batch batch stops) s = Ok (out, rows, batch', s') →
    serve_step (mkServing s run ready) (mkServing s' (run ++ zip_with extended stops batch') others)
(** [prepare_for_decode] *)
| ss_decode s run ready batch rest out s' :
    run ≡ₚ batch ++ rest →
    Forall (λ r, (kv_committed_len r < max_context_len (req_to_token_pool s))%nat) batch →
    Z.of_nat (length batch) ≤ room s →
    alloc_for_decode cfg (rows_of batch) (kv_committed_len <$> batch) 1 s = Ok (out, s') →
    serve_step (mkServing s run ready) (mkServing s' ((decoded <$> batch) ++ rest) ready)
(** new output tokens *)
| ss_tokens s run ready r rest toks chunks :
    run ≡ₚ r :: rest →
    serve_step (mkServing s run ready) (mkServing s (with_output (output_ids r ++ toks) chunks r :: rest) ready)
(** [cache_unfinished_req] *)
| ss_recache s run ready r rest chunked ids r' s' :
    run ≡ₚ r :: rest → get_fill_ids r = Ok ids → ids `prefix_of` all_ids r →
    (length ids ≤ kv_committed_len r)%nat → (cache_protected_len r ≤ aligned_len cfg r ids)%nat →
    cache_unfinished_req cfg r chunked s = Ok (r', s') →
    serve_step (mkServing s run ready) (mkServing s' (r' :: rest) ready)
(** [add_chunked_req] *)
| ss_chunk s run ready r rest stop :
    run ≡ₚ r :: rest → fill_ok r →
    prefix_indices r = take (kv_committed_len r) (row_at (req_to_token_pool s) r) →
    (kv_committed_len r < stop ≤ length (all_ids r))%nat →
    serve_step (mkServing s run ready) (mkServing s rest
      (set_extend_range (Z.of_nat (length (prefix_indices r))) (Z.of_nat stop) (refreshed r) :: ready))
(** [release_kv_cache] *)
| ss_finish s run ready r rest is_insert r' s' :
    run ≡ₚ r :: rest → (kv_committed_len r ≤ length (all_ids r))%nat →
    release_kv_cache cfg false false r is_insert s = Ok (r', s') →
    serve_step (mkServing s run ready) (mkServing s' rest ready)
(** [release_req] *)
| ss_retract s run ready r rest remaining r' s' :
    run ≡ₚ r :: rest → (kv_committed_len r ≤ length (all_ids r))%nat →
    release_req cfg false false steps r remaining s = Ok (r', s') →
    serve_step (mkServing s run ready) (mkServing s' rest ready)
(** [evict_from_tree_cache], as in [check_decode_mem] *)
| ss_evict s run ready n st' :
    evict_from_tree_cache cfg n (cache s) = Ok st' →
    serve_step (mkServing s run ready) (mkServing (mkSys st' (req_to_token_pool s)) run ready).

Definition serving_inv (S0 : list Z) (x : Serving) : Prop :=
  serve_core cfg S0 (srv x) (running_reqs x) (ready_reqs x) ∧ kv_ready (allocator (cache (srv x))).

Lemma ready_stops (s : Sys A) batch stops :
  Forall2 (λ r stop, extend_range r = Some (Z.of_nat (length (prefix_indices r)), Z.of_nat stop)) batch stops →
  Forall (λ r, ∃ stop, ready_ok cfg (cache s) r stop) batch → Forall2 (ready_ok cfg (cache s)) batch stops.
Proof.
  induction 1 as [|r stop batch stops Hr _ IH]; [constructor|]. intros [[stop' Hok] Hall]%Forall_cons.
  constructor; [|by apply IH]. pose proof (rd_range _ _ _ _ Hok) as Hrg. rewrite Hr in Hrg.
  assert (stop' = stop) as -> by (simplify_eq; lia). done.
Qed.

Lemma serve_step_inv S0 x y : serve_step x y → serving_inv S0 x → serving_inv S0 y.
Proof.
  unfold serving_inv. intros Hs. destruct Hs; cbn [srv running_reqs ready_reqs]; intros [Hi Hrd].
  - destruct (serve_admit cfg Hdis S0 s run ready r stop Hi) as (r1' & s1' & n' & d' & st' & Hn & Hl & Hlk & _ & Ha & Hi');
      [done|]. same_run. simplify_eq. same_run. split; [by apply Hi'|]. cbn. by rewrite Ha.
  - match goal with Hp : _ ≡ₚ batch ++ others |- _ => rewrite Hp in Hi end.
    destruct (serve_extend cfg Hdis Hps1 S0 s run batch others stops Hi Hrd) as
      (out' & b' & s'' & Hal & _ & _ & Hi' & Hrd' & _); try done.
    { eapply ready_stops; [done|]. destruct Hi as [_ _ _ _ _ [Hb _]%Forall_app]. done. }
    by same_run.
  - match goal with Hp : _ ≡ₚ batch ++ rest |- _ => rewrite Hp in Hi end.
    destruct (serve_decode cfg Hdis Hps1 S0 s batch rest ready Hi Hrd) as (out' & s'' & Hal & _ & Hi' & Hrd' & _); try done.
    by same_run.
  - match goal with Hp : _ ≡ₚ r :: rest |- _ => rewrite Hp in Hi end. split; [|done]. by apply serve_append.
  - match goal with Hp : _ ≡ₚ r :: rest |- _ => rewrite Hp in Hi end.
    destruct (serve_recache cfg Hdis S0 s r rest ready chunked ids Hi) as (s'' & y & kv' & Hc & _ & Hi' & Hf & _); try done.
    same_run. split; [done|]. by eapply frees_ready.
  - match goal with Hp : _ ≡ₚ r :: rest |- _ => rewrite Hp in Hi end. split; [|done]. by apply (serve_rechunk cfg S0 s rest ready r stop).
  - match goal with Hp : _ ≡ₚ r :: rest |- _ => rewrite Hp in Hi end.
    destruct (serve_release cfg Hdis Hps1 S0 s r rest ready is_insert Hi) as (s'' & Hr & Hi' & Hf & _); [done|].
    same_run. split; [done|]. by eapply frees_ready.
  - match goal with Hp : _ ≡ₚ r :: rest |- _ => rewrite Hp in Hi end.
    destruct (serve_retract cfg Hdis Hps1 S0 s r rest ready steps remaining Hi Hrd) as (s'' & Hr & Hi' & Hrd' & _); [done|].
    by same_run.
  - destruct (serve_evict cfg Hdis S0 s run ready n Hi Hrd) as (st'' & He & Hi' & Hrd' & _). by same_run.
Qed.

(** An empty tree over an allocator that holds the pool. *)
Lemma serving_init S0 s :
  cache_wf cfg (cache s) [] → all_slots (cache s) ≡ₚ S0 → kv_ready (allocator (cache s)) →
  pool_inv (req_to_token_pool s) [] → rows_ok (req_to_token_pool s) → serving_inv S0 (mkServing s [] []).
Proof. intros Hw Hs Hr Hp Ht. split; [|done]. split; try done. cbn. by rewrite app_nil_r. Qed.

Lemma serving_reach S0 x y : serving_inv S0 x → rtc serve_step x y → serving_inv S0 y.
Proof. intros Hx Hr. revert Hx. induction Hr as [|x z y Hs _ IH]; [done|]. intros Hx. eauto using serve_step_inv. Qed.
End reach.
