(* ===== verification/ExtendInv.v ===== *)
(** A prefill batch: [prepare_for_extend] on admitted requests that fit allocates
    slots for exactly their new tokens, fills the columns, and the requests run
    with their whole range committed. *)

From stdpp Require Import base gmap strings list relations.
From Stdlib Require Import ZArith QArith Lia.
From S2P Require Import Prelude.
From S2P Require Import PyData.
From S2P Require Import RadixKey.
From S2P Require Import RadixTree.
From S2P Require Import RadixInv.
From S2P Require Import RadixContent.
From S2P Require Import RadixOps.
From S2P Require Import RadixInsert.
From S2P Require Import RadixEvict.
From S2P Require Import RadixSession.
From S2P Require Import ReqCache.
From S2P Require Import ReqCacheInv.
From S2P Require Import ReqAlloc.
From S2P Require Import ReqLife.
From S2P Require Import BatchAlloc.
From S2P Require Import Delayer.
From S2P Require Import PrefillAdder.
From S2P Require Import ScheduleBatch.
From S2P Require Import BatchInv.
From S2P Require Import ServeInv.
From S2P Require Import ServeOps.

Open Scope Z_scope.

Lemma mapM_res_ok {A B} (f : A → result B) (g : A → B) l :
  Forall (λ x, f x = Ok (g x)) l → mapM_res f l = Ok (g <$> l).
Proof. induction 1 as [|x l Hx _ IH]; [done|]. cbn [mapM_res]. rewrite Hx. py_run. rewrite IH. done. Qed.

(** ** Input logprobs *)

(** The padded token ids of a chunk are as many as its logprobs. *)
Lemma input_logprob_token_ids_length r stop :
  let p := Z.of_nat (length (prefix_indices r)) in
  p ≤ stop → -1 ≤ logprob_start_len r → stop ≤ Z.of_nat (length (full_untruncated_fill_ids r)) →
  let start := compute_extend_logprob_start_len (logprob_start_len r) p (stop - p)
    (Z.of_nat (length (full_untruncated_fill_ids r))) in
  0 ≤ start ≤ stop - p ∧
  Z.of_nat (length (input_logprob_token_ids r stop (stop - p) start)) = stop - p - start.
Proof.
  intros p Hp Hl Hf start. unfold input_logprob_token_ids. fold p.
  assert (Hs : 0 ≤ start ≤ stop - p).
  { unfold start, compute_extend_logprob_start_len. destruct (Z.eqb_spec (logprob_start_len r) (-1)); lia. }
  split; [done|]. set (g := if p <? _ then _ else p).
  set (l := slice_from _ _ _).
  assert (Hlen : Z.of_nat (length l) ≤ stop - p - start).
  { unfold l, slice_from, slice. rewrite length_take, length_drop.
    assert (Z.to_nat (stop + 1) - Z.to_nat (g + 1) ≤ Z.to_nat (stop - p - start) ∨
      length (origin_input_ids r) - Z.to_nat (g + 1) ≤ 0)%nat; [|lia].
    unfold g, start, compute_extend_logprob_start_len.
    destruct (Z.eqb_spec (logprob_start_len r) (-1)) as [He|He].
    - right. destruct (Z.ltb_spec p (Z.of_nat (length (origin_input_ids r)))); lia.
    - left. destruct (Z.ltb_spec p (logprob_start_len r)); lia. }
  rewrite length_app, length_replicate. lia.
Qed.

Section extend.
Context {A : Type} `{KVPool A} `{!KVPoolTotal A} `{!KVPoolSlots A} `{KVAlloc A} `{!KVAllocLaws A} `{KVPaged A}.
Context `{Env} `{!EnvLaws} `{HeapQ} `{!HeapQLaws}.
Variable cfg : Config.
Hypothesis Hdis : disable cfg = false.
Hypothesis Hps1 : page_size cfg = 1%nat.
Variable vocab_size : Z.
Implicit Types s : Sys A.

(** ** The pieces of [prepare_for_extend] *)

Lemma ready_input_ids (st : RadixCache A) r stop :
  ready_ok cfg st (bkv r) stop →
  new_input_ids r = Ok (drop (length (prefix_indices (bkv r))) (take stop (all_ids (bkv r)))) ∧
  of_option AttributeError (extend_range (bkv r))
    = Ok (Z.of_nat (length (prefix_indices (bkv r))), Z.of_nat stop).
Proof.
  intros [Hrg _ Hf _ _ _ _]. unfold new_input_ids, get_fill_ids, range_end. rewrite Hrg, Hf.
  cbn [fmap option_fmap option_map snd]. py_run. by rewrite py_take_nat.
Qed.

(** The stops of the ranges. *)
Definition stop_of (r : Req) : nat := match extend_range r with Some (_, b) => Z.to_nat b | None => 0%nat end.

Lemma ready_stop (st : RadixCache A) r stop : ready_ok cfg st r stop → stop_of r = stop.
Proof. intros [Hrg _ _ _ _ _ _]. unfold stop_of. rewrite Hrg. apply Nat2Z.id. Qed.

(** Admitted requests, each with the stop of its range. *)
Definition admitted (st : RadixCache A) (rs : list BReq) : Prop :=
  Forall (λ r, ready_ok cfg st (bkv r) (stop_of (bkv r))) rs.
Definition stops_of (rs : list BReq) : list nat := stop_of <$> (bkv <$> rs).

Lemma admitted_stops st rs :
  admitted st rs → Forall2 (ready_ok cfg st) (bkv <$> rs) (stops_of rs).
Proof. unfold stops_of. induction 1; constructor; done. Qed.

(** Its lengths are those of [extend_batch]. *)
Lemma extend_batch_lens st rs :
  admitted st rs →
  let ids := (λ r, drop (length (prefix_indices (bkv r))) (take (stop_of (bkv r)) (all_ids (bkv r)))) <$> rs in
  let ranges := (λ r, (Z.of_nat (length (prefix_indices (bkv r))), Z.of_nat (stop_of (bkv r)))) <$> rs in
  mkBatch (bkv <$> rs) ((λ r, length (prefix_indices (bkv r))) <$> rs)
    (Z.to_nat <$> ((λ x, x.2 - x.1) <$> ranges)) ((λ x, Z.to_nat x.2) <$> ranges) (Z.of_nat (length (concat ids)))
  = extend_batch (bkv <$> rs) (stops_of rs).
Proof.
  intros Hall ids ranges. unfold extend_batch, stops_of, ids, ranges. rewrite <-!list_fmap_compose.
  assert (Hel : Z.to_nat ∘ (λ x, x.2 - x.1) ∘ (λ r, (Z.of_nat (length (prefix_indices (bkv r))),
      Z.of_nat (stop_of (bkv r)))) <$> rs =
    zip_with Nat.sub (stop_of ∘ bkv <$> rs) ((λ r, length (prefix_indices r)) ∘ bkv <$> rs)).
  { clear. induction rs as [|r rs IH]; [done|]. csimpl. f_equal; [lia|exact IH]. }
  f_equal.
  - exact Hel.
  - apply list_fmap_ext. intros i r _. cbn. lia.
  - f_equal. rewrite <-Hel. clear Hel. induction Hall as [|r rs [_ [Hle Hst] _ _ _ _ _] _ IH]; [done|]. csimpl.
    rewrite length_app, IH, length_drop, length_take. cbn. lia.
Qed.

(** The loop over the requests. *)
Definition extend_req (r : BReq) (stop pre : nat) : BReq :=
  count_cached (Z.of_nat pre) (Z.of_nat stop) (with_bkv (extended stop (bkv r)) (bump_extend r)).

Lemma extend_all_ok rs sl pl :
  length sl = length rs → length pl = length rs →
  (∀ k r n p, rs !! k = Some r → sl !! k = Some n → pl !! k = Some p →
    ∃ a b, extend_range (bkv r) = Some (a, b) ∧ Z.of_nat n - Z.of_nat p = b - a) →
  ∃ rs', extend_all sl pl rs = Ok rs' ∧ bkv <$> rs' = zip_with extended sl (bkv <$> rs) ∧
    Forall2 (λ r r', ∃ n p, r' = extend_req r n p) rs rs'.
Proof.
  revert sl pl. induction rs as [|r rs IH]; intros [|n sl] [|p pl] Hl1 Hl2 Hr; try done.
  { exists []. split_and!; [done..|constructor]. }
  destruct (Hr 0%nat r n p eq_refl eq_refl eq_refl) as (a & b & Hrg & Hd).
  cbn [extend_all]. unfold extend_one. rewrite Hrg. py_run. rewrite (proj2 (Z.eqb_eq _ _) Hd). py_run.
  destruct (IH sl pl) as (rs' & -> & Hk & Hf); [by injection Hl1|by injection Hl2|intros k; apply (Hr (S k))|].
  py_run. eexists; split; [done|]. split; [|constructor; [by eexists _, _|done]].
  csimpl. rewrite Hk. f_equal. unfold count_cached. by case_match.
Qed.

(** What a batch never changes in a request. *)
Record same_request (r r' : BReq) : Prop := {
  sq_rid : rid (sreq r') = rid (sreq r);
  sq_running : is_finished (sreq r') = is_finished (sreq r);
  sq_logprob : return_logprob (bkv r') = return_logprob (bkv r);
  sq_tops : top_logprobs_num r' = top_logprobs_num r;
  sq_toks : token_ids_logprob r' = token_ids_logprob r;
  sq_grammar : has_grammar r' = has_grammar r;
  sq_max_new : max_new_tokens (sreq r') = max_new_tokens (sreq r);
}.

(** The columns of the new batch. *)
Lemma columns_extended rs rs' rows sl orig e b ov spec out :
  Forall2 same_request rs rs' → length rows = length rs' → length sl = length rs' → length orig = length rs' →
  (∀ i r, rs' !! i = Some r → req_pool_idx (bkv r) = rows !! i ∧ sl !! i = Some (kv_committed_len (bkv r))) →
  let b0 := init_new rs ov spec in
  b = mkSB rs' (Some EXTEND) ov (mkCols rows rows sl (Some sl) orig) e
    (if batch_return_logprob (logp b0)
     then mkLogp true (Some (top_logprobs_num <$> rs)) (Some (token_ids_logprob <$> rs)) else logp b0)
    (flags b0) None (mix_running_indices b0) (Some out) (batch_is_full b0) →
  columns_ok b.
Proof.
  intros Hf L1 L2 L3 Hat b0 ->. pose proof (Forall2_length _ _ _ Hf) as Hl.
  assert (Hany : existsb (λ r, return_logprob (bkv r)) rs = existsb (λ r, return_logprob (bkv r)) rs').
  { symmetry. apply (existsb_Forall2 (λ r, return_logprob (bkv r))). eapply Forall2_impl; [exact Hf|]. by intros ? ? []. }
  split; cbn [reqs cols req_pool_indices req_pool_indices_cpu seq_lens seq_lens_cpu orig_seq_lens input_ids logp flags];
    try done.
  - intros i r Hi _. by apply Hat.
  - unfold b0, init_new. cbn [logp batch_return_logprob]. rewrite Hany.
    destruct (existsb _ rs') eqn:He; [|by split].
    split; [done|]. intros _. eexists _, _. split_and!; [done|done|by rewrite length_fmap|by rewrite length_fmap|].
    intros i r' Hr' _. destruct (Forall2_lookup_r _ _ _ _ _ Hf Hr') as (r & Hr & [_ _ _ -> -> _ _]).
    by rewrite !list_lookup_fmap, Hr.
  - unfold b0, init_new. cbn [flags batch_has_grammar]. symmetry. apply existsb_Forall2.
    eapply Forall2_impl; [exact Hf|]. by intros ? ? [].
Qed.

(** The logprob part: one id per wanted logprob. *)
Lemma logprob_ids_ok (st : RadixCache A) rs b starts :
  admitted st rs → reqs b = rs → length starts = length rs →
  logprob_ids vocab_size b starts = Ok (if batch_return_logprob (logp b) then
    Some (clamp 0 (vocab_size - 1) <$> concat (zip_with (λ r start,
      let p := Z.of_nat (length (prefix_indices (bkv r))) in
      let stop := Z.of_nat (stop_of (bkv r)) in
      input_logprob_token_ids (bkv r) stop (stop - p) start) rs starts)) else None).
Proof.
  intros Hall Hb Hl. unfold logprob_ids. rewrite Hb. destruct (batch_return_logprob (logp b)); [|done].
  set (g := λ '(r, start), input_logprob_token_ids (bkv r) (Z.of_nat (stop_of (bkv r)))
    (Z.of_nat (stop_of (bkv r)) - Z.of_nat (length (prefix_indices (bkv r)))) start).
  rewrite (mapM_res_ok _ g).
  - py_run. do 4 f_equal. revert starts Hl. clear. induction rs as [|r rs IH]; intros [|x starts] Hl; try done.
    cbn. f_equal. apply IH. by injection Hl.
  - apply Forall_lookup. intros k [r x] Hk. rewrite lookup_zip_with in Hk.
    destruct (rs !! k) as [r0|] eqn:Hr; [|done]. cbn in Hk. destruct (starts !! k); [|done]. cbn in Hk. simplify_eq.
    destruct (ready_input_ids st r _ (Forall_lookup_1 _ _ _ _ Hall Hr)) as [_ ->]. done.
Qed.

(** The requests with their new rows. *)
Lemma put_kvs_kv ks rs : length ks = length rs → bkv <$> put_kvs ks rs = ks.
Proof.
  revert rs. induction ks as [|k ks IH]; intros [|r rs] Hl; try done. unfold put_kvs in *. csimpl.
  rewrite IH by (by injection Hl). done.
Qed.

Lemma put_kvs_same ks rs rs' :
  Forall2 (λ r k, k = with_pool_idx (req_pool_idx k) r ∧ (req_pool_idx r = None ∨ k = r)) (bkv <$> rs) ks →
  Forall2 (λ r r', ∃ n p, r' = extend_req r n p) (put_kvs ks rs) rs' → Forall2 same_request rs rs'.
Proof.
  revert ks rs'. induction rs as [|r rs IH]; intros ks rs' Hk Hf.
  { apply Forall2_nil_inv_l in Hk as ->. apply Forall2_nil_inv_l in Hf as ->. constructor. }
  apply Forall2_cons_inv_l in Hk as (k & ks' & [Hk _] & Hks & ->).
  apply Forall2_cons_inv_l in Hf as (r' & rs'' & (n & p & ->) & Hrs & ->).
  constructor; [|by eapply IH]. rewrite Hk. unfold extend_req, count_cached. by split; case_match.
Qed.

(** The starts of the logprobs. *)
Definition logprob_starts (rs : list BReq) : list Z :=
  (λ r, let p := Z.of_nat (length (prefix_indices (bkv r))) in
    compute_extend_logprob_start_len (logprob_start_len (bkv r)) p (Z.of_nat (stop_of (bkv r)) - p)
      (Z.of_nat (length (full_untruncated_fill_ids (bkv r))))) <$> rs.

(** The token ids whose logprobs are computed. *)
Definition logprob_tokens (rs : list BReq) : list Z :=
  clamp 0 (vocab_size - 1) <$> concat (zip_with (λ r start,
    let p := Z.of_nat (length (prefix_indices (bkv r))) in
    let stop := Z.of_nat (stop_of (bkv r)) in
    input_logprob_token_ids (bkv r) stop (stop - p) start) rs (logprob_starts rs)).

Lemma logprob_tokens_length (st : RadixCache A) rs :
  admitted st rs → Forall (λ r, -1 ≤ logprob_start_len (bkv r)) rs →
  Z.of_nat (length (logprob_tokens rs)) = sumZ (zip_with (λ r start,
    Z.of_nat (stop_of (bkv r)) - Z.of_nat (length (prefix_indices (bkv r))) - start) rs (logprob_starts rs)) ∧
  Forall2 (λ r start, 0 ≤ start ≤ Z.of_nat (stop_of (bkv r)) - Z.of_nat (length (prefix_indices (bkv r))))
    rs (logprob_starts rs).
Proof.
  clear Hps1. intros Hall Hl. unfold logprob_tokens. rewrite length_fmap. unfold logprob_starts.
  induction Hall as [|r rs [_ [Hle Hst] Hf _ _ _ _] _ IH]; [by split|]. apply Forall_cons in Hl as [Hr Hl].
  destruct (IH Hl) as [IH1 IH2]. destruct (input_logprob_token_ids_length (bkv r) (Z.of_nat (stop_of (bkv r)))) as [H1' H2'];
    [lia|done|rewrite Hf; lia|].
  csimpl. split; [|by constructor]. rewrite length_app, Nat2Z.inj_add, H2', IH1. done.
Qed.

Lemma logprob_starts_eq rs :
  zip_with (λ r '(p, e), compute_extend_logprob_start_len (logprob_start_len (bkv r)) (Z.of_nat p) e
      (Z.of_nat (length (full_untruncated_fill_ids (bkv r))))) rs
    (zip ((λ r, length (prefix_indices (bkv r))) <$> rs)
      ((λ x, x.2 - x.1) <$> ((λ r, (Z.of_nat (length (prefix_indices (bkv r))), Z.of_nat (stop_of (bkv r)))) <$> rs)))
  = logprob_starts rs.
Proof. induction rs as [|r rs IH]; [done|]. unfold logprob_starts in *. csimpl. by rewrite IH. Qed.

Lemma prepare_for_extend_ok S0 s run rs others ov spec :
  serve_core cfg S0 s run ((bkv <$> rs) ++ others) → kv_ready (allocator (cache s)) → admitted (cache s) rs →
  (fresh_reqs (bkv <$> rs) ≤ pool_available_size (req_to_token_pool s))%nat →
  Forall (λ n, n ≤ max_context_len (req_to_token_pool s))%nat (stops_of rs) →
  b_extend_num_tokens (extend_batch (bkv <$> rs) (stops_of rs))
    ≤ kv_available_size (allocator (cache s)) + evictable_size_ (tree (cache s)) →
  ∃ b out ks s', prepare_for_extend cfg vocab_size (init_new rs ov spec) s = Ok (b, s') ∧
    columns_ok b ∧ Forall2 same_request rs (reqs b) ∧ Forall (λ r, is_retracted r = false) (reqs b) ∧
    bkv <$> reqs b = zip_with extended (stops_of rs) ks ∧
    Forall2 (λ r k, k = with_pool_idx (req_pool_idx k) r ∧ (req_pool_idx r = None ∨ k = r)) (bkv <$> rs) ks ∧
    out_cache_loc b = Some out ∧ Z.of_nat (length out) = extend_num_tokens (ext b) ∧
    extend_num_tokens (ext b) = Z.of_nat (length (prefill_input_ids (ext b))) ∧
    prefill_input_ids (ext b) = concat ((λ r, drop (length (prefix_indices (bkv r)))
      (take (stop_of (bkv r)) (all_ids (bkv r)))) <$> rs) ∧
    extend_logprob_start_lens (ext b) = logprob_starts rs ∧
    (existsb (λ r, return_logprob (bkv r)) rs = true →
      extend_input_logprob_token_ids (ext b) = Some (logprob_tokens rs)) ∧
    serve_core cfg S0 s' (run ++ (bkv <$> reqs b)) others ∧ kv_ready (allocator (cache s')) ∧
    taken s' (run ++ (bkv <$> reqs b)) others =
      taken s run ((bkv <$> rs) ++ others) + b_extend_num_tokens (extend_batch (bkv <$> rs) (stops_of rs)) ∧
    pool_dims s' = pool_dims s.
Proof.
  intros Hi Hrd Hall Hfree Hctx Htok. pose proof (admitted_stops _ _ Hall) as Hready.
  destruct (serve_extend cfg Hdis Hps1 S0 s run (bkv <$> rs) others (stops_of rs) Hi Hrd Hready Hfree Hctx Htok)
    as (out & ks & s' & Hal & Hks & Hsome & Hi' & Hrd' & Hout & Htk & Hm).
  pose proof (Forall2_length _ _ _ Hks) as Hlk. rewrite length_fmap in Hlk.
  assert (Hls : length (stops_of rs) = length rs) by (unfold stops_of; by rewrite !length_fmap).
  unfold prepare_for_extend. cbn [reqs init_new].
  rewrite (mapM_res_ok new_input_ids (λ r, drop (length (prefix_indices (bkv r))) (take (stop_of (bkv r)) (all_ids (bkv r))))).
  2:{ eapply Forall_impl; [exact Hall|]. intros r Hr. by apply (ready_input_ids (cache s)). }
  py_run. rewrite (mapM_res_ok _ (λ r, (Z.of_nat (length (prefix_indices (bkv r))), Z.of_nat (stop_of (bkv r))))).
  2:{ eapply Forall_impl; [exact Hall|]. intros r Hr. by apply (ready_input_ids (cache s)). }
  py_run. rewrite (extend_batch_lens (cache s) rs Hall), Hal. py_run.
  set (ranges := (λ r, (Z.of_nat (length (prefix_indices (bkv r))), Z.of_nat (stop_of (bkv r)))) <$> rs).
  assert (Hsl : (λ x, Z.to_nat x.2) <$> ranges = stops_of rs).
  { unfold ranges, stops_of. rewrite <-!list_fmap_compose. apply list_fmap_ext. intros i r _. cbn. lia. }
  rewrite Hsl. set (pl := (λ r, length (prefix_indices (bkv r))) <$> rs).
  destruct (extend_all_ok (put_kvs ks rs) (stops_of rs) pl) as (rs' & -> & Hkv & Hrs).
  { unfold put_kvs. rewrite length_zip_with. lia. }
  { unfold put_kvs, pl. rewrite length_zip_with, length_fmap. lia. }
  { intros k r n p Hr Hn Hp. unfold put_kvs, pl, stops_of in *. rewrite !list_lookup_fmap in *.
    rewrite lookup_zip_with in Hr. destruct (ks !! k) as [kv|] eqn:Hkk; [|done]. cbn in Hr.
    destruct (rs !! k) as [r0|] eqn:Hr0; [|done]. cbn in Hr, Hn, Hp. simplify_eq.
    destruct (Forall2_lookup_r _ _ _ _ _ Hks Hkk) as (r1 & Hr1 & He & _). rewrite list_lookup_fmap, Hr0 in Hr1.
    cbn in Hr1. simplify_eq. exists (Z.of_nat (length (prefix_indices (bkv r0)))), (Z.of_nat (stop_of (bkv r0))).
    split; [|done]. cbn. rewrite He. cbn. apply (Forall_lookup_1 _ _ _ _ Hall Hr0). }
  rewrite (put_kvs_kv ks rs) in Hkv by lia. pose proof (put_kvs_same _ _ _ Hks Hrs) as Hsame.
  py_run. rewrite logprob_starts_eq. rewrite (logprob_ids_ok (cache s) rs); [|done..|apply length_fmap]. py_run.
  pose proof (Forall2_length _ _ _ Hsame) as Hlr.
  eexists _, out, ks, s'. split; [done|]. split; [|cbn [reqs out_cache_loc ext extend_num_tokens prefill_input_ids
    extend_logprob_start_lens]; split_and!; try done].
  - eapply columns_extended; [exact Hsame|..|done].
    + rewrite rows_of_length by done. lia.
    + lia.
    + rewrite length_zip_with. lia.
    + intros i r' Hr'. assert (Hz : (bkv <$> rs') !! i = Some (bkv r')) by (by rewrite list_lookup_fmap, Hr').
      rewrite Hkv, lookup_zip_with in Hz. rewrite rows_of_lookup by done.
      destruct (stops_of rs !! i) as [n|]; [|done]. cbn in Hz. destruct (ks !! i) as [k|]; [|done]. cbn in Hz.
      injection Hz as <-. done.
  - clear -Hrs. induction Hrs as [|r r' l l' (n & p & ->) _ IH]; constructor; [|done].
    unfold extend_req, count_cached. by case_match.
  - rewrite Hout. by rewrite <-(extend_batch_lens (cache s) rs Hall).
  - cbn [logp init_new batch_return_logprob extend_input_logprob_token_ids]. by intros ->.
  - by rewrite Hkv.
  - by rewrite Hkv.
Qed.
End extend.
