(* ===== verification/MemCheck.v ===== *)
(** The self checks of the scheduler: [SchedulerInvariantChecker] of
    managers/scheduler_components/invariant_checker.py for servers with one KV pool
    (no sliding window, no mamba states, no context parallelism of the decode, no
    sessions), and the part of
    managers/scheduler_components/pool_stats_observer.py it reads.  A check that
    finds something raises, as with the strict settings. *)

From stdpp Require Import base gmap strings list.
From Stdlib Require Import ZArith Lia.
From S2P Require Import Prelude.
From S2P Require Import PyData.
From S2P Require Import RadixKey.
From S2P Require Import Allocator.
From S2P Require Import AllocatorInv.
From S2P Require Import RadixTree.
From S2P Require Import RadixInv.
From S2P Require Import RadixContent.
From S2P Require Import RadixOps.
From S2P Require Import RadixEvict.
From S2P Require Import RadixSession.
From S2P Require Import ReqCache.
From S2P Require Import ReqCacheInv.
From S2P Require Import ReqAlloc.
From S2P Require Import ReqLife.
From S2P Require Import BatchAlloc.
From S2P Require Import PrefillAdder.
From S2P Require Import ScheduleBatch.
From S2P Require Import ServeInv.
From S2P Require Import Room.
From S2P Require Import ExtendInv.

Open Scope Z_scope.

(** ** The checks *)

(** The free lists of an allocator: [free_pages] and [release_pages]. *)
Class KVFreeList (A : Type) := kv_free_list : A → list Z.
Global Instance allocator_free_list : KVFreeList Allocator := λ a, free_pages a ++ release_pages a.

(** Whether there is a leak. *)
Definition check_pool_invariant (available evictable protected session_held total uncached : Z) : bool :=
  negb (available + evictable + protected + session_held + uncached =? total).

(** The slots of a request that are not in the tree. *)
Definition uncached_size (ps : nat) (r : BReq) : result Z :=
  let k := bkv r in
  let! _ := py_assert (eqb (kv_committed_freed k) (kv_overallocated_freed k)) in
  if kv_committed_freed k || negb (bool_decide (is_Some (req_pool_idx k))) then Ok 0
  else if (1 <? ps)%nat then
    let! _ := py_assert (cache_protected_len k mod ps =? 0)%nat in
    Ok (Z.of_nat (ceil_align (kv_allocated_len k) ps) - Z.of_nat (cache_protected_len k))
  else Ok (Z.of_nat (kv_allocated_len k) - Z.of_nat (cache_protected_len k)).

(** [_get_total_uncached_sizes] over the requests of both batches. *)
Fixpoint get_total_uncached_sizes (ps : nat) (rs : list BReq) : result Z :=
  match rs with
  | [] => Ok 0
  | r :: rs =>
      let! n := uncached_size ps r in
      let! m := get_total_uncached_sizes ps rs in
      Ok (n + m)
  end.

Section checks.
Context {A : Type} `{KVPool A} `{KVAlloc A} `{KVFreeList A}.
Variable cfg : Config.
Variable max_total_num_tokens : Z.
Notation ps := (page_size cfg).

(** [_check_full_pool] on the numbers of [get_pool_stats]. *)
Definition check_full_pool (uncached : Z) (s : Sys A) : bool :=
  check_pool_invariant (kv_available_size (allocator (cache s))) (evictable_size_ (tree (cache s)))
    (protected_size_ (tree (cache s))) 0 max_total_num_tokens uncached.

Definition is_owner (r : BReq) : bool :=
  bool_decide (is_Some (req_pool_idx (bkv r))) && (0 <? kv_allocated_len (bkv r))%nat.

(** The pages of the row of an owner. *)
Definition owner_pages (r : BReq) (s : Sys A) : result (list Z) :=
  let! i := of_option TypeError (req_pool_idx (bkv r)) in
  let! row := of_option IndexError (req_to_token (req_to_token_pool s) !! i) in
  Ok ((λ z, z / Z.of_nat ps) <$> take (kv_allocated_len (bkv r)) row).

(** No page is free twice, and none that is free belongs to a request. *)
Definition check_kv_page_invariants (last : list BReq) (s : Sys A) : result unit :=
  let! _ := py_assert (forallb (λ r, (kv_committed_len (bkv r) <=? kv_allocated_len (bkv r))%nat &&
    (kv_allocated_len (bkv r) <=? max_context_len (req_to_token_pool s))%nat) last) in
  let active := filter (λ r, is_owner r = true) last in
  if (length active =? 0)%nat then Ok tt
  else
    let! pages := mapM_res (λ r, owner_pages r s) active in
    let free := kv_free_list (allocator (cache s)) in
    if negb (length (torch_unique free) =? length free)%nat then Raise ValueError
    else if (length (filter (λ p, p ∈ torch_unique free) (concat pages)) =? 0)%nat then Ok tt
    else Raise ValueError.

(** [self_check_during_busy] with [SGLANG_CHECK_KV_PAGE_INVARIANTS]: [last] are the requests
    of the last batch, if there is one, and [running] those of the running batch if it is
    another one. *)
Definition self_check_during_busy (last : option (list BReq)) (running : list BReq) (s : Sys A) : result unit :=
  match last with
  | None => Ok tt
  | Some last =>
      let! uncached := get_total_uncached_sizes ps (last ++ running) in
      let! _ := py_assert (negb (check_full_pool uncached s)) in
      check_kv_page_invariants last s
  end.

Definition check_req_pool (s : Sys A) : result unit :=
  let p := req_to_token_pool s in
  if (length (rp_free_slots p) =? rp_size p)%nat then Ok tt else Raise ValueError.

(** The checks of [on_idle]. *)
Definition check_on_idle (s : Sys A) : result unit :=
  if check_full_pool 0 s then Raise ValueError else check_req_pool s.
End checks.

(** ** They find nothing *)

(** The free lists hold what the allocator holds when no free group is open. *)
Class KVFreeListLaws (A : Type) `{KVPool A} `{!KVPoolSlots A} `{KVAlloc A} `{!KVAllocLaws A} `{KVFreeList A} :=
  kv_free_list_slots a : kv_ready a → kv_free_list a ≡ₚ kv_slots a.

Global Instance token_free_list_laws : KVFreeListLaws Allocator.
Proof. intros a [Hg _]. cbn. unfold pending, kv_free_list, allocator_free_list. rewrite Hg. by rewrite app_nil_r. Qed.

(** A request with KV: it has a row, and nothing was freed. *)
Definition live (r : BReq) : Prop := is_Some (req_pool_idx (bkv r)) ∧ kv_committed_freed (bkv r) = false.
Global Instance live_dec r : Decision (live r) :=
  decide (is_Some (req_pool_idx (bkv r)) ∧ kv_committed_freed (bkv r) = false).

Section silent.
Context {A : Type} `{KVPool A} `{!KVPoolTotal A} `{!KVPoolSlots A} `{KVAlloc A} `{!KVAllocLaws A} `{KVPaged A}.
Context `{KVFreeList A} `{!KVFreeListLaws A} `{Env} `{!EnvLaws} `{HeapQ} `{!HeapQLaws}.
Variable cfg : Config.
Hypothesis Hps1 : page_size cfg = 1%nat.
Implicit Types s : Sys A.

Lemma run_owned_length s r : run_ok cfg s r →
  Z.of_nat (length (run_owned s r)) = Z.of_nat (kv_allocated_len r) - Z.of_nat (cache_protected_len r).
Proof.
  intros [_ Hl Ha _ Hp _ _].
  assert (cache_protected_len r ≤ kv_committed_len r)%nat.
  { etrans; [exact Hp|]. etrans; [apply aligned_len_le|]. rewrite length_take. lia. }
  unfold run_owned, slice. rewrite length_take, length_drop, Ha. lia.
Qed.

(** What the batches count is what the requests own. *)
Lemma total_uncached s (rs : list BReq) :
  Forall (λ r, kv_committed_freed (bkv r) = kv_overallocated_freed (bkv r)) rs →
  Forall (run_ok cfg s) (bkv <$> filter live rs) →
  get_total_uncached_sizes (page_size cfg) rs
    = Ok (Z.of_nat (length (concat (run_owned s <$> (bkv <$> filter live rs))))).
Proof.
  rewrite Hps1. induction 1 as [|r rs Hf _ IH]; intros Hall; [done|]. cbn [get_total_uncached_sizes].
  unfold uncached_size. rewrite Hf, eqb_reflx. py_run. rewrite <-Hf. rewrite filter_cons in Hall |- *.
  destruct (decide (live r)) as [[Hi Hk]|Hn].
  - csimpl in Hall. apply Forall_cons in Hall as [Hr Hall]. rewrite Hk, bool_decide_eq_true_2 by done. py_run.
    rewrite (IH Hall). py_run. csimpl. rewrite length_app, Nat2Z.inj_add, (run_owned_length s) by done. done.
  - rewrite (IH Hall). assert (kv_committed_freed (bkv r) || negb (bool_decide (is_Some (req_pool_idx (bkv r)))) = true) as ->.
    { unfold live in Hn. destruct (kv_committed_freed (bkv r)); [done|]. cbn. apply negb_true_iff, bool_decide_eq_false.
      intros ?. by apply Hn. }
    py_run. done.
Qed.

Lemma full_pool_silent S0 s run total :
  serve_core cfg S0 s run [] → kv_ready (allocator (cache s)) → total = Z.of_nat (length S0) →
  check_full_pool total (Z.of_nat (length (concat (run_owned s <$> run)))) s = false.
Proof.
  intros [Hw Hs _ _ _ _] Hrd ->. unfold check_full_pool, check_pool_invariant.
  apply negb_false_iff, Z.eqb_eq. rewrite kv_available_slots by done.
  pose proof (tree_slots_length _ _ (cw_tree _ _ _ Hw)) as Hl. rewrite <-Hs. unfold all_slots.
  cbn [fmap list_fmap concat]. rewrite !length_app. cbn. lia.
Qed.

(** The slots of a row in use are in the tree or the request's own, so none is free. *)
Lemma row_not_free S0 s run r z :
  serve_core cfg S0 s run [] → NoDup S0 → r ∈ run →
  z ∈ take (kv_committed_len r) (row_at (req_to_token_pool s) r) → z ∉ kv_slots (allocator (cache s)).
Proof.
  intros [Hw Hs _ _ Hrun _] Hnd Hr Hz Hfree. rewrite <-Hs in Hnd. unfold all_slots in Hnd.
  rewrite Forall_forall in Hrun. destruct (Hrun r Hr) as [_ Hl _ _ _ (n & Hn & Hd) _].
  rewrite <-(take_drop (cache_protected_len r) (take _ _)) in Hz. apply elem_of_app in Hz as [Hz|Hz].
  - assert (Hin : z ∈ tree_slots (tree (cache s))).
    { assert (z ∈ take (cache_protected_len r) (row_at (req_to_token_pool s) r)) as Hz'.
      { rewrite take_take in Hz. apply elem_of_take in Hz as (i & Hi & ?). apply elem_of_take. exists i. split; [done|lia]. }
      destruct (sw_root _ _ _ (tw_shape _ _ _ _ (cw_tree _ _ _ Hw))) as (rn & Hrn & _).
      destruct (down_node _ _ _ _ _ _ Hd ltac:(eauto)) as [nd Hnd'].
      destruct (sw_path _ _ _ (tw_shape _ _ _ _ (cw_tree _ _ _ Hw)) n ltac:(eauto)) as [l Hup].
      apply (walk_slots (tree (cache s)) _ (cw_tree _ _ _ Hw) _ _ _ _ _ _ Hd Hup) in Hz' as (c & cnd & _ & Hc & Hzc).
      unfold tree_slots. apply elem_of_concat. exists (node_slots cnd). split; [done|].
      apply list_elem_of_fmap. exists (c, cnd). split; [done|]. by apply elem_of_map_to_list. }
    apply NoDup_app in Hnd as (Hnd & _ & _). apply NoDup_app in Hnd as (_ & Hd2 & _). by eapply Hd2.
  - apply NoDup_app in Hnd as (_ & Hd2 & _). apply (Hd2 z); [apply elem_of_app; by right|].
    apply elem_of_app. left. apply elem_of_concat. exists (run_owned s r). split; [|apply list_elem_of_fmap; eauto].
    unfold run_owned. by rewrite slice_take.
Qed.

(** A request of a batch: released whole or not at all, and not too long. *)
Record tidy (ctx : nat) (r : BReq) : Prop := {
  td_freed : kv_committed_freed (bkv r) = kv_overallocated_freed (bkv r);
  td_row : is_Some (req_pool_idx (bkv r)) → kv_committed_freed (bkv r) = false;
  td_lens : kv_committed_len (bkv r) = kv_allocated_len (bkv r);
  td_fits : (kv_allocated_len (bkv r) ≤ ctx)%nat;
}.

Lemma page_invariants_silent S0 s run last :
  serve_core cfg S0 s run [] → NoDup S0 → kv_ready (allocator (cache s)) →
  (∀ r, r ∈ last → live r → bkv r ∈ run) → Forall (tidy (max_context_len (req_to_token_pool s))) last →
  check_kv_page_invariants cfg last s = Ok tt.
Proof.
  intros Hi Hnd Hrd Hin Htidy. unfold check_kv_page_invariants.
  assert (forallb (λ r, (kv_committed_len (bkv r) <=? kv_allocated_len (bkv r))%nat &&
    (kv_allocated_len (bkv r) <=? max_context_len (req_to_token_pool s))%nat) last = true) as ->.
  { apply forallb_forall. intros r Hr%list_elem_of_In. rewrite Forall_forall in Htidy.
    destruct (Htidy r Hr) as [_ _ -> Hf]. rewrite Nat.leb_refl. by apply Nat.leb_le. }
  py_run. set (active := filter _ last). destruct (length active =? 0)%nat; [done|].
  assert (Hfree : NoDup (kv_free_list (allocator (cache s)))).
  { rewrite kv_free_list_slots by done. destruct Hi as [_ Hs _ _ _ _]. rewrite <-Hs in Hnd. unfold all_slots in Hnd.
    apply NoDup_app in Hnd as (Hnd & _ & _). by apply NoDup_app in Hnd as (_ & _ & ?). }
  rewrite (mapM_res_ok _ (λ r, (λ z, z / 1) <$> take (kv_allocated_len (bkv r)) (row_at (req_to_token_pool s) (bkv r)))).
  2:{ apply Forall_forall. intros r [Ho Hr]%list_elem_of_filter. apply andb_true_iff in Ho as [[i Hix]%bool_decide_eq_true _].
      rewrite Forall_forall in Htidy. destruct (Htidy r Hr) as [_ Hfr _ _].
      assert (bkv r ∈ run) as Hrun by (apply Hin; [done|split; [eauto|apply Hfr; eauto]]).
      unfold owner_pages. rewrite Hix, Hps1. py_run. pose proof Hi as [_ _ Hp Ht _ _]. rewrite app_nil_r in Hp.
      by destruct (row_at_there _ _ (bkv r) i Hp Ht Hrun Hix) as [-> _]. }
  py_run. rewrite torch_unique_NoDup, Nat.eqb_refl by done. cbn [negb].
  rewrite (proj2 (Nat.eqb_eq _ _)); [done|]. apply length_zero_iff_nil.
  apply elem_of_nil_inv. intros p [Hpf (l & Hp & Hl)%elem_of_concat]%list_elem_of_filter. revert Hpf.
  rewrite elem_of_torch_unique. change (p ∉ kv_free_list (allocator (cache s))).
  apply list_elem_of_fmap in Hl as (r & -> & [Ho Hr]%list_elem_of_filter).
  apply andb_true_iff in Ho as [Hix%bool_decide_eq_true _]. apply list_elem_of_fmap in Hp as (z & -> & Hz).
  rewrite Forall_forall in Htidy. destruct (Htidy r Hr) as [_ Hfr Hlen _]. rewrite Z.div_1_r, kv_free_list_slots by done.
  eapply (row_not_free S0 s run (bkv r)); [done|done|by apply Hin; [|split; [|apply Hfr]]|by rewrite Hlen].
Qed.

(** The busy check, for batches that hold the requests with KV between them. *)
Lemma busy_silent S0 s run total last running :
  serve_core cfg S0 s run [] → NoDup S0 → kv_ready (allocator (cache s)) → total = Z.of_nat (length S0) →
  bkv <$> filter live (last ++ running) ≡ₚ run →
  Forall (tidy (max_context_len (req_to_token_pool s))) (last ++ running) →
  self_check_during_busy cfg total (Some last) running s = Ok tt.
Proof.
  intros Hi Hnd Hrd Ht Hrun Htidy. cbn [self_check_during_busy]. rewrite <-Hrun in Hi. rewrite (total_uncached s).
  - py_run. rewrite (full_pool_silent S0) by done. py_run.
    eapply page_invariants_silent; [done..| |by apply Forall_app in Htidy as [? _]].
    intros r Hr Hlv. apply list_elem_of_fmap. exists r. split; [done|]. apply list_elem_of_filter. set_solver.
  - eapply Forall_impl; [exact Htidy|]. by intros r [].
  - apply Hi.
Qed.

(** The checks of an idle server. *)
Lemma idle_silent S0 s total :
  serve_core cfg S0 s [] [] → kv_ready (allocator (cache s)) → total = Z.of_nat (length S0) →
  check_on_idle total s = Ok tt.
Proof.
  intros Hi Hrd Ht. unfold check_on_idle. pose proof (full_pool_silent S0 s [] total Hi Hrd Ht : check_full_pool total 0 s = false) as Hf.
  rewrite Hf. unfold check_req_pool. destruct Hi as [_ _ Hp _ _ _]. unfold pool_inv, rows_of in Hp. cbn in Hp.
  rewrite app_nil_r in Hp. apply Permutation_length in Hp. rewrite length_seq in Hp. by rewrite Hp, Nat.eqb_refl.
Qed.
End silent.
