(* ===== verification/RatioInv.v ===== *)
(** The tracker of the share of new tokens to reserve
    (managers/scheduler_components/new_token_ratio_tracker.py), in exact
    arithmetic: it stays between 0 and 1. *)

From stdpp Require Import base list.
From Stdlib Require Import ZArith QArith Qminmax Lia Lqa.
From S2P Require Import Prelude.
From S2P Require Import PrefillAdder.
From S2P Require Import ScheduleBatch.

Local Open Scope Q_scope.

(** A tracker as [from_server_args] makes it, with any current value in range. *)
Record tracker_ok (t : NewTokenRatioTracker) : Prop := {
  tk_min : 0 <= tr_min t;
  tk_le : tr_min t <= tr_init t;
  tk_init : tr_init t <= 1;
  tk_decay : 0 <= tr_decay t;
  tk_current : 0 <= tr_current t <= 1;
}.

Section ratio.
Variables (init_ratio conservativeness min_factor : Q) (decay_steps : positive).
Hypothesis Hinit : 0 <= init_ratio * conservativeness.
Hypothesis Hmin : 0 <= min_factor <= 1.
Let t0 := from_server_args init_ratio conservativeness min_factor decay_steps.

Lemma init_range : 0 <= tr_init t0 <= 1.
Proof.
  unfold t0. cbn. split; [|apply Q.le_min_r]. apply Q.min_glb; [done|lra].
Qed.

Lemma min_range : 0 <= tr_min t0 <= tr_init t0.
Proof.
  pose proof init_range as [H0 H1]. unfold t0 in *. cbn in *. set (i := Qmin (init_ratio * conservativeness) 1) in *.
  split.
  - apply Q.min_glb; [|lra]. apply Qmult_le_0_compat; [done|apply Hmin].
  - eapply Qle_trans; [apply Q.le_min_l|]. nra.
Qed.

Lemma decay_total : tr_decay t0 * inject_Z (Zpos decay_steps) == tr_init t0 - tr_min t0.
Proof. unfold t0. cbn. apply Qdiv_mult_l. done. Qed.

Lemma from_server_args_ok : tracker_ok t0.
Proof.
  pose proof init_range as [? ?]. pose proof min_range as [? ?]. split; try done.
  pose proof decay_total as Hd. assert (0 < inject_Z (Zpos decay_steps)) by done. nra.
Qed.
End ratio.

(** ** Steps *)

Lemma Qmax_range a b lo hi : lo <= b -> b <= hi -> a <= hi -> lo <= Qmax a b <= hi.
Proof.
  intros. split; [|by apply Q.max_lub]. eapply Qle_trans; [|apply Q.le_max_r]. done.
Qed.

Lemma decay_step_ok t : tracker_ok t -> tracker_ok (decay_step t).
Proof.
  intros [H1 H2 H3 H4 H5]. split; try done. cbn. apply Qmax_range; lra.
Qed.

Lemma reset_ratio_ok t : tracker_ok t -> tracker_ok (reset_ratio t).
Proof. intros [H1 H2 H3 H4 H5]. split; try done. cbn. lra. Qed.

Lemma estimate_range steps rs :
  (0 <= steps)%Z -> Forall (fun r => (0 <= output_len (sreq r) /\ 0 <= max_new_tokens (sreq r))%Z) rs ->
  0 <= estimate_new_token_ratio_after_retract steps rs <= 1.
Proof.
  intros Hs Hr. unfold estimate_new_token_ratio_after_retract. split; [|apply Q.le_min_l].
  assert (Hsum : (0 <= sumZ ((fun r => output_len (sreq r)) <$> rs) /\
    0 <= sumZ ((fun r => max_new_tokens (sreq r)) <$> rs))%Z).
  { induction Hr as [|r rs [? ?] _ IH]; [done|]. csimpl. lia. }
  destruct Hsum as [Hd Hm]. apply Q.min_glb; [done|]. apply Qle_shift_div_l.
  - unfold Qlt, inject_Z. cbn. lia.
  - unfold Qle, inject_Z. cbn. nia.
Qed.

Lemma set_current_ok q t : 0 <= q <= 1 -> tracker_ok t -> tracker_ok (set_current q t).
Proof. intros Hq [H1 H2 H3 H4 H5]. by split. Qed.
