(* ===== verification/DecodeInv.v ===== *)
(** Decode steps of a running batch: testing for memory, retracting requests when
    there is too little, and one more slot for everybody who stays.
    [update_running_batch] never raises, loses no request and no slot, and retracts
    the requests with the least output first. *)

From stdpp Require Import base gmap strings list relations sorting.
From Stdlib Require Import ZArith QArith Lia.
From S2P Require Import Prelude.
From S2P Require Import PyData.
From S2P Require Import RadixKey.
From S2P Require Import RadixTree.
From S2P Require Import RadixInv.
From S2P Require Import RadixContent.
From S2P Require Import RadixOps.
From S2P Require Import RadixInsert.
From S2P Require Import RadixEvict.
From S2P Require Import RadixSession.
From S2P Require Import ReqCache.
From S2P Require Import ReqCacheInv.
From S2P Require Import ReqAlloc.
From S2P Require Import ReqLife.
From S2P Require Import BatchAlloc.
From S2P Require Import Delayer.
From S2P Require Import PrefillAdder.
From S2P Require Import ScheduleBatch.
From S2P Require Import BatchInv.
From S2P Require Import ServeInv.

Open Scope Z_scope.

(** ** Positions *)

Lemma at_indices_insert {A} (l : list A) idx i x :
  i ∉ idx → at_indices (<[i := x]> l) idx = at_indices l idx.
Proof.
  unfold at_indices. induction idx as [|j idx IH]; [done|]. intros [Hj Hi]%not_elem_of_cons. cbn.
  rewrite list_lookup_insert_ne by done. by rewrite (IH Hi).
Qed.

Lemma at_indices_app {A} (l : list A) xs ys : at_indices l (xs ++ ys) = at_indices l xs ++ at_indices l ys.
Proof. apply omap_app. Qed.

Lemma at_indices_cons {A} (l : list A) i idx x : l !! i = Some x → at_indices l (i :: idx) = x :: at_indices l idx.
Proof. intros Hx. cbn. by rewrite Hx. Qed.

Lemma at_indices_nil {A} (l : list A) idx : in_range (length l) idx → at_indices l idx = [] → idx = [].
Proof. intros Hr Hn. apply nil_length_inv. by rewrite <-(at_indices_length l idx Hr), Hn. Qed.

Lemma at_indices_split {A} (l : list A) idx pre x post :
  in_range (length l) idx → at_indices l idx = pre ++ x :: post →
  ∃ pre' i post', idx = pre' ++ i :: post' ∧ at_indices l pre' = pre ∧ l !! i = Some x ∧ at_indices l post' = post.
Proof.
  intros Hr. revert pre. induction Hr as [|i idx Hi Hr IH]; intros pre Hs; [by destruct pre|].
  destruct (lookup_lt_is_Some_2 l i Hi) as [y Hy]. rewrite (at_indices_cons _ _ _ y Hy) in Hs.
  destruct pre as [|z pre]; injection Hs as -> Hs; [by exists [], i, idx|].
  destruct (IH pre Hs) as (pre' & j & post' & -> & <- & Hj & <-). exists (i :: pre'), j, post'.
  by rewrite (at_indices_cons _ _ _ z Hy).
Qed.

Section decode.
Context {A : Type} `{KVPool A} `{!KVPoolTotal A} `{!KVPoolSlots A} `{KVAlloc A} `{!KVAllocLaws A} `{KVPaged A}.
Context `{Env} `{!EnvLaws} `{HeapQ} `{!HeapQLaws}.
Variable cfg : Config.
Hypothesis Hdis : disable cfg = false.
Hypothesis Hps1 : page_size cfg = 1%nat.
Variables (args : SpecArgs) (steps : Z).
Hypothesis Hspec : speculative_algorithm args = None.
(** Requests that hold KV but take no part, as one between two chunks. *)
Variable rest : list Req.
Implicit Types s : Sys A.

(** What [release_req] leaves of a request. *)
Definition retracted_req (r : BReq) : BReq :=
  retract_fields (stain (with_kv (reset_for_retract (released (bkv r))) (sreq r))) r.
Definition aborted_req (r : BReq) : BReq := retracted_req (set_abort oom_message r).

(** The requests [rs] run on the cache, next to the others. *)
Record runs S0 s (rs : list BReq) (ready : list Req) : Prop := {
  rn_core : serve_core cfg S0 s ((bkv <$> rs) ++ rest) ready;
  rn_ready : kv_ready (allocator (cache s));
  rn_lens : Forall (λ r, kv_committed_len (bkv r) ≤ length (all_ids (bkv r)))%nat rs;
}.

Global Instance runs_perm S0 s : Proper ((≡ₚ) ==> (=) ==> iff) (runs S0 s).
Proof.
  assert (∀ rs rs' ready, rs ≡ₚ rs' → runs S0 s rs ready → runs S0 s rs' ready) as Himp.
  { intros rs rs' ready Hq [Hc Hr Hl]. split; [by rewrite <-Hq|done|by rewrite <-Hq]. }
  intros rs rs' Hq ready ? <-. split; by apply Himp.
Qed.

(** The slots that are free or can be evicted. *)
Definition free_tokens s : Z := kv_available_size (allocator (cache s)) + evictable_size_ (tree (cache s)).

(** The requests [rs] do not fit: the state in which they are left has fewer free and
    evictable slots than the next decode step needs, one for each of them. *)
Definition short_of_slots S0 (ready : list Req) (rs : list BReq) : Prop :=
  ∃ s1, runs S0 s1 rs ready ∧ free_tokens s1 < Z.of_nat (length rs).

(** ** Memory *)

Lemma decode_tokens rs : new_tokens_required_next_decode cfg args rs = Ok (Z.of_nat (length rs)).
Proof.
  unfold new_tokens_required_next_decode, spec_on. rewrite Hspec, Hps1, Nat.mul_1_r. do 2 f_equal.
  induction rs as [|r rs IH]; [done|]. rewrite filter_cons, decide_True by (by rewrite Nat.mod_1_r).
  cbn. by f_equal.
Qed.

Lemma check_decode_mem_ok S0 s idx rs run ready :
  in_range (length rs) idx → runs S0 s run ready →
  ∃ s', check_decode_mem cfg args idx rs s
      = Ok (Z.of_nat (length idx) <=? kv_available_size (allocator (cache s')), s') ∧
    runs S0 s' run ready ∧ req_to_token_pool s' = req_to_token_pool s ∧
    free_tokens s' = free_tokens s ∧
    (kv_available_size (allocator (cache s')) < Z.of_nat (length idx) ↔ free_tokens s' < Z.of_nat (length idx)).
Proof.
  intros Hr [Hc Hrd Hl]. unfold check_decode_mem. rewrite pick_ok by done. py_run. rewrite decode_tokens. py_run.
  rewrite at_indices_length by done.
  destruct (serve_evict cfg Hdis S0 s ((bkv <$> run) ++ rest) ready (Z.of_nat (length idx)) Hc Hrd)
    as (st' & -> & Hc' & Hrd' & Hsum & Hen).
  py_run. exists (mkSys st' (req_to_token_pool s)). split_and!; [done|by split|done|exact Hsum|].
  unfold free_tokens. cbn [cache]. destruct Hc' as [Hw _ _ _ _ _]. pose proof (evictable_nonneg cfg _ _ Hw). cbn [cache] in *. lia.
Qed.

(** ** Retraction *)

Lemma batch_release_req_ok S0 s r rs ready remaining :
  runs S0 s (r :: rs) ready →
  ∃ s', batch_release_req cfg false args steps r remaining s = Ok (retracted_req r, s') ∧
    runs S0 s' rs ready ∧
    pool_dims s' = pool_dims s.
Proof.
  intros [Hc Hrd [Hl Hls]%Forall_cons]. unfold batch_release_req, radix_release_req, spec_on. rewrite Hspec.
  change (kv (sreq r)) with (bkv r). cbv iota.
  destruct (serve_retract cfg Hdis Hps1 S0 s (bkv r) _ ready steps remaining Hc Hrd Hl)
    as (s' & -> & Hc' & Hrd' & Hm). py_run. eexists; split; [done|]. by split_and!.
Qed.

(** The loop pops positions off the stack; the requests there are released. *)
Record popped (rs rs' : list BReq) (f : BReq → BReq) (gone : list nat) : Prop := {
  pd_length : length rs' = length rs;
  pd_gone i : i ∈ gone → rs' !! i = f <$> rs !! i;
  pd_stay i : i ∉ gone → rs' !! i = rs !! i;
}.

Lemma popped_insert rs rs' f i r gone :
  rs !! i = Some r → popped (<[i := f r]> rs) rs' f gone → i ∉ gone → popped rs rs' f (i :: gone).
Proof.
  intros Hi [Hl Hg Hs] Hni. pose proof (lookup_lt_Some _ _ _ Hi) as Hlt. split.
  - by rewrite Hl, length_insert.
  - intros j Hj. destruct (decide (j = i)) as [->|Hne].
    + rewrite Hs, Hi by done. by rewrite list_lookup_insert_eq.
    + rewrite Hg by set_solver. by rewrite list_lookup_insert_ne.
  - intros j [Hj Hj']%not_elem_of_cons. rewrite Hs by done. by rewrite list_lookup_insert_ne.
Qed.

Lemma at_indices_popped rs rs' f gone idx :
  popped rs rs' f gone → (∀ i, i ∈ idx → i ∉ gone) → at_indices rs' idx = at_indices rs idx.
Proof.
  intros [_ _ Hs]. unfold at_indices. induction idx as [|i idx IH]; [done|]. intros Hd. cbn.
  rewrite Hs by set_solver. rewrite IH by set_solver. done.
Qed.

Lemma at_indices_gone rs rs' f gone idx :
  popped rs rs' f gone → idx ⊆ gone → at_indices rs' idx = f <$> at_indices rs idx.
Proof.
  intros [_ Hg _]. unfold at_indices. induction idx as [|i idx IH]; [done|]. intros Hd. cbn.
  rewrite Hg by set_solver. rewrite IH by set_solver. by destruct (rs !! i).
Qed.

(** The test of the loop, after the first round. *)
Definition enough (s : Sys A) (stack : list nat) : Prop :=
  Z.of_nat (length stack) ≤ kv_available_size (allocator (cache s)).

Lemma retract_loop_ok S0 first stack rs gone s ready :
  stack ≠ [] → NoDup stack → in_range (length rs) stack → runs S0 s (at_indices rs stack) ready →
  ∃ stack' rs' out s', retract_loop cfg false args steps first stack rs gone s = Ok (stack', rs', gone ++ out, s') ∧
    stack = out ++ stack' ∧ stack' ≠ [] ∧ popped rs rs' retracted_req out ∧
    runs S0 s' (at_indices rs' stack') ready ∧ (length stack' = 1%nat ∨ enough s' stack') ∧
    pool_dims s' = pool_dims s ∧
    (∀ pre i post, out = pre ++ i :: post → (first = true → pre ≠ []) →
      short_of_slots S0 ready (at_indices rs (i :: post ++ stack'))) ∧
    (out = [] → free_tokens s' = free_tokens s ∧ (first = true → length stack = 1%nat)).
Proof.
  revert first rs gone s. induction stack as [|i stack IH]; intros first rs gone s Hne Hnd Hr Hrun; [done|].
  assert (∃ (go : bool) s1, (if first then Ok (true, s)
      else let! (enough, s) := check_decode_mem cfg args (rev (i :: stack)) rs s in Ok (negb enough, s))
      = Ok (go, s1) ∧ runs S0 s1 (at_indices rs (i :: stack)) ready ∧
      (go = false → enough s1 (i :: stack) ∧ first = false) ∧
      (first = false → go = true → free_tokens s1 < Z.of_nat (length (i :: stack))) ∧ free_tokens s1 = free_tokens s ∧
      pool_dims s1 = pool_dims s) as
    (go & s1 & Htest & Hrun1 & Hen & Hsh & Hfree & Hm1).
  { destruct first; [by exists true, s|].
    destruct (check_decode_mem_ok S0 s (rev (i :: stack)) rs (at_indices rs (i :: stack)) ready)
      as (s1 & -> & Hrun1 & Hp1 & Hfree & Hiff); [by apply Forall_rev|done|].
    rewrite length_rev in Hiff |- *. py_run. eexists _, s1. split; [done|].
    split_and!; [done|by intros Hgo%negb_false_iff%Z.leb_le| |done|by apply dims_same].
    intros _ Hgo%negb_true_iff%Z.leb_gt. by apply Hiff. }
  cbn [retract_loop]. rewrite Htest. py_run. destruct go; cbn [negb].
  2:{ exists (i :: stack), rs, [], s1. rewrite app_nil_r. destruct (Hen eq_refl) as [Hen1 ->].
      split_and!; try done; [split; [done|set_solver|done]|by right|by intros [] ? ?]. }
  destruct stack as [|j stack].
  { exists [i], rs, [], s1. rewrite app_nil_r. split_and!; try done; [split; [done|set_solver|done]|by left|by intros [] ? ?]. }
  assert (Hhead : first = false → short_of_slots S0 ready (at_indices rs (i :: j :: stack))).
  { intros Hf. exists s1. split; [done|]. rewrite at_indices_length by done. by apply Hsh. }
  apply Forall_cons in Hr as [Hi Hr]. apply NoDup_cons in Hnd as [Hni Hnd].
  destruct (lookup_lt_is_Some_2 rs i Hi) as [r Hri]. rewrite Hri. py_run.
  rewrite (at_indices_cons _ _ _ r Hri) in Hrun1.
  destruct (batch_release_req_ok S0 s1 r _ ready (Z.of_nat (length (j :: stack))) Hrun1) as (s2 & -> & Hrun2 & Hm2).
  py_run. destruct (IH false (<[i := retracted_req r]> rs) (gone ++ [i]) s2)
    as (stack' & rs' & out & s' & -> & Hst & Hne' & Hpop & Hrun' & Hen' & Hm' & Hsh' & _); [done|done| | |].
  { by rewrite length_insert. }
  { by rewrite at_indices_insert. }
  exists stack', rs', (i :: out), s'. rewrite <-app_assoc. cbn [app]. rewrite Hst in Hni, Hhead |- *.
  split_and!; try done; [apply popped_insert with r; [done|done|set_solver]|congruence|].
  intros [|k pre] x post Hout Hpre; injection Hout as ? ->; subst.
  - apply Hhead. destruct first; [by destruct Hpre|done].
  - specialize (Hsh' pre x post eq_refl ltac:(done)). rewrite at_indices_insert in Hsh'; [done|]. set_solver.
Qed.

Lemma abort_last_ok S0 stack rs s ready :
  stack ≠ [] → in_range (length rs) stack → runs S0 s (at_indices rs stack) ready →
  length stack = 1%nat ∨ enough s stack →
  ∃ stack' rs' out s', abort_last cfg false args steps stack rs s = Ok (stack', rs', out, s') ∧
    stack = out ++ stack' ∧ popped rs rs' aborted_req out ∧ runs S0 s' (at_indices rs' stack') ready ∧
    enough s' stack' ∧ (out = [] ∨ length out = 1%nat ∧ stack' = []) ∧
    pool_dims s' = pool_dims s ∧
    (out ≠ [] → short_of_slots S0 ready (at_indices rs out)) ∧
    (out = [] → length stack = 1%nat → 1 ≤ free_tokens s).
Proof.
  intros Hne Hr Hrun Hen. unfold abort_last. destruct (Nat.leb_spec (length stack) 1) as [Hle|Hgt].
  2:{ exists stack, rs, [], s. split_and!; try done; [|destruct Hen; [lia|done]|by left|lia].
      split; [done|set_solver|done]. }
  destruct stack as [|i [|]]; [done| |cbn in Hle; lia].
  destruct (check_decode_mem_ok S0 s (rev [i]) rs (at_indices rs [i]) ready)
      as (s1 & -> & Hrun1 & Hp1 & Hfree & Hiff); [by apply Forall_rev|done|]. py_run.
  destruct (Z.leb_spec (Z.of_nat (length (rev [i]))) (kv_available_size (allocator (cache s1)))) as [Hok|Hno].
  - exists [i], rs, [], s1. split_and!; try done; [split; [done|set_solver|done]|by left|by apply dims_same|].
    intros _ _. rewrite <-Hfree. change (length (rev [i])) with 1%nat in *. lia.
  - assert (Hshort : short_of_slots S0 ready (at_indices rs [i])).
    { exists s1. split; [done|]. rewrite at_indices_length by done. by apply Hiff. }
    apply Forall_cons in Hr as [Hi _]. destruct (lookup_lt_is_Some_2 rs i Hi) as [r Hri]. rewrite Hri. py_run.
    rewrite (at_indices_cons _ _ _ r Hri) in Hrun1.
    destruct (batch_release_req_ok S0 s1 (set_abort oom_message r) [] ready 0) as (s2 & -> & Hrun2 & Hm2).
    { destruct Hrun1 as [Hc Hrd Hl]. split; [exact Hc|done|]. apply Forall_cons in Hl as [Hl _]. by repeat constructor. }
    py_run. exists [], (<[i := aborted_req r]> rs), [i], s2. split_and!; try done; [| |by right|by rewrite Hm2, (dims_same _ _ Hp1)].
    + apply popped_insert with r; [done| |set_solver]. split; [done|set_solver|done].
    + unfold enough. cbn. apply kv_available_nonneg.
Qed.

(** *** The order *)

(** [x] is retracted no later than [y]: it has less output, or as much output and
    no shorter an input. *)
Definition retracts_first (x y : BReq) : Prop :=
  output_len (sreq x) < output_len (sreq y) ∨
  output_len (sreq x) = output_len (sreq y) ∧
    (length (origin_input_ids (bkv y)) ≤ length (origin_input_ids (bkv x)))%nat.

Lemma retract_order_perm rs : retract_order args rs ≡ₚ seq 0 (length rs).
Proof. unfold retract_order, spec_on. rewrite Hspec. apply py_sort_perm. Qed.

Lemma retract_order_sorted rs gone stack i j x y :
  rev (retract_order args rs) = gone ++ stack → i ∈ gone → j ∈ stack →
  rs !! i = Some x → rs !! j = Some y → retracts_first x y.
Proof.
  intros Hord Hi Hj Hx Hy. apply (f_equal (@rev nat)) in Hord. rewrite rev_involutive, rev_app_distr in Hord.
  unfold retract_order, spec_on in Hord. rewrite Hspec in Hord.
  set (lt := λ i j, lex_ltb (retract_key rs j) (retract_key rs i)) in Hord.
  assert (Hw : weak_order lt).
  { unfold lt. split_and!.
    - intros a. apply lex_ltb_irrefl.
    - intros a b c Hab Hbc. by eapply lex_ltb_trans.
    - intros a b c Hab Hbc. by eapply lex_ltb_false_trans. }
  pose proof (py_sort_sorted lt Hw (seq 0 (length rs))) as Hs. rewrite Hord in Hs.
  assert (Hlt : lt i j = false).
  { unfold sorted_by in Hs. apply StronglySorted_app in Hs as [Hs _].
    apply (Hs j i); by rewrite <-Permutation_rev. }
  unfold lt, retract_key in Hlt. rewrite Hx, Hy in Hlt. cbn in Hlt. unfold retracts_first.
  rewrite !orb_false_iff, andb_false_iff, Z.ltb_ge, Z.eqb_neq in Hlt. lia.
Qed.

(** *** [retract_decode] *)

(** Why requests are given up: each one retracted after the first was retracted when
    it and those that are left did not fit, and a request is aborted when it is the
    only one left and still does not fit. *)
Record given_up S0 (ready : list Req) (kept gone ab : list BReq) : Prop := {
  gu_gone pre x post : gone = pre ++ x :: post → pre ≠ [] → short_of_slots S0 ready (x :: post ++ ab ++ kept);
  gu_ab : ab ≠ [] → short_of_slots S0 ready ab;
}.

Lemma retracted_same_place r : same_place r (retracted_req r).
Proof. by split; try left. Qed.
Lemma aborted_same_place r : same_place r (aborted_req r).
Proof. by split; try left. Qed.

Lemma popped_same_place rs rs' f gone :
  (∀ r, same_place r (f r)) → popped rs rs' f gone → Forall2 same_place rs rs'.
Proof.
  intros Hf [Hl Hg Hs]. apply Forall2_same_length_lookup. split; [done|]. intros i r r' Hr Hr'.
  destruct (decide (i ∈ gone)) as [Hi|Hi].
  - rewrite Hg, Hr in Hr' by done. injection Hr' as <-. apply Hf.
  - rewrite Hs, Hr in Hr' by done. injection Hr' as <-. done.
Qed.

Lemma retract_decode_ok S0 s b ready :
  reqs b ≠ [] → batch_cols_ok b → runs S0 s (reqs b) ready →
  ∃ b' retracted aborted ratio s' kept gone ab,
    retract_decode cfg false args steps b s = Ok (b', retracted, aborted, ratio, s') ∧
    reqs b ≡ₚ kept ++ gone ++ ab ∧ reqs b' ≡ₚ kept ∧
    retracted = retracted_req <$> gone ∧ aborted = aborted_req <$> ab ∧
    runs S0 s' (reqs b') ready ∧ batch_cols_ok b' ∧
    Z.of_nat (length (reqs b')) ≤ kv_available_size (allocator (cache s')) ∧
    (ab = [] ∧ (kept = [] → gone = []) ∨ length ab = 1%nat ∧ kept = []) ∧
    (∀ x y, x ∈ gone → y ∈ kept ++ ab → retracts_first x y) ∧
    ratio = estimate_new_token_ratio_after_retract steps (reqs b') ∧
    pool_dims s' = pool_dims s ∧ given_up S0 ready kept gone ab ∧
    (gone ++ ab = [] → Z.of_nat (length (reqs b)) ≤ free_tokens s).
Proof.
  intros Hne Hb Hrun. unfold retract_decode. set (rs := reqs b) in *. set (order := rev (retract_order args rs)).
  assert (Hperm : order ≡ₚ seq 0 (length rs)).
  { unfold order. rewrite <-Permutation_rev. apply retract_order_perm. }
  assert (Hnd : NoDup order) by (rewrite Hperm; apply NoDup_seq).
  assert (Hir : in_range (length rs) order) by (unfold in_range; rewrite Hperm; apply in_range_seq).
  assert (Hall : at_indices rs order ≡ₚ rs).
  { unfold at_indices. rewrite Hperm. fold (at_indices rs (seq 0 (length rs))). by rewrite at_indices_all. }
  destruct (retract_loop_ok S0 true order rs [] s ready) as
    (stack & rs1 & gone & s1 & -> & Hord & Hne1 & Hpop1 & Hrun1 & Hen1 & Hm1 & Hsh1 & Hno1); [|done|done|by rewrite Hall|].
  { intros Ho. rewrite Ho in Hperm. apply Permutation_nil_l in Hperm. by destruct rs. }
  py_run. rewrite Hord in Hnd, Hir, Hall. apply NoDup_app in Hnd as (Hnd1 & Hd1 & Hnd2).
  apply Forall_app in Hir as [Hir1 Hir2].
  destruct (abort_last_ok S0 stack rs1 s1 ready) as
    (stack' & rs2 & out & s2 & -> & Hst & Hpop2 & Hrun2 & Hen2 & Hone & Hm2 & Hsh2 & Hno2); [done| |done|done|].
  { unfold in_range. by rewrite (pd_length _ _ _ _ Hpop1). }
  py_run. cbn [app]. pose proof (pd_length _ _ _ _ Hpop1) as Hl1. pose proof (pd_length _ _ _ _ Hpop2) as Hl2.
  rewrite Hst in Hnd2, Hir2, Hd1, Hall. apply NoDup_app in Hnd2 as (Hnd3 & Hd3 & Hnd4).
  apply Forall_app in Hir2 as [Hir3 Hir4].
  assert (Hgone : at_indices rs2 gone = retracted_req <$> at_indices rs gone).
  { rewrite (at_indices_popped rs1 rs2 _ _ _ Hpop2); [by eapply at_indices_gone|]. set_solver. }
  assert (Hout : at_indices rs2 out = aborted_req <$> at_indices rs out).
  { rewrite (at_indices_gone rs1 rs2 _ _ _ Hpop2) by done. f_equal. eapply at_indices_popped; [done|set_solver]. }
  assert (Hstay : at_indices rs2 stack' = at_indices rs stack').
  { rewrite (at_indices_popped rs1 rs2 _ _ _ Hpop2) by set_solver. eapply at_indices_popped; [done|set_solver]. }
  rewrite pick_ok by (unfold in_range; by rewrite Hl2, Hl1). py_run.
  rewrite pick_ok by (unfold in_range; by rewrite Hl2, Hl1). py_run.
  destruct (filter_keep_ok (rev stack') (set_reqs rs2 b)) as (b' & -> & Hb' & Hreq & _ & _).
  { by rewrite <-Permutation_rev. }
  { cbn. rewrite Hl2, Hl1. by apply Forall_rev. }
  { apply batch_cols_same_place; [done|]. etrans.
    - eapply popped_same_place; [apply retracted_same_place|done].
    - eapply popped_same_place; [apply aborted_same_place|done]. }
  py_run. cbn [reqs set_reqs] in Hreq.
  assert (Hkept : reqs b' ≡ₚ at_indices rs stack').
  { rewrite Hreq, <-Hstay. unfold at_indices. by rewrite <-Permutation_rev. }
  eexists _, _, _, _, s2, (at_indices rs stack'), (at_indices rs gone), (at_indices rs out).
  split; [done|]. split_and!; try done.
  - etrans; [symmetry; exact Hall|]. rewrite !at_indices_app, app_assoc. apply Permutation_app_comm.
  - by rewrite Hkept, <-Hstay.
  - rewrite Hkept, at_indices_length by done. done.
  - destruct Hone as [->|[Ho ->]]; [left|right; split; [by rewrite at_indices_length|done]]. split; [done|].
    intros E. destruct Hne1. rewrite Hst. cbn [app]. destruct stack'; [done|].
    apply (f_equal length) in E. by rewrite at_indices_length in E.
  - intros x y (i & Hi & Hx)%list_elem_of_omap Hy. rewrite <-at_indices_app in Hy.
    apply list_elem_of_omap in Hy as (j & Hj & Hy).
    eapply (retract_order_sorted rs gone (out ++ stack') i j x y); try done; [|set_solver].
    by rewrite <-Hst.
  - congruence.
  - split.
    + intros pre x post Hgo Hpre. apply at_indices_split in Hgo as (pre' & i & post' & -> & <- & Hx & <-); [|done].
      specialize (Hsh1 pre' i post' eq_refl). rewrite Hst, (at_indices_cons _ _ _ x Hx), !at_indices_app in Hsh1.
      apply Hsh1. by intros _ ->.
    + intros Hab. assert (at_indices rs1 out = at_indices rs out) as <- by (eapply at_indices_popped; [done|set_solver]).
      apply Hsh2. by intros ->.
  - intros [Hg Ha]%app_eq_nil. apply at_indices_nil in Hg as ->; [|done]. apply at_indices_nil in Ha as ->; [|done].
    destruct (Hno1 eq_refl) as [<- Hlen]. specialize (Hlen eq_refl). rewrite Hperm, length_seq in Hlen.
    cbn [app] in Hord. assert (length stack = 1%nat) as Hl by (rewrite <-Hord, Hperm, length_seq; done).
    rewrite Hlen. by apply (Hno2 eq_refl).
Qed.

(** ** One more token for everybody *)

Lemma columns_rows S0 s b ready :
  columns_ok b → runs S0 s (reqs b) ready →
  req_pool_indices (cols b) = rows_of (bkv <$> reqs b) ∧
  seq_lens (cols b) = kv_committed_len <$> (bkv <$> reqs b).
Proof.
  intros [(L1 & L2 & _) _ _ Hreq _ _] [[_ _ _ _ [Hrun _]%Forall_app _] _ _].
  assert (Hall : Forall (λ r, is_Some (req_pool_idx r)) (bkv <$> reqs b))
    by (eapply Forall_impl; [exact Hrun|]; by intros ? []).
  assert (Hrow : ∀ k r, reqs b !! k = Some r → is_Some (req_pool_idx (bkv r))).
  { intros k r Hr. rewrite Forall_fmap in Hall. by apply (Forall_lookup_1 _ _ _ _ Hall Hr). }
  split; apply list_eq_same_length with (length (reqs b)); rewrite ?rows_of_length, ?length_fmap; try done.
  - intros k x y Hk. rewrite rows_of_lookup, list_lookup_fmap by done.
    destruct (lookup_lt_is_Some_2 _ _ Hk) as [r Hr]. rewrite Hr. cbn.
    destruct (Hreq k r Hr (Hrow k r Hr)) as [-> _]. congruence.
  - intros k x y Hk. rewrite !list_lookup_fmap. destruct (lookup_lt_is_Some_2 _ _ Hk) as [r Hr]. rewrite Hr. cbn.
    destruct (Hreq k r Hr (Hrow k r Hr)) as [_ ->]. congruence.
Qed.

(** The columns after the step. *)
Lemma columns_decoded b cpu out :
  columns_ok b → seq_lens_cpu (cols b) = Some cpu →
  columns_ok (mkSB (decode_one <$> reqs b) (Some DECODE) (enable_overlap b)
    (mkCols (req_pool_indices (cols b)) (req_pool_indices_cpu (cols b)) ((λ n, n + 1)%nat <$> seq_lens (cols b))
      (Some ((λ n, n + 1)%nat <$> cpu)) ((λ n, n + 1)%nat <$> orig_seq_lens (cols b)))
    (ext b) (logp b) (flags b) (input_ids b) (mix_running_indices b) (Some out) (batch_is_full b)).
Proof.
  intros [(L1 & L2 & L3) (C1 & C2) Hi Hreq [Ha Hl] Hg] Hcpu.
  split; cbn [reqs cols req_pool_indices req_pool_indices_cpu seq_lens seq_lens_cpu orig_seq_lens input_ids
    logp flags]; rewrite ?length_fmap; try done.
  - by simplify_eq.
  - intros i r. rewrite !list_lookup_fmap. destruct (reqs b !! i) as [r0|] eqn:Hr0; [|done]. intros [= <-] Hs.
    destruct (Hreq i r0 Hr0 Hs) as [E1 E2]. split; [exact E1|]. by rewrite E2.
  - split.
    + rewrite Ha. symmetry. by apply (existsb_Forall2 (λ r, return_logprob (bkv r))), Forall2_fmap_r,
      Forall_Forall2_diag, Forall_forall.
    + intros Ht. destruct (Hl Ht) as (tops & toks & ? & ? & ? & ? & Hat). exists tops, toks.
      rewrite length_fmap. split_and!; [done..|]. intros i r. rewrite list_lookup_fmap.
      destruct (reqs b !! i) as [r0|] eqn:Hr0; [|done]. intros [= <-]. exact (Hat i r0 Hr0).
  - rewrite Hg. symmetry. by apply existsb_Forall2, Forall2_fmap_r, Forall_Forall2_diag, Forall_forall.
Qed.

Lemma prepare_for_decode_ok S0 s b ready :
  columns_ok b → runs S0 s (reqs b) ready →
  Forall (λ r, kv_committed_len (bkv r) < max_context_len (req_to_token_pool s))%nat (reqs b) →
  Z.of_nat (length (reqs b)) ≤ kv_available_size (allocator (cache s)) + evictable_size_ (tree (cache s)) →
  ∃ b' out s', prepare_for_decode cfg b s = Ok (b', s') ∧ reqs b' = decode_one <$> reqs b ∧ columns_ok b' ∧
    forward_mode b' = Some DECODE ∧ out_cache_loc b' = Some out ∧ length out = length (reqs b) ∧
    serve_core cfg S0 s' ((bkv <$> reqs b') ++ rest) ready ∧ kv_ready (allocator (cache s')) ∧
    (∀ k r x, reqs b !! k = Some r → out !! k = Some x →
      row_at (req_to_token_pool s') (bkv r) =
        <[kv_committed_len (bkv r) := x]> (row_at (req_to_token_pool s) (bkv r))) ∧
    pool_dims s' = pool_dims s.
Proof.
  intros Hcols Hrun Hctx Htok. unfold prepare_for_decode.
  destruct (columns_rows S0 s b ready Hcols Hrun) as [Hrows Hlens].
  destruct Hrun as [Hc Hrd Hl].
  destruct (serve_decode cfg Hdis Hps1 S0 s (bkv <$> reqs b) rest ready Hc Hrd) as
    (out & s' & Hal & Hlo & Hc' & Hrd' & Hwr & Hm); [by apply Forall_fmap|by rewrite length_fmap|].
  destruct (co_cpu _ Hcols) as [_ Hcpu].
  rewrite <-Hlens, <-Hrows in Hal. rewrite Hal. py_run. rewrite Hcpu. py_run. rewrite length_fmap in Hlo.
  eexists _, out, s'. split; [done|]. split_and!; try done.
  - by eapply columns_decoded.
  - cbn [reqs]. replace (bkv <$> (decode_one <$> reqs b)) with (decoded <$> (bkv <$> reqs b)); [done|].
    by rewrite <-!list_fmap_compose.
  - intros k r x Hr Hx. apply (Hwr k); [|done]. by rewrite list_lookup_fmap, Hr.
Qed.

(** The batch that decodes: everybody, or those who stay after a retraction. *)
Lemma make_room_ok S0 s b ready (retract : bool) t :
  reqs b ≠ [] → batch_cols_ok b → runs S0 s (reqs b) ready →
  (retract = false → Z.of_nat (length (reqs b)) ≤ kv_available_size (allocator (cache s))) →
  ∃ b' retracted aborted t' s' kept gone ab,
    (if retract
      then let! (b, retracted, aborted, ratio, s) := retract_decode cfg false args steps b s in
        Ok (b, retracted, aborted, set_current ratio t, s)
      else Ok (b, [], [], decay_step t, s)) = Ok (b', retracted, aborted, t', s') ∧
    reqs b ≡ₚ kept ++ gone ++ ab ∧ reqs b' ≡ₚ kept ∧
    retracted = retracted_req <$> gone ∧ aborted = aborted_req <$> ab ∧
    runs S0 s' (reqs b') ready ∧ batch_cols_ok b' ∧
    Z.of_nat (length (reqs b')) ≤ kv_available_size (allocator (cache s')) ∧
    (ab = [] ∧ (kept = [] → gone = []) ∨ length ab = 1%nat ∧ kept = []) ∧ (∀ x y, x ∈ gone → y ∈ kept ++ ab → retracts_first x y) ∧
    (t' = decay_step t ∨ t' = set_current (estimate_new_token_ratio_after_retract steps (reqs b')) t) ∧
    pool_dims s' = pool_dims s ∧ given_up S0 ready kept gone ab ∧
    (if retract then gone ++ ab = [] → Z.of_nat (length (reqs b)) ≤ free_tokens s else gone ++ ab = []).
Proof.
  intros Hne Hb Hrun Henough. destruct retract.
  - destruct (retract_decode_ok S0 s b ready Hne Hb Hrun) as
      (b2 & retracted & aborted & q & s2 & kept & gone & ab & -> & R1 & R2 & R3 & R4 & R5 & R6 & R7 & R8 & R9 & -> & R10 & R11 & R12). py_run.
    eexists _, _, _, _, s2, kept, gone, ab. split; [done|]. split_and!; try done. by right.
  - eexists _, _, _, _, s, (reqs b), [], []. split; [done|]. rewrite app_nil_r.
    split_and!; try done; [by apply Henough|by left|set_solver|by left|].
    split; [by intros []|done].
Qed.

(** Its last part: an empty batch is left alone. *)
Lemma decode_if_any_ok S0 s b ready (full : bool) :
  batch_cols_ok b → runs S0 s (reqs b) ready →
  Forall (λ r, kv_committed_len (bkv r) < max_context_len (req_to_token_pool s))%nat (reqs b) →
  Z.of_nat (length (reqs b)) ≤ kv_available_size (allocator (cache s)) →
  let b := if full then set_full false b else b in
  ∃ b' s', (if is_empty b then Ok (b, s) else prepare_for_decode cfg b s) = Ok (b', s') ∧
    reqs b' = decode_one <$> reqs b ∧ batch_cols_ok b' ∧
    serve_core cfg S0 s' ((bkv <$> reqs b') ++ rest) ready ∧ kv_ready (allocator (cache s')) ∧
    (reqs b ≠ [] → ∃ out, out_cache_loc b' = Some out ∧ length out = length (reqs b)) ∧
    pool_dims s' = pool_dims s.
Proof.
  intros Hb Hrun Hctx Hav b1.
  assert (reqs b1 = reqs b ∧ batch_cols_ok b1) as [Hr1 Hb1].
  { unfold b1. destruct full; [|done]. split; [done|]. destruct Hb as [?|[]]; [by left|right; by split]. }
  rewrite <-Hr1 in Hrun, Hctx, Hav. unfold is_empty. destruct (Nat.eqb_spec (length (reqs b1)) 0) as [Hz|Hz].
  - apply nil_length_inv in Hz. destruct Hrun as [Hc Hrd _]. exists b1, s. split; [done|]. rewrite Hz in *.
    split_and!; try done.
  - destruct (prepare_for_decode_ok S0 s b1 ready) as (b2 & out & s2 & -> & Hr2 & Hc2 & _ & Hout & Hlo & Hcore & Hrd & _ & Hm);
      try done.
    { destruct Hb1 as [E|?]; [by rewrite E in Hz|done]. }
    { destruct Hrun as [[Hw _ _ _ _ _] _ _]. pose proof (evictable_nonneg cfg _ _ Hw). lia. }
    exists b2, s2. split_and!; try done; [by right|]. intros _. eauto.
Qed.

Lemma update_running_batch_ok S0 s b ready test t :
  batch_cols_ok b → runs S0 s (filter running (reqs b)) ready →
  Forall (λ r, kv_committed_len (bkv r) < max_context_len (req_to_token_pool s))%nat (filter running (reqs b)) →
  ∃ b' retracted aborted t' s' kept gone ab,
    update_running_batch cfg false args steps test b t s = Ok (b', retracted, aborted, t', s') ∧
    filter running (reqs b) ≡ₚ kept ++ gone ++ ab ∧ reqs b' ≡ₚ decode_one <$> kept ∧
    retracted = retracted_req <$> gone ∧ aborted = aborted_req <$> ab ∧
    serve_core cfg S0 s' ((bkv <$> reqs b') ++ rest) ready ∧ kv_ready (allocator (cache s')) ∧ batch_cols_ok b' ∧
    (ab = [] ∧ (kept = [] → gone = []) ∨ length ab = 1%nat ∧ kept = []) ∧
    (∀ x y, x ∈ gone → y ∈ kept ++ ab → retracts_first x y) ∧
    (kept ≠ [] → ∃ out, out_cache_loc b' = Some out ∧ length out = length kept) ∧
    (t' = t ∨ t' = decay_step t ∨
      ∃ l, l ≡ₚ kept ∧ t' = set_current (estimate_new_token_ratio_after_retract steps l) t) ∧
    pool_dims s' = pool_dims s ∧ given_up S0 ready kept gone ab ∧
    (test = false → gone ++ ab = [] ↔ Z.of_nat (length (filter running (reqs b))) ≤ free_tokens s).
Proof.
  intros Hb Hrun Hctx. unfold update_running_batch.
  destruct (filter_batch_ok [] b Hb) as (b1 & -> & Hb1 & Hreq1 & _). py_run.
  assert (Hrs : reqs b1 = filter running (reqs b)).
  { rewrite Hreq1. apply list_filter_iff. intros r. unfold kept_in_batch. set_solver. }
  rewrite <-Hrs in Hrun, Hctx |- *. clear Hreq1 Hrs.
  unfold is_empty at 1. destruct (Nat.eqb_spec (length (reqs b1)) 0) as [Hz|Hz].
  { apply nil_length_inv in Hz. destruct Hrun as [Hc Hrd _].
    eexists _, _, _, _, s, [], [], []. split; [done|]. cbn [reqs set_full]. rewrite Hz in *.
    split_and!; try done; [left; by rewrite <-Hz|by left|set_solver|by left|split; [by intros []|done]|].
    intros _. split; [|done]. intros _. destruct Hc as [Hw _ _ _ _ _]. pose proof (evictable_nonneg cfg _ _ Hw).
    pose proof (kv_available_nonneg (allocator (cache s))). unfold free_tokens. cbn. lia. }
  destruct (check_decode_mem_ok S0 s (seq 0 (length (reqs b1))) (reqs b1) (reqs b1) ready) as
    (s1 & -> & Hrun1 & Hp1 & Hfree & Hiff); [apply in_range_seq|done|]. py_run. rewrite length_seq in Hiff |- *.
  destruct (make_room_ok S0 s1 b1 ready
    (negb (Z.of_nat (length (reqs b1)) <=? kv_available_size (allocator (cache s1))) || test) t) as
    (b2 & retracted & aborted & t2 & s2 & kept & gone & ab & -> & Hsplit & Hk & Hre & Hab & Hrun2 & Hb2 & Hav &
     Hone & Hord & Ht2 & Hm2 & Hgu & Hwhen); [by intros E; rewrite E in Hz|done|done| |].
  { intros [Hle%negb_false_iff%Z.leb_le _]%orb_false_iff. done. }
  py_run. destruct (decode_if_any_ok S0 s2 b2 ready (batch_size b2 <? batch_size b)%nat) as
    (b3 & s3 & Hrun3 & Hr3 & Hb3 & Hc3 & Hrd3 & Hout & Hm3); try done.
  { rewrite (dims_ctx _ _ Hm2), Hp1, Hk. rewrite Hsplit in Hctx. by apply Forall_app in Hctx as [? _]. }
  set (b2' := if (batch_size b2 <? batch_size b)%nat then set_full false b2 else b2) in *.
  assert (reqs b2' = reqs b2) as Hr2 by (unfold b2'; by destruct (batch_size b2 <? batch_size b)%nat).
  exists b3, retracted, aborted, t2, s3, kept, gone, ab. split.
  { destruct (is_empty b2'); [by simplify_eq|]. by rewrite Hrun3. }
  rewrite Hr3, Hr2 in *. split_and!; try done; [by rewrite Hk| |destruct Ht2; eauto|by rewrite Hm3, Hm2, (dims_same _ _ Hp1)|].
  2:{ intros ->. rewrite orb_false_r in Hwhen. rewrite <-Hfree.
      destruct (Z.leb_spec (Z.of_nat (length (reqs b1))) (kv_available_size (allocator (cache s1)))) as [Hle|Hlt]; cbn in Hwhen.
      - split; [|done]. intros _. destruct (Z.le_gt_cases (Z.of_nat (length (reqs b1))) (free_tokens s1)); [done|]. lia.
      - split; [done|]. intros ?. apply Hiff in Hlt. lia. }
  intros Hne. destruct Hout as (out & ? & Hl); [by intros E; rewrite E in Hk; apply Permutation_nil_l in Hk|].
  exists out. split; [done|]. by rewrite Hl, Hk.
Qed.
End decode.
