(* ===== verification/ResultInv.v ===== *)
(** Results of a forward pass on the serving invariant: the processors append the
    new tokens, release the requests that finish and cache those that run on; no
    slot is lost and nothing is raised. *)

From stdpp Require Import base gmap strings list relations.
From Stdlib Require Import ZArith QArith Lia.
From S2P Require Import Prelude.
From S2P Require Import PyData.
From S2P Require Import Allocator.
From S2P Require Import AllocatorInv.
From S2P Require Import RadixKey.
From S2P Require Import RadixTree.
From S2P Require Import RadixInv.
From S2P Require Import RadixContent.
From S2P Require Import RadixOps.
From S2P Require Import RadixInsert.
From S2P Require Import RadixEvict.
From S2P Require Import RadixSession.
From S2P Require Import ReqCache.
From S2P Require Import ReqCacheInv.
From S2P Require Import ReqAlloc.
From S2P Require Import ReqLife.
From S2P Require Import BatchAlloc.
From S2P Require Import Delayer.
From S2P Require Import PrefillAdder.
From S2P Require Import ScheduleBatch.
From S2P Require Import BatchInv.
From S2P Require Import ServeInv.
From S2P Require Import ServeOps.

Open Scope Z_scope.

(** ** Free groups *)

(** What a free group promises: opening one moves no slot, and after any number of
    frees closing it succeeds and leaves an allocator that allocates again. *)
Class KVGroupLaws (A : Type) `{KVPool A} `{!KVPoolSlots A} `{KVAlloc A} `{!KVAllocLaws A} `{KVGroup A} := {
  kv_group_slots a : kv_ready a → kv_slots (kv_group_begin a) ≡ₚ kv_slots a;
  kv_group_done a a1 : kv_ready a → frees (kv_group_begin a) a1 →
    ∃ a2, kv_group_end a1 = Ok a2 ∧ kv_ready a2 ∧ kv_slots a2 ≡ₚ kv_slots a1;
}.

Global Instance token_kvgroup : KVGroup Allocator :=
  {| kv_group_begin := free_group_begin; kv_group_end := free_group_end token_free |}.

Lemma token_group_frees st st' :
  frees st st' → is_not_in_free_group st = false →
  is_not_in_free_group st' = false ∧ need_sort st' = need_sort st ∧ release_pages st' = release_pages st.
Proof.
  induction 1 as [st|st st1 st2 [l Hl] _ IH]; intros Hg; [done|].
  assert (is_not_in_free_group st1 = false ∧ need_sort st1 = need_sort st ∧ release_pages st1 = release_pages st)
    as (Hg1 & Hn1 & Hr1).
  { unfold kv_free, token_kvpool, token_free in Hl. rewrite Hg in Hl. case_match; simplify_eq; done. }
  destruct (IH Hg1) as (? & ? & ?). split_and!; congruence.
Qed.

Lemma token_group_end st :
  is_not_in_free_group st = false → (need_sort st = false → release_pages st = []) →
  ∃ st', free_group_end token_free st = Ok st' ∧ token_ready st' ∧ held st' ++ pending st' ≡ₚ held st ++ pending st.
Proof.
  intros Hg Hr. unfold free_group_end. cbn. set (st1 := set_group st true (free_group st)).
  assert (Hr1 : token_ready st1) by (by split).
  assert (Hp : held st ++ pending st ≡ₚ concat (free_group st) ++ (held st1 ++ pending st1)).
  { unfold pending. rewrite Hg. change (held st1) with (held st). cbn. rewrite app_nil_r. apply Permutation_app_comm. }
  destruct (free_group st) as [|x l] eqn:Hf.
  - exists st1. split; [done|]. split; [done|]. by rewrite Hp.
  - destruct (kv_free_total st1 (concat (x :: l))) as [st' Hst]. exists st'. split; [exact Hst|].
    split; [by eapply token_free_ready|]. rewrite Hp. by apply (token_free_held st1).
Qed.

Global Instance token_kvgroup_laws : KVGroupLaws Allocator.
Proof.
  split.
  - intros st [Hg Hr]. cbn. unfold pending. cbn. rewrite Hg. done.
  - intros st st1 [Hg Hr] Hf. destruct (token_group_frees _ _ Hf eq_refl) as (Hg1 & Hn1 & Hr1).
    apply token_group_end; [done|]. rewrite Hn1, Hr1. exact Hr.
Qed.

Section results.
Context {A : Type} `{KVPool A} `{!KVPoolTotal A} `{!KVPoolSlots A} `{KVAlloc A} `{!KVAllocLaws A}.
Context `{KVGroup A} `{!KVGroupLaws A} `{Env} `{!EnvLaws} `{HeapQ} `{!HeapQLaws}.
Variable cfg : Config.
Hypothesis Hdis : disable cfg = false.
Hypothesis Hps1 : page_size cfg = 1%nat.
Variable verdict : nat → BReq → bool.
Implicit Types s : Sys A.

(** A request of a batch that is still served. *)
Definition active (r : BReq) : Prop := is_finished (sreq r) = false ∧ is_retracted r = false.
Global Instance active_dec r : Decision (active r) :=
  decide (is_finished (sreq r) = false ∧ is_retracted r = false).

(** ** One request *)

Lemma append_tokens_kv toks r :
  bkv (append_tokens verdict toks r) =
    with_output (output_ids (bkv r) ++ toks) (inflight_middle_chunks (bkv r)) (bkv r).
Proof. done. Qed.

(** A request that finishes is released and cached. *)
Definition finish_req (r : BReq) : BReq := with_bkv (released (bkv r)) r.

Lemma release_finished_ok S0 s r others ready :
  serve_core cfg S0 s (bkv r :: others) ready → (kv_committed_len (bkv r) ≤ length (all_ids (bkv r)))%nat →
  ∃ s', release_finished cfg false false r s = Ok (finish_req r, s') ∧ serve_core cfg S0 s' others ready ∧
    frees (allocator (cache s)) (allocator (cache s')) ∧ taken s' others ready ≤ taken s (bkv r :: others) ready ∧
    pool_dims s' = pool_dims s.
Proof.
  intros Hi Hl. unfold release_finished.
  destruct (serve_release cfg Hdis Hps1 S0 s (bkv r) others ready true Hi Hl) as (s' & -> & Hi' & Hf & Htk & Hm).
  py_run. eexists; split; [done|]. by split_and!.
Qed.

(** What becomes of a request that gets [toks]. *)
Definition after_tokens (toks : list Z) (r : BReq) : BReq :=
  let r' := append_tokens verdict toks r in
  if is_finished (sreq r') then finish_req r' else r'.

Lemma serve_tokens S0 s r others ready toks :
  serve_core cfg S0 s (bkv r :: others) ready →
  (kv_committed_len (bkv r) ≤ length (all_ids (bkv r)) + length toks)%nat →
  let r' := append_tokens verdict toks r in
  serve_core cfg S0 s (bkv r' :: others) ready ∧ (kv_committed_len (bkv r') ≤ length (all_ids (bkv r')))%nat.
Proof.
  intros Hi Hl r'. unfold r'. rewrite append_tokens_kv. split; [by apply serve_append|].
  unfold all_ids in *. cbn. rewrite app_assoc, length_app. done.
Qed.

(** Active requests first: the order does not matter. *)
Lemma active_cons r rs : active r → filter active (r :: rs) = r :: filter active rs.
Proof. intros Ha. by rewrite filter_cons, decide_True. Qed.
Lemma active_skip r rs : ¬ active r → filter active (r :: rs) = filter active rs.
Proof. intros Ha. by rewrite filter_cons, decide_False. Qed.

(** The head of the batch, in front of the others or behind them. *)
Lemma active_head r rs others :
  (bkv <$> filter active (r :: rs)) ++ others = (bkv <$> filter active [r]) ++ (bkv <$> filter active rs) ++ others.
Proof. by rewrite (filter_app active [r] rs : filter active (r :: rs) = _), fmap_app, <-app_assoc. Qed.
Lemma active_rotate r rs others :
  (bkv <$> filter active [r]) ++ (bkv <$> filter active rs) ++ others ≡ₚ
  (bkv <$> filter active rs) ++ (bkv <$> filter active [r]) ++ others.
Proof. by rewrite !app_assoc, (Permutation_app_comm (bkv <$> filter active [r])). Qed.

(** What the results of [decode_results] are. *)
Definition decode_result (toks : list Z) (r r' : BReq) : Prop :=
  (active r → r' = after_tokens toks r) ∧ (¬ active r → r' = r).

Lemma decode_result_one_ok S0 s overlap toks r others ready :
  serve_core cfg S0 s ((bkv <$> filter active [r]) ++ others) ready → overlap = true ∨ active r →
  (active r → kv_committed_len (bkv r) ≤ length (all_ids (bkv r)) + length toks)%nat →
  ∃ r' s', decode_result_one cfg false false verdict overlap (Some toks) r s = Ok (r', s') ∧
    decode_result toks r r' ∧ serve_core cfg S0 s' ((bkv <$> filter active [r']) ++ others) ready ∧
    frees (allocator (cache s)) (allocator (cache s')) ∧
    pool_dims s' = pool_dims s.
Proof.
  intros Hi Hov Hl. unfold decode_result_one. destruct (decide (active r)) as [Ha|Ha].
  - destruct Ha as [Hf Hr]. rewrite Hf, Hr. cbn [orb]. rewrite andb_false_r. py_run.
    rewrite active_cons in Hi by done. cbn [fmap list_fmap app filter list_filter] in Hi.
    destruct (serve_tokens S0 s r others ready toks Hi (Hl (conj Hf Hr))) as [Hi' Hl'].
    assert (Hres : ∀ r', r' = after_tokens toks r → decode_result toks r r').
    { intros r' ->. split; [done|]. intros Hn. by destruct Hn. }
    unfold after_tokens in Hres. set (r1 := append_tokens verdict toks r) in *.
    destruct (is_finished (sreq r1)) eqn:Hf1.
    + destruct (release_finished_ok S0 s r1 others ready Hi' Hl') as (s' & -> & Hi2 & Hfr & _ & Hm).
      exists (finish_req r1), s'. split_and!; [done|by apply Hres| |done..].
      rewrite active_skip; [done|]. intros [Hc _]. change (is_finished (sreq r1) = false) in Hc. congruence.
    + exists r1, s. split_and!; [done|by apply Hres| |apply rtc_refl|done].
      rewrite active_cons; [done|]. by split.
  - assert (overlap && (is_finished (sreq r) || is_retracted r) = true) as ->.
    { destruct Hov as [->|?]; [|done]. unfold active in Ha. destruct (is_finished (sreq r)), (is_retracted r); try done.
      by destruct Ha. }
    exists r, s. split_and!; [done|split; [by intros ?|done]|done|apply rtc_refl|done].
Qed.

Lemma decode_results_ok S0 s overlap toks rs others ready :
  serve_core cfg S0 s ((bkv <$> filter active rs) ++ others) ready → overlap = true ∨ Forall active rs →
  Forall2 (λ r t, active r → kv_committed_len (bkv r) ≤ length (all_ids (bkv r)) + length t)%nat rs toks →
  ∃ rs' s', decode_results cfg false false verdict overlap toks rs s = Ok (rs', s') ∧
    Forall2 (λ '(r, t) r', decode_result t r r') (zip rs toks) rs' ∧
    serve_core cfg S0 s' ((bkv <$> filter active rs') ++ others) ready ∧
    frees (allocator (cache s)) (allocator (cache s')) ∧
    pool_dims s' = pool_dims s.
Proof.
  revert s toks others. induction rs as [|r rs IH]; intros s toks others Hi Hov Hl.
  { exists [], s. split_and!; [done|constructor|done|apply rtc_refl|done]. }
  apply Forall2_cons_inv_l in Hl as (t & toks' & Ht & Hts & ->). cbn [decode_results head tail].
  rewrite active_head in Hi.
  destruct (decode_result_one_ok S0 s overlap t r _ ready Hi) as (r' & s1 & -> & Hr & Hi1 & Hf1 & Hm1);
    [destruct Hov as [->|[? _]%Forall_cons]; auto|done|]. py_run.
  rewrite active_rotate in Hi1. destruct (IH s1 toks' _ Hi1) as (rs' & s2 & -> & Hrs & Hi3 & Hf3 & Hm3);
    [destruct Hov as [->|[_ ?]%Forall_cons]; auto|done|]. py_run.
  exists (r' :: rs'), s2. split; [done|]. split; [by constructor|]. split_and!; [| |congruence].
  - by rewrite active_head, active_rotate.
  - unfold frees in *. by etrans.
Qed.

(** ** A decode batch *)

Lemma serve_allocator S0 s run ready a :
  serve_core cfg S0 s run ready → kv_slots a ≡ₚ kv_slots (allocator (cache s)) →
  serve_core cfg S0 (with_group (λ _, a) s) run ready.
Proof.
  intros [Hw Hs Hp Ht Hrun Hready] Ha.
  assert (Hk : ∀ L, walks_kept L (cache s) (cache (with_group (λ _, a) s))) by (intros L n e us w _ Hd; exact Hd).
  destruct (run_oks_kept cfg s (with_group (λ _, a) s) run (omap last_node run) Hrun) as [Hrun2 Hown];
    [done|by intros; eapply last_nodes|done|].
  split; try done.
  - destruct Hw as [? ? ? [? ? ?]]. by split.
  - rewrite Hown. unfold all_slots in *. cbn [cache with_group allocator with_allocator tree]. by rewrite Ha.
  - eapply ready_oks_kept; [done| |exact (Hk (omap last_node ready))]. by intros; eapply last_nodes.
Qed.

Lemma process_batch_result_decode_ok S0 s overlap toks rs others ready :
  serve_core cfg S0 s ((bkv <$> filter active rs) ++ others) ready → kv_ready (allocator (cache s)) →
  overlap = true ∨ Forall active rs →
  Forall2 (λ r t, active r → kv_committed_len (bkv r) ≤ length (all_ids (bkv r)) + length t)%nat rs toks →
  ∃ rs' s', process_batch_result_decode cfg false false verdict overlap toks rs s = Ok (rs', s') ∧
    Forall2 (λ '(r, t) r', decode_result t r r') (zip rs toks) rs' ∧
    serve_core cfg S0 s' ((bkv <$> filter active rs') ++ others) ready ∧ kv_ready (allocator (cache s')) ∧
    pool_dims s' = pool_dims s.
Proof.
  intros Hi Hrd Hov Hl. unfold process_batch_result_decode.
  set (s1 := with_group kv_group_begin s).
  assert (Hi1 : serve_core cfg S0 s1 ((bkv <$> filter active rs) ++ others) ready).
  { apply serve_allocator; [done|]. by apply kv_group_slots. }
  destruct (decode_results_ok S0 s1 overlap toks rs others ready Hi1 Hov Hl) as (rs' & s2 & -> & Hrs & Hi2 & Hf & Hm).
  py_run. destruct (kv_group_done (allocator (cache s)) (allocator (cache s2)) Hrd Hf) as (a & -> & Hra & Hsa).
  py_run. exists rs', (with_group (λ _, a) s2).
  split_and!; [done|done|by apply serve_allocator|done|exact Hm].
Qed.

(** ** A prefill batch *)

(** The tokens of the range of a request that runs have slots. *)
Definition fillable (r : Req) : Prop :=
  ∃ ids, get_fill_ids r = Ok ids ∧ ids `prefix_of` all_ids r ∧ (length ids ≤ kv_committed_len r)%nat ∧
    (cache_protected_len r ≤ aligned_len cfg r ids)%nat.

Lemma fillable_append r toks chunks : fillable r → fillable (with_output (output_ids r ++ toks) chunks r).
Proof.
  intros (ids & Hids & Hpre & Hlen & Hal). exists ids. split_and!; try done.
  etrans; [exact Hpre|]. exists toks. unfold all_ids. cbn. by rewrite app_assoc.
Qed.

(** So do those of the range [prepare_for_extend] has just filled. *)
Lemma fillable_extended (st : RadixCache A) r r' stop :
  ready_ok cfg st r stop → r' = with_pool_idx (req_pool_idx r') r → fillable (extended stop r').
Proof.
  intros [Hrg [_ Hst] Hfill _ [_ Hal] _ _] Hr'. exists (take stop (all_ids r)). rewrite Hr'.
  unfold get_fill_ids, range_end. cbn [extend_range extended with_kv_lens with_pool_idx full_untruncated_fill_ids].
  rewrite Hrg. py_run. rewrite Hfill. split_and!.
  - cbn [fmap option_fmap option_map snd]. py_run. by rewrite py_take_nat.
  - apply prefix_take.
  - cbn. rewrite length_take. lia.
  - exact Hal.
Qed.

(** What [process_batch_result_prefill] makes of a request that gets token [t]. *)
Definition prefill_result (decoding : bool) (t : Z) (r r' : BReq) : Prop :=
  let chunks := inflight_middle_chunks (bkv r) in
  let r1 := append_tokens verdict [t] r in
  if decide (is_retracted r = true ∨ is_finished (sreq r) = true ∧ chunks ≤ 0) then r' = r
  else if decide (0 < chunks) then r' = with_bkv (with_output (output_ids (bkv r)) (chunks - 1) (bkv r)) r
  else if is_finished (sreq r1) then r' = finish_req r1
  else if decoding || skip_radix_cache_insert (bkv r) then r' = r1
  else ∃ kv' n y, r' = with_bkv (with_prefix kv' n (Some y) (bkv r1)) r1.

Lemma prefill_result_one_ok S0 s decoding t r others ready :
  serve_core cfg S0 s ((bkv <$> filter active [r]) ++ others) ready →
  (active r → kv_committed_len (bkv r) ≤ length (all_ids (bkv r)) + 1)%nat →
  (active r → decoding = false → fillable (bkv r)) →
  ∃ r' s', prefill_result_one cfg false false verdict decoding t r s = Ok (r', s') ∧
    prefill_result decoding t r r' ∧ serve_core cfg S0 s' ((bkv <$> filter active [r']) ++ others) ready ∧
    frees (allocator (cache s)) (allocator (cache s')) ∧
    taken s' ((bkv <$> filter active [r']) ++ others) ready ≤ taken s ((bkv <$> filter active [r]) ++ others) ready ∧
    pool_dims s' = pool_dims s.
Proof.
  intros Hi Hl Hfill. unfold prefill_result_one, prefill_result.
  set (chunks := inflight_middle_chunks (bkv r)) in *. set (r1 := append_tokens verdict [t] r) in *.
  case_decide as Hskip.
  { assert ((is_finished (sreq r) && (chunks <=? 0)) || is_retracted r = true) as ->.
    { destruct Hskip as [->|[-> Hle%Z.leb_le]]; [apply orb_true_r|]. by rewrite Hle. }
    exists r, s. split_and!; [done..|apply rtc_refl|done|done]. }
  assert ((is_finished (sreq r) && (chunks <=? 0)) || is_retracted r = false) as ->.
  { destruct (is_retracted r); [by destruct Hskip; left|]. rewrite orb_false_r.
    destruct (is_finished (sreq r)); [|done]. cbn. apply Z.leb_gt.
    destruct (decide (0 < chunks)); [done|]. destruct Hskip. right. split; [done|lia]. }
  case_decide as Hch.
  { rewrite (proj2 (Z.leb_gt _ _)) by done. set (r' := with_bkv _ r). exists r', s.
    assert (Hact : active r' ↔ active r) by done.
    split_and!; [done..| |apply rtc_refl| |done].
    2:{ destruct (decide (active r)) as [Ha|Ha]; [by rewrite !active_cons by tauto|by rewrite !active_skip by tauto]. }
    clear Hact. destruct (decide (active r)) as [Ha|Ha].
    - rewrite active_cons in Hi |- * by done. cbn [fmap list_fmap app filter list_filter] in *.
      apply (serve_append cfg S0 s (bkv r) others ready [] (chunks - 1)) in Hi. by rewrite app_nil_r in Hi.
    - by rewrite active_skip in Hi |- * by done. }
  rewrite (proj2 (Z.leb_le _ _)) by lia.
  assert (Ha : active r).
  { split; [destruct (is_finished (sreq r))|destruct (is_retracted r)]; try done; destruct Hskip; [right; split; [done|lia]|by left]. }
  rewrite (active_cons r) in Hi |- * by done. cbn [fmap list_fmap app filter list_filter] in Hi.
  destruct (serve_tokens S0 s r others ready [t] Hi (Hl Ha)) as [Hi' Hl']. fold r1 in Hi', Hl'. cbv zeta. fold r1.
  destruct (is_finished (sreq r1)) eqn:Hf1.
  { destruct (release_finished_ok S0 s r1 others ready Hi' Hl') as (s' & -> & Hi2 & Hfr & Htk & Hm).
    assert (Hno : ¬ active (finish_req r1)).
    { intros [Hc _]. change (is_finished (sreq r1) = false) in Hc. congruence. }
    exists (finish_req r1), s'. rewrite active_skip by done. by split_and!. }
  assert (Hr1 : active r1) by (split; [done|]; apply Ha).
  destruct decoding; cbn [orb].
  { exists r1, s. rewrite active_cons by done. split_and!; [done..|apply rtc_refl|done|done]. }
  unfold maybe_cache_unfinished_req. change (skip_radix_cache_insert (bkv r1)) with (skip_radix_cache_insert (bkv r)).
  destruct (skip_radix_cache_insert (bkv r)).
  { py_run. exists (with_bkv (bkv r1) r1), s. rewrite active_cons by done.
    split_and!; [done..|apply rtc_refl|done|done]. }
  destruct (fillable_append _ [t] chunks (Hfill Ha eq_refl)) as (ids & Hids & Hpre & Hlen & Hal).
  destruct (serve_recache cfg Hdis S0 s (bkv r1) others ready false ids Hi' Hids Hpre Hlen Hal) as
    (s' & y & kv' & -> & _ & Hi2 & Hfr & _ & Htk & Hm). py_run.
  eexists _, s'. split; [done|]. rewrite active_cons by done. split_and!; [eauto|done..].
Qed.

Lemma process_batch_result_prefill_ok S0 s decoding toks rs others ready :
  serve_core cfg S0 s ((bkv <$> filter active rs) ++ others) ready → length toks = length rs →
  Forall (λ r, active r → kv_committed_len (bkv r) ≤ length (all_ids (bkv r)) + 1)%nat rs →
  Forall (λ r, active r → rid (sreq r) ∉ decoding → fillable (bkv r)) rs →
  ∃ rs' s', process_batch_result_prefill cfg false false verdict decoding toks rs s = Ok (rs', s') ∧
    Forall2 (λ '(r, t) r', prefill_result (bool_decide (rid (sreq r) ∈ decoding)) t r r') (zip rs toks) rs' ∧
    serve_core cfg S0 s' ((bkv <$> filter active rs') ++ others) ready ∧
    frees (allocator (cache s)) (allocator (cache s')) ∧
    taken s' ((bkv <$> filter active rs') ++ others) ready ≤ taken s ((bkv <$> filter active rs) ++ others) ready ∧
    pool_dims s' = pool_dims s.
Proof.
  revert s toks others. induction rs as [|r rs IH]; intros s toks others Hi Hlen Hl Hfill.
  { exists [], s. destruct toks; [|done]. split_and!; [done|constructor|done|apply rtc_refl|done|done]. }
  destruct toks as [|t toks]; [done|]. injection Hlen as Hlen. cbn [process_batch_result_prefill].
  apply Forall_cons in Hl as [Hl Hls]. apply Forall_cons in Hfill as [Hfill Hfills].
  rewrite active_head in Hi.
  destruct (prefill_result_one_ok S0 s (bool_decide (rid (sreq r) ∈ decoding)) t r _ ready Hi Hl) as
    (r' & s1 & -> & Hr & Hi1 & Hf1 & Ht1 & Hm1).
  { intros Ha Hd%bool_decide_eq_false. auto. }
  py_run. rewrite active_rotate in Hi1. destruct (IH s1 toks _ Hi1 Hlen Hls Hfills) as (rs' & s2 & -> & Hrs & Hi3 & Hf3 & Ht3 & Hm3). py_run.
  exists (r' :: rs'), s2. split; [done|]. split; [by constructor|]. split_and!; [| | |congruence].
  - by rewrite active_head, active_rotate.
  - unfold frees in *. by etrans.
  - rewrite active_head, active_rotate. etrans; [exact Ht3|]. rewrite <-active_rotate.
    etrans; [exact Ht1|]. by rewrite <-active_head.
Qed.

(** An embedding batch of running requests is a prefill batch whose tokens are 0. *)
Lemma embedding_results_eq rs s :
  Forall running rs →
  process_batch_result_embedding cfg false false verdict rs s
  = process_batch_result_prefill cfg false false verdict [] (replicate (length rs) 0) rs s.
Proof.
  intros Hr. revert s. induction Hr as [|r rs Hr _ IH]; intros s; [done|].
  cbn [process_batch_result_embedding process_batch_result_prefill length replicate].
  assert (embedding_result_one cfg false false verdict r s =
    prefill_result_one cfg false false verdict (bool_decide (rid (sreq r) ∈ [])) 0 r s) as ->.
  { rewrite bool_decide_eq_false_2 by set_solver. unfold embedding_result_one, prefill_result_one.
    unfold running in Hr. by rewrite Hr. }
  destruct (prefill_result_one _ _ _ _ _ _ _ _) as [[r' s']|]; [|done]. py_run. by rewrite IH.
Qed.
End results.
