(* ===== verification/ServeLoop.v ===== *)
(** The serving loop without overlap: a decode round and a prefill round each keep
    the batch that decodes in order, so that neither ever raises, and the requests a
    round retracts can be admitted again. *)

From stdpp Require Import base gmap strings list relations.
From Stdlib Require Import ZArith QArith Lia.
From S2P Require Import Prelude.
From S2P Require Import PyData.
From S2P Require Import RadixKey.
From S2P Require Import RadixTree.
From S2P Require Import RadixInv.
From S2P Require Import RadixContent.
From S2P Require Import RadixOps.
From S2P Require Import RadixInsert.
From S2P Require Import RadixEvict.
From S2P Require Import RadixSession.
From S2P Require Import ReqCache.
From S2P Require Import ReqCacheInv.
From S2P Require Import ReqAlloc.
From S2P Require Import ReqLife.
From S2P Require Import BatchAlloc.
From S2P Require Import Delayer.
From S2P Require Import PrefillAdder.
From S2P Require Import ScheduleBatch.
From S2P Require Import BatchInv.
From S2P Require Import ServeInv.
From S2P Require Import ServeOps.
From S2P Require Import ExtendInv.
From S2P Require Import DecodeInv.
From S2P Require Import ResultInv.

Open Scope Z_scope.

Section loop.
Context {A : Type} `{KVPool A} `{!KVPoolTotal A} `{!KVPoolSlots A} `{KVAlloc A} `{!KVAllocLaws A} `{KVPaged A}.
Context `{KVGroup A} `{!KVGroupLaws A} `{Env} `{!EnvLaws} `{HeapQ} `{!HeapQLaws}.
Variable cfg : Config.
Hypothesis Hdis : disable cfg = false.
Hypothesis Hps1 : page_size cfg = 1%nat.
Variable verdict : nat → BReq → bool.
Implicit Types s : Sys A.

(** A request between two decode rounds: its last token has no slot yet. *)
Record between (r : BReq) : Prop := {
  bt_lens : (kv_committed_len (bkv r) + 1 = length (all_ids (bkv r)))%nat;
  bt_live : is_retracted r = false;
  bt_fill : fill_ok (bkv r);
}.

(** The batch that decodes, next to the requests of [rest], which hold slots, and
    the admitted ones. *)
Record decode_ready S0 s (b : ScheduleBatch) (rest ready : list Req) : Prop := {
  dr_cols : batch_cols_ok b;
  dr_core : serve_core cfg S0 s ((bkv <$> filter running (reqs b)) ++ rest) ready;
  dr_alloc : kv_ready (allocator (cache s));
  dr_reqs : Forall between (filter running (reqs b));
}.

(** ** A decode round *)

Lemma between_decoded r : between r → running r → active (decode_one r) ∧
  (kv_committed_len (bkv (decode_one r)) ≤ length (all_ids (bkv (decode_one r))) + 1)%nat.
Proof.
  intros [Hl Hr Hf] Hn. split; [by split|]. change (all_ids (bkv (decode_one r))) with (all_ids (bkv r)).
  change (kv_committed_len (bkv (decode_one r))) with (kv_committed_len (bkv r) + 1)%nat. lia.
Qed.

(** Retracted and aborted requests may wait for admission again. *)
Lemma between_retracted r : between r → waiting (bkv (retracted_req r)).
Proof.
  intros [Hl _ Hf]. split; [done|done|exact Hf|]. change (all_ids (bkv r) ≠ []). destruct (all_ids (bkv r)); [|done].
  cbn in Hl. lia.
Qed.

(** One new token. *)
Lemma fill_ok_append r toks chunks : fill_ok r → fill_ok (with_output (output_ids r ++ toks) chunks r).
Proof.
  unfold fill_ok. cbn. intros Hf Ho. destruct (Hf Ho) as [Hp|]; [left|by right].
  etrans; [exact Hp|]. exists toks. by rewrite app_assoc.
Qed.

Lemma after_tokens_between r t :
  between r → running r → let r' := after_tokens verdict [t] (decode_one r) in
  same_place (decode_one r) r' ∧ is_retracted r' = false ∧ (running r' → between r').
Proof.
  intros [Hl Hr Hf] Hn. unfold after_tokens. set (r1 := append_tokens verdict [t] (decode_one r)).
  destruct (is_finished (sreq r1)) eqn:Hfin; cbv zeta; cbn [is_retracted].
  - split_and!; [by split; try left|done|]. intros Hc. unfold running in Hc.
    change (is_finished (sreq r1) = false) in Hc. congruence.
  - split_and!; [by split; try right|done|]. intros _. split; [|done|].
    + change (all_ids (bkv r1)) with (origin_input_ids (bkv r) ++ output_ids (bkv r) ++ [t]).
      change (kv_committed_len (bkv r1)) with (kv_committed_len (bkv r) + 1)%nat.
      rewrite app_assoc, length_app. unfold all_ids in Hl. cbn. lia.
    + exact (fill_ok_append (bkv r) [t] (inflight_middle_chunks (bkv r)) Hf).
Qed.

(** Nobody of the results is retracted: those served are those running. *)
Lemma filter_active rs : Forall (λ r, is_retracted r = false) rs → filter active rs = filter running rs.
Proof.
  induction 1 as [|r rs Hr _ IH]; [done|]. rewrite !filter_cons, IH. unfold active, running.
  repeat case_decide; tauto.
Qed.

(** The results of a round, all together. *)
Lemma decode_results_between kept toks rs' :
  Forall between kept → Forall running kept →
  Forall2 (λ '(r, t) r', decode_result verdict t r r') (zip (decode_one <$> kept) ((λ x, [x]) <$> toks)) rs' →
  length toks = length kept →
  Forall2 same_place (decode_one <$> kept) rs' ∧ Forall (λ r, is_retracted r = false) rs' ∧
  Forall between (filter running rs').
Proof.
  intros Hb. revert toks rs'. induction Hb as [|r kept Hr _ IH]; intros [|t toks] rs' Hn Hf Hl; try done.
  { apply Forall2_nil_inv_l in Hf as ->. by split_and!. }
  apply Forall_cons in Hn as [Hn Hns]. csimpl in Hf.
  apply Forall2_cons_inv_l in Hf as (r' & rs'' & [Hres _] & Hrs & ->).
  destruct (IH toks rs'' Hns Hrs ltac:(by injection Hl)) as (I1 & I2 & I3).
  destruct (between_decoded r Hr Hn) as [Ha _]. specialize (Hres Ha). subst r'.
  destruct (after_tokens_between r t Hr Hn) as (S1 & S2 & S3).
  split_and!; [by constructor..|]. rewrite filter_cons. case_decide; [constructor; [by apply S3|done]|done].
Qed.

(** [process_batch_result_decode] after a forward pass over the requests [l]. *)
Lemma decode_process_ok S0 s b l rest ready overlap toks :
  reqs b = decode_one <$> l → Forall between l → Forall running l → batch_cols_ok b →
  serve_core cfg S0 s ((bkv <$> reqs b) ++ rest) ready → kv_ready (allocator (cache s)) →
  length toks = length (reqs b) →
  ∃ rs s', process_batch_result_decode cfg false false verdict overlap ((λ x, [x]) <$> toks) (reqs b) s = Ok (rs, s') ∧
    Forall2 (λ '(r, t) r', decode_result verdict t r r') (zip (reqs b) ((λ x, [x]) <$> toks)) rs ∧
    decode_ready S0 s' (set_reqs rs b) rest ready ∧
    pool_dims s' = pool_dims s.
Proof.
  intros Hl Hbt Hrn Hb Hc Hrd Hlen.
  assert (Hdec : ∀ k r, reqs b !! k = Some r → active r ∧
    (kv_committed_len (bkv r) ≤ length (all_ids (bkv r)) + 1)%nat).
  { intros k r Hr. rewrite Hl, list_lookup_fmap in Hr. destruct (l !! k) as [r0|] eqn:Hr0; [|done]. injection Hr as <-.
    apply between_decoded; [by apply (Forall_lookup_1 _ _ _ _ Hbt Hr0)|by apply (Forall_lookup_1 _ _ _ _ Hrn Hr0)]. }
  assert (Hact : Forall active (reqs b)) by (apply Forall_lookup; intros k r Hr; by apply (Hdec k)).
  destruct (process_batch_result_decode_ok cfg Hdis Hps1 verdict S0 s overlap ((λ x, [x]) <$> toks) (reqs b) rest ready)
    as (rs & s2 & Hres & Hf & Hc2 & Hrd2 & Hm2); [|done|by right| |].
  { assert (filter active (reqs b) = reqs b) as ->; [|done]. apply filter_full.
    clear -Hact. induction Hact; [done|]. rewrite filter_cons, decide_True by done. cbn. by f_equal. }
  { apply Forall2_same_length_lookup. rewrite length_fmap. split; [done|]. intros k r x Hr Hx _.
    rewrite list_lookup_fmap in Hx. destruct (toks !! k); [|done]. injection Hx as <-. by apply (Hdec k). }
  exists rs, s2. split; [exact Hres|]. split; [done|]. split; [|done].
  rewrite Hl in Hf. destruct (decode_results_between l toks rs Hbt Hrn Hf) as (Hsp & Hnr & Hbt').
  { by rewrite Hlen, Hl, length_fmap. }
  split; [|by rewrite <-filter_active|done|done].
  apply batch_cols_same_place; [done|]. by rewrite Hl.
Qed.

Section decode_rounds.
Variables (args : SpecArgs) (steps : Z).
Hypothesis Hspec : speculative_algorithm args = None.

(** [update_running_batch], the forward pass that yields one token per request, and
    [process_batch_result_decode]: nothing is raised, whatever the tokens are, and
    the batch is ready for the next round. *)
Lemma decode_round_ok S0 s b rest ready test t :
  decode_ready S0 s b rest ready →
  Forall (λ r, kv_committed_len (bkv r) < max_context_len (req_to_token_pool s))%nat (filter running (reqs b)) →
  ∃ b' retracted aborted t' s',
    update_running_batch cfg false args steps test b t s = Ok (b', retracted, aborted, t', s') ∧
    Forall (λ r, waiting (bkv r)) (retracted ++ aborted) ∧
    ∀ toks, length toks = length (reqs b') →
      ∃ rs s2, process_batch_result_decode cfg false false verdict false ((λ x, [x]) <$> toks) (reqs b') s'
          = Ok (rs, s2) ∧ decode_ready S0 s2 (set_reqs rs b') rest ready ∧
        pool_dims s2 = pool_dims s.
Proof.
  intros [Hcols Hcore Hrd Hreqs] Hctx.
  destruct (update_running_batch_ok cfg Hdis Hps1 args steps Hspec rest S0 s b ready test t) as
    (b' & retracted & aborted & t' & s' & kept & gone & ab & Hrun & Hsplit & Hk & -> & -> & Hc' & Hrd' & Hb' & _ & _ & _ & _ & Hm & _);
    [done| |done|].
  { split; [done|done|]. eapply Forall_impl; [exact Hreqs|]. intros r [Hl _ _]. lia. }
  assert (Hbt : Forall between (kept ++ gone ++ ab)) by (by rewrite <-Hsplit).
  assert (Hrn : Forall running (kept ++ gone ++ ab)).
  { rewrite <-Hsplit. apply Forall_forall. by intros r [? _]%list_elem_of_filter. }
  apply Forall_app in Hbt as [Hbk Hbg]. apply Forall_app in Hrn as [Hrk _].
  eexists b', _, _, t', s'. split; [exact Hrun|]. split.
  { apply Forall_app in Hbg as [Hg Ha]. apply Forall_app. rewrite !Forall_fmap. split; (eapply Forall_impl; [done|]).
    - intros r. apply between_retracted.
    - intros r Hr. apply (between_retracted (set_abort oom_message r)). by destruct Hr. }
  intros toks Hlen.
  apply Permutation_map_inv in Hk as (l & Hl & Hlk). rewrite Hlk in Hbk, Hrk.
  destruct (decode_process_ok S0 s' b' l rest ready false toks) as (rs & s2 & Hres & _ & Hready & Hm2); try done.
  exists rs, s2. split_and!; [done..|congruence].
Qed.
End decode_rounds.

(** ** A prefill round *)

(** A request of a prefill batch behind the forward pass: its range is computed, and
    it is the whole input unless more chunks follow. *)
Record prefilled (exclude : list string) (r : BReq) : Prop := {
  pf_active : active r;
  pf_chunks : 0 < inflight_middle_chunks (bkv r) ↔ rid (sreq r) ∈ exclude;
  pf_whole : rid (sreq r) ∉ exclude → kv_committed_len (bkv r) = length (all_ids (bkv r));
  pf_lens : (kv_committed_len (bkv r) ≤ length (all_ids (bkv r)))%nat;
  pf_fill : fill_ok (bkv r);
  pf_range : fillable cfg (bkv r);
}.

Lemma prefill_result_between exclude t r r' :
  prefilled exclude r → prefill_result verdict false t r r' →
  same_place r r' ∧ rid (sreq r') = rid (sreq r) ∧ is_retracted r' = false ∧
  (rid (sreq r) ∈ exclude → running r') ∧ (rid (sreq r) ∉ exclude → running r' → between r').
Proof.
  intros [[Hn Hr] Hch Hw Hl Hf _]. unfold prefill_result. cbv zeta. rewrite decide_False by (rewrite Hr, Hn; naive_solver).
  set (r1 := append_tokens verdict [t] r).
  assert (Hlen : rid (sreq r) ∉ exclude → (kv_committed_len (bkv r) + 1 = length (all_ids (bkv r1)))%nat).
  { intros Hx. change (all_ids (bkv r1)) with (origin_input_ids (bkv r) ++ output_ids (bkv r) ++ [t]).
    specialize (Hw Hx). unfold all_ids in Hw. rewrite app_assoc, length_app. cbn. lia. }
  assert (Hfill : fill_ok (bkv r1)) by exact (fill_ok_append (bkv r) [t] (inflight_middle_chunks (bkv r)) Hf).
  case_decide as Hc.
  { intros ->. split_and!; [by split; try right|done|done|done|]. intros Hx. by destruct Hx; apply Hch. }
  assert (Hx : rid (sreq r) ∉ exclude) by (intros Hx; by apply Hc, Hch).
  destruct (is_finished (sreq r1)) eqn:Hfin.
  { intros ->. split_and!; [by split; try left|done|done|done|]. intros _ Hrn.
    change (is_finished (sreq r1) = false) in Hrn. congruence. }
  case_match; [intros ->|intros (kv' & n & y & ->)].
  - split_and!; [by split; try right|done|done|done|]. intros _ _. split; [by rewrite <-Hlen|done|done].
  - split_and!; [by split; try right|done|done|done|]. intros _ _. split; [|done|exact Hfill].
    change (all_ids _) with (all_ids (bkv r1)). by rewrite <-Hlen.
Qed.

(** The requests a prefill batch starts with. *)
Record to_prefill (exclude : list string) (r : BReq) : Prop := {
  tp_running : running r;
  tp_chunks : 0 < inflight_middle_chunks (bkv r) ↔ rid (sreq r) ∈ exclude;
  tp_whole : rid (sreq r) ∉ exclude → stop_of (bkv r) = length (all_ids (bkv r));
}.

Lemma extended_prefilled (st : RadixCache A) exclude r r' k :
  ready_ok cfg st (bkv r) (stop_of (bkv r)) → to_prefill exclude r → same_request r r' → is_retracted r' = false →
  k = with_pool_idx (req_pool_idx k) (bkv r) → bkv r' = extended (stop_of (bkv r)) k → prefilled exclude r'.
Proof.
  intros Hrd [Hn Hc Hw] [Hrid Hfin _ _ _ _ _] Hr Hk Hb. rewrite <-Hrid in Hc, Hw.
  assert (Hids : all_ids (bkv r') = all_ids (bkv r)) by (rewrite Hb, Hk; done).
  split.
  - split; [by rewrite Hfin|done].
  - rewrite <-Hc. by rewrite Hb, Hk.
  - intros Hx. rewrite Hids. rewrite Hb. by apply Hw.
  - rewrite Hids, Hb. destruct (rd_stop _ _ _ _ Hrd) as [_ [_ ?]]. done.
  - intros _. left. change (origin_input_ids (bkv r') ++ output_ids (bkv r')) with (all_ids (bkv r')).
    rewrite Hids, Hb, Hk. cbn. by rewrite (rd_fill _ _ _ _ Hrd).
  - rewrite Hb. by eapply fillable_extended.
Qed.

(** All of them behind [process_batch_result_prefill]. *)
Lemma prefill_results_between exclude toks rs rs' :
  Forall (prefilled exclude) rs → length toks = length rs →
  Forall2 (λ '(r, t) r', prefill_result verdict (bool_decide (rid (sreq r) ∈ [])) t r r') (zip rs toks) rs' →
  Forall2 same_place rs rs' ∧
  filter active rs' ≡ₚ filter (kept_in_batch exclude) rs' ++ filter (λ r, rid (sreq r) ∈ exclude) rs' ∧
  Forall between (filter (kept_in_batch exclude) rs').
Proof.
  intros Hp. revert toks rs'. induction Hp as [|r rs Hr _ IH]; intros [|t toks] rs' Hl Hf; try done.
  { apply Forall2_nil_inv_l in Hf as ->. by split_and!. }
  apply Forall2_cons_inv_l in Hf as (r' & rs'' & Hres & Hrs & ->).
  destruct (IH toks rs'' ltac:(by injection Hl) Hrs) as (I1 & I2 & I3).
  rewrite bool_decide_eq_false_2 in Hres by set_solver.
  destruct (prefill_result_between exclude t r r' Hr Hres) as (S1 & S2 & S3 & S4 & S5).
  split; [by constructor|]. rewrite !filter_cons.
  assert (Ha : active r' ↔ running r') by (unfold active, running; rewrite S3; tauto).
  assert (Hk : kept_in_batch exclude r' ↔ running r' ∧ rid (sreq r') ∉ exclude) by done.
  rewrite <-S2 in S4, S5. repeat case_decide; try tauto; (split; [|try constructor; try done; by apply S5; tauto]).
  - by rewrite I2.
  - by rewrite I2, Permutation_middle.
Qed.

(** What [prepare_for_extend] makes of an admitted request. *)
Record extended_from (r r' : BReq) : Prop := {
  ef_same : same_request r r';
  ef_live : is_retracted r' = false;
  ef_kv : bkv r' = extended (stop_of (bkv r)) (with_pool_idx (req_pool_idx (bkv r')) (bkv r));
}.

Lemma all_extended_from rs rs' ks :
  Forall2 same_request rs rs' → Forall (λ r, is_retracted r = false) rs' →
  bkv <$> rs' = zip_with extended (stops_of rs) ks →
  Forall2 (λ r k, k = with_pool_idx (req_pool_idx k) r ∧ (req_pool_idx r = None ∨ k = r)) (bkv <$> rs) ks →
  Forall2 extended_from rs rs'.
Proof.
  intros Hs. revert ks. induction Hs as [|r r' rs rs' Hr _ IH]; intros ks Hnr Hkv Hks; [constructor|].
  apply Forall_cons in Hnr as [Hn Hnr]. csimpl in Hks. apply Forall2_cons_inv_l in Hks as (k & ks' & [Hk _] & Hks & ->).
  unfold stops_of in Hkv. csimpl in Hkv. injection Hkv as Hk1 Hkv. constructor; [|by eapply IH].
  split; [done..|]. rewrite Hk1. cbn [req_pool_idx extended with_kv_lens]. by rewrite <-Hk.
Qed.

(** [prepare_for_extend], the forward pass, [process_batch_result_prefill] and the
    merge of [get_next_batch_to_run]: nothing is raised, and the running batch with
    the new requests is ready to decode; a request between two chunks stays behind. *)
Lemma prefill_round_ok vocab_size S0 s b rest rs others exclude ov spec :
  decode_ready S0 s b rest ((bkv <$> rs) ++ others) → admitted cfg (cache s) rs → Forall (to_prefill exclude) rs →
  (fresh_reqs (bkv <$> rs) ≤ pool_available_size (req_to_token_pool s))%nat →
  Forall (λ n, n ≤ max_context_len (req_to_token_pool s))%nat (stops_of rs) →
  b_extend_num_tokens (extend_batch (bkv <$> rs) (stops_of rs))
    ≤ kv_available_size (allocator (cache s)) + evictable_size_ (tree (cache s)) →
  ∃ bp s1, prepare_for_extend cfg vocab_size (init_new rs ov spec) s = Ok (bp, s1) ∧
    Forall2 extended_from rs (reqs bp) ∧
    ∀ toks, length toks = length rs →
      ∃ rs' s2 b', process_batch_result_prefill cfg false false verdict [] toks (reqs bp) s1 = Ok (rs', s2) ∧
        merge_last_batch exclude (set_reqs rs' bp) b = Ok b' ∧
        reqs b' = reqs b ++ filter (kept_in_batch exclude) rs' ∧
        decode_ready S0 s2 b' ((bkv <$> filter (λ r, rid (sreq r) ∈ exclude) rs') ++ rest) others ∧
        pool_dims s2 = pool_dims s ∧
        Forall2 (λ '(r, t) r', prefill_result verdict false t r r') (zip (reqs bp) toks) rs' ∧
        taken s2 ((bkv <$> filter running (reqs b')) ++ (bkv <$> filter (λ r, rid (sreq r) ∈ exclude) rs') ++ rest) others
          ≤ taken s ((bkv <$> filter running (reqs b)) ++ rest) ((bkv <$> rs) ++ others) +
            b_extend_num_tokens (extend_batch (bkv <$> rs) (stops_of rs)).
Proof.
  intros [Hcols Hcore Hrd Hreqs] Hadm Htp Hfree Hctx Htok.
  destruct (prepare_for_extend_ok cfg Hdis Hps1 vocab_size S0 s _ rs others ov spec Hcore Hrd Hadm Hfree Hctx Htok) as
    (bp & out & ks & s1 & Hprep & Hbp & Hsame & Hnr & Hkv & Hks & _ & _ & _ & _ & _ & _ & Hc1 & Hrd1 & Htk1 & Hm1).
  exists bp, s1. split; [done|]. split; [by eapply all_extended_from|].
  intros toks Hlen. pose proof (Forall2_length _ _ _ Hsame) as Hlr.
  assert (Hpf : Forall (prefilled exclude) (reqs bp)).
  { apply Forall_lookup. intros i r' Hr'. destruct (Forall2_lookup_r _ _ _ _ _ Hsame Hr') as (r & Hr & Hsr).
    assert (Hz : (bkv <$> reqs bp) !! i = Some (bkv r')) by (by rewrite list_lookup_fmap, Hr').
    rewrite Hkv, lookup_zip_with in Hz. unfold stops_of in Hz. rewrite !list_lookup_fmap, Hr in Hz. cbn in Hz.
    destruct (ks !! i) as [k|] eqn:Hk; [|done]. injection Hz as Hz.
    destruct (Forall2_lookup_r _ _ _ _ _ Hks Hk) as (r0 & Hr0 & He & _). rewrite list_lookup_fmap, Hr in Hr0.
    injection Hr0 as <-. eapply (extended_prefilled (cache s) exclude r r' k); try done.
    - by apply (Forall_lookup_1 _ _ _ _ Hadm Hr).
    - by apply (Forall_lookup_1 _ _ _ _ Htp Hr).
    - by apply (Forall_lookup_1 _ _ _ _ Hnr Hr'). }
  assert (Hact : filter active (reqs bp) = reqs bp).
  { apply filter_full. clear -Hpf. induction Hpf as [|r l [? _ _ _ _ _] _ IH]; [done|].
    rewrite filter_cons, decide_True by done. cbn. by f_equal. }
  destruct (process_batch_result_prefill_ok cfg Hdis Hps1 verdict S0 s1 [] toks (reqs bp)
    ((bkv <$> filter running (reqs b)) ++ rest) others) as (rs' & s2 & Hres & Hf & Hc2 & Hfr & Htk2 & Hm2).
  { rewrite Hact. by rewrite Permutation_app_comm. }
  { by rewrite Hlen. }
  { eapply Forall_impl; [exact Hpf|]. intros r [_ _ _ Hl _ _] _. lia. }
  { eapply Forall_impl; [exact Hpf|]. intros r [_ _ _ _ _ Hr] _ _. done. }
  destruct (prefill_results_between exclude toks (reqs bp) rs' Hpf) as (Hsp & Hsplit & Hbt); [by rewrite Hlen|done|].
  destruct (merge_last_batch_ok exclude (set_reqs rs' bp) b) as (b' & Hmerge & Hb' & Hrb).
  { right. by apply columns_same_place. }
  { done. }
  exists rs', s2, b'. assert (Hrn : filter running (reqs b') = filter running (reqs b) ++ filter (kept_in_batch exclude) rs').
  { rewrite Hrb, filter_app. f_equal. apply filter_full. cbn. generalize rs' as l. clear.
    induction l as [|r l IH]; [done|]. rewrite !filter_cons. case_decide as Hk; [|done].
    rewrite filter_cons, decide_True by apply Hk. cbn. by f_equal. }
  set (fr := bkv <$> filter running (reqs b)) in *. set (fc := bkv <$> filter (λ r, rid (sreq r) ∈ exclude) rs') in *.
  assert (Hq : (bkv <$> filter running (reqs b')) ++ fc ++ rest ≡ₚ (bkv <$> filter active rs') ++ fr ++ rest).
  { rewrite Hrn, Hsplit, !fmap_app. fold fr fc. rewrite (Permutation_app_comm fr), <-!app_assoc. f_equiv.
    rewrite !app_assoc. f_equiv. apply Permutation_app_comm. }
  split_and!; [done..| |congruence| |].
  3:{ rewrite Hq. etrans; [exact Htk2|]. rewrite Hact, <-Htk1.
      by rewrite (Permutation_app_comm (bkv <$> reqs bp)). }
  2:{ eapply Forall2_impl; [exact Hf|]. intros [r t] r' Hr. by rewrite bool_decide_eq_false_2 in Hr by set_solver. }
  split; [done| |by eapply frees_ready|].
  - by rewrite Hq.
  - rewrite Hrn. by apply Forall_app.
Qed.
End loop.
