(* ===== verification/PrefillAdderInv.v ===== *)
(** What admission guarantees: the temporary lock of [add_one_req] is balanced
    on every path, the batch it builds fits the memory that is free or
    evictable, and at most one request of a pass is chunked. *)

From stdpp Require Import base gmap strings list relations.
From Stdlib Require Import ZArith QArith Lia Lqa.
From S2P Require Import Prelude.
From S2P Require Import PyData.
From S2P Require Import RadixKey.
From S2P Require Import RadixTree.
From S2P Require Import RadixInv.
From S2P Require Import RadixContent.
From S2P Require Import RadixOps.
From S2P Require Import RadixEvict.
From S2P Require Import ReqCache.
From S2P Require Import ReqAlloc.
From S2P Require Import Delayer.
From S2P Require Import PrefillAdder.

Open Scope Z_scope.

(** ** The contract of a prefix cache *)

(** [pc_wf s L] says that the clients hold the locks [L].  Taking a lock on a
    node and releasing it again is the identity, and the lookup of a waiting
    request moves no memory. *)
Class PrefixCacheLaws (S : Type) `{PrefixCache S} := {
  pc_wf : S → list nat → Prop;
  pc_node : S → nat → Prop;
  pc_inc_ok s L n : pc_wf s L → pc_node s n →
    ∃ s', pc_inc_lock_ref (Some n) s = Ok s' ∧ pc_wf s' (n :: L) ∧ pc_node s' n ∧
      pc_dec_lock_ref (Some n) s' = Ok s ∧ pc_req_slots s' = pc_req_slots s ∧
      pc_disable s' = pc_disable s;
  pc_next_round_ok s L r : pc_wf s L → pc_disable s = false →
    ∃ r' s' n, pc_init_next_round r s = Ok (r', s') ∧ pc_wf s' L ∧ pc_node s' n ∧
      last_node (kv r') = Some n ∧ needs_host_load_back r' = false ∧
      prefix_len r' ≤ fill_len r' ∧ max_new_tokens r' = max_new_tokens r ∧ rid r' = rid r ∧
      (∀ ac, available_and_evictable ac s' = available_and_evictable ac s) ∧
      pc_req_slots s' = pc_req_slots s ∧ pc_disable s' = pc_disable s;
}.

(** ** Arithmetic of pages *)

Section pages.
Context (ac : AdderCfg) (Hps : 1 ≤ ac_page_size ac).

Lemma ceil_paged_bounds n : n ≤ ceil_paged_tokens ac n < n + ac_page_size ac.
Proof.
  unfold ceil_paged_tokens. set (ps := ac_page_size ac) in *.
  pose proof (Z.div_mod (- n) ps ltac:(lia)). pose proof (Z.mod_pos_bound (- n) ps ltac:(lia)). lia.
Qed.

Lemma ceil_paged_mult n : (ac_page_size ac | ceil_paged_tokens ac n)%Z.
Proof. by exists (- (- n / ac_page_size ac)). Qed.

Lemma ceil_paged_id n : (ac_page_size ac | n)%Z → ceil_paged_tokens ac n = n.
Proof.
  intros [q ->]. unfold ceil_paged_tokens. rewrite <-Z.mul_opp_l, Z.div_mul by lia. lia.
Qed.

(** A chunk is not empty, fits the budget and is shorter than an input that
    does not fit. *)
Lemma chunk_trunc_bounds chunk pl al n t :
  chunk_trunc_len ac chunk pl al = Some t → (∀ a, al = Some a → 0 < a) →
  chunk < ceil_paged_tokens ac n → 0 < t ≤ chunk ∧ t < n.
Proof.
  unfold chunk_trunc_len. set (ps := ac_page_size ac) in *. intros Ht Hal Hn.
  pose proof (Z.div_mod chunk ps ltac:(lia)) as Hd.
  pose proof (Z.mod_pos_bound chunk ps ltac:(lia)) as Hm.
  destruct (Z.leb_spec (chunk / ps * ps) 0) as [|Hpos]; [done|].
  assert (Hle : chunk / ps * ps < n).
  { destruct (ceil_paged_mult n) as [q Hq]. rewrite Hq in Hn. pose proof (ceil_paged_bounds n).
    fold ps in Hq, Hn. assert (chunk / ps < q) by nia. nia. }
  assert (Hcap : ∀ x, (x + pl) / ps * ps ≤ x + pl).
  { intros x. pose proof (Z.div_mod (x + pl) ps ltac:(lia)).
    pose proof (Z.mod_pos_bound (x + pl) ps ltac:(lia)). lia. }
  destruct al as [a|]; cbn in Ht.
  - specialize (Hal a eq_refl). destruct (Z.ltb_spec (chunk / ps * ps) a) as [|Ha]; [done|].
    set (x := a * (chunk / ps * ps / a)) in *.
    assert (x ≤ chunk / ps * ps) by (apply Z.mul_div_le; lia).
    specialize (Hcap x). destruct (Z.leb_spec ((x + pl) / ps * ps - pl) 0); [done|].
    injection Ht as <-. lia.
  - specialize (Hcap (chunk / ps * ps)).
    destruct (Z.leb_spec ((chunk / ps * ps + pl) / ps * ps - pl) 0); [done|].
    injection Ht as <-. lia.
Qed.
End pages.

(** The delayer answers in every state, given at least one row. *)
Lemma negotiate_total gather pc d a :
  (∀ i, gather i ≠ []) → ∃ out d', Delayer.negotiate gather pc d a = Ok (out, d').
Proof.
  intros Hg. unfold Delayer.negotiate, Delayer.negotiate_pure, Delayer.prefillable_status, Delayer.gather_info.
  set (i := Delayer.mkInfo _ _ _ _ _). destruct (gather i) as [|row rows] eqn:E; [by apply Hg in E|].
  cbn [fmap list_fmap tmin tmax rbind]. repeat case_match; cbn [rbind]; eauto.
Qed.

Section admission.
Context {S : Type} `{PrefixCache S} `{!PrefixCacheLaws S} (ac : AdderCfg).
Context (gather : Delayer.Info → list Delayer.Info) (perf_counter : nat → Q).
Implicit Types ad : Adder S.

(** A server without diffusion blocks, with sane limits. *)
Record cfg_ok : Prop := {
  co_page : 1 ≤ ac_page_size ac;
  co_clip : 0 ≤ clip_max_new_tokens ac;
  co_mamba : 0 ≤ mamba_slot_cost ac;
  co_dllm : dllm_block_size ac = None;
  co_gather : ∀ i, gather i ≠ [];
}.
Hypothesis Hcfg : cfg_ok.

(** The memory a batch takes at allocation: its new tokens and one page of
    slack per request. *)
Definition batch_tokens (l : list SReq) : Z :=
  foldr (λ r n, extend_length r + ac_page_size ac + n) 0 l.

Lemma batch_tokens_app l1 l2 : batch_tokens (l1 ++ l2) = batch_tokens l1 + batch_tokens l2.
Proof. induction l1 as [|r l1 IH]; cbn; [done|]. unfold batch_tokens in *. lia. Qed.

Lemma batch_tokens_snoc l r :
  batch_tokens (l ++ [r]) = batch_tokens l + (extend_length r + ac_page_size ac).
Proof. rewrite batch_tokens_app. cbn. lia. Qed.

(** The batch is charged to the budget and fits. *)
Record adder_inv ad (L : list nat) : Prop := {
  ai_wf : pc_wf (ad_cache ad) L;
  ai_enabled : pc_disable (ad_cache ad) = false;
  ai_running : is_Some (ad_running ad);
  ai_charged : Qle (inject_Z (batch_tokens (can_run_list ad))) (rem_total_token_offset (ad_budget ad));
  ai_fits : can_run_list ad = [] ∨
    batch_tokens (can_run_list ad) < available_and_evictable ac (ad_cache ad);
  ai_lens : Forall (λ r, 0 ≤ extend_length r) (can_run_list ad);
}.

(** What a lookup leaves in a request. *)
Record req_ready (s : S) (r : SReq) (n : nat) : Prop := {
  rr_node : last_node (kv r) = Some n;
  rr_there : pc_node s n;
  rr_device : needs_host_load_back r = false;
  rr_prefix : prefix_len r ≤ fill_len r;
  rr_max_new : 0 ≤ max_new_tokens r;
}.

(** The outcome of a call that admits the request: one more lock, one more
    entry, and the charge of its tokens. *)
Definition admitted (al : option Z) (r : SReq) (n : nat) ad (r' : SReq) ad' : Prop :=
  can_run_list ad' = can_run_list ad ++ [r'] ∧
  pc_inc_lock_ref (Some n) (ad_cache ad) = Ok (ad_cache ad') ∧
  (∃ stop, r' = set_range (prefix_len r) stop r ∧ prefix_len r ≤ stop ≤ fill_len r ∧
    (new_chunked_req ad' = new_chunked_req ad ∧ stop = fill_len r ∧
       (∀ c, rem_chunk_tokens (ad_budget ad) = Some c → extend_length r' ≤ c) ∨
     new_chunked_req ad' = Some r' ∧ prefix_len r < stop < fill_len r ∧
     ∃ c, rem_chunk_tokens (ad_budget ad) = Some c ∧
       chunk_trunc_len ac c (prefix_len r) al = Some (extend_length r'))) ∧
  (ad_running ad' = ad_running ad ∧ preempt_list ad' = preempt_list ad) ∧
  rem_chunk_tokens (ad_budget ad') =
    (λ c, c - ceil_paged_tokens ac (extend_length r')) <$> rem_chunk_tokens (ad_budget ad).

Definition refused (r : SReq) ad (res : AddReqResult) (r' : SReq) ad' : Prop :=
  res ≠ CONTINUE ∧ r' = r ∧ ad' = set_exec (ad_exec ad') ad.

Lemma delayed_ok a b c d ad :
  ∃ x ad', delayed gather perf_counter a b c d ad = Ok (x, ad') ∧ ad' = set_exec (ad_exec ad') ad.
Proof.
  unfold delayed. destruct (ad_exec ad) as [e|] eqn:E; [|eexists _, _; split; [done|]; by destruct ad].
  unfold Delayer.negotiate_should_allow_prefill. destruct (Delayer.exec_result e).
  { cbn [rbind]. eauto. }
  destruct (negotiate_total gather perf_counter (Delayer.prefill_delayer e)
    (Delayer.mkArgs true (Delayer.exec_token_usage e) a b c d) (co_gather Hcfg)) as (out & d' & ->).
  cbn [rbind]. eauto.
Qed.

(** Passing the token gate leaves room for the whole input. *)
Lemma gate_fits total r ad :
  no_token ac total r ad = false →
  Qle (inject_Z (batch_tokens (can_run_list ad))) (rem_total_token_offset (ad_budget ad)) →
  batch_tokens (can_run_list ad) + total < available_and_evictable ac (ad_cache ad).
Proof.
  unfold no_token. intros [Hg _]%orb_false_iff Hc.
  assert (Hlt : Qlt (inject_Z total) (rem_total_tokens ac ad)).
  { apply Qnot_le_lt. intros Hle%Qle_bool_iff. congruence. }
  unfold rem_total_tokens in Hlt. rewrite Zlt_Qlt, inject_Z_plus. lra.
Qed.

Lemma mamba_gap_nonneg r : 0 ≤ mamba_gap_budget_for_req ac r.
Proof.
  unfold mamba_gap_budget_for_req. pose proof (co_mamba Hcfg). repeat case_match; lia.
Qed.

(** The charge covers the tokens of the request and its page. *)
Lemma charge_ok pl ext max_new r ad :
  0 ≤ max_new →
  Qle (Qplus (rem_total_token_offset (ad_budget ad)) (inject_Z (ext + ac_page_size ac)))
    (rem_total_token_offset (ad_budget (charge ac pl ext max_new r ad))).
Proof.
  intros Hm. cbn. rewrite Qplus_le_r, <-Zle_Qle.
  pose proof (ceil_paged_bounds ac (co_page Hcfg) ext). pose proof (mamba_gap_nonneg r). lia.
Qed.

Definition charged (r' : SReq) ad ad' : Prop :=
  Qle (Qplus (rem_total_token_offset (ad_budget ad))
         (inject_Z (extend_length r' + ac_page_size ac)))
    (rem_total_token_offset (ad_budget ad')).

(** The body of the locked block: a return that changes nothing, or the
    admission of the request. *)
Lemma locked_ok total al r n L ad :
  pc_wf (ad_cache ad) L → req_ready (ad_cache ad) r n → (∀ a, al = Some a → 0 < a) →
  ∃ early r' ad', add_one_req_locked ac total al r ad = Ok (early, r', ad') ∧
    ((∃ res, early = Some res ∧ res ≠ CONTINUE ∧ r' = r ∧ ad' = ad) ∨
     (early = None ∧ admitted al r n ad r' ad' ∧ no_token ac total r ad = false ∧ charged r' ad ad')).
Proof.
  intros Hwf [Hn Hnode Hdev Hpre Hmax] Hal. unfold add_one_req_locked.
  destruct (no_token ac total r ad) eqn:Hgate; [by eexists _, _, _; split; [done|]; left; eauto|].
  rewrite Hdev. cbn [rbind].
  destruct (input_exhausted _ ad) eqn:Hin; [by eexists _, _, _; split; [done|]; left; eauto|].
  rewrite (co_dllm Hcfg). pose proof (co_clip Hcfg) as Hclip. pose proof (co_page Hcfg) as Hps.
  destruct (pc_inc_ok (ad_cache ad) L n Hwf Hnode) as (s' & Hinc & _).
  unfold req_inc_lock_ref, set_range. cbn [kv with_kv set_extend_range with_range last_node].
  rewrite Hn. cbn [push_can_run set_new_chunked ad_cache]. rewrite Hinc. cbn [rbind].
  assert (Hwhole : (∀ c, rem_chunk_tokens (ad_budget ad) = Some c → cand_extend_input_len r ≤ c) →
    ∃ r' ad', r' = set_range (prefix_len r) (fill_len r) r ∧
    ad' = charge ac (prefix_len r) (ceil_paged_tokens ac (cand_extend_input_len r))
      (Z.min (max_new_tokens r) (clip_max_new_tokens ac)) r' (set_cache s' (push_can_run r' ad)) ∧
    admitted al r n ad r' ad' ∧ charged r' ad ad').
  { intros Hc. eexists _, _; split; [done|]. split; [done|]. split.
    - split_and!; try done.
      + exists (fill_len r). split_and!; try done. left. split_and!; [done..|exact Hc].
      + cbn. rewrite (co_dllm Hcfg). cbn. by rewrite (ceil_paged_id ac Hps _ (ceil_paged_mult ac _)).
    - unfold charged. eapply Qle_trans; [|apply charge_ok; lia].
      rewrite Qplus_le_r, <-Zle_Qle. cbn.
      pose proof (ceil_paged_bounds ac Hps (cand_extend_input_len r)).
      unfold cand_extend_input_len in *. lia. }
  destruct (rem_chunk_tokens (ad_budget ad)) as [chunk|] eqn:Hchunk.
  2:{ destruct Hwhole as (r1 & ad1 & Hr1 & Had1 & Hadm & Hch); [done|].
      exists None, r1, ad1. split; [by subst|]. right. done. }
  destruct (Z.leb_spec (ceil_paged_tokens ac (cand_extend_input_len r)) chunk) as [Hle|Hgt].
  { destruct Hwhole as (r1 & ad1 & Hr1 & Had1 & Hadm & Hch).
    { intros c [= <-]. pose proof (ceil_paged_bounds ac Hps (cand_extend_input_len r)). lia. }
    exists None, r1, ad1. split; [by subst|]. right. done. }
  clear Hwhole.
  destruct (chunk_trunc_len ac chunk (prefix_len r) al) as [t|] eqn:Ht;
    [|by eexists _, _, _; split; [done|]; left; eauto].
  destruct (chunk_trunc_bounds ac Hps _ _ _ _ _ Ht Hal Hgt) as [[Ht0 _] Htn].
  eexists _, _, _; split; [done|]. right. split; [done|]. split; [|split; [done|]].
  - assert (Hlen : extend_length (set_range (prefix_len r) (prefix_len r + t) r) = t) by (cbn; lia).
    split_and!; try done.
    + exists (prefix_len r + t). unfold cand_extend_input_len in Htn.
      split_and!; [done|lia|lia|]. right. split_and!; [done|lia|lia|]. exists chunk.
      split; [done|]. by rewrite Ht, <-Hlen at 1.
    + change (extend_length _) with (prefix_len r + t - prefix_len r). cbn. rewrite (co_dllm Hcfg), Hchunk.
      cbn. do 2 f_equal. f_equal. lia.
  - unfold charged. eapply Qle_trans; [|apply charge_ok; lia]. rewrite Qplus_le_r, <-Zle_Qle. cbn. lia.
Qed.

(** The whole input fits next to the batch, under the lock of the request. *)
Definition has_room (r : SReq) ad ad' : Prop :=
  batch_tokens (can_run_list ad) + (cand_extend_input_len r + ac_page_size ac)
    < available_and_evictable ac (ad_cache ad') ∧ Qlt 0 (rem_total_tokens ac ad).

Lemma adder_inv_exec ad L e : adder_inv ad L → adder_inv (set_exec e ad) L.
Proof. intros [? ? ? ? ? ?]. by split. Qed.

(** [add_one_req] admits the request and keeps exactly one new lock, or
    refuses it and leaves cache, budget and batch as they were. *)
Lemma add_one_req_ok al r n L ad :
  adder_inv ad L → req_ready (ad_cache ad) r n → (∀ a, al = Some a → 0 < a) →
  ∃ res r' ad', add_one_req ac gather perf_counter al r ad = Ok (res, r', ad') ∧
    ((refused r ad res r' ad' ∧ adder_inv ad' L) ∨
     (admitted al r n ad r' ad' ∧ charged r' ad ad' ∧ res = budget_state ac ad' ∧
      adder_inv ad' (n :: L) ∧ has_room r ad ad')).
Proof.
  intros Hinv Hready Hal. unfold add_one_req.
  destruct (ai_running _ _ Hinv) as [running Hrun]. rewrite Hrun.
  assert (∃ bs, match ad_exec ad with Some _ => Ok (Z.of_nat (length running)) | None => Ok 0 end
    = Ok bs) as [bs ->] by (destruct (ad_exec ad); eauto). cbn [rbind].
  destruct (delayed_ok bs (ac_max_prefill_bs ac) (ac_max_running_requests ac) (ac_waiting_queue_len ac) ad)
    as (x & ad0 & -> & Had0). cbn [rbind]. set (e0 := ad_exec ad0) in *. clearbody e0. subst ad0.
  pose proof (adder_inv_exec ad L e0 Hinv) as Hinv0.
  assert (Hstop : ∀ res r' ad', res ≠ CONTINUE → r' = r → ad' = set_exec e0 ad →
    ∃ res0 r0 ad0, Ok (res, r', ad') = Ok (res0, r0, ad0) ∧
      ((refused r ad res0 r0 ad0 ∧ adder_inv ad0 L) ∨
       (admitted al r n ad r0 ad0 ∧ charged r0 ad ad0 ∧ res0 = budget_state ac ad0 ∧
        adder_inv ad0 (n :: L) ∧ has_room r ad ad0))).
  { intros res r' ad' Hres -> ->. eexists _, _, _; split; [done|]. by left. }
  set (ad0 := set_exec e0 ad) in *.
  destruct x; [by apply Hstop|]. case_match; [by apply Hstop|]. case_match; [by apply Hstop|].
  rewrite (ai_enabled _ _ Hinv0), andb_false_r.
  set (total := cand_extend_input_len r + _ + _ + _).
  destruct (no_token ac total r ad0) eqn:Hgate0; [by apply Hstop|].
  destruct (input_exhausted _ ad0); [by apply Hstop|].
  destruct Hready as [Hn Hnode Hdev Hpre Hmax]. rewrite Hn.
  destruct (pc_inc_ok (ad_cache ad0) L n (ai_wf _ _ Hinv0) Hnode) as
    (s & Hinc & Hwf & Hnode' & Hdec & _ & Hdis). rewrite Hinc. cbn [rbind].
  destruct (locked_ok total al r n (n :: L) (set_cache s ad0)) as (early & r' & ad' & -> & Hcase);
    [done|by split|done|]. cbn [rbind].
  destruct Hcase as [(res & -> & Hres & -> & ->)|(-> & Hadm & Hgate & Hch)].
  { cbn [ad_cache set_cache]. rewrite Hdec. cbn [rbind]. apply Hstop; [done|done|].
    unfold ad0. by destruct ad. }
  destruct (pc_inc_ok s (n :: L) n Hwf Hnode') as (s2 & Hinc2 & _ & _ & Hdec2 & _).
  destruct Hadm as (Hcan & Hinc' & (stop & Hr' & Hstop' & Hnew) & [Hrun' Hpl'] & Hchk).
  cbn [ad_cache set_cache] in Hinc'. rewrite Hinc2 in Hinc'. injection Hinc' as Hs2.
  rewrite <-Hs2, Hdec2. cbn [rbind]. eexists _, _, _; split; [done|]. right.
  assert (Hext : extend_length r' ≤ cand_extend_input_len r).
  { subst r'. unfold cand_extend_input_len. cbn. lia. }
  pose proof (gate_fits total r (set_cache s ad0) Hgate (ai_charged _ _ Hinv0)) as Hfit.
  assert (Htot : cand_extend_input_len r + ac_page_size ac ≤ total ∧ 0 < total).
  { pose proof (mamba_gap_nonneg r). pose proof (co_clip Hcfg). pose proof (co_page Hcfg).
    unfold total, cand_extend_input_len. lia. }
  split; [|split; [done|split; [done|split]]].
  - split_and!; try done. by exists stop.
  - split; cbn [ad_cache set_cache ad_running can_run_list ad_budget]; try done.
    + rewrite Hdis. apply Hinv0.
    + rewrite Hrun'. apply Hinv0.
    + rewrite Hcan, batch_tokens_snoc, inject_Z_plus. pose proof (ai_charged _ _ Hinv0) as Hc0.
      unfold charged in Hch. cbn [set_cache can_run_list ad_budget] in *. lra.
    + right. rewrite Hcan, batch_tokens_snoc. cbn [set_cache can_run_list ad_cache] in *.
      unfold total in Hfit. pose proof (mamba_gap_nonneg r). pose proof (co_clip Hcfg). lia.
    + rewrite Hcan. apply Forall_app. split; [apply Hinv0|]. constructor; [|done].
      subst r'. cbn. lia.
  - split; [unfold ad0 in Hfit; cbn [set_exec set_cache can_run_list ad_cache] in *; lia|].
    unfold no_token in Hgate0. apply orb_false_iff in Hgate0 as [Hg0 _].
    apply Qlt_trans with (inject_Z total); [change 0%Q with (inject_Z 0); rewrite <-Zlt_Qlt; lia|].
    apply Qnot_le_lt. intros Hle%Qle_bool_iff. change (rem_total_tokens ac ad) with (rem_total_tokens ac ad0) in Hle. congruence.
Qed.

(** A pass over the waiting queue admits a prefix of it, each request with one
    lock, and the batch fits the memory and the request slots. *)
Definition pass_post (queue : list SReq) (L : list nat) ad (queue' : list SReq) ad' : Prop :=
  ∃ added locks, adder_inv ad' (locks ++ L) ∧ can_run_list ad' = can_run_list ad ++ added ∧
    added `prefix_of` queue' ∧ rid <$> queue' = rid <$> queue ∧ length locks = length added ∧
    (added = [] ∨ Z.of_nat (length (can_run_list ad')) ≤ pc_req_slots (ad_cache ad')).

Lemma pass_none queue queue' L ad ad' :
  ad' = set_exec (ad_exec ad') (set_cache (ad_cache ad') ad) → adder_inv ad' L →
  rid <$> queue' = rid <$> queue → pass_post queue L ad queue' ad'.
Proof.
  intros Had' Hi Hq. assert (Hc : can_run_list ad' = can_run_list ad) by (by rewrite Had').
  exists [], []. rewrite app_nil_r, Hc. split_and!; try done; [apply prefix_nil|by left].
Qed.

Lemma pass_cons r r2 queue queue' L n ad ad2 ad' :
  can_run_list ad2 = can_run_list ad ++ [r2] → rid r2 = rid r →
  Z.of_nat (length (can_run_list ad2)) ≤ pc_req_slots (ad_cache ad2) → pc_req_slots (ad_cache ad') = pc_req_slots (ad_cache ad2) →
  pass_post queue (n :: L) ad2 queue' ad' → pass_post (r :: queue) L ad (r2 :: queue') ad'.
Proof.
  intros Hc Hr Hs2 Hsl (added & locks & Hi & Hc' & Hp & Hq & Hl & Hs).
  exists (r2 :: added), (locks ++ [n]). rewrite <-app_assoc, Hc' in *.
  split_and!.
  - done.
  - by rewrite Hc, <-app_assoc.
  - by apply prefix_cons.
  - csimpl. by rewrite Hr, Hq.
  - rewrite length_app. cbn. lia.
  - right. destruct Hs as [->|?]; [by rewrite app_nil_r, Hsl|done].
Qed.

Lemma add_waiting_ok pp low al full queue L ad :
  adder_inv ad L → (∀ a, al = Some a → 0 < a) → Forall (λ r, 0 ≤ max_new_tokens r) queue →
  ∃ full' queue' ad', add_waiting ac gather perf_counter pp false low al full queue ad = Ok (full', queue', ad') ∧
    pass_post queue L ad queue' ad' ∧ pc_req_slots (ad_cache ad') = pc_req_slots (ad_cache ad).
Proof.
  intros Hinv Hal Hq. revert full L ad Hinv.
  induction Hq as [|r queue Hr Hq IH]; intros full L ad Hinv.
  { exists full, [], ad. split; [done|]. split; [|done]. apply pass_none; [by destruct ad|done..]. }
  cbn [add_waiting]. set (running_bs := Z.of_nat _). set (full1 := orb _ full).
  destruct full1 eqn:Hfull1; cbn [rbind].
  { eexists _, _, _; split; [done|]. split; [|done]. apply pass_none; [by destruct ad|done..]. }
  apply orb_false_iff in Hfull1 as [Hroom%Z.leb_gt ->]. unfold get_num_allocatable_reqs in Hroom.
  destruct (pc_next_round_ok (ad_cache ad) L r (ai_wf _ _ Hinv) (ai_enabled _ _ Hinv)) as
    (r1 & s1 & n & -> & Hwf1 & Hnode & Hlast & Hdev & Hpre & Hmax & Hrid & Hae & Hsl1 & Hdis1).
  cbn [rbind]. set (ad1 := set_cache s1 ad).
  assert (Hinv1 : adder_inv ad1 L).
  { destruct Hinv as [? ? ? ? Hf ?]. split; cbn; try done; [by rewrite Hdis1|by rewrite Hae]. }
  destruct (add_one_req_ok al r1 n L ad1 Hinv1) as (res & r2 & ad2 & -> & Hcase);
    [split; (done || lia)|done|]. cbn [rbind].
  destruct Hcase as [[(Hres & -> & Had2) Hinv2]|(Hadm & _ & _ & Hinv2 & _)].
  { assert (Hc2 : ad_cache ad2 = s1) by (by rewrite Had2).
    destruct res; [done| |]; (eexists _, _, _; split; [done|]; split; [|by rewrite Hc2];
      apply pass_none; [rewrite Had2; by destruct ad|done|csimpl; by rewrite Hrid]). }
  destruct Hadm as (Hcan & Hinc & (stop & Hr2 & _) & _).
  destruct (pc_inc_ok s1 L n Hwf1 Hnode) as (s2 & Hinc2 & _ & _ & _ & Hsl2 & _).
  cbn in Hinc. rewrite Hinc2 in Hinc. injection Hinc as Hs2.
  assert (Hsl : pc_req_slots (ad_cache ad2) = pc_req_slots (ad_cache ad)) by (by rewrite <-Hs2, Hsl2, Hsl1).
  assert (Hslots2 : Z.of_nat (length (can_run_list ad2)) ≤ pc_req_slots (ad_cache ad2)).
  { rewrite Hsl, Hcan, length_app. cbn. lia. }
  assert (Hrid2 : rid r2 = rid r) by (subst r2; exact Hrid).
  assert (Hone : pass_post (r :: queue) L ad (r2 :: queue) ad2).
  { eapply pass_cons; [done..|]. apply pass_none; [by destruct ad2|done..]. }
  destruct res; [|by eexists _, _, _..].
  destruct (IH false (n :: L) ad2 Hinv2) as (full' & queue' & ad3 & -> & Hpost & Hsl3). cbn [rbind].
  eexists _, _, _; split; [done|]. split; [by eapply pass_cons|congruence].
Qed.

(** Once a request is chunked, the rest of the chunk budget has no room for
    another chunk. *)
Definition chunk_spent (al : option Z) ad : Prop :=
  new_chunked_req ad ≠ None →
  ∃ c, rem_chunk_tokens (ad_budget ad) = Some c ∧
    c / ac_page_size ac * ac_page_size ac < default (ac_page_size ac) al.

Lemma spent_no_chunk al c pl :
  c / ac_page_size ac * ac_page_size ac < default (ac_page_size ac) al →
  chunk_trunc_len ac c pl al = None.
Proof.
  intros Hc. pose proof (co_page Hcfg). unfold chunk_trunc_len.
  destruct (Z.leb_spec (c / ac_page_size ac * ac_page_size ac) 0); [done|].
  destruct al as [a|]; cbn in Hc.
  - by rewrite (proj2 (Z.ltb_lt _ a)).
  - exfalso. assert (c / ac_page_size ac < 1) by nia. nia.
Qed.

(** What is left after a chunk of an aligned prefix. *)
Lemma chunk_rest al c pl t :
  (ac_page_size ac | pl)%Z → (∀ a, al = Some a → 0 < a ∧ (ac_page_size ac | a)%Z) →
  chunk_trunc_len ac c pl al = Some t →
  (c - ceil_paged_tokens ac t) / ac_page_size ac * ac_page_size ac < default (ac_page_size ac) al.
Proof.
  set (ps := ac_page_size ac). intros [q ->] Hal Ht. pose proof (co_page Hcfg) as Hps. fold ps in Hps.
  unfold chunk_trunc_len in Ht. fold ps in Ht.
  destruct (Z.leb_spec (c / ps * ps) 0) as [|Hpos]; [done|].
  assert (Hx : ∀ x, (x * ps + q * ps) / ps * ps - q * ps = x * ps).
  { intros x. rewrite <-Z.mul_add_distr_r, Z.div_mul by lia. lia. }
  assert (Hfl : ∀ x, (c - x * ps) / ps * ps = c / ps * ps - x * ps).
  { intros x. replace (c - x * ps) with (c + (- x) * ps) by lia. rewrite Z.div_add by lia. lia. }
  assert (Hid : ∀ x, ceil_paged_tokens ac (x * ps) = x * ps)
    by (intros x; apply ceil_paged_id; [done|by exists x]).
  destruct al as [a|]; cbn [default from_option id] in *.
  - destruct (Hal a eq_refl) as [Ha [b Hb]]. fold ps in Hb.
    destruct (Z.ltb_spec (c / ps * ps) a); [done|].
    set (m := c / ps * ps / a) in *. replace (a * m) with (m * b * ps) in Ht by (rewrite Hb; lia).
    rewrite Hx in Ht. case_match; [done|]. injection Ht as <-. rewrite Hid, Hfl.
    pose proof (Z.div_mod (c / ps * ps) a ltac:(lia)) as Hdm. fold m in Hdm.
    pose proof (Z.mod_pos_bound (c / ps * ps) a Ha). nia.
  - rewrite Hx in Ht. case_match; [done|]. injection Ht as <-. rewrite Hid, Hfl. lia.
Qed.

(** A pass never chunks a second request. *)
Lemma chunk_once al r n L ad res r' ad' :
  adder_inv ad L → req_ready (ad_cache ad) r n → (ac_page_size ac | prefix_len r)%Z →
  (∀ a, al = Some a → 0 < a ∧ (ac_page_size ac | a)%Z) → chunk_spent al ad →
  add_one_req ac gather perf_counter al r ad = Ok (res, r', ad') →
  chunk_spent al ad' ∧
  (new_chunked_req ad ≠ None → new_chunked_req ad' = new_chunked_req ad).
Proof.
  intros Hinv Hready Hpl Hal Hsp Hrun.
  destruct (add_one_req_ok al r n L ad Hinv Hready) as (res0 & r0 & ad0 & Hrun0 & Hcase);
    [by intros a Ha; apply Hal|]. rewrite Hrun in Hrun0. simplify_eq.
  pose proof (co_page Hcfg) as Hps.
  destruct Hcase as [[(_ & _ & Had) _]|[(_ & _ & (stop & Hr & Hst & Hnew) & _ & Hchk) _]].
  { rewrite Had. by split. }
  destruct Hnew as [(Hnew & Hfull & _)|(Hnew & Hlt & c & Hc & Htr)].
  - split; [|by intros]. intros Hn. rewrite Hnew in Hn. destruct (Hsp Hn) as (c & Hc & Hb).
    rewrite Hchk, Hc. eexists; split; [done|]. eapply Z.le_lt_trans; [|exact Hb].
    apply Z.mul_le_mono_nonneg_r; [lia|]. apply Z.div_le_mono; [lia|].
    pose proof (ceil_paged_bounds ac Hps (extend_length r0)).
    assert (0 ≤ extend_length r0) by (subst r0; cbn; lia). lia.
  - split.
    + intros _. rewrite Hchk, Hc. eexists; split; [done|]. by eapply chunk_rest.
    + intros Hn. destruct (Hsp Hn) as (c' & Hc' & Hb). rewrite Hc in Hc'. injection Hc' as <-.
      by rewrite (spent_no_chunk al c (prefix_len r) Hb) in Htr.
Qed.
End admission.

Lemma qsum_nonneg l : Forall (λ q, 0 <= q)%Q l → (0 <= qsum l)%Q.
Proof. induction 1 as [|q l Hq _ IH]; cbn; [done|]. unfold qsum in IH. lra. Qed.

(** The estimates of the running requests are not negative. *)
Lemma init_adder_inv {S} `{PrefixCache S} `{!PrefixCacheLaws S} ac (s : S) exec running input chunk mixed
    dllm mamba1 mamba2 L :
  pc_wf s L → pc_disable s = false → 0 ≤ mixed → (0 <= new_token_ratio ac)%Q → 0 ≤ clip_max_new_tokens ac →
  Forall (λ r, output_len r ≤ max_new_tokens r) running →
  adder_inv ac (init_adder ac s exec (Some running) input chunk mixed dllm mamba1 mamba2) L.
Proof.
  intros Hw Hd Hm Hr Hc Hrun. split; cbn; [done|done|done| |by left|done].
  assert (0 <= qsum (get_running_request_total_token_offset ac <$> running))%Q as Hq.
  { apply qsum_nonneg, Forall_fmap. eapply Forall_impl; [exact Hrun|]. intros r Hr0. cbn.
    unfold get_running_request_total_token_offset. apply Qmult_le_0_compat; [|done].
    change 0%Q with (inject_Z 0). rewrite <-Zle_Qle. cbn beta in Hr0. lia. }
  assert (0 <= inject_Z mixed)%Q by (change 0%Q with (inject_Z 0); by rewrite <-Zle_Qle).
  change (inject_Z 0) with 0%Q. unfold qsum in Hq. lra.
Qed.

(** ** The radix cache keeps the contract *)

Section radix_laws.
Context {A : Type} `{KVPool A} `{KVAlloc A} `{Env} `{!EnvLaws} `{HeapQ}.
Variable cfg : Config.
Implicit Types st : RadixCache A.
Notation ps := (page_size cfg).
Notation eagle := (is_eagle cfg).

Lemma bumped_back l t t1 t2 :
  acct_wf t → acct_wf t2 → bumped 1 l t t1 → bumped (-1) l t1 t2 → t2 = t.
Proof.
  intros Ha Ha2 (Hr1 & Hc1 & Hn1) (Hr2 & Hc2 & Hn2).
  assert (Hn : nodes t2 = nodes t).
  { apply map_eq. intros x. rewrite Hn2, Hn1. destruct (nodes t !! x) as [nd|]; [|done]. cbn.
    f_equal. destruct nd. unfold set_lock_ref. cbn. f_equal. lia. }
  assert (Hr : root_node t2 = root_node t) by congruence.
  assert (He : evictable_size_ t2 = evictable_size_ t) by (by rewrite (aw_free _ Ha2), (aw_free _ Ha), Hn, Hr).
  assert (Hp : protected_size_ t2 = protected_size_ t) by (by rewrite (aw_held _ Ha2), (aw_held _ Ha), Hn, Hr).
  assert (Hl : evictable_leaves t2 = evictable_leaves t).
  { apply leibniz_equiv, set_equiv. intros n. by rewrite (aw_leaves _ Ha2), (aw_leaves _ Ha), Hn. }
  destruct t, t2. cbn in *. congruence.
Qed.

(** A lock that is taken and released leaves the cache as it was. *)
Lemma inc_dec_id st L n :
  cache_wf cfg st L → disable cfg = false → is_Some (nodes (tree st) !! n) →
  ∃ d st' d', inc_lock_ref cfg n st = Ok (d, st') ∧ dec_lock_ref cfg n st' = Ok (d', st).
Proof.
  intros Hwf Hdis Hn. destruct (inc_lock_ref_ok cfg st L n Hwf Hdis Hn) as (d & st' & Hinc & Hwf' & _).
  destruct (dec_lock_ref_ok cfg st' L n Hwf' Hdis) as (d' & st2 & Hdec & Hwf2 & _).
  exists d, st', d'. split; [done|]. rewrite Hdec. do 2 f_equal.
  pose proof Hwf as [_ [Hw _ Ha] _ _]. pose proof Hwf' as [_ [Hw' (P & HP & Hcnt) Ha'] _ _].
  pose proof Hwf2 as [_ [_ _ Ha2] _ _].
  unfold inc_lock_ref, dec_lock_ref in Hinc, Hdec. rewrite Hdis in Hinc, Hdec.
  destruct (sw_path _ _ _ Hw n Hn) as [l Hl].
  destruct (inc_loop_ok (ps := ps) (eagle := eagle) (climb_fuel (tree st)) (tree st) n l 0) as
    (d1 & t1 & Hl1 & Hb & _); [done..| |].
  { unfold climb_fuel. pose proof (path_length _ _ _ Hl). lia. }
  rewrite Hl1 in Hinc. cbn in Hinc. injection Hinc as <- <-.
  assert (Hl' : path_up (root_node t1) (par_of t1) n l) by (by eapply bumped_path).
  destruct (dec_loop_ok (ps := ps) (eagle := eagle) (climb_fuel t1) t1 n l 0) as
    (d2 & t2 & Hl2 & Hb2 & _ & Ha2' & _); [done..| | |].
  { intros x nd Hx Hnd. destruct (bumped_lookup _ _ _ _ _ _ Hb Hnd) as (nd0 & Hx0 & ->). cbn.
    rewrite (pcount_NoDup_in x l) by (done || by eapply path_up_NoDup).
    pose proof (sw_lock_nonneg _ _ _ Hw Hx0). lia. }
  { unfold climb_fuel. pose proof (path_length _ _ _ Hl'). cbn in *. lia. }
  change (tree (with_tree t1 st)) with t1 in Hdec. rewrite Hl2 in Hdec. cbn in Hdec. injection Hdec as <- <-.
  rewrite (bumped_back l (tree st) t1 t2) by done. by destruct st.
Qed.

(** Lookups move no tokens between the accounts. *)
Definition sizes st : Z * Z := (evictable_size_ (tree st), protected_size_ (tree st)).

Lemma split_node_sizes key c n st x st' :
  split_node cfg key c n st = Ok (x, st') → sizes st' = sizes st.
Proof. unfold split_node. intros Hs. inv_ok. destruct (split_node_hash_value _ _ _). by simplify_eq. Qed.

Lemma match_loop_sizes fuel time node key ck vs st vs' x st' :
  match_loop cfg fuel time node key ck vs st = Ok (vs', x, st') → sizes st' = sizes st.
Proof.
  revert node key ck vs st; induction fuel as [|fuel IH]; intros node key ck vs st; [done|].
  cbn [match_loop]. intros Hm. inv_ok. case_match; [|by simplify_eq].
  case_match; [|by simplify_eq]. inv_ok. case_match; inv_ok.
  - destruct ra2 as [? ?]. inv_ok. erewrite split_node_sizes by done. done.
  - erewrite IH by done. done.
Qed.

Lemma match_prefix_sizes key st vs x st' :
  match_prefix cfg key st = Ok (vs, x, st') → sizes st' = sizes st.
Proof.
  unfold match_prefix. destruct (maybe_to_bigram_view key (is_eagle cfg) None) as [k ?].
  case_match; [by intros; simplify_eq|]. intros Hm. inv_ok. case_match; [by simplify_eq|].
  inv_ok. destruct ra0 as [[? ?] ?]. simplify_eq. unfold match_prefix_helper in *.
  match goal with H : rbind _ _ = Ok _ |- _ => apply rbind_Ok in H as (ck & _ & H) end.
  erewrite match_loop_sizes by done. done.
Qed.

Context `{!KVPoolSlots A} `{!KVAllocLaws A}.
Variables (strip spec_algo : bool) (retract_decode_steps : Z).
Hypothesis Hdis : disable cfg = false.
Local Instance rpc : PrefixCache (Sys A) := radix_prefix_cache cfg strip spec_algo retract_decode_steps.

Definition radix_wf (s : Sys A) (L : list nat) : Prop :=
  cache_wf cfg (cache s) L ∧ kv_ready (allocator (cache s)).
Definition radix_node (s : Sys A) (n : nat) : Prop := is_Some (nodes (tree (cache s)) !! n).

Lemma radix_inc_ok (s : Sys A) L n :
  radix_wf s L → radix_node s n →
  ∃ s', pc_inc_lock_ref (Some n) s = Ok s' ∧ radix_wf s' (n :: L) ∧ radix_node s' n ∧
    pc_dec_lock_ref (Some n) s' = Ok s ∧ pc_req_slots s' = pc_req_slots s ∧
    pc_disable s' = pc_disable s.
Proof.
  intros [Hw Hr] Hn. destruct (inc_lock_ref_ok cfg (cache s) L n Hw Hdis Hn) as (d & st' & Hinc & Hw' & Hs).
  destruct (inc_dec_id (cache s) L n Hw Hdis Hn) as (d1 & st1 & d2 & Hinc1 & Hdec).
  rewrite Hinc in Hinc1. injection Hinc1 as <- <-.
  exists (mkSys st' (req_to_token_pool s)). cbn. unfold radix_inc_lock_ref, radix_dec_lock_ref.
  rewrite Hdis. cbn. rewrite Hinc, Hdec. cbn. split_and!; try done.
  - split; [done|]. cbn. destruct (lk_frame _ _ _ _ Hs) as [-> _]. done.
  - by apply (lk_node _ _ _ _ Hs).
  - by destruct s.
Qed.

Lemma view_key_len ids e lim : (key_len (view eagle (mkKey ids e false lim)) ≤ length ids)%nat.
Proof.
  unfold view, maybe_to_bigram_view, key_len, raw_len. destruct eagle; cbn;
    repeat case_match; repeat match goal with H : (_ <? _)%nat = true |- _ => apply Nat.ltb_lt in H end; lia.
Qed.

Lemma radix_next_round_ok (s : Sys A) L r :
  radix_wf s L → pc_disable s = false →
  ∃ r' s' n, pc_init_next_round r s = Ok (r', s') ∧ radix_wf s' L ∧ radix_node s' n ∧
    last_node (kv r') = Some n ∧ needs_host_load_back r' = false ∧
    prefix_len r' ≤ fill_len r' ∧ max_new_tokens r' = max_new_tokens r ∧ rid r' = rid r ∧
    (∀ ac, available_and_evictable ac s' = available_and_evictable ac s) ∧
    pc_req_slots s' = pc_req_slots s ∧ pc_disable s' = pc_disable s.
Proof.
  intros [Hw Hr] _. cbn. unfold radix_init_next_round, init_next_round_input.
  set (r1 := refresh_fill_ids (kv r)). set (r2 := if _ && _ then _ else r1).
  destruct (if has_embed_overrides r2 then _ else _) as [ids lim] eqn:Hids.
  assert (Hlen : (length ids ≤ length (full_untruncated_fill_ids r2))%nat).
  { destruct (has_embed_overrides r2); simplify_eq; cbn; lia. }
  set (key := mkKey ids _ _ _).
  destruct (match_prefix_ok cfg (cache s) L key Hw Hdis) as (vs & n & st' & Hm & Hs); [done|].
  rewrite Hm. cbn [rbind].
  pose proof (match_prefix_sizes _ _ _ _ _ Hm) as Hsz. injection Hsz as He Hp.
  destruct (ms_frame _ _ _ _ _ _ _ Hs) as (Hal & _).
  destruct (sw_root _ _ _ (tw_shape _ _ _ _ (cw_tree _ _ _ (ms_wf _ _ _ _ _ _ _ Hs)))) as (rn & Hrn & _).
  destruct force_miss.
  { eexists _, _, (root_node (tree st')). split; [done|]. split_and!; try done.
    - split; [apply Hs|]. cbn. by rewrite Hal.
    - by eexists.
    - unfold prefix_len, fill_len. cbn. lia.
    - intros ac. unfold available_and_evictable. cbn. by rewrite Hal, He. }
  eexists _, _, n. split; [done|]. split_and!; try done.
  - split; [apply Hs|]. cbn. by rewrite Hal.
  - eapply down_node; [by eapply ms_down|]. rewrite <-(ms_root _ _ _ _ _ _ _ Hs). eauto.
  - unfold prefix_len, fill_len. cbn. pose proof (ms_len _ _ _ _ _ _ _ Hs).
    pose proof (view_key_len ids (req_extra_key r2) lim). unfold key in *. lia.
  - intros ac. unfold available_and_evictable. cbn. by rewrite Hal, He.
Qed.

Definition radix_prefix_cache_laws : PrefixCacheLaws (Sys A) :=
  {| pc_wf := radix_wf; pc_node := radix_node; pc_inc_ok := radix_inc_ok;
     pc_next_round_ok := radix_next_round_ok |}.
End radix_laws.
