(* ===== verification/PassInv.v ===== *)
(** A prefill pass on the serving invariant: every request the adder admits holds a
    lock on its cached prefix and waits for its slots, at most the last one is chunked,
    and there is room for the batch and for the rest of a chunked input. *)

From stdpp Require Import base gmap strings list relations.
From Stdlib Require Import ZArith QArith Lia Lqa.
From S2P Require Import Prelude.
From S2P Require Import PyData.
From S2P Require Import RadixKey.
From S2P Require Import RadixTree.
From S2P Require Import RadixInv.
From S2P Require Import RadixContent.
From S2P Require Import RadixOps.
From S2P Require Import RadixInsert.
From S2P Require Import RadixEvict.
From S2P Require Import RadixSession.
From S2P Require Import ReqCache.
From S2P Require Import ReqCacheInv.
From S2P Require Import ReqAlloc.
From S2P Require Import ReqLife.
From S2P Require Import BatchAlloc.
From S2P Require Import Delayer.
From S2P Require Import PrefillAdder.
From S2P Require Import ScheduleBatch.
From S2P Require Import ServeInv.
From S2P Require Import ServeOps.
From S2P Require Import Room.
From S2P Require Import ExtendInv.
From S2P Require Import PrefillAdderInv.

Open Scope Z_scope.

(** ** Requests that wait *)

(** What no lookup and no admission changes. *)
Record kin (r r' : SReq) : Prop := {
  kn_rid : rid r' = rid r;
  kn_max_new : max_new_tokens r' = max_new_tokens r;
  kn_finished : is_finished r' = is_finished r;
  kn_origin : origin_input_ids (kv r') = origin_input_ids (kv r);
  kn_output : output_ids (kv r') = output_ids (kv r);
  kn_skip : skip_radix_cache_insert (kv r') = skip_radix_cache_insert (kv r);
  kn_priority : req_priority (kv r') = req_priority (kv r);
  kn_chunks : inflight_middle_chunks (kv r') = inflight_middle_chunks (kv r);
}.

Global Instance kin_preorder : PreOrder kin.
Proof. split; [by split|]. intros x y z [] []. split; congruence. Qed.

Lemma kin_all_ids r r' : kin r r' → all_ids (kv r') = all_ids (kv r).
Proof. intros [_ _ _ Ho Hq _ _ _]. unfold all_ids. by rewrite Ho, Hq. Qed.

(** A request that fits the context and the pool and does not exceed its output; [prio]
    says that requests have priorities. *)
Record decent (prio : bool) (ctx : nat) (pool : Z) (r : SReq) : Prop := {
  dc_skip : skip_radix_cache_insert (kv r) = false;
  dc_fits : Z.of_nat (length (origin_input_ids (kv r))) + max_new_tokens r ≤ Z.of_nat ctx;
  dc_output : output_len r ≤ max_new_tokens r;
  dc_priority : prio = true → is_Some (req_priority (kv r));
  dc_chunks : inflight_middle_chunks (kv r) = 0;
  dc_pool : Z.of_nat (length (origin_input_ids (kv r))) + max_new_tokens r + 1 < pool;
}.

Lemma decent_kin prio ctx pool r r' : kin r r' → decent prio ctx pool r → decent prio ctx pool r'.
Proof.
  intros [_ Hm _ Ho Hq Hs Hp Hc] [? ? Hout ? ? ?]. unfold output_len in Hout.
  split; unfold output_len; rewrite ?Hm, ?Ho, ?Hq, ?Hs, ?Hp, ?Hc; done.
Qed.

Lemma decent_ids prio ctx pool r : decent prio ctx pool r → (length (all_ids (kv r)) ≤ ctx)%nat.
Proof. intros [_ Hf Ho _ _ _]. unfold output_len in Ho. unfold all_ids. rewrite length_app. lia. Qed.

Record queued (prio : bool) (ctx : nat) (pool : Z) (r : SReq) : Prop := {
  qd_decent : decent prio ctx pool r;
  qd_waiting : waiting (kv r);
  qd_running : is_finished r = false;
}.

Section pass.
Context {A : Type} `{KVPool A} `{!KVPoolTotal A} `{!KVPoolSlots A} `{KVAlloc A} `{!KVAllocLaws A} `{KVPaged A}.
Context `{Env} `{!EnvLaws} `{HeapQ} `{!HeapQLaws}.
Variable cfg : Config.
Hypothesis Hdis : disable cfg = false.
Variables (strip spec : bool) (steps : Z).
Local Instance pass_cache : PrefixCache (Sys A) := radix_prefix_cache cfg strip spec steps.
Local Instance pass_cache_laws : PrefixCacheLaws (Sys A) := radix_prefix_cache_laws cfg strip spec steps Hdis.
Variables (ac : AdderCfg) (gather : Delayer.Info → list Delayer.Info) (perf_counter : nat → Q).
Hypothesis Hac : cfg_ok ac gather.
Hypothesis Hps : ac_page_size ac = 1.
Hypothesis Hplain : is_all_swa ac = false ∧ is_hybrid_swa ac = false ∧ is_hybrid_ssm_cache ac = false.
Variables (prio : bool) (ctx : nat) (total : Z).
Implicit Types ad : Adder (Sys A).

Lemma available_is_room (s : Sys A) : available_and_evictable ac s = room s.
Proof. unfold available_and_evictable. by destruct Hplain as (-> & -> & ->). Qed.

(** The lookup of a waiting request. *)
Lemma lookup_kin (r : SReq) (s : Sys A) L :
  cache_wf cfg (cache s) L → waiting (kv r) →
  ∃ r1 s1, pc_init_next_round r s = Ok (r1, s1) ∧ kin r r1 ∧ waiting (kv r1) ∧
    full_untruncated_fill_ids (kv r1) = all_ids (kv r) ∧
    init_next_round_input cfg (kv r) s = Ok (kv r1, s1) ∧ req_to_token_pool s1 = req_to_token_pool s ∧
    allocator (cache s1) = allocator (cache s) ∧ kept (cache s) (cache s1) ∧ all_slots (cache s1) ≡ₚ all_slots (cache s) ∧
    cache_wf cfg (cache s1) L.
Proof.
  intros Hw [Hrow Hfl Hfill Hne]. cbn. unfold radix_init_next_round.
  destruct (next_round_ok cfg Hdis s (kv r) L Hw Hfill) as (vs & n & st' & Hn & Hw' & Hk & Hs & _ & _ & _ & Ha & _).
  rewrite Hn. cbn [rbind]. destruct (refreshed_same (kv r) Hfill) as [F1 [F2 F3] F4 F5 _ [F6 F7] F8 _ _ _].
  eexists _, _. split; [done|]. split_and!; try done.
  - split; cbn; try done; unfold refreshed, refresh_fill_ids; repeat case_match; done.
  - destruct Hfl as [Hf1 Hf2]. split; cbn.
    + by rewrite F5.
    + by rewrite F6, F7.
    + intros _. left. cbn. rewrite F1, F2, F3. done.
    + unfold all_ids in *. cbn. by rewrite F2, F3.
Qed.

(** Lookups leave everybody alone. *)
Lemma serve_looked_up S0 (s : Sys A) st' run ready :
  serve_core cfg S0 s run ready → cache_wf cfg st' (omap last_node (run ++ ready)) →
  kept (cache s) st' → all_slots st' ≡ₚ all_slots (cache s) →
  serve_core cfg S0 (mkSys st' (req_to_token_pool s)) run ready.
Proof.
  intros [Hw Hs Hp Ht Hrun Hready] Hw' Hk Hs'.
  destruct (run_oks_kept cfg s (mkSys st' (req_to_token_pool s)) run (omap last_node run) Hrun)
    as [Hrun2 Hown]; [done|by intros; eapply last_nodes|by apply walks_kept_kept|].
  split; try done.
  - cbn [cache]. by rewrite <-Hs, Hs', Hown.
  - eapply ready_oks_kept; [done| |by apply (walks_kept_kept (omap last_node ready))]. by intros; eapply last_nodes.
Qed.

(** ** One request *)

(** The admitted requests of the pass. *)
Record batching S0 (run : list Req) (pool : ReqToTokenPool) ad : Prop := {
  bg_adder : ∃ L, adder_inv ac ad L;
  bg_core : serve_core cfg S0 (ad_cache ad) run (kv <$> can_run_list ad);
  bg_pool : req_to_token_pool (ad_cache ad) = pool;
}.

(** Its whole input is in the batch. *)
Definition whole (r : SReq) : Prop := stop_of (kv r) = length (all_ids (kv r)).

Lemma batching_looked_up S0 run pool ad r r1 s1 :
  batching S0 run pool ad → waiting (kv r) → pc_init_next_round r (ad_cache ad) = Ok (r1, s1) →
  batching S0 run pool (set_cache s1 ad) ∧ kin r r1 ∧ waiting (kv r1) ∧
    full_untruncated_fill_ids (kv r1) = all_ids (kv r) ∧ available_and_evictable ac s1 = available_and_evictable ac (ad_cache ad).
Proof.
  intros [[L Hi] Hc Hp] Hwt Hn.
  destruct (lookup_kin r (ad_cache ad) _ (sv_wf _ _ _ _ _ Hc) Hwt) as
    (r1' & s1' & Hn' & Hkin & Hwt1 & Hfill & _ & Hpool & Ha & Hk & Hs & Hw').
  rewrite Hn in Hn'. simplify_eq.
  destruct (pc_next_round_ok (ad_cache ad) L r (ai_wf _ _ _ Hi) (ai_enabled _ _ _ Hi)) as
    (r2 & s2 & n & Hn2 & Hwf & _ & _ & _ & _ & _ & _ & Hav & _ & Hd).
  rewrite Hn in Hn2. simplify_eq. split; [|by split_and!]. split; cbn [ad_cache can_run_list set_cache].
  - exists L. destruct Hi as [? ? ? ? Hf ?]. split; cbn; try done. by rewrite Hav.
  - pose proof (serve_looked_up S0 (ad_cache ad) (cache s2) run (kv <$> can_run_list ad) Hc Hw' Hk Hs) as Hc2.
    rewrite <-Hpool in Hc2. by destruct s2.
  - done.
Qed.

(** An admitted request: its prefix is locked, its range ends where the call says. *)
Record joined (r : SReq) ad (r2 : SReq) ad2 : Prop := {
  jn_kin : kin r r2;
  jn_last : can_run_list ad2 = can_run_list ad ++ [r2];
  jn_row : req_pool_idx (kv r2) = None;
  jn_len : 0 < extend_length r2;
  jn_chunk : new_chunked_req ad2 = new_chunked_req ad ∧ whole r2 ∨
    new_chunked_req ad2 = Some r2 ∧ (stop_of (kv r2) < length (all_ids (kv r2)))%nat ∧
    rem_chunk_tokens (ad_budget ad2) = Some 0;
  jn_room : batch_tokens ac (can_run_list ad) + Z.of_nat (length (all_ids (kv r2)) - length (prefix_indices (kv r2))) + 1
    < room (ad_cache ad2);
  jn_size : is_Some (rem_chunk_tokens (ad_budget ad2)) → is_Some (rem_chunk_tokens (ad_budget ad));
  jn_open : Qlt 0 (rem_total_tokens ac ad) ∧ ∀ c, rem_chunk_tokens (ad_budget ad) = Some c → 0 < c;
}.

Lemma ceil_one n : ceil_paged_tokens ac n = n.
Proof. unfold ceil_paged_tokens. rewrite Hps, Z.div_1_r. lia. Qed.

Lemma chunk_one c pl t : chunk_trunc_len ac c pl None = Some t → t = c ∧ 0 < c.
Proof.
  unfold chunk_trunc_len. rewrite Hps, !Z.div_1_r, Z.mul_1_r. destruct (Z.leb_spec c 0); [done|].
  replace ((c + pl) * 1 - pl) with c by lia. destruct (Z.leb_spec c 0); [done|]. intros [= <-]. done.
Qed.

(** [serve_admit] for the request that was looked up. *)
Lemma lock_core S0 run (s : Sys A) ready r k s1 n s2 stop :
  serve_core cfg S0 s run ready → waiting r → init_next_round_input cfg r s = Ok (k, s1) → last_node k = Some n →
  pc_inc_lock_ref (Some n) s1 = Ok s2 →
  (length (prefix_indices k) < length (all_ids r))%nat ∧ req_to_token_pool s2 = req_to_token_pool s1 ∧
  ((length (prefix_indices k) < stop ≤ length (all_ids r))%nat →
   serve_core cfg S0 s2 run (set_extend_range (Z.of_nat (length (prefix_indices k))) (Z.of_nat stop) k :: ready)).
Proof.
  intros Hc Hw Hi Hn Hl. destruct (serve_admit cfg Hdis S0 s run ready r stop Hc Hw) as
    (k' & s1' & n' & d & st2 & Hi' & Hn' & Hl' & Hlt & _ & Hcore).
  rewrite Hi in Hi'. simplify_eq. cbn in Hl. unfold radix_inc_lock_ref in Hl. rewrite Hdis in Hl. cbn in Hl.
  rewrite Hl' in Hl. cbn in Hl. simplify_eq. done.
Qed.

Lemma add_one_joined S0 run pool ad r :
  batching S0 run pool ad → waiting (kv r) → 0 ≤ max_new_tokens r →
  ∃ r1 s1 res r2 ad2, pc_init_next_round r (ad_cache ad) = Ok (r1, s1) ∧
    add_one_req ac gather perf_counter None r1 (set_cache s1 ad) = Ok (res, r2, ad2) ∧
    batching S0 run pool ad2 ∧ ad_running ad2 = ad_running ad ∧ preempt_list ad2 = preempt_list ad ∧
    ((res ≠ CONTINUE ∧ kin r r2 ∧ waiting (kv r2) ∧ can_run_list ad2 = can_run_list ad ∧
      new_chunked_req ad2 = new_chunked_req ad) ∨
     (joined r ad r2 ad2 ∧ (res = CONTINUE → new_chunked_req ad2 = new_chunked_req ad ∧ whole r2))).
Proof.
  intros Hb Hwt Hmax. pose proof Hb as [[L Hi] Hc Hp].
  destruct (lookup_kin r (ad_cache ad) _ (sv_wf _ _ _ _ _ Hc) Hwt) as
    (r1 & s1 & Hn & Hkin & Hwt1 & Hfill & Hinit & Hpool & _).
  destruct (batching_looked_up _ _ _ _ _ _ _ Hb Hwt Hn) as (Hb1 & _ & _ & _ & Hav).
  destruct (pc_next_round_ok (ad_cache ad) L r (ai_wf _ _ _ Hi) (ai_enabled _ _ _ Hi)) as
    (r1' & s1' & n & Hn' & Hwf1 & Hnode & Hlast & Hdev & Hpre & Hmx & _).
  rewrite Hn in Hn'. injection Hn' as <- <-. clear Hb.
  assert (Hi1 : adder_inv ac (set_cache s1 ad) L).
  { destruct Hi as [? He ? ? Hf ?]. split; cbn; try done. by rewrite Hav. }
  destruct (add_one_req_ok ac gather perf_counter Hac None r1 n L (set_cache s1 ad) Hi1) as (res & r2 & ad2 & Hadd & Hcase);
    [split; (done || lia)|done|].
  exists r1, s1, res, r2, ad2. split; [done|]. split; [done|].
  destruct Hcase as [[(Hres & -> & Had2) Hi2]|(Hadm & _ & Hbs & Hi2 & Hroom & Hopen)].
  { rewrite Had2. cbn. split; [|split_and!; [done..|left; by split_and!]].
    destruct Hb1 as [? ? ?]. split; [|done..]. exists L. by rewrite <-Had2. }
  destruct Hadm as (Hcan & Hinc & (stop & Hr2 & Hstop & Hnew) & [Hrn Hpl] & Hchk).
  cbn [ad_cache set_cache ad_running preempt_list can_run_list new_chunked_req ad_budget] in *.
  destruct (lock_core S0 run (ad_cache ad) (kv <$> can_run_list ad) (kv r) (kv r1) s1 n (ad_cache ad2) (Z.to_nat stop)
    Hc Hwt Hinit Hlast Hinc) as (Hlt & Hpool2 & Hcore).
  assert (Hids : fill_len r1 = Z.of_nat (length (all_ids (kv r)))) by (unfold fill_len; by rewrite Hfill).
  unfold prefix_len in *.
  assert (Hst : Z.of_nat (length (prefix_indices (kv r1))) < stop ≤ fill_len r1).
  { destruct Hnew as [(_ & -> & _)|(_ & ? & _)]; lia. }
  assert (Hkin2 : kin r r2) by (rewrite Hr2; etrans; [exact Hkin|]; by split).
  assert (Hso : stop_of (kv r2) = Z.to_nat stop) by (by rewrite Hr2).
  assert (Hids2 : all_ids (kv r2) = all_ids (kv r)) by (by apply kin_all_ids).
  split.
  { split; [by eexists| |congruence]. rewrite Hcan, fmap_app. cbn. rewrite Permutation_app_comm. cbn.
    rewrite Hr2. cbn. rewrite <-(Z2Nat.id stop) by lia. apply Hcore. lia. }
  split; [done|]. split; [done|]. right.
  assert (Hex : extend_length r2 = stop - Z.of_nat (length (prefix_indices (kv r1)))) by (by rewrite Hr2).
  assert (Hopen' : Qlt 0 (rem_total_tokens ac ad)).
  { unfold rem_total_tokens in *. cbn in Hopen. by rewrite Hav in Hopen. }
  assert (Hpi : prefix_indices (kv r2) = prefix_indices (kv r1)) by (by rewrite Hr2).
  split.
  - split.
    + done.
    + done.
    + rewrite Hr2. apply Hwt1.
    + lia.
    + destruct Hnew as [(Hnew & Hfull & _)|(Hnew & Hlt2 & c & Hc0 & Htr)].
      * left. split; [done|]. unfold whole. rewrite Hso, Hids2, Hfull, Hids. lia.
      * right. split; [done|]. split; [rewrite Hso, Hids2; lia|]. rewrite Hchk, Hc0. cbn.
        rewrite ceil_one. destruct (chunk_one _ _ _ Htr) as [-> _]. f_equal. lia.
    + rewrite Hids2, Hpi, <-available_is_room. unfold cand_extend_input_len, prefix_len in Hroom. rewrite Hps in Hroom. lia.
    + rewrite Hchk. by destruct (rem_chunk_tokens (ad_budget ad)).
    + split; [done|]. intros c Hc0. destruct Hnew as [(_ & _ & Hcap)|(_ & _ & c' & Hc1 & Htr)].
      * specialize (Hcap c Hc0). lia.
      * destruct (chunk_one _ _ _ Htr). congruence.
  - intros ->. destruct Hnew as [(Hnew & Hfull & _)|(_ & _ & c & Hc0 & Htr)].
    + split; [done|]. unfold whole. rewrite Hso, Hids2, Hfull, Hids. lia.
    + exfalso. destruct (chunk_one _ _ _ Htr) as [He _]. rewrite Hc0 in Hchk. cbn in Hchk. rewrite ceil_one, He in Hchk.
      unfold budget_state in Hbs. rewrite Hchk, (co_dllm _ _ Hac), (proj2 (Z.leb_le (c - c) 0)) in Hbs by lia.
      repeat case_match; done.
Qed.
(** ** The queue *)

(** Nobody more is admitted. *)
Definition closed ad : Prop :=
  Qle (rem_total_tokens ac ad) 0 ∨ ∃ c, rem_chunk_tokens (ad_budget ad) = Some c ∧ c ≤ 0.

Lemma joined_open r ad r2 ad2 : joined r ad r2 ad2 → ¬ closed ad.
Proof.
  intros [_ _ _ _ _ _ _ [Hq Hc]] [Hle|(c & Hc0 & Hle)]; [lra|]. specialize (Hc c Hc0). lia.
Qed.

(** Whole requests, and at most one chunked at the end, with room for the rest of it. *)
Definition ends_chunked (before : list SReq) (nc : option SReq) (added : list SReq) (nc' : option SReq) (s : Sys A) : Prop :=
  (nc' = nc ∧ Forall whole added) ∨
  ∃ l r, added = l ++ [r] ∧ nc' = Some r ∧ Forall whole l ∧ (stop_of (kv r) < length (all_ids (kv r)))%nat ∧
    batch_tokens ac (before ++ l) + Z.of_nat (length (all_ids (kv r)) - length (prefix_indices (kv r))) + 1 < room s.

Definition fresh_slice (r : SReq) : Prop := req_pool_idx (kv r) = None ∧ 0 < extend_length r.

Record passed S0 run pool (queue : list SReq) ad (added rest : list SReq) ad' : Prop := {
  ps_batching : batching S0 run pool ad';
  ps_list : can_run_list ad' = can_run_list ad ++ added;
  ps_kin : Forall2 kin queue (added ++ rest);
  ps_rest : Forall (λ r, waiting (kv r)) rest;
  ps_same : ad_running ad' = ad_running ad ∧ preempt_list ad' = preempt_list ad;
  ps_fresh : Forall fresh_slice added;
  ps_slots : added = [] ∨ (length (can_run_list ad') ≤ pool_available_size pool)%nat;
  ps_closed : closed ad → added = [];
  ps_chunk : ends_chunked (can_run_list ad) (new_chunked_req ad) added (new_chunked_req ad') (ad_cache ad');
  ps_size : new_chunked_req ad' = new_chunked_req ad ∨ is_Some (rem_chunk_tokens (ad_budget ad));
}.

Lemma passed_none S0 run pool queue queue' ad ad' :
  batching S0 run pool ad' → can_run_list ad' = can_run_list ad → Forall2 kin queue queue' →
  Forall (λ r, waiting (kv r)) queue' → ad_running ad' = ad_running ad ∧ preempt_list ad' = preempt_list ad →
  new_chunked_req ad' = new_chunked_req ad → passed S0 run pool queue ad [] queue' ad'.
Proof.
  intros Hb Hc Hk Hw Hs Hn. split; try done; [by rewrite app_nil_r|by left|left; done|by left].
Qed.

Lemma passed_cons S0 run pool r r2 queue ad ad2 added rest ad' :
  joined r ad r2 ad2 → ad_running ad2 = ad_running ad → preempt_list ad2 = preempt_list ad →
  (length (can_run_list ad2) ≤ pool_available_size pool)%nat →
  new_chunked_req ad2 = new_chunked_req ad → whole r2 →
  passed S0 run pool queue ad2 added rest ad' → passed S0 run pool (r :: queue) ad (r2 :: added) rest ad'.
Proof.
  intros Hj Hrn Hpl Hsl Hnc Hwh [Hb Hl Hk Hr [Hs1 Hs2] Hf Hslots Hcl Hch Hsz]. pose proof Hj as [Hkin Hlast Hrow Hlen _ _ Hsize _].
  split; try done.
  - by rewrite Hl, Hlast, <-app_assoc.
  - by constructor.
  - split; congruence.
  - by constructor.
  - right. destruct Hslots as [->|?]; [|done]. by rewrite Hl, app_nil_r.
  - intros Hc. by destruct (joined_open _ _ _ _ Hj).
  - rewrite Hnc, Hlast in Hch. destruct Hch as [[Hn Hw]|(l & r' & -> & Hn & Hw & Hst & Hroom)].
    + left. split; [done|by constructor].
    + right. exists (r2 :: l), r'. rewrite <-app_assoc in Hroom. split_and!; try done. by constructor.
  - rewrite <-Hnc. destruct Hsz; auto.
Qed.

Lemma passed_last S0 run pool r r2 queue ad ad2 :
  joined r ad r2 ad2 → ad_running ad2 = ad_running ad → preempt_list ad2 = preempt_list ad →
  (length (can_run_list ad2) ≤ pool_available_size pool)%nat → batching S0 run pool ad2 →
  Forall (λ r, waiting (kv r)) queue → passed S0 run pool (r :: queue) ad [r2] queue ad2.
Proof.
  intros Hj Hrn Hpl Hsl Hb Hq. pose proof Hj as [Hkin Hlast Hrow Hlen Hch Hroom Hsize _]. split; try done.
  - constructor; [done|]. apply Forall_Forall2_diag, Forall_forall. intros. reflexivity.
  - by repeat constructor.
  - by right.
  - intros Hc. by destruct (joined_open _ _ _ _ Hj).
  - destruct Hch as [[Hn Hw]|(Hn & Hst & _)]; [left; by repeat constructor|]. right. exists [], r2.
    rewrite app_nil_r. by split_and!.
  - destruct Hch as [[Hn _]|(_ & _ & Hc)]; [by left|right]. apply Hsize. by rewrite Hc.
Qed.

Lemma queue_pass S0 run pool pp low full queue ad :
  batching S0 run pool ad → Forall (queued prio ctx total) queue →
  ∃ full' added rest ad',
    add_waiting ac gather perf_counter pp false low None full queue ad = Ok (full', added ++ rest, ad') ∧
    passed S0 run pool queue ad added rest ad'.
Proof.
  intros Hb Hq. revert full ad Hb. induction Hq as [|r queue [Hd Hwt Hrn] Hq IH]; intros full ad Hb.
  { exists full, [], [], ad. split; [done|]. by apply passed_none. }
  assert (Hwq : Forall (λ r, waiting (kv r)) queue) by (eapply Forall_impl; [exact Hq|]; by intros ? []).
  cbn [add_waiting]. set (running_bs := Z.of_nat _). set (full1 := orb _ full).
  destruct full1 eqn:Hfull1; cbn [rbind].
  { exists true, [], (r :: queue), ad. split; [done|]. apply passed_none; [done|done|reflexivity|by constructor|done|done]. }
  apply orb_false_iff in Hfull1 as [Hroom%Z.leb_gt ->]. unfold get_num_allocatable_reqs in Hroom. cbn in Hroom.
  rewrite (bg_pool _ _ _ _ Hb) in Hroom.
  assert (Hmax : 0 ≤ max_new_tokens r).
  { destruct Hd as [_ _ Ho _ _ _]. unfold output_len in Ho. lia. }
  destruct (add_one_joined S0 run pool ad r Hb Hwt Hmax) as (r1 & s1 & res & r2 & ad2 & -> & Hadd & Hb2 & Hr2 & Hp2 & Hcase).
  cbn [rbind]. rewrite Hadd. cbn [rbind].
  destruct Hcase as [(Hres & Hkin & Hwt2 & Hc2 & Hn2)|[Hj Hcont]].
  { assert (passed S0 run pool (r :: queue) ad [] (r2 :: queue) ad2).
    { apply passed_none; [done|done|by constructor|by constructor|done|done]. }
    destruct res; [done| |]; (eexists _, [], (r2 :: queue), ad2; split; [done|done]). }
  assert (Hsl : (length (can_run_list ad2) ≤ pool_available_size pool)%nat).
  { rewrite (jn_last _ _ _ _ Hj), length_app. cbn. lia. }
  destruct res.
  2,3: (eexists _, [r2], queue, ad2; split; [done|]; by apply passed_last).
  destruct (Hcont eq_refl) as [Hnc Hwh]. destruct (IH false ad2 Hb2) as (full' & added & rest & ad' & -> & Hps').
  cbn [rbind]. exists full', (r2 :: added), rest, ad'. split; [done|]. by eapply passed_cons.
Qed.

(** ** The request between two chunks *)

Lemma py_int_pos q : 0 < py_int q → Qlt q (inject_Z (py_int q + 1)) ∧ Qle (inject_Z (py_int q)) q.
Proof.
  unfold py_int, Qlt, Qle. cbn. intros Hq. pose proof (Z.quot_rem' (Qnum q) (Zpos (Qden q))) as Hqr.
  assert (0 < Qnum q).
  { destruct (Z.le_gt_cases (Qnum q) 0) as [Hn|]; [|done]. exfalso.
    pose proof (Z.quot_le_mono (Qnum q) 0 (Zpos (Qden q)) ltac:(lia) Hn) as Hm. rewrite Z.quot_0_l in Hm by lia. lia. }
  pose proof (Z.rem_bound_pos (Qnum q) (Zpos (Qden q)) ltac:(lia) ltac:(lia)). lia.
Qed.

(** The length of the next chunk. *)
Lemma chunk_length chunk ad :
  rem_chunk_tokens (ad_budget ad) = Some chunk → 0 < chunk → ∀ r,
  ∃ m, 0 < m ≤ chunk ∧ (m = chunk ∨ Qlt (rem_total_tokens ac ad) (inject_Z (m + 1))) ∧
    add_chunked_req ac r ad =
      (let '(truncated, r, ad) := add_truncated ac m r ad in Ok (if truncated then Some r else None, ad)).
Proof.
  intros Hc Hpos r. unfold add_chunked_req. rewrite (co_dllm _ _ Hac), Hc. cbn [of_option rbind].
  destruct Hplain as (_ & -> & _). destruct (Z.leb_spec (Z.min chunk (py_int (rem_total_tokens ac ad))) 0) as [Hle|Hgt].
  { exists chunk. split; [lia|]. split; [by left|done]. }
  exists (Z.min chunk (py_int (rem_total_tokens ac ad))). split; [lia|]. split; [|done].
  destruct (Z.min_spec chunk (py_int (rem_total_tokens ac ad))) as [[_ ->]|[Hlt Hm]]; [by left|right]. rewrite Hm.
  apply py_int_pos. lia.
Qed.

Lemma rechunk_joined S0 run pool ad (c : SReq) chunk :
  batching S0 (kv c :: run) pool ad → can_run_list ad = [] → rem_chunk_tokens (ad_budget ad) = Some chunk → 0 < chunk →
  fill_ok (kv c) → prefix_indices (kv c) = take (kv_committed_len (kv c)) (row_at pool (kv c)) →
  (kv_committed_len (kv c) < length (all_ids (kv c)))%nat →
  Z.of_nat (length (all_ids (kv c)) - kv_committed_len (kv c)) + 1 < room (ad_cache ad) → 0 ≤ max_new_tokens c →
  let c1 := with_kv (refreshed (kv c)) c in
  ∃ stop ad2, let r2 := set_range (prefix_len c) (Z.of_nat stop) c1 in
    (kv_committed_len (kv c) < stop ≤ length (all_ids (kv c)))%nat ∧ prefix_len c = Z.of_nat (kv_committed_len (kv c)) ∧
    add_chunked_req ac c1 ad = Ok (if bool_decide (stop = length (all_ids (kv c))) then None else Some r2, ad2) ∧
    can_run_list ad2 = [r2] ∧ new_chunked_req ad2 = new_chunked_req ad ∧ ad_cache ad2 = ad_cache ad ∧
    ad_running ad2 = ad_running ad ∧ preempt_list ad2 = preempt_list ad ∧ batching S0 run pool ad2 ∧
    (stop ≠ length (all_ids (kv c)) → closed ad2).
Proof.
  intros [[L Hi] Hcore Hpool] Hcan Hch Hpos Hfill Hpre Hlt Hroom Hmax c1.
  rewrite Hcan in Hcore. cbn [fmap list_fmap] in Hcore. rewrite <-Hpool in Hpre.
  destruct (refreshed_same (kv c) Hfill) as [F1 [F2 F3] _ _ _ _ _ _ _ (F10 & _ & _)].
  assert (Hpl : prefix_len c = Z.of_nat (kv_committed_len (kv c))).
  { unfold prefix_len. rewrite Hpre, length_take. pose proof (sv_run _ _ _ _ _ Hcore) as Hrun.
    apply Forall_cons in Hrun as [[_ ? _ _ _ _ _] _]. lia. }
  assert (Hpl1 : prefix_len c1 = prefix_len c) by (unfold prefix_len; cbn; by rewrite F10).
  assert (Hcand : cand_extend_input_len c1 = Z.of_nat (length (all_ids (kv c)) - kv_committed_len (kv c))).
  { unfold cand_extend_input_len. rewrite Hpl1, Hpl. unfold fill_len. cbn. rewrite F1. lia. }
  destruct (chunk_length chunk ad Hch Hpos c1) as (m & [Hm0 Hmc] & Hm & ->). unfold add_truncated. rewrite Hcand, Hpl1.
  set (n := Z.min _ m).
  assert (Hn : 0 < n ≤ Z.of_nat (length (all_ids (kv c)) - kv_committed_len (kv c))) by (unfold n; lia).
  set (r2 := set_range _ _ c1).
  assert (Hstop : (kv_committed_len (kv c) < Z.to_nat (prefix_len c + n) ≤ length (all_ids (kv c)))%nat) by lia.
  assert (Hext : extend_length r2 = n) by (unfold r2; cbn; lia).
  destruct (serve_rechunk cfg S0 (ad_cache ad) run [] (kv c) _ Hcore Hfill Hpre Hstop) as [Hcore2 _].
  rewrite Z2Nat.id in Hcore2 by lia. fold (prefix_len c) in Hcore2.
  set (trunc := m <? _). set (ad2 := charge _ _ _ _ _ _).
  assert (Htrunc : trunc = negb (bool_decide (Z.to_nat (prefix_len c + n) = length (all_ids (kv c))))).
  { unfold trunc. apply eq_true_iff_eq. rewrite negb_true_iff, bool_decide_eq_false, Z.ltb_lt. unfold n. lia. }
  exists (Z.to_nat (prefix_len c + n)), ad2. rewrite Z2Nat.id by lia. fold r2. cbv zeta.
  split; [done|]. split_and!; try done.
  - rewrite Htrunc. by case_bool_decide.
  - unfold ad2. cbn. by rewrite Hcan.
  - split; [|unfold ad2; cbn; by rewrite Hcan|done]. exists L. unfold ad2. destruct Hi as [I1 I2 I3 I4 _ I6].
    split; try done.
    + cbn [charge update_prefill_budget set_budget push_can_run can_run_list]. rewrite Hcan in I4 |- *. cbn [app].
      eapply Qle_trans; [|apply (charge_ok ac gather Hac)].
      * cbn [batch_tokens foldr push_can_run ad_budget] in *. rewrite Z.add_0_r. change (inject_Z 0) with 0%Q in I4. lra.
      * destruct trunc; [done|]. pose proof (co_clip _ _ Hac). change (max_new_tokens r2) with (max_new_tokens c). lia.
    + right. cbn [charge update_prefill_budget set_budget push_can_run can_run_list ad_cache]. rewrite Hcan. cbn [app batch_tokens foldr].
      rewrite Hext, Hps, available_is_room. lia.
    + cbn [charge update_prefill_budget set_budget push_can_run can_run_list]. rewrite Hcan. constructor; [lia|constructor].
  - intros Hne. assert (trunc = true) as Ht by (rewrite Htrunc; by case_bool_decide).
    assert (n = m) as Hnm by (unfold trunc in Ht; apply Z.ltb_lt in Ht; unfold n; lia).
    destruct Hm as [->|Hq]; [right; exists 0|left].
    + unfold ad2. cbn. rewrite (co_dllm _ _ Hac), Hch. cbn. split; [|lia]. f_equal. rewrite ceil_one. lia.
    + unfold ad2, rem_total_tokens. cbn [charge update_prefill_budget set_budget push_can_run ad_cache ad_budget rem_total_token_offset].
      rewrite Ht, ceil_one, Hps, Hext, Hnm. pose proof (mamba_gap_nonneg ac gather Hac r2).
      unfold rem_total_tokens in Hq.
      assert (Qle (inject_Z (m + 1)) (inject_Z (m + 0 + 1 + mamba_gap_budget_for_req ac r2))) by (rewrite <-Zle_Qle; lia).
      lra.
Qed.
End pass.
