(* ===== verification/PassIdle.v ===== *)
(** An idle server serves the head of its queue: when nothing runs and nothing was
    admitted yet, [add_one_req] admits any request the intake let in, with the whole KV pool
    at its disposal. *)

From stdpp Require Import base gmap strings list relations.
From Stdlib Require Import ZArith QArith Lia Lqa.
From S2P Require Import Prelude.
From S2P Require Import PyData.
From S2P Require Import RadixKey.
From S2P Require Import RadixTree.
From S2P Require Import RadixInv.
From S2P Require Import RadixContent.
From S2P Require Import RadixOps.
From S2P Require Import RadixInsert.
From S2P Require Import RadixEvict.
From S2P Require Import RadixSession.
From S2P Require Import ReqCache.
From S2P Require Import ReqCacheInv.
From S2P Require Import ReqAlloc.
From S2P Require Import ReqLife.
From S2P Require Import BatchAlloc.
From S2P Require Import Delayer.
From S2P Require Import PrefillAdder.
From S2P Require Import ScheduleBatch.
From S2P Require Import ServeInv.
From S2P Require Import ServeOps.
From S2P Require Import Room.
From S2P Require Import ExtendInv.
From S2P Require Import PrefillAdderInv.
From S2P Require Import PassInv.

Open Scope Z_scope.

Section idle.
Context {A : Type} `{KVPool A} `{!KVPoolTotal A} `{!KVPoolSlots A} `{KVAlloc A} `{!KVAllocLaws A} `{KVPaged A}.
Context `{Env} `{!EnvLaws} `{HeapQ} `{!HeapQLaws}.
Variable cfg : Config.
Hypothesis Hdis : disable cfg = false.
Variables (strip spec : bool) (steps : Z).
#[local] Hint Extern 0 (PrefixCache _) => exact (pass_cache cfg strip spec steps) : typeclass_instances.
#[local] Hint Extern 0 (PrefixCacheLaws _) => exact (pass_cache_laws cfg Hdis strip spec steps) : typeclass_instances.
Variables (ac : AdderCfg) (gather : Delayer.Info → list Delayer.Info) (perf_counter : nat → Q).
Hypothesis Hac : cfg_ok ac gather.
Hypothesis Hps : ac_page_size ac = 1.
Hypothesis Hplain : is_all_swa ac = false ∧ is_hybrid_swa ac = false ∧ is_hybrid_ssm_cache ac = false.
Hypothesis Hmamba : mamba_slot_cost ac = 0.
Hypothesis Hdsa : dsa_prefill_cp_in_seq_split ac = false.
Hypothesis Hmaxr : ∀ n, prefill_max_requests ac = Some n → 0 < n.
Variables (prio : bool) (ctx : nat) (S0 : list Z).
Hypothesis Hnd : NoDup S0.
Notation total := (Z.of_nat (length S0)).
Implicit Types ad : Adder (Sys A).

(** Nothing runs, nothing is admitted, and the budget is whole. *)
Record idle_adder (pool : ReqToTokenPool) ad : Prop := {
  ia_batching : batching cfg Hdis strip spec steps ac S0 [] pool ad;
  ia_running : ad_running ad = Some [];
  ia_none : can_run_list ad = [];
  ia_offset : Qeq (rem_total_token_offset (ad_budget ad)) 0;
  ia_chunk : ∀ c, rem_chunk_tokens (ad_budget ad) = Some c → 0 < c;
}.

(** What a request that came through the intake asks for. *)
Lemma queued_total r r1 :
  queued prio ctx total r → kin r r1 → fill_len r1 = Z.of_nat (length (all_ids (kv r))) → 0 ≤ clip_max_new_tokens ac →
  cand_extend_input_len r1 + Z.min (Z.max (max_new_tokens r1 - output_len r1) 0) (clip_max_new_tokens ac) + ac_page_size ac
    + mamba_gap_budget_for_req ac r1 < total - prefix_len r1.
Proof.
  intros [[_ _ Ho _ _ Hp] _ _] [_ Hm _ _ Hout _ _ _] Hf Hclip. unfold cand_extend_input_len, mamba_gap_budget_for_req.
  rewrite Hf, Hmamba, Hps, Hm. unfold output_len in *. rewrite Hout. unfold all_ids. rewrite length_app.
  cbn [negb Z.eqb]. destruct (mamba_pool_idx r1); lia.
Qed.

(** Nothing is taken but the prefix under the lock. *)
Lemma taken_alone (s : Sys A) (k : Req) : taken s [] [k] ≤ Z.of_nat (length (prefix_indices k)).
Proof.
  unfold taken, taken_by, ready_share, ready_owned, ready_held. cbn. rewrite !app_nil_r.
  assert (size (list_to_set (take (cache_protected_len k) (prefix_indices k)) : gset Z) ≤
    length (take (cache_protected_len k) (prefix_indices k)))%nat.
  { generalize (take (cache_protected_len k) (prefix_indices k)) as l. induction l as [|z l IH]; cbn; [by rewrite size_empty|].
    rewrite size_union_alt, size_singleton. assert (size (list_to_set l ∖ {[z]} : gset Z) ≤ size (list_to_set l : gset Z))%nat by (apply subseteq_size; set_solver). lia. }
  rewrite length_drop. rewrite length_take in *. lia.
Qed.

Lemma idle_available pool ad : idle_adder pool ad → available_and_evictable ac (ad_cache ad) = total.
Proof.
  intros [[[L Hi] Hc _] _ Hn _ _]. rewrite (available_is_room cfg strip spec steps ac Hplain). rewrite Hn in Hc.
  rewrite (room_eq cfg S0 _ _ _ Hc Hnd) by apply (ai_wf _ _ _ Hi). unfold taken, taken_by. cbn. rewrite size_empty. lia.
Qed.

(** Both token gates let the request through. *)
Lemma gate_open t r pool ad s :
  idle_adder pool ad → t < available_and_evictable ac s → no_token ac t r (set_cache s ad) = false.
Proof.
  intros Hi Ht. unfold no_token. destruct Hplain as (_ & -> & _). rewrite andb_false_l, orb_false_r.
  apply not_true_is_false. rewrite Qle_bool_iff. unfold rem_total_tokens. cbn [set_cache ad_cache ad_budget].
  pose proof (ia_offset _ _ Hi) as Ho. rewrite Zlt_Qlt in Ht. intros Hle. lra.
Qed.

Lemma not_exhausted n pool ad s : idle_adder pool ad → input_exhausted n (set_cache s ad) = false.
Proof.
  intros Hi. unfold input_exhausted. cbn [set_cache ad_budget can_run_list]. rewrite (ia_none _ _ Hi).
  by destruct (rem_chunk_tokens _).
Qed.

(** Under the lock the request is admitted, whole or its first chunk. *)
Lemma locked_admits pool ad s r n s' t :
  idle_adder pool ad → last_node (kv r) = Some n → needs_host_load_back r = false → 0 ≤ cand_extend_input_len r →
  t < available_and_evictable ac s → pc_inc_lock_ref (Some n) s = Ok s' →
  ∃ r' ad', add_one_req_locked ac t None r (set_cache s ad) = Ok (None, r', ad') ∧ can_run_list ad' ≠ [] ∧ ad_cache ad' = s'.
Proof.
  intros Hi Hn Hdev Hcand Ht Hinc. unfold add_one_req_locked. rewrite (gate_open t r pool ad s Hi Ht), Hdev. cbn [rbind].
  rewrite (not_exhausted _ pool) by done. rewrite (co_dllm _ _ Hac). unfold req_inc_lock_ref, set_range.
  cbn [kv with_kv set_extend_range with_range last_node push_can_run set_new_chunked ad_cache ad_budget set_cache].
  rewrite Hn, Hinc. cbn [rbind].
  assert (Hne : ∀ (l : list SReq) y, l ++ [y] ≠ []) by (by intros []).
  destruct (rem_chunk_tokens (ad_budget ad)) as [c|] eqn:Hc; [|eexists _, _; split; [done|split; [cbn; apply Hne|done]]].
  destruct (_ <=? c); [eexists _, _; split; [done|split; [cbn; apply Hne|done]]|]. pose proof (ia_chunk _ _ Hi c Hc) as Hpos.
  unfold chunk_trunc_len. rewrite Hps, !Z.div_1_r, !Z.mul_1_r.
  destruct (Z.leb_spec c 0); [lia|]. replace (c + prefix_len r - prefix_len r) with c by lia.
  destruct (Z.leb_spec c 0); [lia|]. eexists _, _; split; [done|split; [cbn; apply Hne|done]].
Qed.

Lemma idle_exec pool ad e : idle_adder pool ad → idle_adder pool (set_exec e ad).
Proof.
  intros [[[L Hi] Hc Hp] ? ? ? ?]. split; try done. split; try done. exists L. by apply adder_inv_exec.
Qed.

Lemma delayed_idle a b c d ad s :
  ∃ x e, delayed gather perf_counter a b c d (set_cache s ad) = Ok (x, set_cache s (set_exec e ad)) ∧ (x = true → ad_exec ad ≠ None).
Proof.
  destruct (delayed_ok ac gather perf_counter Hac a b c d (set_cache s ad)) as (x & ad0 & Hd & Had0).
  exists x, (ad_exec ad0). rewrite Hd, Had0. split; [done|]. intros -> Hn. unfold delayed in Hd. cbn in Hd. by rewrite Hn in Hd.
Qed.

(** The head of the queue is admitted, unless the prefill delayer holds it back. *)
Lemma add_one_idle pool ad r r1 s1 res r2 ad2 :
  idle_adder pool ad → queued prio ctx total r → pc_init_next_round r (ad_cache ad) = Ok (r1, s1) →
  add_one_req ac gather perf_counter None r1 (set_cache s1 ad) = Ok (res, r2, ad2) →
  can_run_list ad2 ≠ [] ∨ res = OTHER ∧ ad_exec ad ≠ None.
Proof.
  intros Hi Hq Hnext Hadd. pose proof (ia_batching _ _ Hi) as Hb. pose proof Hb as [[L Hinv] Hc Hp]. pose proof (qd_waiting _ _ _ _ Hq) as Hwt.
  destruct (lookup_kin cfg Hdis strip spec steps r (ad_cache ad) _ (sv_wf _ _ _ _ _ Hc) Hwt) as
    (r1' & s1' & Hn & Hkin & Hwt1 & Hfill & Hinit & Hpool & _).
  rewrite Hnext in Hn. injection Hn as <- <-.
  destruct (batching_looked_up cfg Hdis strip spec steps ac S0 [] pool ad r r1 s1 Hb Hwt Hnext) as (_ & _ & _ & _ & Hav).
  destruct (pc_next_round_ok (ad_cache ad) L r (ai_wf _ _ _ Hinv) (ai_enabled _ _ _ Hinv)) as
    (r1' & s1' & n & Hn' & Hwf1 & Hnode & Hlast & Hdev & Hpre & Hmx & _).
  rewrite Hnext in Hn'. injection Hn' as <- <-.
  assert (Hids : fill_len r1 = Z.of_nat (length (all_ids (kv r)))) by (unfold fill_len; by rewrite Hfill).
  destruct (pc_inc_ok s1 L n Hwf1 Hnode) as (s2 & Hinc & Hwf2 & Hnode2 & Hdec & _).
  destruct (pc_inc_ok s2 (n :: L) n Hwf2 Hnode2) as (s3 & Hinc2 & _ & _ & Hdec2 & _).
  destruct (lock_core cfg Hdis strip spec steps S0 [] (ad_cache ad) (kv <$> can_run_list ad) (kv r) (kv r1) s1 n s2
    (length (all_ids (kv r))) Hc Hwt Hinit Hlast Hinc) as (Hlt & _ & Hcore).
  specialize (Hcore ltac:(lia)). rewrite (ia_none _ _ Hi) in Hcore. cbn [fmap list_fmap] in Hcore.
  pose proof (queued_total r r1 Hq Hkin Hids (co_clip _ _ Hac)) as Htot. unfold add_one_req in Hadd.
  cbn [set_cache ad_running ad_exec] in Hadd. rewrite (ia_running _ _ Hi) in Hadd.
  assert (Hbs : match ad_exec ad with Some _ => Ok (Z.of_nat (length (@nil SReq))) | None => Ok 0 end = Ok 0) by (by destruct (ad_exec ad)).
  rewrite Hbs in Hadd. cbn [rbind] in Hadd.
  match type of Hadd with context [delayed _ _ ?a ?b ?c ?d _] =>
    destruct (delayed_idle a b c d ad s1) as (x & e & Hdl & Hx) end.
  rewrite Hdl in Hadd. cbn [rbind] in Hadd. destruct x; [right; split; [by injection Hadd|by apply Hx]|].
  pose proof (idle_exec pool ad e Hi) as Hie. rewrite Hdsa in Hadd. cbn [andb] in Hadd.
  assert (Hmr : match prefill_max_requests ac with Some x => x <=? Z.of_nat (length (can_run_list (set_cache s1 (set_exec e ad)))) | None => false end = false).
  { cbn [set_cache set_exec can_run_list]. rewrite (ia_none _ _ Hi). destruct (prefill_max_requests ac) as [m|] eqn:Hm; [|done].
    apply Z.leb_gt. pose proof (Hmaxr m eq_refl). cbn. lia. }
  rewrite Hmr in Hadd. cbn [set_cache ad_cache pc_disable] in Hadd.
  assert (Hpd : pc_disable s1 = false) by exact Hdis. rewrite Hpd, andb_false_r in Hadd.
  rewrite (gate_open _ r1 pool (set_exec e ad) s1 Hie) in Hadd.
  2:{ rewrite Hav, (idle_available pool ad Hi). unfold prefix_len in Htot. lia. }
  rewrite (not_exhausted _ pool) in Hadd by done. rewrite Hlast, Hinc in Hadd. cbn [rbind] in Hadd.
  left. edestruct (locked_admits pool (set_exec e ad) s2 r1 n s3) as (r' & ad' & Hl & Hne & Hs3); try done.
  { unfold cand_extend_input_len. lia. }
  2:{ change (set_cache s2 (set_cache s1 (set_exec e ad))) with (set_cache s2 (set_exec e ad)) in Hadd. rewrite Hl in Hadd.
      cbn [rbind] in Hadd. rewrite Hs3, Hdec2 in Hadd. cbn [rbind] in Hadd. by simplify_eq. }
  rewrite (available_is_room cfg strip spec steps ac Hplain), (room_eq cfg S0 _ _ _ Hcore Hnd) by apply Hwf2.
  eapply Z.lt_le_trans; [exact Htot|]. unfold prefix_len.
  etrans; [|apply Z.sub_le_mono_l, taken_alone]. done.
Qed.

Lemma idle_pass pool pp low r queue ad full q ad' :
  idle_adder pool ad → 0 < pp → (0 < pool_available_size pool)%nat → Forall (queued prio ctx total) (r :: queue) →
  add_waiting ac gather perf_counter pp false low None false (r :: queue) ad = Ok (full, q, ad') →
  can_run_list ad' ≠ [] ∨ full = false ∧ ad_exec ad ≠ None.
Proof.
  intros Hi Hpp Hrows [Hr Hq]%Forall_cons Hw. cbn [add_waiting] in Hw. rewrite (ia_running _ _ Hi), (ia_none _ _ Hi) in Hw.
  pose proof (ia_batching _ _ Hi) as Hb.
  assert (Hfull : (get_num_allocatable_reqs pp (Z.of_nat (length (default [] (Some (@nil SReq))))) (ad_cache ad) <=? Z.of_nat (length (@nil SReq))) = false).
  { apply Z.leb_gt. unfold get_num_allocatable_reqs. cbn. rewrite (bg_pool _ _ _ _ _ _ _ _ _ _ Hb). lia. }
  rewrite Hfull in Hw. cbn [orb rbind] in Hw. pose proof Hr as [[_ _ Ho _ _ _] Hwt _].
  assert (Hmax : 0 ≤ max_new_tokens r) by (unfold output_len in Ho; lia).
  destruct (add_one_joined cfg Hdis strip spec steps ac gather perf_counter Hac Hps Hplain S0 [] pool ad r Hb Hwt Hmax)
    as (r1 & s1 & res & r2 & ad2 & Hn & Hadd & Hb2 & _).
  rewrite Hn in Hw. cbn [rbind] in Hw. rewrite Hadd in Hw. cbn [rbind] in Hw.
  destruct (add_one_idle pool ad r r1 s1 res r2 ad2 Hi Hr Hn Hadd) as [Hne|[-> He]]; [left|right; by simplify_eq].
  destruct res; simplify_eq; try done.
  destruct (queue_pass cfg Hdis strip spec steps ac gather perf_counter Hac Hps Hplain prio ctx total S0 [] pool pp low false queue ad2 Hb2 Hq)
    as (full' & added & rest & ad3 & Hp & Hpass).
  rewrite Hp in Hw. cbn [rbind] in Hw. simplify_eq. rewrite (ps_list _ _ _ _ _ _ _ _ _ _ _ _ _ _ Hpass). by intros [? _]%app_nil.
Qed.
End idle.
