(* ===== verification/SchedulePolicy.v ===== *)
(** The order of the waiting queue: [match_prefix_for_req], the policies and
    class [SchedulePolicy] of managers/schedule_policy.py, over the radix cache.

    [random.shuffle] is a parameter; the thresholds of the in-batch prefix check
    are the environment variables of the module.  Time stamps are integers. *)

From stdpp Require Import base gmap strings list.
From Stdlib Require Import ZArith Lia.
From S2P Require Import Prelude.
From S2P Require Import PyData.
From S2P Require Import RadixKey.
From S2P Require Import RadixTree.
From S2P Require Import ReqCache.
From S2P Require Import PrefillAdder.

Open Scope Z_scope.

Inductive CacheAwarePolicy := LPM | DFS_WEIGHT.
Inductive CacheAgnosticPolicy := FCFS | LOF | RANDOM | ROUTING_KEY.
Inductive Policy := Aware (p : CacheAwarePolicy) | Agnostic (p : CacheAgnosticPolicy).

Global Instance cache_aware_eq_dec : EqDecision CacheAwarePolicy.
Proof. solve_decision. Defined.
Global Instance cache_agnostic_eq_dec : EqDecision CacheAgnosticPolicy.
Proof. solve_decision. Defined.
Global Instance policy_eq_dec : EqDecision Policy.
Proof. solve_decision. Defined.

Definition cache_aware_of (s : string) : option CacheAwarePolicy :=
  if decide (s = "lpm"%string) then Some LPM
  else if decide (s = "dfs-weight"%string) then Some DFS_WEIGHT
  else None.

Definition cache_agnostic_of (s : string) : option CacheAgnosticPolicy :=
  if decide (s = "fcfs"%string) then Some FCFS
  else if decide (s = "lof"%string) then Some LOF
  else if decide (s = "random"%string) then Some RANDOM
  else if decide (s = "routing-key"%string) then Some ROUTING_KEY
  else None.

Definition validate_and_adjust_policy (policy : string) (tree_disabled : bool) : result Policy :=
  match cache_aware_of policy with
  | Some p => Ok (if tree_disabled then Agnostic FCFS else Aware p)
  | None =>
      match cache_agnostic_of policy with
      | Some p => Ok (Agnostic p)
      | None => Raise ValueError
      end
  end.

Definition determine_active_policy (policy : Policy) (waiting_queue : list SReq) : Policy :=
  if decide (policy = Aware LPM) then
    if (128 <? length waiting_queue)%nat then Agnostic FCFS else policy
  else policy.

(** *** Sorting the queue *)

(** [-num_matched] below [inf]: deprioritized requests come last. *)
Definition longest_prefix_key (deprioritized : gset string) (r : SReq) : result (list Z) :=
  Ok (if decide (rid r ∈ deprioritized) then [1] else [0; - num_matched_prefix_tokens r]).

Definition sort_by_longest_prefix (queue : list SReq) (deprioritized : gset string)
    : result (list SReq) :=
  sorted_reqs (longest_prefix_key deprioritized) queue.

Definition longest_output_key (enable_priority_scheduling : bool) (priority_sign : Z) (r : SReq)
    : result (list Z) :=
  if enable_priority_scheduling then
    let! p := of_option TypeError (req_priority (kv r)) in
    Ok [p * priority_sign; - max_new_tokens r]
  else Ok [- max_new_tokens r].

Definition sort_by_longest_output (queue : list SReq) (enable_priority_scheduling : bool)
    (priority_sign : Z) : result (list SReq) :=
  sorted_reqs (longest_output_key enable_priority_scheduling priority_sign) queue.

Definition priority_fcfs_key (priority_sign : Z) (r : SReq) : result (list Z) :=
  let! p := of_option TypeError (req_priority (kv r)) in
  Ok [p * priority_sign; wait_queue_entry_time r].

Definition sort_by_priority_and_fcfs (queue : list SReq) (priority_sign : Z) : result (list SReq) :=
  sorted_reqs (priority_fcfs_key priority_sign) queue.

(** A routing key that is not empty. *)
Definition routing_key_of (r : SReq) : option string :=
  match routing_key r with
  | Some k => if decide (k = EmptyString) then None else Some k
  | None => None
  end.

Definition routing_key_counts (running : list SReq) : gmap string nat :=
  foldl (λ m k, <[k := S (default 0%nat (m !! k))]> m) ∅ (omap routing_key_of running).

(** [(0, -count, key)] or [(1, 0, key or "")]; strings compare by their code
    points. *)
Fixpoint str_codes (s : string) : list Z :=
  match s with
  | EmptyString => []
  | String c s => Z.of_nat (Ascii.nat_of_ascii c) :: str_codes s
  end.

Definition routing_sort_key (counts : gmap string nat) (r : SReq) : result (list Z) :=
  Ok match routing_key_of r with
     | Some k =>
         match counts !! k with
         | Some c => 0 :: - Z.of_nat c :: str_codes k
         | None => 1 :: 0 :: str_codes k
         end
     | None => [1; 0]
     end.

Definition sort_by_routing_key (queue running : list SReq) : result (list SReq) :=
  let counts := routing_key_counts running in
  if decide (counts = ∅) then Ok queue else sorted_reqs (routing_sort_key counts) queue.

(** *** Depth-first weights *)

Section dfs.
Context (t : Tree) (queue : list SReq).

(** [last_node_to_reqs[node]] *)
Definition reqs_at (n : nat) : list SReq := filter (λ r, last_node (kv r) = Some n) queue.

Definition weight (w : gmap nat Z) (n : nat) : Z := default 0 (w !! n).

(** [node_to_weight] before the traversal. *)
Definition initial_weights : gmap nat Z :=
  foldl (λ w r, match last_node (kv r) with
                | Some n => <[n := Z.of_nat (length (reqs_at n))]> w
                | None => w
                end) ∅ queue.

Fixpoint calc_weight (fuel : nat) (cur_node : nat) (w : gmap nat Z) : result (gmap nat Z) :=
  match fuel with
  | O => Raise OutOfFuel
  | S fuel =>
      let! nd := of_option KeyError (nodes t !! cur_node) in
      foldl (λ acc child,
        let! w := acc in
        let! w := calc_weight fuel child w in
        Ok (<[cur_node := weight w cur_node + weight w child]> w))
        (Ok w) (children nd).*2
  end.

Definition by_weight (w : gmap nat Z) (x y : nat) : bool := - weight w x <? - weight w y.

Fixpoint get_dfs_priority (fuel : nat) (w : gmap nat Z) (cur_node : nat) (q : list SReq)
    : result (list SReq) :=
  match fuel with
  | O => Raise OutOfFuel
  | S fuel =>
      let! nd := of_option KeyError (nodes t !! cur_node) in
      let children := py_sort (by_weight w) (children nd).*2 in
      let! q := foldl (λ acc child, let! q := acc in get_dfs_priority fuel w child q)
        (Ok q) children in
      Ok (q ++ reqs_at cur_node)
  end.

(** The height of the tree is below the number of its nodes. *)
Definition dfs_fuel : nat := S (size (nodes t)).

Definition sort_by_dfs_weight : result (list SReq) :=
  let! w := calc_weight dfs_fuel (root_node t) initial_weights in
  get_dfs_priority dfs_fuel w (root_node t) [].
End dfs.

(** *** Prefix matches *)

(** The cache of [RadixCache.create_simulated()]: no allocator, pages of one
    token, no events. *)
Definition simulated_cfg : Config := mkConfig false 1 false false false false LRUStrategy.
Global Instance no_pool : KVPool unit := λ _ _, Raise AttributeError.

Definition with_matched (k : Req) (n : Z) (r : SReq) : SReq :=
  mkSReq k (rid r) (max_new_tokens r) (ignore_eos r) (wait_queue_entry_time r) (routing_key r)
    n 0 0 0 (mamba_pool_idx r) (retracted_stain r) (is_finished r).

Section policy.
Context {A : Type} `{KVPool A} `{KVAlloc A} `{Env} `{HeapQ}.
Variable cfg : Config.
(** The two thresholds of the in-batch check. *)
Variables (check_threshold deprioritize_threshold : Z).
(** [random.shuffle] *)
Variable shuffle : list SReq → list SReq.

(** The token ids default to the prompt and the output. *)
Definition match_prefix_for_req (r : SReq) (token_ids : option (list Z)) (st : RadixCache A)
    : result (SReq * RadixCache A) :=
  let ids := default (origin_input_ids (kv r) ++ output_ids (kv r)) token_ids in
  let! (device_indices, last_device_node, st) :=
    match_prefix cfg (mkKey ids (req_extra_key (kv r)) false None) st in
  let '(device_indices, last_device_node) :=
    if force_miss then zero_match_result st else (device_indices, last_device_node) in
  let k := with_prefix device_indices (cache_protected_len (kv r)) (Some last_device_node) (kv r) in
  let max_len := compute_max_prefix_len k (Z.of_nat (length ids)) in
  Ok (with_matched k (Z.min (Z.of_nat (length device_indices)) max_len) r, st).

Fixpoint match_all (queue : list SReq) (st : RadixCache A) : result (list SReq * RadixCache A) :=
  match queue with
  | [] => Ok ([], st)
  | r :: queue =>
      let! (r, st) := match_prefix_for_req r None st in
      let! (queue, st) := match_all queue st in
      Ok (r :: queue, st)
  end.

(** The in-batch part of the loop body: a request with a short match is
    deprioritized when the requests before it share a long prefix with it, and
    entered with dummy values otherwise. *)
Definition in_batch_check (r : SReq) (key : RadixKey) (deprioritized : gset string)
    (sim : RadixCache unit) : result (gset string * RadixCache unit) :=
  if Z.of_nat (length (prefix_indices (kv r))) <=? check_threshold then
    let! (in_batch, _, sim) := match_prefix simulated_cfg key sim in
    let in_batch := if force_miss then [] else in_batch in
    if deprioritize_threshold <=? Z.of_nat (length in_batch)
    then Ok (deprioritized ∪ {[rid r]}, sim)
    else
      let! (_, _, sim) := insert simulated_cfg key
        (Some (replicate (length (token_ids key)) 0)) None false sim in
      Ok (deprioritized, sim)
  else Ok (deprioritized, sim).

(** The loop of [_compute_prefix_matches]: the requests with their matches,
    the deprioritized ones and the two trees. *)
Fixpoint prefix_matches_loop (queue : list SReq) (deprioritized : gset string)
    (st : RadixCache A) (sim : RadixCache unit)
    : result (list SReq * gset string * RadixCache A * RadixCache unit) :=
  match queue with
  | [] => Ok ([], deprioritized, st, sim)
  | r :: queue =>
      let prefix_ids := origin_input_ids (kv r) ++ output_ids (kv r) in
      let! (r, st) := match_prefix_for_req r (Some prefix_ids) st in
      let key := mkKey prefix_ids (req_extra_key (kv r)) false None in
      let! (deprioritized, sim) := in_batch_check r key deprioritized sim in
      let! (queue, deprioritized, st, sim) := prefix_matches_loop queue deprioritized st sim in
      Ok (r :: queue, deprioritized, st, sim)
  end.

Definition compute_prefix_matches (queue : list SReq) (st : RadixCache A) (sim : RadixCache unit)
    : result (list SReq * gset string * RadixCache A * RadixCache unit) :=
  prefix_matches_loop queue ∅ st (reset simulated_cfg sim).

Record SchedulePolicy := mkPolicy {
  policy : Policy;
  enable_priority_scheduling : bool;
  priority_sign : Z;
  waiting_queue_radix_tree : RadixCache unit;
}.

Definition init_policy (name : string) (enable_priority schedule_low_priority_values_first : bool)
    (counter : nat) : result SchedulePolicy :=
  let! p := validate_and_adjust_policy name (disable cfg) in
  Ok (mkPolicy p enable_priority (if schedule_low_priority_values_first then 1 else -1)
    (init_cache simulated_cfg () counter)).

(** [fast_match] says that the cache supports the fast lookup and the server
    is not a decode server. *)
Definition calc_priority (sp : SchedulePolicy) (fast_match : bool) (queue : list SReq)
    (running : option (list SReq)) (st : RadixCache A)
    : result (list SReq * SchedulePolicy * RadixCache A) :=
  let active := determine_active_policy (policy sp) queue in
  let! (queue, st) :=
    match active with
    | Agnostic _ => if fast_match then match_all queue st else Ok (queue, st)
    | Aware _ => Ok (queue, st)
    end in
  if decide (policy sp = Agnostic FCFS) then
    let! queue :=
      if enable_priority_scheduling sp then sort_by_priority_and_fcfs queue (priority_sign sp)
      else Ok queue in
    Ok (queue, sp, st)
  else
    match active with
    | Aware p =>
        let! (queue, deprioritized, st, sim) :=
          compute_prefix_matches queue st (waiting_queue_radix_tree sp) in
        let! queue :=
          match p with
          | LPM => sort_by_longest_prefix queue deprioritized
          | DFS_WEIGHT => sort_by_dfs_weight (tree st) queue
          end in
        Ok (queue, mkPolicy (policy sp) (enable_priority_scheduling sp) (priority_sign sp) sim, st)
    | Agnostic p =>
        let! queue :=
          match p with
          | FCFS => Ok queue
          | LOF => sort_by_longest_output queue (enable_priority_scheduling sp) (priority_sign sp)
          | RANDOM => Ok (shuffle queue)
          | ROUTING_KEY =>
              match running with
              | Some running => sort_by_routing_key queue running
              | None => Ok queue
              end
          end in
        Ok (queue, sp, st)
    end.
End policy.
