(* ===== verification/SchedulePolicyInv.v ===== *)
(** The waiting queue under every policy: sorting neither loses nor repeats a
    request, orders by the key of the policy and is stable; the depth-first
    order visits every node once; a request is deprioritized only behind an
    earlier one with a long common prefix. *)

From stdpp Require Import base gmap strings list.
From Stdlib Require Import Sorted ZArith Lia.
From S2P Require Import Prelude.
From S2P Require Import PyData.
From S2P Require Import RadixKey.
From S2P Require Import RadixTree.
From S2P Require Import RadixInv.
From S2P Require Import RadixContent.
From S2P Require Import RadixOps.
From S2P Require Import RadixInsert.
From S2P Require Import RadixSession.
From S2P Require Import ReqCache.
From S2P Require Import PrefillAdder.
From S2P Require Import SchedulePolicy.

Open Scope Z_scope.

(** ** Sorting by keys *)

Section sorting.
Context (key : SReq → result (list Z)).

Lemma with_keys_ok l l' :
  with_keys key l = Ok l' → l'.*2 = l ∧ Forall (λ x, key x.2 = Ok x.1) l'.
Proof.
  revert l'; induction l as [|r l IH]; intros l' Hk; cbn in Hk; inv_ok; [done|].
  destruct (IH _ Hra0) as [Heq Hf]. cbn. rewrite Heq. split; [done|]. by constructor.
Qed.

Lemma by_key_weak : weak_order by_key.
Proof. apply weak_order_lex. Qed.

(** [r1] may stand in front of [r2]. *)
Definition key_le (r1 r2 : SReq) : Prop :=
  ∃ k1 k2, key r1 = Ok k1 ∧ key r2 = Ok k2 ∧ lex_ltb k2 k1 = false.

Lemma sorted_reqs_ok l l' :
  sorted_reqs key l = Ok l' → l' ≡ₚ l ∧ StronglySorted key_le l'.
Proof.
  unfold sorted_reqs. intros Hs. inv_ok. destruct (with_keys_ok _ _ Hra) as [Heq Hf]. subst l.
  split; [by rewrite (py_sort_perm by_key ra)|].
  pose proof (py_sort_sorted by_key by_key_weak ra) as Hsort.
  assert (Hf' : Forall (λ x, key x.2 = Ok x.1) (py_sort by_key ra)) by (by rewrite py_sort_perm).
  induction Hsort as [|x l Hl IH Hx]; cbn; constructor; inversion Hf' as [|? ? Hkx Hkl]; subst; [auto|].
  apply Forall_forall. intros r (y & -> & Hy)%list_elem_of_fmap.
  rewrite Forall_forall in Hx, Hkl. exists x.1, y.1. split_and!; [done|by apply Hkl|by apply Hx].
Qed.

Lemma sorted_reqs_total l :
  Forall (λ r, ∃ k, key r = Ok k) l → ∃ l', sorted_reqs key l = Ok l'.
Proof.
  intros Hk. unfold sorted_reqs. assert (∃ l', with_keys key l = Ok l') as [l' ->]; [|by eexists].
  induction Hk as [|r l [k Hr] Hk IH]; cbn; [by eexists|]. rewrite Hr. cbn.
  destruct IH as [l' ->]. by eexists.
Qed.

(** Requests with equal keys keep their order. *)
Lemma sorted_reqs_stable l l' k :
  sorted_reqs key l = Ok l' →
  filter (λ r, key r = Ok k) l' = filter (λ r, key r = Ok k) l.
Proof.
  unfold sorted_reqs. intros Hs. inv_ok. destruct (with_keys_ok _ _ Hra) as [Heq Hf]. subst l.
  assert (Hsnd : ∀ l : list (list Z * SReq), Forall (λ x, key x.2 = Ok x.1) l →
    filter (λ r, key r = Ok k) l.*2 = (filter (λ x : list Z * SReq, x.1 = k) l).*2).
  { intros l0 Hl0. induction Hl0 as [|[k0 r] l0 Hx Hl0 IH]; [done|]. cbn in Hx.
    rewrite fmap_cons, !filter_cons. cbn [fst snd]. rewrite Hx.
    destruct (decide (k0 = k)) as [->|Hne]; [rewrite decide_True by done; cbn; by rewrite IH|].
    rewrite decide_False by congruence. done. }
  rewrite !Hsnd by (rewrite ?py_sort_perm; done). f_equal.
  destruct ra as [|[k0 r0] ra]; [done|]. set (l := _ :: ra).
  assert (Htie : ∀ x : list Z * SReq, tie by_key (k, r0) x ↔ x.1 = k).
  { intros x. unfold tie, by_key. cbn. rewrite andb_True, !negb_True. split.
    - intros [Hkx Hxk]. apply lex_total; [destruct (lex_ltb x.1 k)|destruct (lex_ltb k x.1)]; naive_solver.
    - intros ->. rewrite lex_ltb_irrefl. naive_solver. }
  rewrite (list_filter_iff _ _ (py_sort by_key l) (λ x, iff_sym (Htie x))).
  rewrite (list_filter_iff _ _ l (λ x, iff_sym (Htie x))).
  apply py_sort_stable, by_key_weak.
Qed.
End sorting.

(** ** The depth-first order *)

Section dfs_order.
Context {ps : nat} {eagle : bool} (t : Tree).
Hypothesis Hps : (1 ≤ ps)%nat.
Hypothesis Hw : shape_wf ps eagle t.

(** The traversal order: the subtrees of the children, then the node. *)
Fixpoint postorder (fuel : nat) (w : gmap nat Z) (n : nat) : list nat :=
  match fuel with
  | O => []
  | S fuel =>
      (match nodes t !! n with
       | Some nd => py_sort (by_weight w) (children nd).*2 ≫= postorder fuel w
       | None => []
       end) ++ [n]
  end.

Lemma dfs_inv_perm M s1 s2 : s1 ≡ₚ s2 → dfs_inv t M s1 → dfs_inv t M s2.
Proof.
  intros Hp [? ? Hst Hcov ?]. split; try done; [by rewrite <-Hp| |].
  - intros s Hs. apply Hst. by rewrite Hp.
  - intros n nd Hn. destruct (Hcov n nd Hn); [left; by rewrite <-Hp|by right].
Qed.

Lemma dfs_head M n s :
  dfs_inv t M (n :: s) → ∃ nd, nodes t !! n = Some nd ∧ is_Some (M !! n) ∧
    size (delete n M) = (size M - 1)%nat ∧ (1 ≤ size M)%nat.
Proof.
  intros Hi. destruct (di_stack _ _ _ Hi n) as (nd & HM & _); [by left|].
  exists nd. split; [eapply lookup_weaken; [done|apply Hi]|]. split; [done|].
  rewrite map_size_delete_Some by eauto. split; [lia|].
  destruct (size M) eqn:E; [|lia]. apply map_size_empty_inv in E. by rewrite E in HM.
Qed.

(** Every node of [M] comes once. *)
Lemma postorder_perm w k M (stk : list (nat * nat)) :
  size M = k → dfs_inv t M stk.*2 → Forall (λ x, (k ≤ x.1)%nat) stk →
  (stk ≫= λ x, postorder x.1 w x.2) ≡ₚ (map_to_list M).*1.
Proof.
  revert M stk. induction k as [|k IH]; intros M stk Hk Hi Hf.
  { apply map_size_empty_inv in Hk. subst M. destruct stk as [|[f n] stk]; [done|].
    destruct (di_stack _ _ _ Hi n) as (nd & HM & _); [by left|]. done. }
  destruct stk as [|[f n] stk].
  { rewrite (dfs_inv_nil t Hw M Hi) in Hk. done. }
  cbn in Hi. destruct (dfs_head M n stk.*2 Hi) as (nd & Hn & [mnd HM] & Hsz & _).
  inversion Hf as [|? ? Hfn Hfs]; subst. cbn in Hfn. destruct f as [|f]; [lia|].
  pose proof (dfs_inv_step t Hps Hw M n nd stk.*2 Hi Hn) as Hi'.
  set (cs := py_sort (by_weight w) (children nd).*2).
  specialize (IH (delete n M) (((λ c, (f, c)) <$> cs) ++ stk)).
  rewrite <-(insert_delete_id M n mnd HM) at 1.
  rewrite map_to_list_insert by apply lookup_delete_eq. csimpl. rewrite Hn. fold cs.
  rewrite <-IH; [|lia| |].
  - rewrite bind_app. assert (((λ c, (f, c)) <$> cs) ≫= (λ x, postorder x.1 w x.2) = cs ≫= postorder f w)
      as -> by (clear; induction cs as [|c cs IH]; [done|]; csimpl; by rewrite IH).
    rewrite <-app_assoc. cbn. by rewrite Permutation_middle.
  - eapply dfs_inv_perm; [|done]. rewrite fmap_app, <-list_fmap_compose. cbn.
    assert (snd ∘ (λ c : nat, (f, c)) <$> cs = cs) as -> by (clear; induction cs; cbn; f_equal; auto).
    f_equiv. unfold cs. by rewrite py_sort_perm, reverse_Permutation.
  - apply Forall_app. split; [|eapply Forall_impl; [done|]; cbn; lia].
    apply Forall_fmap, Forall_true. cbn. lia.
Qed.

(** Enough fuel for the subtree of [n]. *)
Fixpoint tall (fuel n : nat) : Prop :=
  match fuel with
  | O => False
  | S fuel => ∃ nd, nodes t !! n = Some nd ∧ ∀ c, c ∈ (children nd).*2 → tall fuel c
  end.

Lemma dfs_tall fuel M stk n : dfs_inv t M stk → n ∈ stk → (size M ≤ fuel)%nat → tall fuel n.
Proof.
  revert M stk n. induction fuel as [|fuel IH]; intros M stk n Hi Hn Hf.
  - destruct (di_stack _ _ _ Hi n Hn) as (nd & HM & _).
    assert (size M = 0)%nat as E by lia. apply map_size_empty_inv in E. by rewrite E in HM.
  - apply elem_of_Permutation in Hn as [stk' Hp]. apply (dfs_inv_perm _ _ _ Hp) in Hi.
    destruct (dfs_head M n stk' Hi) as (nd & Hn & _ & Hsz & Hpos). exists nd. split; [done|].
    intros c Hc. eapply IH; [by eapply (dfs_inv_step t Hps Hw)| |lia].
    apply elem_of_app. left. by rewrite elem_of_reverse.
Qed.

Lemma root_tall : tall (dfs_fuel t) (root_node t).
Proof. eapply dfs_tall; [apply (dfs_inv_init t Hps Hw)|by left|unfold dfs_fuel; lia]. Qed.

Lemma get_dfs_priority_ok queue fuel w n q :
  tall fuel n →
  get_dfs_priority t queue fuel w n q = Ok (q ++ (postorder fuel w n ≫= reqs_at queue)).
Proof.
  revert n q. induction fuel as [|fuel IH]; intros n q; [done|]. cbn [tall].
  intros (nd & Hn & Hc). cbn [get_dfs_priority postorder]. rewrite Hn. cbn [of_option rbind].
  set (cs := py_sort (by_weight w) (children nd).*2).
  assert (Hcs : ∀ c, c ∈ cs → tall fuel c) by (intros c; unfold cs; rewrite py_sort_perm; apply Hc).
  assert (Hfold : ∀ q, foldl (λ acc child, let! q := acc in get_dfs_priority t queue fuel w child q) (Ok q) cs
    = Ok (q ++ ((cs ≫= postorder fuel w) ≫= reqs_at queue))).
  { clear Hc. induction cs as [|c cs IHcs]; intros q0; cbn [foldl]; [by rewrite app_nil_r|].
    cbn [rbind]. rewrite (IH c q0) by (apply Hcs; by left). rewrite IHcs by set_solver. csimpl.
    by rewrite bind_app, app_assoc. }
  rewrite Hfold. cbn [rbind]. rewrite bind_app, app_assoc. csimpl. by rewrite app_nil_r.
Qed.

Lemma calc_weight_ok fuel n w : tall fuel n → ∃ w', calc_weight t fuel n w = Ok w'.
Proof.
  revert n w. induction fuel as [|fuel IH]; intros n w; [done|]. cbn [tall].
  intros (nd & Hn & Hc). cbn [calc_weight]. rewrite Hn. cbn [of_option rbind].
  revert w. induction (children nd).*2 as [|c cs IHcs]; intros w; cbn [foldl]; [eauto|].
  cbn [rbind]. destruct (IH c w) as [w' ->]; [apply Hc; by left|]. cbn [rbind].
  apply IHcs. intros. apply Hc. by right.
Qed.

(** Requests grouped by the nodes of a duplicate-free list. *)
Lemma group_perm queue (V : list nat) :
  NoDup V → Forall (λ r, ∃ n, last_node (kv r) = Some n ∧ n ∈ V) queue →
  (V ≫= reqs_at queue) ≡ₚ queue.
Proof.
  intros Hnd Hq. induction Hq as [|r queue (n & Hr & Hn) Hq IH].
  { clear Hnd. induction V; [done|]. csimpl. by rewrite IHV. }
  rewrite <-IH at 2. clear IH Hq. unfold reqs_at.
  apply elem_of_Permutation in Hn as [V' Hp]. rewrite !Hp. csimpl.
  rewrite filter_cons, decide_True by done. cbn. f_equiv. f_equiv.
  rewrite Hp in Hnd. apply NoDup_cons in Hnd as [Hn _].
  rewrite (bind_ext_in _ (λ n, filter (λ r, last_node (kv r) = Some n) queue)); [done|].
  intros x Hx. rewrite decide_False; [done|]. intros [= ->]%(eq_trans (eq_sym Hr)). done.
Qed.

(** The depth-first order is total and keeps the requests. *)
Lemma sort_by_dfs_weight_ok queue :
  Forall (λ r, ∃ n, last_node (kv r) = Some n ∧ is_Some (nodes t !! n)) queue →
  ∃ queue', sort_by_dfs_weight t queue = Ok queue' ∧ queue' ≡ₚ queue.
Proof.
  intros Hq. unfold sort_by_dfs_weight.
  destruct (calc_weight_ok (dfs_fuel t) (root_node t) (initial_weights queue) root_tall) as [w ->].
  cbn [rbind]. rewrite get_dfs_priority_ok by apply root_tall. eexists; split; [done|]. cbn.
  pose proof (postorder_perm w (size (nodes t)) (nodes t) [(dfs_fuel t, root_node t)] eq_refl
    (dfs_inv_init t Hps Hw)) as Hp. csimpl in Hp. rewrite app_nil_r in Hp.
  specialize (Hp ltac:(repeat constructor; cbn; unfold dfs_fuel; lia)).
  rewrite Hp. apply group_perm.
  - apply NoDup_fst_map_to_list.
  - eapply Forall_impl; [exact Hq|]. intros r (n & Hr & [nd Hn]). exists n. split; [done|].
    apply list_elem_of_fmap. exists (n, nd). split; [done|]. by apply elem_of_map_to_list.
Qed.
End dfs_order.

(** ** Prefix matches *)

Section matches.
Context {A : Type} `{KVPool A} `{KVAlloc A} `{Env} `{!EnvLaws} `{HeapQ}.
Variable cfg : Config.
Variables (check_threshold deprioritize_threshold : Z).
Hypothesis Hdis : disable cfg = false.
Implicit Types (st : RadixCache A) (sim : RadixCache unit).

Definition prompt_key (r : SReq) : RadixKey :=
  mkKey (origin_input_ids (kv r) ++ output_ids (kv r)) (req_extra_key (kv r)) false None.

(** A node that is reached from the root. *)
Definition reached (t : Tree) (n : nat) : Prop := ∃ e us w, down t e (root_node t) us w n.

Lemma reached_node st L n : cache_wf cfg st L → reached (tree st) n → is_Some (nodes (tree st) !! n).
Proof.
  intros Hw (e & us & w & Hd). eapply down_node; [done|].
  destruct (sw_root _ _ _ (tw_shape _ _ _ _ (cw_tree _ _ _ Hw))) as (rn & ? & _). eauto.
Qed.

Lemma match_reached st L key vs x st' n :
  match_spec cfg st L key vs x st' → reached (tree st) n → reached (tree st') n.
Proof.
  intros Hs (e & us & w & Hd). exists e, us, w. rewrite (ms_root _ _ _ _ _ _ _ Hs).
  by apply (ms_keep _ _ _ _ _ _ _ Hs).
Qed.

(** What a lookup changes in a request. *)
Record same_req (r r' : SReq) : Prop := {
  sr_rid : rid r' = rid r;
  sr_origin : origin_input_ids (kv r') = origin_input_ids (kv r);
  sr_output : output_ids (kv r') = output_ids (kv r);
  sr_extra : req_extra_key (kv r') = req_extra_key (kv r);
  sr_max_new : max_new_tokens r' = max_new_tokens r;
  sr_priority : req_priority (kv r') = req_priority (kv r);
  sr_row : req_pool_idx (kv r') = req_pool_idx (kv r);
  sr_freed : kv_committed_freed (kv r') = kv_committed_freed (kv r) ∧
    kv_overallocated_freed (kv r') = kv_overallocated_freed (kv r);
  sr_fill : full_untruncated_fill_ids (kv r') = full_untruncated_fill_ids (kv r) ∧
    fill_is_origin (kv r') = fill_is_origin (kv r);
  sr_chunks : inflight_middle_chunks (kv r') = inflight_middle_chunks (kv r);
  sr_finished : is_finished r' = is_finished r;
  sr_skip : skip_radix_cache_insert (kv r') = skip_radix_cache_insert (kv r);
}.

(** The match of a request: the longest cached prefix of its tokens, capped
    so that one token is left to compute. *)
Lemma match_prefix_for_req_ok st L r ids :
  cache_wf cfg st L → ids = None ∨ ids = Some (origin_input_ids (kv r) ++ output_ids (kv r)) →
  ∃ r' st' vs x, match_prefix_for_req cfg r ids st = Ok (r', st') ∧
    match_spec cfg st L (prompt_key r) vs x st' ∧ same_req r r' ∧
    prefix_indices (kv r') = (if force_miss then [] else vs) ∧
    num_matched_prefix_tokens r' = Z.min (Z.of_nat (length (prefix_indices (kv r'))))
      (compute_max_prefix_len (kv r) (Z.of_nat (length (token_ids (prompt_key r))))) ∧
    ∃ n, last_node (kv r') = Some n ∧ reached (tree st') n.
Proof.
  intros Hw Hids. unfold match_prefix_for_req.
  assert (default (origin_input_ids (kv r) ++ output_ids (kv r)) ids =
    origin_input_ids (kv r) ++ output_ids (kv r)) as -> by (by destruct Hids as [->| ->]).
  destruct (match_prefix_ok cfg st L (prompt_key r) Hw Hdis) as (vs & x & st' & Hm & Hs); [done|].
  unfold prompt_key in Hm. rewrite Hm. cbn [rbind]. destruct force_miss.
  - eexists _, st', vs, x. split; [done|]. split_and!; try done.
    eexists; split; [done|]. exists None, [], []. constructor.
  - eexists _, st', vs, x. split; [done|]. split_and!; try done.
    eexists; split; [done|]. do 3 eexists. rewrite (ms_root _ _ _ _ _ _ _ Hs). by eapply ms_down.
Qed.

(** What the simulated tree holds comes from the requests seen so far. *)
Definition sim_inv (seen : list SReq) sim : Prop :=
  cache_wf simulated_cfg sim [] ∧
  ∀ e us w, cached 1 (tree sim) e us w → us ≠ [] →
    ∃ r, r ∈ seen ∧ req_extra_key (kv r) = e ∧ us `prefix_of` units (prompt_key r).

(** [r] shares a prefix of at least the threshold with an earlier request. *)
Definition shares_prefix (earlier : list SReq) (r : SReq) : Prop :=
  ∃ r0, r0 ∈ earlier ∧ req_extra_key (kv r0) = req_extra_key (kv r) ∧
    deprioritize_threshold ≤ Z.of_nat (lcp (units (prompt_key r0)) (units (prompt_key r))).

Lemma view_plain r : view (is_eagle simulated_cfg) (prompt_key r) = prompt_key r.
Proof. done. Qed.

Lemma sim_insert_ok seen r sim v :
  sim_inv seen sim → length v = length (token_ids (prompt_key r)) →
  ∃ p x sim', insert simulated_cfg (prompt_key r) (Some v) None false sim = Ok (p, x, sim') ∧
    sim_inv (r :: seen) sim'.
Proof.
  intros [Hw Hc] Hv.
  destruct (insert_ok simulated_cfg sim [] (prompt_key r) (Some v) None false Hw eq_refl) as
    (old & plen & x & sim' & Hrun & Hs); [done| |].
  { intros v' [= <-]. rewrite view_plain. cbn [page_size simulated_cfg].
    rewrite page_floor_1. unfold key_len, raw_len. cbn. rewrite Hv. done. }
  eexists _, _, sim'. split; [done|]. split; [apply Hs|].
  intros e us w Hcu Hne. apply (is_cached _ _ _ _ _ _ _ _ _ Hs) in Hcu as [Hold|(-> & _ & Hpre & _)].
  - destruct (Hc e us w Hold Hne) as (r0 & ? & ? & ?). exists r0. split_and!; [by right|done..].
  - exists r. split_and!; [by left|done|]. etrans; [exact Hpre|].
    unfold insert_units. rewrite view_plain. apply prefix_take.
Qed.

Lemma sim_match_ok seen r sim :
  sim_inv seen sim → 0 < deprioritize_threshold →
  ∃ vs x sim', match_prefix simulated_cfg (prompt_key r) sim = Ok (vs, x, sim') ∧
    sim_inv seen sim' ∧
    (deprioritize_threshold ≤ Z.of_nat (length vs) → shares_prefix seen r).
Proof.
  intros [Hw Hc] Hpos.
  destruct (match_prefix_ok simulated_cfg sim [] (prompt_key r) Hw eq_refl) as (vs & x & sim' & Hrun & Hs);
    [done|]. exists vs, x, sim'. split; [done|].
  pose proof (ms_wf _ _ _ _ _ _ _ Hs) as Hw'. split.
  { split; [done|]. intros e us w Hcu. apply Hc with w. by apply (ms_cached _ _ _ _ _ _ _ Hs). }
  intros Hge. pose proof (ms_down _ _ _ _ _ _ _ Hs) as Hd. rewrite view_plain in Hd.
  pose proof (ms_len _ _ _ _ _ _ _ Hs) as Hlen. rewrite view_plain in Hlen.
  set (us := take (length vs) (units (prompt_key r))) in Hd.
  assert (Hlu : length us = length vs) by (unfold us; rewrite length_take, length_units; lia).
  assert (Hcu : cached 1 (tree sim') (extra_key (prompt_key r)) us vs).
  { split; [exists (length us); lia|]. exists x, us, vs. rewrite (ms_root _ _ _ _ _ _ _ Hs).
    split_and!; [done..|]. by rewrite Hlu, firstn_all. }
  apply (ms_cached _ _ _ _ _ _ _ Hs) in Hcu.
  destruct (Hc _ _ _ Hcu) as (r0 & Hr0 & He & Hpre).
  { intros E. rewrite E in Hlu. cbn in Hlu. lia. }
  exists r0. split_and!; [done|done|]. etrans; [exact Hge|]. apply inj_le. rewrite <-Hlu.
  apply lcp_take; [by apply prefix_length|unfold us; rewrite length_take; lia|].
  destruct Hpre as [k Hk]. rewrite Hk at 1. rewrite take_app_length. unfold us. rewrite length_take.
  rewrite Nat.min_l; [done|]. rewrite length_units. lia.
Qed.

Lemma same_req_refl r : same_req r r.
Proof. by split. Qed.

Lemma same_reqs_trans l1 l2 l3 :
  Forall2 same_req l1 l2 → Forall2 same_req l2 l3 → Forall2 same_req l1 l3.
Proof.
  intros Hf. revert l3. induction Hf as [|x y l1 l2 [] Hf IH]; intros l3 Hg; inversion Hg as [|? z ? ? []];
    subst; constructor; [split; intuition congruence|auto].
Qed.

Lemma shares_mono earlier earlier' r :
  (∀ x, x ∈ earlier → x ∈ earlier') → shares_prefix earlier r → shares_prefix earlier' r.
Proof. intros Hs (r0 & ? & ?). exists r0. split; [auto|done]. Qed.

(** One turn of the in-batch check. *)
Lemma in_batch_ok seen r r1 (dep : gset string) sim :
  sim_inv seen sim → 0 < deprioritize_threshold → rid r1 = rid r →
  ∃ dep' sim' seen',
    in_batch_check check_threshold deprioritize_threshold r1 (prompt_key r) dep sim
      = Ok (dep', sim') ∧
    sim_inv seen' sim' ∧ (∀ x, x ∈ seen' → x = r ∨ x ∈ seen) ∧
    (∀ d, d ∈ dep' → d ∈ dep ∨ d = rid r ∧ shares_prefix seen r).
Proof.
  intros Hi Hpos Hrid. unfold in_batch_check. case_match; [|exists dep, sim, seen; split_and!; auto].
  destruct (sim_match_ok seen r sim Hi Hpos) as (vs & x & sim1 & -> & Hi1 & Hsh). cbn [rbind].
  destruct (Z.leb_spec deprioritize_threshold (Z.of_nat (length (if force_miss then [] else vs)))) as [Hle|_].
  - exists (dep ∪ {[rid r1]}), sim1, seen. split_and!; auto.
    intros d [Hd|Hd%elem_of_singleton]%elem_of_union; [by left|right]. split; [congruence|].
    apply Hsh. destruct force_miss; [cbn in Hle; lia|done].
  - destruct (sim_insert_ok seen r sim1
      (replicate (length (token_ids (prompt_key r))) 0) Hi1) as (p & y & sim2 & -> & Hi2);
      [by rewrite length_replicate|]. cbn [rbind].
    exists dep, sim2, (r :: seen). split_and!; auto. intros z [->|?]%elem_of_cons; auto.
Qed.

Lemma prefix_matches_loop_ok queue dep st sim seen L :
  cache_wf cfg st L → sim_inv seen sim → 0 < deprioritize_threshold →
  ∃ queue' dep' st' sim',
    prefix_matches_loop cfg check_threshold deprioritize_threshold queue dep st sim
      = Ok (queue', dep', st', sim') ∧
    cache_wf cfg st' L ∧ cache_wf simulated_cfg sim' [] ∧ same_content cfg st st' ∧
    Forall2 same_req queue queue' ∧
    Forall (λ r, ∃ n, last_node (kv r) = Some n ∧ reached (tree st') n) queue' ∧
    (∀ n, reached (tree st) n → reached (tree st') n) ∧
    (∀ d, d ∈ dep' → d ∈ dep ∨ ∃ q1 r q2, queue = q1 ++ r :: q2 ∧ rid r = d ∧
      shares_prefix (q1 ++ seen) r).
Proof.
  intros Hw Hi Hpos. revert dep st sim seen Hw Hi. induction queue as [|r queue IH]; intros dep st sim seen Hw Hi.
  { exists [], dep, st, sim. split_and!; auto; [apply Hi|by apply same_content_tree]. }
  cbn [prefix_matches_loop].
  destruct (match_prefix_for_req_ok st L r (Some (origin_input_ids (kv r) ++ output_ids (kv r))) Hw) as
    (r1 & st1 & vs & x & -> & Hs1 & Hsame & _ & _ & (n & Hn & Hreach)); [by right|]. cbn [rbind].
  rewrite (sr_extra _ _ Hsame). fold (prompt_key r).
  destruct (in_batch_ok seen r r1 dep sim Hi Hpos (sr_rid _ _ Hsame)) as (dep1 & sim1 & seen1 & -> & Hi1 & Hseen & Hdep). cbn [rbind].
  destruct (IH dep1 st1 sim1 seen1 (ms_wf _ _ _ _ _ _ _ Hs1) Hi1) as
    (queue' & dep' & st' & sim' & -> & Hw' & Hws & Hsc & Hf & Hl & Hr & Hd). cbn [rbind].
  exists (r1 :: queue'), dep', st', sim'. split_and!; auto.
  - eapply same_content_trans; [by eapply match_same_content|done].
  - constructor; [exists n; auto|done].
  - intros m Hm. apply Hr. by eapply match_reached.
  - intros d Hdd. destruct (Hd d Hdd) as [Hd1|(q1 & r2 & q2 & -> & Hrid & Hsh)].
    + destruct (Hdep d Hd1) as [|[-> Hsh]]; [by left|right]. by exists [], r, queue.
    + right. exists (r :: q1), r2, q2. split_and!; [done..|]. eapply shares_mono; [|exact Hsh].
      intros z [Hz|Hz]%elem_of_app; [set_solver|]. destruct (Hseen z Hz); set_solver.
Qed.

Lemma sim_reset_ok sim : sim_inv [] (reset simulated_cfg sim).
Proof.
  split; [apply reset_wf; cbn; lia|]. intros e us w (_ & x & U & V & Hd & Hpre & _) Hne.
  exfalso. apply Hne. assert (U = []) as ->; [|by apply prefix_nil_inv in Hpre].
  apply down_last in Hd as [(_ & -> & _)|(p & xnd & v & us0 & vs0 & Hd & Hx & Hp & _)]; [done|].
  exfalso. revert Hx Hp. cbn. intros [_ <-]%lookup_singleton_Some. done.
Qed.

Lemma match_all_ok queue st L :
  cache_wf cfg st L →
  ∃ queue' st', match_all cfg queue st = Ok (queue', st') ∧ cache_wf cfg st' L ∧
    same_content cfg st st' ∧ Forall2 same_req queue queue'.
Proof.
  revert st. induction queue as [|r queue IH]; intros st Hw; cbn.
  { exists [], st. split_and!; [done..|by apply same_content_tree|done]. }
  destruct (match_prefix_for_req_ok st L r None Hw) as (r1 & st1 & vs & x & -> & Hs & Hsame & _); [by left|].
  cbn [rbind]. destruct (IH st1 (ms_wf _ _ _ _ _ _ _ Hs)) as (queue' & st' & -> & Hw' & Hsc & Hf).
  cbn [rbind]. eexists _, _; split; [done|]. split_and!; [done| |by constructor].
  eapply same_content_trans; [by eapply match_same_content|done].
Qed.

(** [queue'] holds the requests of [queue], with new lookups. *)
Definition reordered (queue queue' : list SReq) : Prop :=
  ∃ q, Forall2 same_req queue q ∧ queue' ≡ₚ q.

Lemma reordered_refl queue : reordered queue queue.
Proof. exists queue. split; [|done]. apply Forall2_same_length_lookup. split; [done|].
  intros i x y Hx Hy. simplify_eq. apply same_req_refl. Qed.

Lemma sorted_reordered key queue q :
  Forall2 same_req queue q → Forall (λ r, ∃ k, key r = Ok k) q →
  ∃ q', sorted_reqs key q = Ok q' ∧ reordered queue q'.
Proof.
  intros Hf Hk. destruct (sorted_reqs_total key q Hk) as [q' Hq]. exists q'. split; [done|].
  exists q. split; [done|]. by apply sorted_reqs_ok in Hq as [? _].
Qed.

Variable shuffle : list SReq → list SReq.
Hypothesis shuffle_perm : ∀ l, shuffle l ≡ₚ l.
Hypothesis Hpos : 0 < deprioritize_threshold.

Definition has_priority (r : SReq) : Prop := is_Some (req_priority (kv r)).

Lemma has_priority_same queue q :
  Forall2 same_req queue q → Forall has_priority queue → Forall has_priority q.
Proof.
  intros Hf Hp. apply Forall_forall. intros r [i Hi]%list_elem_of_lookup.
  destruct (Forall2_lookup_r _ _ _ _ _ Hf Hi) as (r0 & Hr0 & Hs).
  unfold has_priority. rewrite (sr_priority _ _ Hs). by eapply Forall_lookup in Hp.
Qed.

(** Policies that do not look at the cache. *)
Lemma agnostic_ok sp p queue q running :
  Forall2 same_req queue q →
  (enable_priority_scheduling sp = true → Forall has_priority queue) →
  ∃ q', match p with
        | FCFS => Ok q
        | LOF => sort_by_longest_output q (enable_priority_scheduling sp) (priority_sign sp)
        | RANDOM => Ok (shuffle q)
        | ROUTING_KEY =>
            match running with Some running => sort_by_routing_key q running | None => Ok q end
        end = Ok q' ∧ reordered queue q'.
Proof.
  intros Hf Hp. assert (Hq : reordered queue q) by (by exists q). destruct p; [eauto| | |].
  - apply sorted_reordered; [done|]. apply Forall_forall. intros r Hr. unfold longest_output_key.
    destruct (enable_priority_scheduling sp); [|eauto].
    pose proof (has_priority_same _ _ Hf (Hp eq_refl)) as Hall. rewrite Forall_forall in Hall.
    destruct (Hall r Hr) as [k ->]. cbn. eauto.
  - eexists; split; [done|]. exists q. split; [done|]. apply shuffle_perm.
  - destruct running as [running|]; [|eauto]. unfold sort_by_routing_key. case_decide; [eauto|].
    apply sorted_reordered; [done|]. apply Forall_true. intros r. unfold routing_sort_key. eauto.
Qed.

(** Every policy returns the requests of the queue, each once, and leaves the
    content of the cache alone. *)
Lemma calc_priority_ok sp fast queue running st L :
  cache_wf cfg st L →
  (enable_priority_scheduling sp = true → Forall has_priority queue) →
  ∃ queue' sp' st',
    calc_priority cfg check_threshold deprioritize_threshold shuffle sp fast queue
      running st = Ok (queue', sp', st') ∧
    cache_wf cfg st' L ∧ same_content cfg st st' ∧ policy sp' = policy sp ∧ reordered queue queue'.
Proof.
  intros Hw Hp. unfold calc_priority. set (active := determine_active_policy _ _).
  assert (∃ q st1, match active with
      | Agnostic _ => if fast then match_all cfg queue st else Ok (queue, st)
      | Aware _ => Ok (queue, st)
      end = Ok (q, st1) ∧ cache_wf cfg st1 L ∧ same_content cfg st st1 ∧ Forall2 same_req queue q)
    as (q & st1 & -> & Hw1 & Hsc1 & Hf1).
  { assert (Hid : ∃ q st1, Ok (queue, st) = Ok (q, st1) ∧ cache_wf cfg st1 L ∧
      same_content cfg st st1 ∧ Forall2 same_req queue q).
    { eexists _, _; split; [done|]. split_and!; [done|by apply same_content_tree|].
      apply Forall2_same_length_lookup. split; [done|]. intros; simplify_eq; apply same_req_refl. }
    destruct active; [done|]. destruct fast; [|done].
    destruct (match_all_ok queue st L Hw) as (q & st1 & ? & ? & ? & ?). eauto 10. }
  cbn [rbind]. case_decide.
  { assert (∃ q', (if enable_priority_scheduling sp then sort_by_priority_and_fcfs q (priority_sign sp)
        else Ok q) = Ok q' ∧ reordered queue q') as (q' & -> & Hr).
    { destruct (enable_priority_scheduling sp) eqn:E; [|by exists q; split; [|exists q]].
      apply sorted_reordered; [done|]. eapply Forall_impl;
        [by apply (has_priority_same _ _ Hf1), Hp|]. intros r [k Hk]. unfold priority_fcfs_key. rewrite Hk.
      cbn. eauto. }
    cbn [rbind]. eauto 10. }
  destruct active as [p|p].
  - unfold compute_prefix_matches.
    destruct (prefix_matches_loop_ok q ∅ st1 (reset simulated_cfg (waiting_queue_radix_tree sp)) [] L Hw1
      (sim_reset_ok _) Hpos) as (q2 & dep & st2 & sim2 & -> & Hw2 & _ & Hsc2 & Hf2 & Hl2 & _). cbn [rbind].
    assert (Hf : Forall2 same_req queue q2).
    { by eapply same_reqs_trans. }
    assert (∃ q', match p with
        | LPM => sort_by_longest_prefix q2 dep
        | DFS_WEIGHT => sort_by_dfs_weight (tree st2) q2
        end = Ok q' ∧ reordered queue q') as (q' & -> & Hr).
    { destruct p.
      - apply sorted_reordered; [done|]. apply Forall_true. intros r. unfold longest_prefix_key. eauto.
      - destruct (sort_by_dfs_weight_ok (tree st2) (cw_ps _ _ _ Hw2) (tw_shape _ _ _ _ (cw_tree _ _ _ Hw2)) q2)
          as (q' & Hq' & Hperm).
        { eapply Forall_impl; [exact Hl2|]. intros r (n & Hn & Hre). exists n. split; [done|].
          by eapply reached_node. }
        exists q'. split; [done|]. by exists q2. }
    cbn [rbind]. eexists _, _, _; split; [done|]. split_and!; try done. by eapply same_content_trans.
  - destruct (agnostic_ok sp p queue q running Hf1 Hp) as (q' & -> & Hr). cbn [rbind]. eauto 10.
Qed.
End matches.
