(* ===== verification/Scheduler.v ===== *)
(** The scheduler: which batch runs next.  [get_next_batch_to_run],
    [get_new_batch_prefill], [_get_new_batch_prefill_raw], [process_batch_result] and an
    iteration of [event_loop_normal] of managers/scheduler.py, with the way of a
    request into the waiting queue: [init_req_max_new_tokens], [_add_request_to_queue],
    [_set_or_validate_priority], [_abort_on_queued_limit], [_abort_on_waiting_timeout]
    and [validate_input_length] of managers/utils.py, and out of the server by an abort:
    [abort_request], [process_pending_chunked_abort] and [_abort_on_running_timeout].

    Requests are shared objects in the source: the queue, the batches and [chunked_req]
    refer to one object per request.  Here each place holds the request, [rid] is its
    identity, and what is updated in one place is put into the others.  Servers without
    LoRA, grammars, multimodal inputs, hierarchical caches, sliding windows, mamba states,
    diffusion blocks, disaggregation, dynamic chunks and data-parallel attention. *)

From stdpp Require Import base gmap strings list.
From Stdlib Require Import ZArith QArith Lia.
From S2P Require Import Prelude.
From S2P Require Import PyData.
From S2P Require Import RadixKey.
From S2P Require Import RadixTree.
From S2P Require Import ReqCache.
From S2P Require Import ReqLife.
From S2P Require Import BatchAlloc.
From S2P Require Import Delayer.
From S2P Require Import PrefillAdder.
From S2P Require Import SchedulePolicy.
From S2P Require Import ScheduleBatch.
From S2P Require Import MemCheck.

Open Scope Z_scope.

(** ** Settings and state *)

Record SchedCfg := mkSchedCfg {
  max_prefill_tokens : Z;
  chunked_prefill_size : option Z;
  is_mixed_chunk : bool;
  overlap_on : bool;
  pp_max_micro_batch_size : Z;
  max_running_requests : Z;
  sc_prefill_max_requests : option Z;
  max_queued_requests : option Z;
  max_req_len : Z;
  max_req_input_len : Z;
  max_total_num_tokens : Z;
  allow_auto_truncate : bool;
  CLIP_MAX_NEW_TOKENS : Z;
  priority_scheduling_preemption_threshold : Z;
  enable_priority_preemption : bool;
  schedule_low_priority_values_first : bool;
  priority_scheduling_on : bool;
  abort_on_priority_when_disabled : bool;
  truncation_align_size : option Z;
  min_free_slots_delayer : option Z;
  (** [TEST_RETRACT] with [TEST_RETRACT_NO_PREFILL_BS] *)
  test_retract_no_prefill_bs : option Z;
  retract_decode_steps : Z;
  vocab_size : Z;
  spec_args : SpecArgs;
}.

(** A batch on its way, with the attributes the scheduler sets on it. *)
Record Launched := mkLaunched {
  lb_batch : ScheduleBatch;
  lb_chunked_req : option string;
  decoding_reqs : list string;
  contains_last_prefill_chunk : bool;
  (** the batch is [running_batch], as an object *)
  lb_is_running : bool;
}.

Definition set_batch (b : ScheduleBatch) (l : Launched) : Launched :=
  mkLaunched b (lb_chunked_req l) (decoding_reqs l) (contains_last_prefill_chunk l) (lb_is_running l).

Record Scheduler (A : Type) := mkScheduler {
  waiting_queue : list BReq;
  running_batch : ScheduleBatch;
  last_batch : option Launched;
  chunked_req : option BReq;
  sched_policy : SchedulePolicy;
  new_token_ratio_tracker : NewTokenRatioTracker;
  max_prefill_bs : Z;
  sched_delayer : option Delayer.PrefillDelayer;
  (** the requests for which an [AbortReq] was sent to the tokenizer *)
  sent_aborts : list string;
  (** the request between two chunks that a client aborted *)
  pending_chunked_abort_req : option string;
  sys : Sys A;
}.
Arguments mkScheduler {A} _ _ _ _ _ _ _ _ _ _ _.
Arguments waiting_queue {A} _.
Arguments running_batch {A} _.
Arguments last_batch {A} _.
Arguments chunked_req {A} _.
Arguments sched_policy {A} _.
Arguments new_token_ratio_tracker {A} _.
Arguments max_prefill_bs {A} _.
Arguments sched_delayer {A} _.
Arguments sent_aborts {A} _.
Arguments pending_chunked_abort_req {A} _.
Arguments sys {A} _.

Section setters.
Context {A : Type}.
Implicit Types x : Scheduler A.

Definition set_queue (q : list BReq) x : Scheduler A :=
  mkScheduler q (running_batch x) (last_batch x) (chunked_req x) (sched_policy x)
    (new_token_ratio_tracker x) (max_prefill_bs x) (sched_delayer x) (sent_aborts x) (pending_chunked_abort_req x) (sys x).
Definition set_running (b : ScheduleBatch) x : Scheduler A :=
  mkScheduler (waiting_queue x) b (last_batch x) (chunked_req x) (sched_policy x)
    (new_token_ratio_tracker x) (max_prefill_bs x) (sched_delayer x) (sent_aborts x) (pending_chunked_abort_req x) (sys x).
Definition set_last (b : option Launched) x : Scheduler A :=
  mkScheduler (waiting_queue x) (running_batch x) b (chunked_req x) (sched_policy x)
    (new_token_ratio_tracker x) (max_prefill_bs x) (sched_delayer x) (sent_aborts x) (pending_chunked_abort_req x) (sys x).
Definition set_chunked (c : option BReq) x : Scheduler A :=
  mkScheduler (waiting_queue x) (running_batch x) (last_batch x) c (sched_policy x)
    (new_token_ratio_tracker x) (max_prefill_bs x) (sched_delayer x) (sent_aborts x) (pending_chunked_abort_req x) (sys x).
Definition set_policy (p : SchedulePolicy) x : Scheduler A :=
  mkScheduler (waiting_queue x) (running_batch x) (last_batch x) (chunked_req x) p
    (new_token_ratio_tracker x) (max_prefill_bs x) (sched_delayer x) (sent_aborts x) (pending_chunked_abort_req x) (sys x).
Definition set_tracker (t : NewTokenRatioTracker) x : Scheduler A :=
  mkScheduler (waiting_queue x) (running_batch x) (last_batch x) (chunked_req x) (sched_policy x)
    t (max_prefill_bs x) (sched_delayer x) (sent_aborts x) (pending_chunked_abort_req x) (sys x).
Definition set_prefill_bs (n : Z) x : Scheduler A :=
  mkScheduler (waiting_queue x) (running_batch x) (last_batch x) (chunked_req x) (sched_policy x)
    (new_token_ratio_tracker x) n (sched_delayer x) (sent_aborts x) (pending_chunked_abort_req x) (sys x).
Definition set_delayer (d : option Delayer.PrefillDelayer) x : Scheduler A :=
  mkScheduler (waiting_queue x) (running_batch x) (last_batch x) (chunked_req x) (sched_policy x)
    (new_token_ratio_tracker x) (max_prefill_bs x) d (sent_aborts x) (pending_chunked_abort_req x) (sys x).
Definition set_sys (s : Sys A) x : Scheduler A :=
  mkScheduler (waiting_queue x) (running_batch x) (last_batch x) (chunked_req x) (sched_policy x)
    (new_token_ratio_tracker x) (max_prefill_bs x) (sched_delayer x) (sent_aborts x) (pending_chunked_abort_req x) s.
Definition send_aborts (ids : list string) x : Scheduler A :=
  mkScheduler (waiting_queue x) (running_batch x) (last_batch x) (chunked_req x) (sched_policy x)
    (new_token_ratio_tracker x) (max_prefill_bs x) (sched_delayer x) (sent_aborts x ++ ids) (pending_chunked_abort_req x) (sys x).
Definition set_pending (id : option string) x : Scheduler A :=
  mkScheduler (waiting_queue x) (running_batch x) (last_batch x) (chunked_req x) (sched_policy x)
    (new_token_ratio_tracker x) (max_prefill_bs x) (sched_delayer x) (sent_aborts x) id (sys x).
End setters.

(** ** Requests by identity *)

Definition brid (r : BReq) : string := rid (sreq r).

Definition find_req (id : string) (l : list BReq) : option BReq :=
  head (filter (λ r, brid r = id) l).

(** The objects behind a list of the adder or the policy, with what these wrote. *)
Definition rejoin (objs : list BReq) (l : list SReq) : list BReq :=
  omap (λ x, with_sreq x <$> find_req (rid x) objs) l.

(** [req.inflight_middle_chunks += 1] *)
Definition bump_chunks (r : BReq) : BReq :=
  with_bkv (with_output (output_ids (bkv r)) (inflight_middle_chunks (bkv r) + 1) (bkv r)) r.

Definition set_max_new (n : Z) (r : BReq) : BReq :=
  let x := sreq r in
  with_sreq (mkSReq (kv x) (rid x) n (ignore_eos x) (wait_queue_entry_time x) (routing_key x)
    (num_matched_prefix_tokens x) (host_hit_length x) (swa_host_hit_length x)
    (mamba_host_hit_length x) (mamba_pool_idx x) (retracted_stain x) (is_finished x)) r.

Definition set_entry_time (t : Z) (r : BReq) : BReq :=
  let x := sreq r in
  with_sreq (mkSReq (kv x) (rid x) (max_new_tokens x) (ignore_eos x) t (routing_key x)
    (num_matched_prefix_tokens x) (host_hit_length x) (swa_host_hit_length x)
    (mamba_host_hit_length x) (mamba_pool_idx x) (retracted_stain x) (is_finished x)) r.

Definition with_priority (p : option Z) (k : Req) : Req :=
  mkReq (origin_input_ids k) (output_ids k) (full_untruncated_fill_ids k) (fill_is_origin k)
    (extend_range k) (req_extra_key k) (req_pool_idx k) (kv_committed_len k) (kv_allocated_len k)
    (kv_committed_freed k) (kv_overallocated_freed k) (cache_protected_len k) (prefix_indices k)
    (last_node k) p (session_id k) (inflight_middle_chunks k) (return_logprob k)
    (logprob_start_len k) (reasoning_tokens k) (skip_radix_cache_insert k)
    (has_embed_overrides k) (session_streaming k) (swa_evict_floor k) (swa_evicted_seqlen k).

Definition with_origin (ids : list Z) (k : Req) : Req :=
  mkReq ids (output_ids k) (full_untruncated_fill_ids k) (fill_is_origin k)
    (extend_range k) (req_extra_key k) (req_pool_idx k) (kv_committed_len k) (kv_allocated_len k)
    (kv_committed_freed k) (kv_overallocated_freed k) (cache_protected_len k) (prefix_indices k)
    (last_node k) (req_priority k) (session_id k) (inflight_middle_chunks k) (return_logprob k)
    (logprob_start_len k) (reasoning_tokens k) (skip_radix_cache_insert k)
    (has_embed_overrides k) (session_streaming k) (swa_evict_floor k) (swa_evicted_seqlen k).

(** ** Into the waiting queue *)

Section intake.
Context {A : Type} (sc : SchedCfg) (page_size : Z).
Implicit Types x : Scheduler A.

Definition init_req_max_new_tokens (wanted : option Z) (r : BReq) : BReq :=
  let input_len := Z.of_nat (length (origin_input_ids (bkv r))) in
  let paged_input_len := - ((- input_len) / page_size) * page_size in
  set_max_new
    (Z.max 0 (Z.min (Z.min (default (Z.shiftl 1 30) wanted) (max_req_len sc - input_len - 1))
      (max_total_num_tokens sc - paged_input_len - page_size - 1))) r.

(** [None] as the error message means that the input is accepted. *)
Definition validate_input_length (r : BReq) : option string * BReq :=
  let ids := origin_input_ids (bkv r) in
  if max_req_input_len sc <=? Z.of_nat (length ids) then
    if allow_auto_truncate sc then
      (None, with_bkv (with_origin (py_take (max_req_input_len sc) ids) (bkv r)) r)
    else (Some "Input length exceeds the maximum allowed length."%string, r)
  else (None, r).

(** [Req.set_finish_with_abort] *)
Definition set_finish_with_abort (msg : string) (r : BReq) : BReq :=
  let k := with_origin [0] (bkv r) in
  set_abort msg (with_bkv (mkReq (origin_input_ids k) (output_ids k) (full_untruncated_fill_ids k)
    (fill_is_origin k) (extend_range k) (req_extra_key k) (req_pool_idx k) (kv_committed_len k)
    (kv_allocated_len k) (kv_committed_freed k) (kv_overallocated_freed k) (cache_protected_len k)
    (prefix_indices k) (last_node k) (req_priority k) (session_id k) (inflight_middle_chunks k)
    false (-1) (reasoning_tokens k) (skip_radix_cache_insert k)
    (has_embed_overrides k) (session_streaming k) (swa_evict_floor k) (swa_evicted_seqlen k)) r).

(** [sys.maxsize] *)
Definition maxsize : Z := 9223372036854775807.

(** The request with its priority; [None] when it is rejected. *)
Definition set_or_validate_priority (r : BReq) : option BReq :=
  match req_priority (bkv r) with
  | None =>
      if priority_scheduling_on sc then
        Some (with_bkv (with_priority (Some (if schedule_low_priority_values_first sc then maxsize
          else - maxsize - 1)) (bkv r)) r)
      else Some r
  | Some _ =>
      if negb (priority_scheduling_on sc) && abort_on_priority_when_disabled sc then None else Some r
  end.

(** The key of [max(enumerate(self.waiting_queue), key=key_fn)]; the first of equals wins. *)
Definition queue_key (direction : Z) (r : BReq) : result (list Z) :=
  let! p := of_option TypeError (req_priority (bkv r)) in
  Ok [direction * p; wait_queue_entry_time (sreq r)].

Fixpoint worst_index (direction : Z) (i : nat) (best : nat * list Z) (l : list BReq) : result nat :=
  match l with
  | [] => Ok best.1
  | r :: l =>
      let! k := queue_key direction r in
      worst_index direction (S i) (if lex_ltb best.2 k then (i, k) else best) l
  end.

(** Whether the incoming request is rejected, the queue that is left, and the [rid] of
    the request that is aborted. *)
Definition abort_on_queued_limit (r : BReq) (queue : list BReq) : result (bool * list BReq * option string) :=
  let full :=
    match max_queued_requests sc with
    | None => false
    | Some n => negb (Z.of_nat (length queue) + 1 <=? n)
    end in
  if negb full then Ok (false, queue, None)
  else if priority_scheduling_on sc then
    let direction := if schedule_low_priority_values_first sc then 1 else -1 in
    match queue with
    | [] => Raise ValueError
    | c :: rest =>
        let! k := queue_key direction c in
        let! i := worst_index direction 1 (0%nat, k) rest in
        let! candidate := of_option IndexError (queue !! i) in
        let! p := of_option TypeError (req_priority (bkv r)) in
        let! q := of_option TypeError (req_priority (bkv candidate)) in
        if direction * p <? direction * q then
          Ok (bool_decide (brid candidate = brid r), take i queue ++ drop (S i) queue, Some (brid candidate))
        else Ok (true, queue, Some (brid r))
    end
  else Ok (true, queue, Some (brid r)).

(** [_add_request_to_queue] at the given time. *)
Definition add_request_to_queue (now : Z) (r : BReq) x : result (Scheduler A) :=
  match set_or_validate_priority r with
  | None => Ok (send_aborts [brid r] x)
  | Some r =>
      let! (rejected, queue, aborted) := abort_on_queued_limit r (waiting_queue x) in
      let x := send_aborts (option_list aborted) (set_queue queue x) in
      if (rejected : bool) then Ok x else Ok (set_queue (queue ++ [set_entry_time now r]) x)
  end.

Fixpoint add_requests (now : Z) (rs : list BReq) x : result (Scheduler A) :=
  match rs with
  | [] => Ok x
  | r :: rs => let! x := add_request_to_queue now r x in add_requests now rs x
  end.

(** [handle_generate_request] for a request without multimodal inputs, grammars and routed experts;
    [logprob_start] is the attribute of the received message. *)
Definition handle_generate_request (now : Z) (wanted : option Z) (logprob_start : Z) (r : BReq) x
    : result (Scheduler A) :=
  let r := init_req_max_new_tokens wanted r in
  let '(error_msg, r) := validate_input_length r in
  match error_msg with
  | Some msg => add_request_to_queue now (set_finish_with_abort msg r) x
  | None =>
      let k := bkv r in
      let input_len := Z.of_nat (length (origin_input_ids k)) in
      let logprob_start := if negb (return_logprob k) then -1 else logprob_start in
      let start :=
        if logprob_start =? -1 then
          if return_logprob k && (match token_ids_logprob r with None => true | Some _ => false end)
          then input_len
          else if req_prefill_only (match speculative_algorithm (spec_args sc) with Some _ => true | None => false end) r
          then input_len else -1
        else logprob_start in
      if input_len <? start then
        add_request_to_queue now (set_finish_with_abort "logprob_start_len is higher than the number of input tokens"%string
          (with_bkv (with_logprob_start (-1) k) r)) x
      else add_request_to_queue now (with_bkv (with_logprob_start start k) r) x
  end.

(** [handle_embedding_request] for a request without multimodal inputs: an input that is
    too long is queued as it is. *)
Definition handle_embedding_request (now : Z) (r : BReq) x : result (Scheduler A) :=
  let '(error_msg, r) := validate_input_length r in
  match error_msg with
  | Some _ => add_request_to_queue now r x
  | None => add_request_to_queue now (with_bkv (with_logprob_start (-1) (bkv r)) r) x
  end.

(** Requests that wait too long leave; [deadline] is [None] without a limit. *)
Definition timed_out (deadline : Z) (r : BReq) : Prop := 0 < wait_queue_entry_time (sreq r) < deadline.
Global Instance timed_out_dec d r : Decision (timed_out d r) :=
  decide (0 < wait_queue_entry_time (sreq r) ∧ wait_queue_entry_time (sreq r) < d).
Definition abort_on_waiting_timeout (deadline : option Z) x : Scheduler A :=
  match deadline with
  | None => x
  | Some d =>
      send_aborts (brid <$> filter (timed_out d) (waiting_queue x))
        (set_queue (filter (λ r, ¬ timed_out d r) (waiting_queue x)) x)
  end.

(** Whether a request is the target of an [AbortReq]. *)
Definition targeted (id : string) (abort_all : bool) (r : BReq) : bool := abort_all || String.prefix id (brid r).

(** [req.to_finish = FINISH_ABORT(message)] for the requests that are not finished. *)
Definition mark_abort (hit : BReq → bool) (message : string) (r : BReq) : BReq :=
  if negb (is_finished (sreq r)) && hit r then set_abort message r else r.
Definition mark_reqs (hit : BReq → bool) (message : string) (b : ScheduleBatch) : ScheduleBatch :=
  set_reqs (mark_abort hit message <$> reqs b) b.

(** [abort_request]: what waits leaves, last first; what runs ends with its next token.
    While messages are handled, [cur_batch] is the last batch. *)
Definition abort_request (id : string) (abort_all : bool) x : Scheduler A :=
  let hit := targeted id abort_all in
  let pending :=
    match chunked_req x with
    | Some c => if hit c then Some (brid c) else pending_chunked_abort_req x
    | None => pending_chunked_abort_req x
    end in
  let gone := filter (λ r, hit r = true) (waiting_queue x) in
  let batches := reqs (running_batch x) ++ match last_batch x with Some l => reqs (lb_batch l) | None => [] end in
  let chunked := (λ c, if bool_decide (brid c ∈ (brid <$> batches)) then mark_abort hit "Aborted" c else c) <$> chunked_req x in
  let last := (λ l, set_batch (mark_reqs hit "Aborted" (lb_batch l)) l) <$> last_batch x in
  set_running (mark_reqs hit "Aborted" (running_batch x)) (set_last last (set_chunked chunked
    (send_aborts (rev (brid <$> gone)) (set_queue (filter (λ r, hit r = false) (waiting_queue x)) (set_pending pending x))))).

(** [_abort_on_running_timeout]: [expired] tells the requests whose forward pass began before
    the deadline, [None] that there is no limit.  The last batch is not looked at any more
    when it is the running one. *)
Definition abort_on_running_timeout (expired : option (BReq → bool)) x : Scheduler A :=
  match expired with
  | None => x
  | Some hit =>
      if is_empty (running_batch x) then x
      else set_running (mark_reqs hit "Request running timeout reached." (running_batch x)) x
  end.
End intake.

(** ** The next batch *)

Section schedule.
Context {A : Type} `{KVPool A} `{KVAlloc A} `{KVPaged A} `{KVGroup A} `{KVFreeList A} `{Env} `{HeapQ}.
Variable cfg : Config.
Variable sc : SchedCfg.
(** The settings of the schedule policy and its source of randomness. *)
Variables (check_threshold deprioritize_threshold : Z).
Variables (shuffle : list SReq → list SReq) (fast_match : bool).
(** What the prefill delayer reads: the collective, the clock and the pool usage. *)
Variables (gather : Delayer.Info → list Delayer.Info) (perf_counter : nat → Q) (pool_usage : Sys A → Q).
(** The stop conditions. *)
Variable verdict : nat → BReq → bool.
Implicit Types x : Scheduler A.

Local Instance sched_cache : PrefixCache (Sys A) :=
  radix_prefix_cache cfg false (spec_on (spec_args sc)) (retract_decode_steps sc).

Definition adder_cfg (queue_len : Z) x : AdderCfg :=
  mkAdderCfg (Z.of_nat (page_size cfg)) (CLIP_MAX_NEW_TOKENS sc) (tr_current (new_token_ratio_tracker x))
    false false false 0 (priority_scheduling_preemption_threshold sc) false (max_running_requests sc)
    (sc_prefill_max_requests sc) (max_prefill_bs x) queue_len None.

Definition new_adder (exec : option Delayer.Executor) x : Adder (Sys A) :=
  let running := sreq <$> reqs (running_batch x) in
  init_adder (adder_cfg (Z.of_nat (length (waiting_queue x))) x) (sys x) exec (Some running)
    (max_prefill_tokens sc) (chunked_prefill_size sc)
    (if is_mixed_chunk sc then Z.of_nat (length running) else 0) 0 0 0.

(** The request between two chunks goes first; the result is [self.chunked_req]. *)
Definition readd_chunked (ac : AdderCfg) (ad : Adder (Sys A)) (c : option BReq)
    : result (option BReq * option BReq * Adder (Sys A)) :=
  match c with
  | None => Ok (None, None, ad)
  | Some c =>
      let c := with_bkv (refreshed (bkv c)) c in
      let! (rest, ad) := add_chunked_req ac (sreq c) ad in
      Ok ((λ y, with_sreq y c) <$> rest, Some c, ad)
  end.

(** The running batch without the requests that were preempted. *)
Definition kept_at (keep : list SReq) (rs : list BReq) (i : nat) : bool :=
  match rs !! i with Some r => bool_decide (brid r ∈ (rid <$> keep)) | None => false end.
Definition drop_preempted (keep : list SReq) (b : ScheduleBatch) : result ScheduleBatch :=
  filter_batch [] (Some (filter (λ i, kept_at keep (reqs b) i = true) (seq 0 (length (reqs b))))) b.
Definition preempted_reqs (rs : list BReq) (l : list SReq) : list BReq :=
  omap (λ y, retract_fields y <$> find_req (rid y) rs) l.

(** [ScheduleBatch(reqs=[], batch_is_full=full)] *)
Definition empty_batch (full : bool) : ScheduleBatch :=
  mkSB [] None false (mkCols [] [] [] None []) (mkExt [] [] 0 [] [] None) (mkLogp false None None)
    (mkFlags false false false) None None None full.

(** Mixed-style chunked prefill: the running requests join the new batch. *)
Definition mix_running (b : ScheduleBatch) (running : ScheduleBatch) (s : Sys A)
    : result (ScheduleBatch * list string * ScheduleBatch * Sys A) :=
  if is_mixed_chunk sc && negb (is_empty running)
     && negb (batch_return_logprob (logp b) || batch_return_logprob (logp running)) then
    let full := batch_is_full running in
    let! running := filter_batch [] None running in
    let! (b, decoding, s) :=
      if negb (is_empty running) then
        let! (running, s) := prepare_for_decode cfg running s in
        let! b := mix_with_running b running in
        Ok (b, brid <$> reqs running, s)
      else Ok (b, [], s) in
    Ok (b, decoding, empty_batch full, s)
  else Ok (b, [], running, s).

(** The end of [_get_new_batch_prefill_raw]: the batch of the requests that can run. *)
Definition launch_prefill (now : Z) (can_run : list BReq) (preempted : list BReq) (new_chunked : option BReq) x
    : result (option Launched * Scheduler A) :=
  let queue := filter (λ r, brid r ∉ (brid <$> can_run)) (waiting_queue x) in
  let! x := add_requests sc now preempted (set_queue queue x) in
  let! chunked :=
    match new_chunked with
    | None => Ok (chunked_req x)
    | Some c =>
        let! _ := py_assert (match chunked_req x with None => true | Some _ => false end) in
        Ok (Some c)
    end in
  let chunked := bump_chunks <$> chunked in
  let chunked_rid := brid <$> chunked in
  let can_run := (λ r, if bool_decide (chunked_rid = Some (brid r)) then bump_chunks r else r) <$> can_run in
  let b := init_new can_run (overlap_on sc) (spec_on (spec_args sc)) in
  let last_chunk := match chunked with None => true | Some _ => negb (length can_run =? 1)%nat end in
  let x := set_prefill_bs (Z.max (max_prefill_bs x) (Z.of_nat (length can_run))) x in
  let! (b, s) := prepare_for_extend cfg (vocab_size sc) b (sys x) in
  let! (b, decoding, running, s) := mix_running b (running_batch x) s in
  Ok (Some (mkLaunched b chunked_rid decoding last_chunk false),
      set_sys s (set_running running (set_chunked chunked x))).

(** The pass proper, behind its early returns. *)
Definition prefill_pass (now : Z) (exec : option Delayer.Executor) x
    : result (option Launched * option Delayer.Executor * Scheduler A) :=
  let running := running_batch x in
  let ac := adder_cfg (Z.of_nat (length (waiting_queue x))) x in
  let! (chunked, first, ad) := readd_chunked ac (new_adder exec x) (chunked_req x) in
  let! (full, queue, ad) :=
    add_waiting ac gather perf_counter (pp_max_micro_batch_size sc) (enable_priority_preemption sc)
      (schedule_low_priority_values_first sc) (truncation_align_size sc) (batch_is_full running)
      (sreq <$> waiting_queue x) ad in
  let! running' := drop_preempted (default [] (ad_running ad)) running in
  let objs := option_list first ++ waiting_queue x in
  let x := set_sys (ad_cache ad) (set_chunked chunked (set_running (set_full full running')
    (set_queue (rejoin (waiting_queue x) queue) x))) in
  if (length (can_run_list ad) =? 0)%nat then Ok (None, ad_exec ad, x)
  else
    let! (b, x) := launch_prefill now (rejoin objs (can_run_list ad))
      (preempted_reqs (reqs running) (preempt_list ad))
      (new_chunked_req ad ≫= λ y, with_sreq y <$> find_req (rid y) objs) x in
    Ok (b, ad_exec ad, x).

Definition no_chunk x : bool := match chunked_req x with None => true | Some _ => false end.

Definition get_new_batch_prefill_raw (now : Z) (exec : option Delayer.Executor) x
    : result (option Launched * option Delayer.Executor * Scheduler A) :=
  let x := if enable_priority_preemption sc then set_running (set_full false (running_batch x)) x else x in
  let running := running_batch x in
  let running_bs := Z.of_nat (length (reqs running)) in
  let allocatable := get_num_allocatable_reqs (pp_max_micro_batch_size sc) running_bs (sys x) in
  if (batch_is_full running || (length (waiting_queue x) =? 0)%nat) && no_chunk x then Ok (None, exec, x)
  else if match min_free_slots_delayer sc with
          | Some n => no_chunk x && MinFreeSlots.should_delay n running_bs allocatable
          | None => false
          end
  then Ok (None, exec, x)
  else if (allocatable <=? 0) && no_chunk x && negb (enable_priority_preemption sc)
  then Ok (None, exec, set_running (set_full true running) x)
  else
    let! (queue, pol, st) := calc_priority cfg check_threshold deprioritize_threshold shuffle
      (sched_policy x) fast_match (sreq <$> waiting_queue x) (Some (sreq <$> reqs running)) (cache (sys x)) in
    let x := set_sys (mkSys st (req_to_token_pool (sys x))) (set_policy pol
      (set_queue (rejoin (waiting_queue x) queue) x)) in
    if match test_retract_no_prefill_bs sc with Some n => n <? running_bs | None => false end
    then Ok (None, exec, x)
    else prefill_pass now exec x.

Definition get_new_batch_prefill (now : Z) x : result (option Launched * Scheduler A) :=
  let exec := (λ d, Delayer.executor_init d (pool_usage (sys x))) <$> sched_delayer x in
  let! (b, exec, x) := get_new_batch_prefill_raw now exec x in
  match exec with
  | None => Ok (b, x)
  | Some e =>
      let! e := Delayer.finalize gather perf_counter e in
      Ok (b, set_delayer (Some (Delayer.prefill_delayer e)) x)
  end.

(** [stash_chunked_request], only for a chunk that has new KV. *)
Definition stash_chunked_request (c : option BReq) (s : Sys A) : result (option BReq * Sys A) :=
  match c with
  | None => Ok (None, s)
  | Some c =>
      let! (_, stop) := of_option AttributeError (extend_range (bkv c)) in
      if Z.of_nat (length (prefix_indices (bkv c))) <? stop then
        let! (k, s) := maybe_cache_unfinished_req cfg (bkv c) true s in
        Ok (Some (with_bkv k c), s)
      else Ok (Some c, s)
  end.

(** The last batch, if it was a prefill, joins the running one; the chunked request
    stays out of it. *)
Definition is_extend (b : ScheduleBatch) : bool :=
  match forward_mode b with Some DECODE | None => false | Some _ => true end.
Definition merge_last (chunked : option BReq) (last : option Launched) (running : ScheduleBatch)
    : result (ScheduleBatch * option Launched) :=
  match last with
  | Some l =>
      if is_extend (lb_batch l) then
        let exclude := option_list (brid <$> chunked) ++ option_list (lb_chunked_req l) in
        let! b := merge_last_batch exclude (lb_batch l) running in
        let! stay := filter_batch exclude None (lb_batch l) in
        Ok (b, Some (mkLaunched stay (lb_chunked_req l) (decoding_reqs l) (contains_last_prefill_chunk l)
          (negb (is_empty stay) && is_empty running)))
      else Ok (running, last)
  | None => Ok (running, None)
  end.

(** A batch that only prefills never decodes: what is finished leaves here. *)
Definition clean_prefill_only (b : ScheduleBatch) : result ScheduleBatch :=
  if is_prefill_only (flags b) then
    let! b := filter_batch [] None b in
    Ok (if is_empty b then set_full false b else b)
  else Ok b.

(** [update_running_batch] on the state: the retracted requests wait again. *)
Definition decode_running (now : Z) (test : bool) x : result (option Launched * Scheduler A) :=
  let b := running_batch x in
  if negb (is_empty b) && negb (is_prefill_only (flags b)) then
    let! (b, retracted, aborted, t, s) := update_running_batch cfg false (spec_args sc) (retract_decode_steps sc) test b
      (new_token_ratio_tracker x) (sys x) in
    let! x := add_requests sc now retracted (send_aborts (brid <$> aborted) (set_sys s (set_tracker t (set_running b x)))) in
    Ok (if negb (is_empty b) then Some (mkLaunched b None [] true true) else None, x)
  else Ok (None, x).

(** The marker goes once the request it names is gone. *)
Definition drop_marker (id : string) x : Scheduler A :=
  let batches := reqs (running_batch x) ++ match last_batch x with Some l => reqs (lb_batch l) | None => [] end in
  match find_req id batches with
  | Some r =>
      if is_finished (sreq r) || (match req_pool_idx (bkv r) with None => true | Some _ => false end)
      then set_pending None x else x
  | None => set_pending None x
  end.

(** [process_pending_chunked_abort]: the request between two chunks leaves with its KV.  Its
    entry in the last batch stays as it is: the merge leaves it out. *)
Definition process_pending_chunked_abort x : result (Scheduler A) :=
  match pending_chunked_abort_req x with
  | None => Ok x
  | Some id =>
      match chunked_req x with
      | Some c =>
          if bool_decide (brid c = id) then
            let! s :=
              if (match req_pool_idx (bkv c) with Some _ => true | None => false end) && negb (kv_committed_freed (bkv c)) then
                let! (_, s) := release_kv_cache cfg false (spec_on (spec_args sc)) (bkv c) false (sys x) in Ok s
              else Ok (sys x) in
            Ok (send_aborts [id] (set_pending None (set_chunked None (set_sys s x))))
          else Ok (drop_marker id x)
      | None => Ok (drop_marker id x)
      end
  end.

Definition get_next_batch_to_run (now : Z) (deadline : option Z) (expired : option (BReq → bool)) (test : bool) x
    : result (option Launched * Scheduler A) :=
  let! x := process_pending_chunked_abort x in
  let x := abort_on_running_timeout expired (abort_on_waiting_timeout deadline x) in
  let! (chunked, s) := stash_chunked_request (chunked_req x) (sys x) in
  let! (b, last) := merge_last chunked (last_batch x) (running_batch x) in
  let! b := clean_prefill_only b in
  let! (new_batch, x) := get_new_batch_prefill now (set_running b (set_last last (set_sys s (set_chunked chunked x)))) in
  match new_batch with
  | Some b => Ok (Some b, x)
  | None => decode_running now test x
  end.

(** [process_batch_result]: the requests of the batch with the tokens of the forward
    pass; the running batch is the one that decodes, and [chunked_req] is the request of
    the batch. *)
Definition process_batch_result (l : Launched) (toks : list Z) x : result (Launched * Scheduler A) :=
  let b := lb_batch l in
  if is_extend b then
    let! (rs, s) := process_batch_result_prefill cfg false (spec_on (spec_args sc)) verdict (decoding_reqs l) toks
      (reqs b) (sys x) in
    Ok (set_batch (set_reqs rs b) l, set_sys s (set_chunked ((λ c, default c (find_req (brid c) rs)) <$> chunked_req x) x))
  else
    let! (rs, s) := process_batch_result_decode cfg false (spec_on (spec_args sc)) verdict (enable_overlap b)
      ((λ t, [t]) <$> toks) (reqs b) (sys x) in
    let b := set_reqs rs b in
    Ok (set_batch b l, set_sys s (set_running b x)).

(** [is_fully_idle] and the checks and resets of [on_idle]. *)
Definition is_fully_idle x : bool :=
  is_empty (running_batch x) && no_chunk x &&
  match last_batch x with
  | Some l => is_empty (if lb_is_running l then running_batch x else lb_batch l)
  | None => true
  end &&
  (length (waiting_queue x) =? 0)%nat.

Definition on_idle x : result (Scheduler A) :=
  if is_fully_idle x then
    let! _ := check_on_idle (max_total_num_tokens sc) (sys x) in
    Ok (set_tracker (reset_ratio (new_token_ratio_tracker x)) x)
  else Ok x.

(** The requests the busy check looks at: those of the last batch, and those of the
    running batch unless it is the last one. *)
Definition busy_check x : result unit :=
  match last_batch x with
  | None => Ok tt
  | Some l =>
      self_check_during_busy cfg (max_total_num_tokens sc) (Some (reqs (lb_batch l)))
        (if lb_is_running l then [] else reqs (running_batch x)) (sys x)
  end.

(** One iteration of [event_loop_normal] behind the intake of requests; [forward] is the
    model, which yields a token per request. *)
Definition event_loop_step (now : Z) (deadline : option Z) (expired : option (BReq → bool)) (test : bool)
    (forward : ScheduleBatch → list Z) x : result (Scheduler A) :=
  let! (batch, x) := get_next_batch_to_run now deadline expired test x in
  let! x :=
    match batch with
    | Some l =>
        let! (l, x) := process_batch_result l (forward (lb_batch l)) x in
        Ok (set_last (Some l) x)
    | None => let! x := on_idle x in Ok (set_last None x)
    end in
  let! _ := busy_check x in
  Ok x.
End schedule.
