(* ===== verification/Load.v ===== *)
(** The work a server has in front of it: the tokens its requests may still produce and
    the input that is still to be computed.  An iteration of the loop makes it lighter. *)

From stdpp Require Import base gmap strings list.
From Stdlib Require Import ZArith QArith Lia.
From S2P Require Import Prelude.
From S2P Require Import PyData.
From S2P Require Import RadixKey.
From S2P Require Import RadixTree.
From S2P Require Import RadixSession.
From S2P Require Import ReqCache.
From S2P Require Import ReqCacheInv.
From S2P Require Import ReqAlloc.
From S2P Require Import ReqLife.
From S2P Require Import BatchAlloc.
From S2P Require Import Delayer.
From S2P Require Import PrefillAdder.
From S2P Require Import SchedulePolicy.
From S2P Require Import SchedulePolicyInv.
From S2P Require Import ScheduleBatch.
From S2P Require Import BatchInv.
From S2P Require Import ServeOps.
From S2P Require Import PassInv.
From S2P Require Import Scheduler.

Open Scope Z_scope.

(** ** Weights *)

Lemma sumZ_app a b : sumZ (a ++ b) = sumZ a + sumZ b.
Proof. unfold sumZ. induction a as [|z a IH]; cbn; [done|]. rewrite IH. lia. Qed.
Global Instance sumZ_perm : Proper ((≡ₚ) ==> (=)) sumZ.
Proof. unfold sumZ. induction 1; cbn; [done|lia..|congruence]. Qed.
Lemma sumZ_nonneg l : Forall (λ z, 0 ≤ z) l → 0 ≤ sumZ l.
Proof. unfold sumZ. induction 1; cbn; lia. Qed.

Definition weigh (f : BReq → Z) (l : list BReq) : Z := sumZ (f <$> l).

Lemma weigh_nil f : weigh f [] = 0.
Proof. done. Qed.
Lemma weigh_cons f r l : weigh f (r :: l) = f r + weigh f l.
Proof. done. Qed.
Lemma weigh_app f l k : weigh f (l ++ k) = weigh f l + weigh f k.
Proof. unfold weigh. by rewrite fmap_app, sumZ_app. Qed.
Global Instance weigh_perm f : Proper ((≡ₚ) ==> (=)) (weigh f).
Proof. intros l k Hl. unfold weigh. by rewrite Hl. Qed.
Lemma weigh_nonneg f l : Forall (λ r, 0 ≤ f r) l → 0 ≤ weigh f l.
Proof. intros Hl. by apply sumZ_nonneg, Forall_fmap. Qed.

(** Fewer and lighter requests weigh less. *)
Lemma weigh_le f l k : l ⊆+ k → Forall (λ r, 0 ≤ f r) k → weigh f l ≤ weigh f k.
Proof.
  intros [k' ->]%submseteq_Permutation [_ Hk]%Forall_app. rewrite weigh_app. pose proof (weigh_nonneg f k' Hk). lia.
Qed.

(** ** What is left of a request *)

(** The tokens it may still produce, and one for its end. *)
Definition tokens_left (r : BReq) : Z := max_new_tokens (sreq r) - output_len (sreq r) + 1.
(** The input it has to compute in front of that: all of it, or what the chunks left. *)
Definition input_len (r : BReq) : Z := Z.of_nat (length (all_ids (bkv r))).
Definition input_left (r : BReq) : Z := input_len r + 2.
Definition chunk_left (r : BReq) : Z := input_len r - Z.of_nat (kv_committed_len (bkv r)) + 1.

(** What the lists of the scheduler keep of a request. *)
Definition gist_of (y : SReq) : string * Z * Z :=
  (rid y, max_new_tokens y - output_len y + 1, Z.of_nat (length (all_ids (kv y)))).
Definition gist (r : BReq) : string * Z * Z := gist_of (sreq r).

Lemma gist_fmap_brid (l k : list BReq) : gist <$> l = gist <$> k → brid <$> l = brid <$> k.
Proof. intros Hg. apply (f_equal (fmap (λ g, g.1.1))) in Hg. by rewrite <-!list_fmap_compose in Hg. Qed.
Lemma gist_brid_perm (l k : list BReq) : gist <$> l ≡ₚ gist <$> k → brid <$> l ≡ₚ brid <$> k.
Proof. intros Hg. apply (fmap_Permutation (λ g, g.1.1)) in Hg. by rewrite <-!list_fmap_compose in Hg. Qed.
Lemma gist_brid (l k : list BReq) : gist <$> l ⊆+ gist <$> k → brid <$> l ⊆+ brid <$> k.
Proof.
  intros Hg. assert (∀ m : list BReq, brid <$> m = (λ g, g.1.1) <$> (gist <$> m)) as Hb.
  { intros m. by rewrite <-list_fmap_compose. }
  rewrite !Hb. by apply fmap_submseteq.
Qed.

Lemma weigh_gist f g l : (∀ r, f r = g (gist r)) → weigh f l = sumZ (g <$> (gist <$> l)).
Proof. intros Hf. unfold weigh. rewrite <-list_fmap_compose. f_equal. apply list_fmap_ext. intros i r _. apply Hf. Qed.

Lemma gist_weigh f g l k : (∀ r, f r = g (gist r)) → gist <$> l ⊆+ gist <$> k → Forall (λ r, 0 ≤ f r) k → weigh f l ≤ weigh f k.
Proof.
  intros Hf [m Hm]%submseteq_Permutation Hk. rewrite !(weigh_gist f g) by done. rewrite Hm, fmap_app, sumZ_app.
  assert (0 ≤ sumZ (g <$> m)); [|lia]. apply sumZ_nonneg, Forall_fmap, Forall_forall. intros y Hy.
  assert (y ∈ gist <$> k) as (r & -> & Hr)%list_elem_of_fmap by (rewrite Hm; set_solver). cbn.
  rewrite <-Hf. rewrite Forall_forall in Hk. auto.
Qed.

Lemma gist_same f g l k : (∀ r, f r = g (gist r)) → gist <$> l ≡ₚ gist <$> k → weigh f l = weigh f k.
Proof. intros Hf Hg. by rewrite !(weigh_gist f g), Hg by done. Qed.

Lemma tokens_gist r : tokens_left r = (gist r).1.2.
Proof. done. Qed.
Lemma input_gist r : input_left r = (gist r).2 + 2.
Proof. done. Qed.

Lemma input_nonneg r : 0 ≤ input_left r.
Proof. unfold input_left, input_len. lia. Qed.

Lemma queue_lighter (q l : list BReq) : gist <$> q ⊆+ gist <$> l → Forall (λ r, 0 ≤ tokens_left r) l →
  weigh tokens_left q ≤ weigh tokens_left l ∧ weigh input_left q ≤ weigh input_left l.
Proof.
  intros Hg Hl. split; [by apply (gist_weigh _ (λ g, g.1.2) _ _ tokens_gist)|]. apply (gist_weigh _ (λ g, g.2 + 2) _ _ input_gist); [done|].
  apply Forall_forall. intros r _. apply input_nonneg.
Qed.

(** ** The load of the scheduler *)

Section load.
Context {A : Type}.
Implicit Types x : Scheduler A.

(** The tokens of all requests, and the input of those that wait or are chunked. *)
Definition load x : Z * Z :=
  (weigh tokens_left (waiting_queue x ++ option_list (chunked_req x) ++ filter running (reqs (running_batch x))),
   weigh input_left (waiting_queue x) + weigh chunk_left (option_list (chunked_req x))).

Definition load_lt (m n : Z * Z) : Prop := m.1 < n.1 ∨ m.1 = n.1 ∧ m.2 < n.2.
Definition load_le (m n : Z * Z) : Prop := m.1 < n.1 ∨ m.1 = n.1 ∧ m.2 ≤ n.2.

Global Instance load_le_preorder : PreOrder load_le.
Proof. unfold load_le. split; [intros m|intros m n k]; lia. Qed.
Lemma load_lt_le m n k : load_lt m n → load_le n k → load_lt m k.
Proof. unfold load_lt, load_le. lia. Qed.
Lemma load_le_lt m n k : load_le m n → load_lt n k → load_lt m k.
Proof. unfold load_lt, load_le. lia. Qed.
Lemma load_lt_incl m n : load_lt m n → load_le m n.
Proof. unfold load_lt, load_le. lia. Qed.
Lemma load_both m n : m.1 ≤ n.1 → m.2 ≤ n.2 → load_le m n.
Proof. unfold load_le. lia. Qed.
End load.

(** What an iteration owes: the requests to account for, a load to fall below, and
    whether there is a reason to do nothing. *)
Record Due := mkDue { due_ids : list string; due_load : Z * Z; due_slack : Prop }.
