(* ===== verification/NoDelay.v ===== *)
(** A server without a prefill delayer stays without one. *)

From stdpp Require Import base gmap strings list.
From Stdlib Require Import ZArith QArith Lia.
From S2P Require Import Prelude.
From S2P Require Import PyData.
From S2P Require Import RadixKey.
From S2P Require Import RadixTree.
From S2P Require Import RadixSession.
From S2P Require Import ReqCache.
From S2P Require Import ReqAlloc.
From S2P Require Import BatchAlloc.
From S2P Require Import Delayer.
From S2P Require Import PrefillAdder.
From S2P Require Import SchedulePolicy.
From S2P Require Import ScheduleBatch.
From S2P Require Import MemCheck.
From S2P Require Import Scheduler.

Open Scope Z_scope.

(** Follow the branches of a call that returned. *)
Ltac each_return := inv_ok; repeat (case_match; inv_ok); try done.

(** ** The adder *)

Section adder.
Context {S : Type} `{PrefixCache S} (ac : AdderCfg).
Context (gather : Delayer.Info → list Delayer.Info) (perf_counter : nat → Q).
Implicit Types ad : Adder S.

Lemma charge_exec a b c r ad : ad_exec (charge ac a b c r ad) = ad_exec ad.
Proof. done. Qed.
Lemma dllm_exec block r p ad r' ad' : add_dllm_req ac block r p ad = (r', ad') → ad_exec ad' = ad_exec ad.
Proof. unfold add_dllm_req. intros Hd. by simplify_eq/=. Qed.
Lemma lock_exec r ad ad' : req_inc_lock_ref r ad = Ok ad' → ad_exec ad' = ad_exec ad.
Proof. unfold req_inc_lock_ref. intros Hl. each_return. Qed.

Lemma delayed_none a b c d ad : ad_exec ad = None → delayed gather perf_counter a b c d ad = Ok (false, ad).
Proof. unfold delayed. by intros ->. Qed.

Lemma ignore_eos_exec r ad res r' ad' : ad_exec ad = None →
  add_one_req_ignore_eos ac gather perf_counter r ad = Ok (res, r', ad') → ad_exec ad' = None.
Proof.
  intros He Ha. unfold add_one_req_ignore_eos in Ha. repeat (case_match; [by inv_ok|]). rewrite delayed_none in Ha by done. cbn [rbind] in Ha.
  each_return.
Qed.

Lemma truncated_exec n r ad b r' ad' : add_truncated ac n r ad = (b, r', ad') → ad_exec ad' = ad_exec ad.
Proof. unfold add_truncated. intros Ht. by simplify_eq/=. Qed.

Lemma add_chunked_exec r ad rest ad' : add_chunked_req ac r ad = Ok (rest, ad') → ad_exec ad' = ad_exec ad.
Proof.
  unfold add_chunked_req. intros Ha. each_return;
    match goal with E : add_truncated _ _ _ _ = _ |- _ => by apply truncated_exec in E end.
Qed.

Lemma locked_exec total al r ad early r' ad' : add_one_req_locked ac total al r ad = Ok (early, r', ad') → ad_exec ad' = ad_exec ad.
Proof.
  intros Ha. unfold add_one_req_locked in Ha. case_match; [by inv_ok|].
  apply rbind_Ok in Ha as ([r1 ad1] & Hb & Ha).
  assert (ad_exec ad1 = ad_exec ad) as <- by (clear Ha; each_return). clear Hb. revert Ha. generalize (prefix_len r1). intros p Ha.
  each_return; repeat match goal with
    | E : req_inc_lock_ref _ _ = Ok _ |- _ => apply lock_exec in E; cbn in E
    | E : add_dllm_req _ _ _ _ _ = _ |- _ => apply dllm_exec in E end; congruence.
Qed.

Lemma add_one_exec al r ad res r' ad' : ad_exec ad = None →
  add_one_req ac gather perf_counter al r ad = Ok (res, r', ad') → ad_exec ad' = None.
Proof.
  intros He Ha. unfold add_one_req in Ha. rewrite He in Ha. cbn [rbind] in Ha. rewrite delayed_none in Ha by done. cbn [rbind] in Ha.
  case_match; [by inv_ok|]. case_match; [by inv_ok|]. case_match; [by eapply ignore_eos_exec|].
  case_match; [by inv_ok|]. case_match; [by inv_ok|]. apply rbind_Ok in Ha as (s & _ & Ha).
  apply rbind_Ok in Ha as ([[early r1] ad1] & Hl%locked_exec & Ha). cbn in Hl. rewrite He in Hl. each_return.
Qed.

Lemma preempt_exec r low ad b ad' : preempt_to_schedule ac r low ad = Ok (b, ad') → ad_exec ad' = ad_exec ad.
Proof. unfold preempt_to_schedule. intros Hp. by each_return. Qed.

Lemma add_waiting_exec n pre low al full queue ad full' queue' ad' : ad_exec ad = None →
  add_waiting ac gather perf_counter n pre low al full queue ad = Ok (full', queue', ad') → ad_exec ad' = None.
Proof.
  revert full ad full' queue' ad'. induction queue as [|r queue IH]; intros full ad full' queue' ad' He Ha; [by inv_ok|].
  cbn [add_waiting] in Ha. apply rbind_Ok in Ha as ([stop ad1] & Hp & Ha).
  assert (He1 : ad_exec ad1 = None).
  { destruct (_ || full), pre; try by inv_ok. apply rbind_Ok in Hp as ([d ad2] & Hp%preempt_exec & Hq). inv_ok. congruence. }
  destruct stop; [by inv_ok|]. apply rbind_Ok in Ha as ([r1 s] & _ & Ha). apply rbind_Ok in Ha as ([[res r2] ad2] & Hadd & Ha).
  apply add_one_exec in Hadd; [|done]. destruct res; [|by inv_ok..].
  apply rbind_Ok in Ha as ([[full2 q2] ad3] & Hrec & Ha). apply IH in Hrec; [|done]. by inv_ok.
Qed.
End adder.

(** ** The scheduler *)

Section scheduler.
Context {A : Type} `{KVPool A} `{KVAlloc A} `{KVPaged A} `{KVGroup A} `{KVFreeList A} `{Env} `{HeapQ}.
Variables (cfg : Config) (sc : SchedCfg).
Variables (check_threshold deprioritize_threshold : Z).
Variables (shuffle : list SReq → list SReq) (fast_match : bool).
Variables (gather : Delayer.Info → list Delayer.Info) (perf_counter : nat → Q) (pool_usage : Sys A → Q).
Variable verdict : nat → BReq → bool.
Implicit Types x : Scheduler A.

Lemma queue_keeps_delayer now r x x' : add_request_to_queue sc now r x = Ok x' → sched_delayer x' = sched_delayer x.
Proof. unfold add_request_to_queue. intros Ha. each_return. Qed.
Lemma queues_keep_delayer now rs x x' : add_requests sc now rs x = Ok x' → sched_delayer x' = sched_delayer x.
Proof.
  revert x. induction rs as [|r rs IH]; intros x Ha; cbn in Ha; inv_ok; [done|].
  match goal with E : add_request_to_queue _ _ _ _ = _ |- _ => apply queue_keeps_delayer in E end. apply IH in Ha. congruence.
Qed.
Lemma intake_keeps_delayer page now wanted start r x x' :
  handle_generate_request sc page now wanted start r x = Ok x' → sched_delayer x' = sched_delayer x.
Proof. unfold handle_generate_request. intros Ha. each_return; by eapply queue_keeps_delayer. Qed.

Lemma launch_keeps_delayer now rs pre c x ob x' : launch_prefill cfg sc now rs pre c x = Ok (ob, x') → sched_delayer x' = sched_delayer x.
Proof.
  unfold launch_prefill. intros Hl. apply rbind_Ok in Hl as (x1 & Hx1%queues_keep_delayer & Hl). cbn in Hx1. rewrite <-Hx1.
  apply rbind_Ok in Hl as (c' & _ & Hl). apply rbind_Ok in Hl as ([b s] & _ & Hl). apply rbind_Ok in Hl as ([[[b' ds] rn] s'] & _ & Hl).
  by inv_ok.
Qed.

Lemma pass_no_delayer now x ob exec x' : prefill_pass cfg sc gather perf_counter now None x = Ok (ob, exec, x') →
  exec = None ∧ sched_delayer x' = sched_delayer x.
Proof.
  unfold prefill_pass. intros Hp. apply rbind_Ok in Hp as ([[c first] ad] & Hr & Hp).
  apply rbind_Ok in Hp as ([[full q] ad'] & Ha & Hp). apply rbind_Ok in Hp as (b & _ & Hp).
  apply add_waiting_exec in Ha.
  2:{ unfold readd_chunked in Hr. destruct (chunked_req x); [|by inv_ok].
      apply rbind_Ok in Hr as ([rest ad1] & Hr%add_chunked_exec & Hq). by inv_ok. }
  case_match; [by inv_ok|]. apply rbind_Ok in Hp as ([b' x2] & Hl%launch_keeps_delayer & Hp). inv_ok. by rewrite Hl.
Qed.

Lemma raw_no_delayer now x ob exec x' :
  get_new_batch_prefill_raw cfg sc check_threshold deprioritize_threshold shuffle fast_match gather perf_counter now None x
    = Ok (ob, exec, x') → exec = None ∧ sched_delayer x' = sched_delayer x.
Proof.
  unfold get_new_batch_prefill_raw. set (x0 := if enable_priority_preemption sc then _ else x).
  assert (sched_delayer x0 = sched_delayer x) as <- by (unfold x0; by case_match). generalize x0. clear x0 x. intros x Hr.
  case_match; [by inv_ok|]. case_match; [by inv_ok|]. case_match; [by inv_ok|].
  apply rbind_Ok in Hr as ([[q pol] st] & _ & Hr). case_match; [by inv_ok|]. by apply pass_no_delayer in Hr.
Qed.

Lemma decode_keeps_delayer now test x ob x' : decode_running cfg sc now test x = Ok (ob, x') → sched_delayer x' = sched_delayer x.
Proof.
  unfold decode_running. intros Hd. case_match; [|by inv_ok]. apply rbind_Ok in Hd as ([[[[b re] ab] t] s] & _ & Hd).
  apply rbind_Ok in Hd as (x1 & Hx1%queues_keep_delayer & Hd). by inv_ok.
Qed.

Lemma pending_keeps_delayer x x' : process_pending_chunked_abort cfg sc x = Ok x' → sched_delayer x' = sched_delayer x.
Proof. unfold process_pending_chunked_abort, drop_marker. intros Hp. each_return. Qed.
Lemma abort_keeps_delayer id all x : sched_delayer (abort_request id all x) = sched_delayer x.
Proof. done. Qed.

Lemma next_no_delayer now deadline expired test x ob x' : sched_delayer x = None →
  get_next_batch_to_run cfg sc check_threshold deprioritize_threshold shuffle fast_match gather perf_counter pool_usage
    now deadline expired test x = Ok (ob, x') → sched_delayer x' = None.
Proof.
  unfold get_next_batch_to_run. intros Hx Hg. apply rbind_Ok in Hg as (xp & Hp%pending_keeps_delayer & Hg). rewrite <-Hp in Hx.
  set (x0 := abort_on_running_timeout expired (abort_on_waiting_timeout deadline xp)) in *.
  assert (sched_delayer x0 = None) as Hx0.
  { rewrite <-Hx. unfold x0, abort_on_running_timeout. destruct deadline, expired; try done; by case_match. }
  clearbody x0.
  apply rbind_Ok in Hg as ([c s] & _ & Hg). apply rbind_Ok in Hg as ([b last] & _ & Hg). apply rbind_Ok in Hg as (b' & _ & Hg).
  apply rbind_Ok in Hg as ([nb x1] & Hn & Hg). unfold get_new_batch_prefill in Hn.
  cbn [set_running set_last set_sys set_chunked sched_delayer] in Hn. rewrite Hx0 in Hn. cbn [fmap option_fmap option_map] in Hn.
  apply rbind_Ok in Hn as ([[ob1 e] x2] & [-> Hd]%raw_no_delayer & Hn). inv_ok. cbn in Hd. rewrite Hx0 in Hd.
  destruct nb; [by inv_ok|]. apply decode_keeps_delayer in Hg. congruence.
Qed.

Lemma step_no_delayer now deadline expired test forward x x' : sched_delayer x = None →
  event_loop_step cfg sc check_threshold deprioritize_threshold shuffle fast_match gather perf_counter pool_usage verdict
    now deadline expired test forward x = Ok x' → sched_delayer x' = None.
Proof.
  unfold event_loop_step. intros Hx Hs. apply rbind_Ok in Hs as ([ob x1] & Hn%next_no_delayer & Hs); [|done].
  apply rbind_Ok in Hs as (x2 & Hp & Hs). apply rbind_Ok in Hs as (u & _ & Hs). inv_ok. rewrite <-Hn. destruct ob as [l|].
  - apply rbind_Ok in Hp as ([l' x3] & Hp & Hq). inv_ok. unfold process_batch_result in Hp. each_return.
  - apply rbind_Ok in Hp as (x3 & Hp & Hq). inv_ok. unfold on_idle in Hp. each_return.
Qed.
End scheduler.
