(* ===== verification/QueueInv.v ===== *)
(** The waiting queue of the scheduler: requests found by identity, and requests that
    come in from clients or come back from the running batch. *)

From stdpp Require Import base gmap strings list.
From Stdlib Require Import ZArith QArith Lia.
From S2P Require Import Prelude.
From S2P Require Import PyData.
From S2P Require Import RadixKey.
From S2P Require Import RadixTree.
From S2P Require Import RadixSession.
From S2P Require Import ReqCache.
From S2P Require Import ReqCacheInv.
From S2P Require Import ReqAlloc.
From S2P Require Import ReqLife.
From S2P Require Import BatchAlloc.
From S2P Require Import Delayer.
From S2P Require Import PrefillAdder.
From S2P Require Import SchedulePolicy.
From S2P Require Import SchedulePolicyInv.
From S2P Require Import ScheduleBatch.
From S2P Require Import BatchInv.
From S2P Require Import ServeOps.
From S2P Require Import PassInv.
From S2P Require Import Scheduler.
From S2P Require Import Load.

Open Scope Z_scope.

(** ** Identity *)

Lemma find_req_self objs r : NoDup (brid <$> objs) → r ∈ objs → find_req (brid r) objs = Some r.
Proof.
  unfold find_req. induction objs as [|o objs IH]; intros Hnd Hr; [by apply elem_of_nil in Hr|].
  csimpl in Hnd. apply NoDup_cons in Hnd as [Ho Hnd]. rewrite filter_cons.
  apply elem_of_cons in Hr as [->|Hr]; [by rewrite decide_True|].
  rewrite decide_False; [by apply IH|]. intros E. apply Ho. rewrite E. apply list_elem_of_fmap. eauto.
Qed.

Lemma find_req_rid objs id : NoDup (brid <$> objs) → id ∈ brid <$> objs → ∃ r, find_req id objs = Some r ∧ brid r = id.
Proof. intros Hnd (r & -> & Hr)%list_elem_of_fmap. exists r. split; [by apply find_req_self|done]. Qed.

(** What the adder and the policy wrote is in the objects. *)
Lemma rejoin_sreq objs l :
  NoDup (brid <$> objs) → Forall (λ y, rid y ∈ brid <$> objs) l → sreq <$> rejoin objs l = l.
Proof.
  intros Hnd. unfold rejoin. induction 1 as [|y l Hy _ IH]; [done|]. csimpl.
  destruct (find_req_rid objs (rid y) Hnd Hy) as (r & -> & _). csimpl. by rewrite IH.
Qed.

Lemma brid_sreq (l : list BReq) : brid <$> l = rid <$> (sreq <$> l).
Proof. by rewrite <-list_fmap_compose. Qed.
Lemma bkv_sreq (l : list BReq) : bkv <$> l = kv <$> (sreq <$> l).
Proof. by rewrite <-list_fmap_compose. Qed.

Lemma submseteq_NoDup {B} (l k : list B) : l ⊆+ k → NoDup k → NoDup l.
Proof. intros [k' ->]%submseteq_Permutation Hk. by apply NoDup_app in Hk as [? _]. Qed.

(** ** Into the queue *)

Section intake.
Context {A : Type} (sc : SchedCfg) (ctx : nat).
Implicit Types x : Scheduler A.
Notation prio := (priority_scheduling_on sc).
Notation pool := (max_total_num_tokens sc).
Notation qd := (λ r : BReq, queued prio ctx pool (sreq r)).
Hypothesis Hroom : ∀ n, max_queued_requests sc = Some n → 0 < n.

Lemma queued_same r r' :
  rid r' = rid r → max_new_tokens r' = max_new_tokens r → is_finished r' = is_finished r →
  kv r' = with_priority (req_priority (kv r')) (kv r) →
  (prio = true → is_Some (req_priority (kv r'))) → queued prio ctx pool r → queued prio ctx pool r'.
Proof.
  intros _ Hm Hf Hk Hp [[Hs Hfi Ho _ Hc Hpl] [Hw1 Hw2 Hw3 Hw4] Hn]. unfold output_len in Ho.
  split; [split|split|]; unfold output_len; rewrite ?Hm, ?Hf; try done; rewrite Hk; done.
Qed.

(** Of a request that comes in, the priority may be missing. *)
Lemma set_or_validate_priority_ok r : queued false ctx pool (sreq r) →
  set_or_validate_priority sc r = None ∨ ∃ r', set_or_validate_priority sc r = Some r' ∧ gist r' = gist r ∧ qd r'.
Proof.
  intros [[D1 D2 D3 _ D5 D6] W N]. unfold set_or_validate_priority. destruct (req_priority (bkv r)) eqn:Hp.
  - destruct (negb prio && _); [by left|right]. eexists; split; [done|]. split; [done|]. split; [split; try done; eauto|done|done].
  - right. destruct prio eqn:Hpr; (eexists; split; [done|]; split; [done|]).
    + destruct W as [W1 W2 W3 W4]. split; [split; try done; cbn; eauto|by split|done].
    + split; [split; (done || by intros)|done|done].
Qed.

Lemma queued_any r : qd r → queued false ctx pool (sreq r).
Proof. intros [[D1 D2 D3 _ D5 D6] W N]. by split; [split|..]. Qed.

Lemma set_entry_time_ok t r : qd r → qd (set_entry_time t r).
Proof.
  intros Hq. eapply (queued_same (sreq r)); [done..| | |done].
  - unfold set_entry_time. cbn. by destruct (kv (sreq r)).
  - apply Hq.
Qed.

Lemma worst_index_ok d l i best :
  Forall (λ r, is_Some (req_priority (bkv r))) l → (best.1 < i)%nat →
  ∃ j, worst_index d i best l = Ok j ∧ (j < i + length l)%nat.
Proof.
  intros Hl. revert i best. induction Hl as [|r l [p Hp] _ IH]; intros i best Hi; cbn [worst_index length].
  { eexists; split; [done|]. lia. }
  unfold queue_key. rewrite Hp. py_run.
  destruct (IH (S i) (if lex_ltb best.2 [d * p; wait_queue_entry_time (sreq r)] then
    (i, [d * p; wait_queue_entry_time (sreq r)]) else best)) as (j & -> & Hj).
  { case_match; cbn; lia. }
  eexists; split; [done|]. lia.
Qed.

Lemma queue_prios q : Forall qd q → prio = true → Forall (λ r, is_Some (req_priority (bkv r))) q.
Proof. intros Hq Hp. eapply Forall_impl; [exact Hq|]. intros r [[_ _ _ ? _ _] _ _]. auto. Qed.

(** The queue limit: one of the requests goes, at most, and is told so. *)
Lemma abort_on_queued_limit_ok r q : qd r → Forall qd q →
  ∃ rej q' ab, abort_on_queued_limit sc r q = Ok (rej, q', ab) ∧ q' `sublist_of` q ∧
    (∀ id, id ∈ brid <$> q → id ∈ brid <$> q' ∨ ab = Some id) ∧ (rej = true → ab = Some (brid r)).
Proof.
  intros Hr Hq. unfold abort_on_queued_limit. set (full := match max_queued_requests sc with None => false | Some n => negb (Z.of_nat (length q) + 1 <=? n) end).
  assert (Hrej : ∃ rej q' ab, Ok (true, q, Some (brid r)) = Ok (rej, q', ab) ∧ q' `sublist_of` q ∧
    (∀ id, id ∈ brid <$> q → id ∈ brid <$> q' ∨ ab = Some id) ∧ (rej = true → ab = Some (brid r))).
  { do 3 eexists. split; [done|]. split_and!; [done|by left|done]. }
  destruct full eqn:Hfull; cbn [negb].
  2:{ do 3 eexists. split; [done|]. split_and!; [done|by left|done]. }
  destruct prio eqn:Hp; [|done]. destruct q as [|c rest].
  { exfalso. subst full. destruct (max_queued_requests sc) as [n|] eqn:Hn; [|done].
    specialize (Hroom n eq_refl). apply negb_true_iff, Z.leb_gt in Hfull. cbn in Hfull. lia. }
  rewrite <-Hp in Hr, Hq. pose proof (queue_prios _ Hq Hp) as Hps. apply Forall_cons in Hps as Hps'. destruct Hps' as [[pc Hpc] Hrest].
  unfold queue_key at 1. rewrite Hpc. py_run.
  set (d := if schedule_low_priority_values_first sc then 1 else -1).
  destruct (worst_index_ok d rest 1 (0%nat, [d * pc; wait_queue_entry_time (sreq c)]) Hrest) as (j & -> & Hj); [cbn; lia|].
  py_run. destruct (lookup_lt_is_Some_2 (c :: rest) j) as [cand Hcand]; [cbn; lia|]. rewrite Hcand. py_run.
  destruct Hr as [[_ _ _ Hpr _ _] _ _]. destruct (Hpr Hp : is_Some (req_priority (bkv r))) as [p ->]. py_run.
  eapply Forall_lookup_1 in Hps as [pq ->]; [|done]. py_run. case_match; [|done].
  do 3 eexists. split; [done|]. pose proof (take_drop_middle _ _ _ Hcand) as Hsplit. split_and!.
  - rewrite <-Hsplit at 3. apply sublist_app; [done|]. by apply sublist_cons.
  - intros id Hid. rewrite <-Hsplit in Hid. rewrite !fmap_app in *. csimpl in Hid. set_solver.
  - intros ->%bool_decide_eq_true. done.
Qed.

Lemma add_request_to_queue_ok now r x : queued false ctx pool (sreq r) → Forall qd (waiting_queue x) →
  ∃ q' ids, add_request_to_queue sc now r x = Ok (set_queue q' (send_aborts ids x)) ∧ Forall qd q' ∧
    gist <$> q' ⊆+ gist <$> (waiting_queue x ++ [r]) ∧
    (∀ id, id ∈ brid <$> (waiting_queue x ++ [r]) → id ∈ brid <$> q' ∨ id ∈ ids).
Proof.
  intros Hr Hq. unfold add_request_to_queue.
  destruct (set_or_validate_priority_ok r Hr) as [->|(r' & -> & Hg & Hr')].
  { exists (waiting_queue x), [brid r]. split_and!; [done|done| |].
    - rewrite fmap_app. by apply submseteq_inserts_r.
    - intros id. rewrite fmap_app. cbn. set_solver. }
  assert (Hid : brid r' = brid r) by exact (f_equal (λ g, g.1.1) Hg).
  destruct (abort_on_queued_limit_ok r' (waiting_queue x) Hr' Hq) as (rej & q' & ab & -> & Hsub & Hcov & Hrej). py_run.
  assert (Hq' : Forall qd q') by (apply Forall_forall; intros y Hy; rewrite Forall_forall in Hq; apply Hq; by eapply sublist_subseteq).
  assert (Hids : gist <$> q' ⊆+ gist <$> waiting_queue x) by (by apply fmap_submseteq, sublist_submseteq).
  assert (Hcov' : ∀ id, id ∈ brid <$> waiting_queue x → id ∈ brid <$> q' ∨ id ∈ option_list ab).
  { intros id Hin. destruct (Hcov id Hin) as [?|E]; [by left|right]. rewrite E. set_solver. }
  destruct rej; (exists q', (option_list ab) + exists (q' ++ [set_entry_time now r']), (option_list ab)); (split; [done|]); split_and!.
  - done.
  - rewrite fmap_app. by apply submseteq_inserts_r.
  - intros id. rewrite fmap_app, elem_of_app. intros [Hin|Hin]; [auto|]. right. rewrite Hrej by done. rewrite Hid. set_solver.
  - apply Forall_app. split; [done|]. constructor; [|done]. by apply set_entry_time_ok.
  - rewrite !fmap_app. apply submseteq_app; [done|]. csimpl. change (gist (set_entry_time now r')) with (gist r'). by rewrite Hg.
  - intros id. rewrite !fmap_app, !elem_of_app. intros [Hin|Hin]; [destruct (Hcov' id Hin); auto|]. left. right. csimpl in *.
    change (brid (set_entry_time now r')) with (brid r'). by rewrite Hid.
Qed.

Lemma add_requests_ok now rs x : Forall qd rs → Forall qd (waiting_queue x) →
  ∃ q' ids, add_requests sc now rs x = Ok (set_queue q' (send_aborts ids x)) ∧ Forall qd q' ∧
    gist <$> q' ⊆+ gist <$> (waiting_queue x ++ rs) ∧
    (∀ id, id ∈ brid <$> (waiting_queue x ++ rs) → id ∈ brid <$> q' ∨ id ∈ ids).
Proof.
  intros Hrs. revert x. induction Hrs as [|r rs Hr _ IH]; intros x Hq; cbn [add_requests].
  { exists (waiting_queue x), []. rewrite !app_nil_r. split_and!; [unfold set_queue, send_aborts; cbn; rewrite app_nil_r; by destruct x|done|done|by left]. }
  destruct (add_request_to_queue_ok now r x (queued_any r Hr) Hq) as (q1 & ids1 & -> & Hq1 & Hs1 & Hc1). py_run.
  destruct (IH (set_queue q1 (send_aborts ids1 x)) Hq1) as (q' & ids2 & -> & Hq' & Hs' & Hc').
  cbn [set_queue waiting_queue] in Hs', Hc'. exists q', (ids1 ++ ids2). split_and!.
  - unfold set_queue, send_aborts. cbn. by rewrite app_assoc.
  - done.
  - etrans; [exact Hs'|]. rewrite !fmap_app in *. csimpl. rewrite (cons_middle (gist r)), app_assoc. by apply submseteq_app.
  - intros id Hid. rewrite cons_middle, app_assoc, fmap_app, elem_of_app in Hid. rewrite fmap_app in Hc'.
    destruct Hid as [Hid|Hid]; [|destruct (Hc' id); set_solver]. destruct (Hc1 id Hid); [|set_solver]. destruct (Hc' id); set_solver.
Qed.
End intake.
