(* ===== verification/SchedulerInv.v ===== *)
(** The invariant of the scheduler between two iterations of its loop, and the steps
    before the prefill pass: the chunked request is stashed, the last batch joins the
    running one, and the queue is put in order. *)

From stdpp Require Import base gmap strings list relations.
From Stdlib Require Import ZArith QArith Lia Lqa.
From S2P Require Import Prelude.
From S2P Require Import PyData.
From S2P Require Import RadixKey.
From S2P Require Import RadixTree.
From S2P Require Import RadixInv.
From S2P Require Import RadixContent.
From S2P Require Import RadixOps.
From S2P Require Import RadixInsert.
From S2P Require Import RadixEvict.
From S2P Require Import RadixSession.
From S2P Require Import ReqCache.
From S2P Require Import ReqCacheInv.
From S2P Require Import ReqAlloc.
From S2P Require Import ReqLife.
From S2P Require Import BatchAlloc.
From S2P Require Import Delayer.
From S2P Require Import PrefillAdder.
From S2P Require Import ScheduleBatch.
From S2P Require Import BatchInv.
From S2P Require Import ServeInv.
From S2P Require Import ServeOps.
From S2P Require Import Room.
From S2P Require Import ExtendInv.
From S2P Require Import MemCheck.
From S2P Require Import RatioInv.
From S2P Require Import DecodeInv.
From S2P Require Import ResultInv.
From S2P Require Import ServeLoop.
From S2P Require Import PrefillAdderInv.
From S2P Require Import PassInv.
From S2P Require Import SchedulePolicy.
From S2P Require Import SchedulePolicyInv.
From S2P Require Import Scheduler.
From S2P Require Import Load.
From S2P Require Import QueueInv.

Open Scope Z_scope.

(** The servers the theorems are about: pages of one token, the radix cache, no
    speculative decoding, no mixed chunks, no preemption by priority. *)
Record plain_server (cfg : Config) (sc : SchedCfg) (gather : Delayer.Info → list Delayer.Info) : Prop := {
  pv_cache : disable cfg = false;
  pv_page : page_size cfg = 1%nat;
  pv_mixed : is_mixed_chunk sc = false;
  pv_preempt : enable_priority_preemption sc = false;
  pv_align : truncation_align_size sc = None;
  pv_spec : speculative_algorithm (spec_args sc) = None;
  pv_test : test_retract_no_prefill_bs sc = None;
  pv_clip : 0 ≤ CLIP_MAX_NEW_TOKENS sc;
  pv_chunk : ∀ c, chunked_prefill_size sc = Some c → 0 < c;
  pv_queue : ∀ n, max_queued_requests sc = Some n → 0 < n;
  pv_micro : 0 < pp_max_micro_batch_size sc;
  pv_prefills : ∀ n, sc_prefill_max_requests sc = Some n → 0 < n;
  pv_steps : 0 ≤ retract_decode_steps sc;
  pv_gather : ∀ i, gather i ≠ [];
}.

Section inv.
Context {A : Type} `{KVPool A} `{!KVPoolTotal A} `{!KVPoolSlots A} `{KVAlloc A} `{!KVAllocLaws A} `{KVPaged A}.
Context `{KVGroup A} `{!KVGroupLaws A} `{KVFreeList A} `{!KVFreeListLaws A} `{Env} `{!EnvLaws} `{HeapQ} `{!HeapQLaws}.
Variables (cfg : Config) (sc : SchedCfg) (gather : Delayer.Info → list Delayer.Info).
Hypothesis Hpv : plain_server cfg sc gather.
(** The slots of the pool, and the length of its rows. *)
Variables (S0 : list Z) (ctx : nat).
Hypothesis Hnd : NoDup S0.
Notation prio := (priority_scheduling_on sc).
Notation pool := (max_total_num_tokens sc).
Notation Hdis := (pv_cache _ _ _ Hpv).
Notation Hps1 := (pv_page _ _ _ Hpv).
Implicit Types (x : Scheduler A) (s : Sys A).

(** A request of a batch: once finished it holds nothing, and its output is within bounds. *)
Record in_batch (r : BReq) : Prop := {
  ib_tidy : tidy ctx r;
  ib_gone : ¬ running r → req_pool_idx (bkv r) = None;
  ib_output : output_len (sreq r) ≤ max_new_tokens (sreq r);
}.

(** A request that decodes has tokens to go. *)
Definition lively (r : BReq) : Prop := decent prio ctx pool (sreq r) ∧ output_len (sreq r) < max_new_tokens (sreq r).

(** A request between two chunks, and room for the rest of its input. *)
Record chunked s (c : BReq) : Prop := {
  ck_decent : decent prio ctx pool (sreq c);
  ck_running : running c;
  ck_fill : fill_ok (bkv c);
  ck_left : (kv_committed_len (bkv c) < length (all_ids (bkv c)))%nat;
  ck_room : Z.of_nat (length (all_ids (bkv c)) - kv_committed_len (bkv c)) + 1 < room s;
  ck_size : is_Some (chunked_prefill_size sc);
}.

(** Its last chunk was computed ... *)
Record computed s (c : BReq) : Prop := {
  cp_chunked : chunked s c;
  cp_ids : full_untruncated_fill_ids (bkv c) = all_ids (bkv c);
  cp_range : extend_range (bkv c) = Some (Z.of_nat (length (prefix_indices (bkv c))), Z.of_nat (kv_committed_len (bkv c)));
  cp_new : (length (prefix_indices (bkv c)) < kv_committed_len (bkv c))%nat;
}.
(** ... and put into the tree. *)
Record stashed s (c : BReq) : Prop := {
  st_chunked : chunked s c;
  st_prefix : prefix_indices (bkv c) = take (kv_committed_len (bkv c)) (row_at (req_to_token_pool s) (bkv c));
}.

(** The state while the next batch is chosen; the last batch is already in the running one. *)
Record mid_inv (K : Sys A → BReq → Prop) x : Prop := {
  mi_ready : decode_ready cfg S0 (sys x) (running_batch x) (bkv <$> option_list (chunked_req x)) [];
  mi_batch : Forall in_batch (reqs (running_batch x));
  mi_lively : Forall lively (filter running (reqs (running_batch x)));
  mi_queue : Forall (λ r, queued prio ctx pool (sreq r)) (waiting_queue x);
  mi_ids : NoDup (brid <$> waiting_queue x ++ option_list (chunked_req x) ++ filter running (reqs (running_batch x)));
  mi_chunk : Forall (K (sys x)) (option_list (chunked_req x));
  mi_ratio : tracker_ok (new_token_ratio_tracker x);
  mi_policy : enable_priority_scheduling (sched_policy x) = prio;
  mi_ctx : max_context_len (req_to_token_pool (sys x)) = ctx;
  mi_size : (0 < rp_size (req_to_token_pool (sys x)))%nat;
  mi_open : reqs (running_batch x) = [] → batch_is_full (running_batch x) = false;
  mi_decodes : is_prefill_only (flags (running_batch x)) = true → filter running (reqs (running_batch x)) = [];
}.

(** The request between two chunks was launched with the last batch. *)
Definition chunk_launched x : Prop :=
  ∀ id, brid <$> chunked_req x = Some id → ∃ l, last_batch x = Some l ∧ lb_chunked_req l = Some id.

(** The invariant of the loop. *)
Definition sched_inv x : Prop :=
  ∃ b last, merge_last (chunked_req x) (last_batch x) (running_batch x) = Ok (b, last) ∧
    mid_inv computed (set_running b x) ∧ chunk_launched x.

(** The requests the server holds: those that wait, the one between two chunks, and
    those of the running batch once the last batch has joined it. *)
Definition mid_rids x : list string :=
  brid <$> waiting_queue x ++ option_list (chunked_req x) ++ filter running (reqs (running_batch x)).
Definition held_rids x : list string :=
  match merge_last (chunked_req x) (last_batch x) (running_batch x) with
  | Ok (b, _) => mid_rids (set_running b x)
  | Raise _ => []
  end.

Definition held_load x : Z * Z :=
  match merge_last (chunked_req x) (last_batch x) (running_batch x) with
  | Ok (b, _) => load (set_running b x)
  | Raise _ => (0, 0)
  end.

(** Whether the running batch has requests, once the last batch has joined it. *)
Definition busy x : Prop :=
  match merge_last (chunked_req x) (last_batch x) (running_batch x) with Ok (b, _) => reqs b ≠ [] | Raise _ => False end.

(** Held, or told that it is aborted. *)
Definition accounted x : list string := mid_rids x ++ sent_aborts x.

(** What is due is still there, and it may take its time while a batch runs; the
    requests that only prefill have left. *)
Definition covered (U : Due) x : Prop :=
  due_ids U ⊆ accounted x ∧ load_le (load x) (due_load U) ∧ (reqs (running_batch x) ≠ [] → due_slack U) ∧
  (is_prefill_only (flags (running_batch x)) = true → reqs (running_batch x) = []).

(** ** Changing parts of the state *)

Lemma mid_rest K x x' :
  sys x' = sys x → running_batch x' = running_batch x → chunked_req x' = chunked_req x →
  sched_policy x' = sched_policy x → waiting_queue x' = waiting_queue x → new_token_ratio_tracker x' = new_token_ratio_tracker x →
  mid_inv K x → mid_inv K x'.
Proof. intros Hs Hr Hc Hp Hq Ht []. split; rewrite ?Hs, ?Hr, ?Hc, ?Hp, ?Hq, ?Ht; done. Qed.

Lemma mid_queue K x q :
  Forall (λ r, queued prio ctx pool (sreq r)) q → brid <$> q ⊆+ brid <$> waiting_queue x →
  mid_inv K x → mid_inv K (set_queue q x).
Proof.
  intros Hq Hs [? ? ? ? Hi ? ? ? ? ? ? ?]. split; try done. cbn [waiting_queue set_queue chunked_req running_batch] in *.
  rewrite fmap_app in Hi |- *. eapply submseteq_NoDup; [|exact Hi]. by apply submseteq_app.
Qed.

(** Another batch with the same running requests. *)
Lemma mid_batch_same K x b :
  batch_cols_ok b → filter running (reqs b) = filter running (reqs (running_batch x)) →
  (∀ r, r ∈ reqs b → r ∈ reqs (running_batch x)) → (reqs b = [] → batch_is_full b = false) →
  is_prefill_only (flags b) = is_prefill_only (flags (running_batch x)) → mid_inv K x → mid_inv K (set_running b x).
Proof.
  intros Hb Hr Hin Hop Hfl [[_ ? ? ?] Hib ? ? ? ? ? ? ? ? ? ?]. split; cbn [set_running sys running_batch chunked_req waiting_queue] in *;
    rewrite ?Hr; try done.
  - split; rewrite ?Hr; done.
  - rewrite Forall_forall in *. auto.
  - by rewrite Hfl.
Qed.

Lemma set_full_cols full b : batch_cols_ok b → batch_cols_ok (set_full full b).
Proof. intros [?|[]]; [by left|right; by split]. Qed.

Lemma mid_full K x full :
  (reqs (running_batch x) = [] → full = false) → mid_inv K x → mid_inv K (set_running (set_full full (running_batch x)) x).
Proof. intros Hf Hi. apply mid_batch_same; [by apply set_full_cols, Hi|done..]. Qed.

Lemma filter_running_twice (l : list BReq) : filter running (filter (kept_in_batch []) l) = filter running l.
Proof.
  induction l as [|r l IH]; [done|]. rewrite !filter_cons.
  assert (kept_in_batch [] r ↔ running r) as Hk by (unfold kept_in_batch; set_solver).
  repeat case_decide; try tauto. rewrite filter_cons, decide_True by done. by rewrite IH.
Qed.

Lemma filter_keep_flags keep b b' :
  filter_keep keep b = Ok b' → is_prefill_only (flags b') = is_prefill_only (flags b) ∧ batch_is_full b' = batch_is_full b.
Proof. unfold filter_keep. intros Hf. repeat (case_match; inv_ok); done. Qed.

Lemma clean_prefill_only_ok K x :
  mid_inv K x → ∃ b, clean_prefill_only (running_batch x) = Ok b ∧ mid_inv K (set_running b x) ∧
    filter running (reqs b) = filter running (reqs (running_batch x)) ∧
    (reqs (running_batch x) = [] → reqs b = []) ∧ (is_prefill_only (flags b) = true → reqs b = []).
Proof.
  intros Hi. unfold clean_prefill_only. destruct (is_prefill_only (flags (running_batch x))) eqn:Hfl.
  2:{ exists (running_batch x). split_and!; [done|by destruct x|done|done|by rewrite Hfl]. }
  destruct (filter_batch_ok [] (running_batch x)) as (b & Hf & Hb & Hr & _); [apply Hi|]. rewrite Hf. py_run.
  destruct (filter_keep_flags _ _ _ Hf) as [Hf1 _].
  assert (Hnil : reqs b = []).
  { rewrite Hr. pose proof (mi_decodes _ _ Hi Hfl) as Hn. apply filter_none. intros r Hin [Hrn _].
    apply (elem_of_nil r). rewrite <-Hn. by apply list_elem_of_filter. }
  unfold is_empty. rewrite Hnil. cbn [length Nat.eqb]. eexists; split; [done|]. cbn [set_full reqs flags]. split_and!; try done.
  - apply mid_batch_same; try done; cbn [set_full reqs flags]; [by apply set_full_cols| |].
    + by rewrite Hnil, (mi_decodes _ _ Hi Hfl).
    + intros r Hin. rewrite Hnil in Hin. by apply elem_of_nil in Hin.
  - by rewrite Hnil, (mi_decodes _ _ Hi Hfl).
Qed.

(** ** The self check *)

Lemma running_live s run (r : BReq) : serve_core cfg S0 s run [] → bkv r ∈ run → live r.
Proof.
  intros Hc Hr. pose proof (sv_run _ _ _ _ _ Hc) as Hrun. rewrite Forall_forall in Hrun.
  destruct (Hrun _ Hr) as [? _ _ [? _] _ _ _]. by split.
Qed.

(** The batches hold the requests that own slots. *)
Lemma self_check_ok s run (last rs : list BReq) :
  serve_core cfg S0 s run [] → kv_ready (allocator (cache s)) → max_context_len (req_to_token_pool s) = ctx →
  max_total_num_tokens sc = Z.of_nat (length S0) → bkv <$> filter running (last ++ rs) ≡ₚ run →
  Forall (λ r, tidy ctx r ∧ (¬ running r → req_pool_idx (bkv r) = None)) (last ++ rs) →
  self_check_during_busy cfg (max_total_num_tokens sc) (Some last) rs s = Ok tt.
Proof.
  intros Hc Hrd Hcx Ht Hrun Hall. apply (busy_silent cfg Hps1 S0 s run); try done.
  2:{ rewrite Hcx. eapply Forall_impl; [exact Hall|]. by intros ? []. }
  assert (filter live (last ++ rs) = filter running (last ++ rs)) as ->; [|done].
  assert (Hin : ∀ r, r ∈ last ++ rs → running r → bkv r ∈ run).
  { intros r Hr Hn. rewrite <-Hrun. apply list_elem_of_fmap. exists r. split; [done|]. by apply list_elem_of_filter. }
  clear Hrun. revert Hall Hin. generalize (last ++ rs) as l. induction l as [|r l IH]; intros Hall Hin; [done|].
  apply Forall_cons in Hall as [[_ Hg] Hall]. rewrite !filter_cons.
  assert (live r ↔ running r) as Hlr.
  { split.
    - intros [[i Hi] _]. destruct (decide (running r)) as [|Hn]; [done|]. rewrite (Hg Hn) in Hi. done.
    - intros Hn. eapply running_live; [done|]. apply Hin; [set_solver|done]. }
  rewrite IH by (done || set_solver). repeat case_decide; tauto.
Qed.

(** ** The stash *)

Lemma stash_chunked_request_ok x :
  mid_inv computed x →
  ∃ c s, stash_chunked_request cfg (chunked_req x) (sys x) = Ok (c, s) ∧ brid <$> c = brid <$> chunked_req x ∧
    load (set_sys s (set_chunked c x)) = load x ∧ mid_inv stashed (set_sys s (set_chunked c x)).
Proof.
  intros Hi. unfold load at 2. destruct (chunked_req x) as [c|] eqn:Hc; cbn [stash_chunked_request].
  2:{ exists None, (sys x). split_and!; [done..|]. destruct Hi as [? ? ? ? ? ? ? ? ? ? ? ?].
      split; cbn [set_sys set_chunked sys running_batch chunked_req waiting_queue] in *; rewrite ?Hc in *; done. }
  destruct Hi as [[Hcols Hcore Hrd Hbt] Hib Hlv Hq Hids Hk Hrt Hpo Hcx Hsz0 Hop Hde]. rewrite Hc in *. cbn [option_list fmap list_fmap app] in *.
  apply Forall_cons in Hk as [[[Hdc Hrn Hfl Hlt Hroom Hsz] Hfi Hrg Hnew] _].
  rewrite Hrg. py_run. rewrite (proj2 (Z.ltb_lt _ _)) by lia. unfold maybe_cache_unfinished_req.
  rewrite (dc_skip _ _ _ _ Hdc : skip_radix_cache_insert (bkv c) = false).
  assert (Hids0 : get_fill_ids (bkv c) = Ok (take (kv_committed_len (bkv c)) (all_ids (bkv c)))).
  { unfold get_fill_ids, range_end. rewrite Hrg, Hfi. cbn. by rewrite py_take_nat. }
  assert (Hp : (bkv <$> filter running (reqs (running_batch x))) ++ [bkv c] ≡ₚ bkv c :: (bkv <$> filter running (reqs (running_batch x)))).
  { by rewrite Permutation_app_comm. }
  pose proof (room_eq cfg S0 _ _ _ Hcore Hnd Hrd) as Hr0. rewrite Hp in Hcore, Hr0.
  assert (Hprot : (cache_protected_len (bkv c) ≤ aligned_len cfg (bkv c) (take (kv_committed_len (bkv c)) (all_ids (bkv c))))%nat).
  { pose proof (sv_run _ _ _ _ _ Hcore) as Hrun. apply Forall_cons in Hrun as [[_ _ _ _ ? _ _] _]. done. }
  destruct (serve_recache cfg Hdis S0 (sys x) (bkv c) _ [] true _ Hcore Hids0) as
    (s' & y & kv' & -> & Hlen & Hcore' & Hfr & Hrow & Htk & Hm).
  { apply prefix_take. } { rewrite length_take. lia. } { done. }
  py_run. set (k := with_prefix _ _ _ _) in *. eexists _, s'. split; [done|]. split; [done|]. split; [unfold load; by rewrite !weigh_app|].
  assert (Hrd' : kv_ready (allocator (cache s'))) by (by eapply frees_ready).
  pose proof (room_eq cfg S0 _ _ _ Hcore' Hnd Hrd') as Hr1.
  split; cbn [set_sys set_chunked sys running_batch chunked_req waiting_queue option_list fmap list_fmap app] in *; try done.
  - split; try done. change (bkv <$> option_list (Some (with_bkv k c))) with [k]. by rewrite Permutation_app_comm.
  - rewrite !fmap_app in Hids |- *. exact Hids.
  - constructor; [|constructor]. split; [split; try done|].
    + eapply decent_kin; [|exact Hdc]. by split.
    + change (Z.of_nat (length (all_ids (bkv c)) - kv_committed_len (bkv c)) + 1 < room s'). lia.
    + change (kv' = take (kv_committed_len (bkv c)) (row_at (req_to_token_pool s') (bkv c))). rewrite Hrow.
      rewrite length_take, Nat.min_l in Hlen by lia. by rewrite <-Hlen, take_app_length.
  - by rewrite (dims_ctx _ _ Hm).
  - by rewrite (dims_size _ _ Hm).
Qed.

(** ** The order of the queue *)

Lemma mid_looked_up x st :
  mid_inv stashed x → cache_wf cfg st (omap last_node (((bkv <$> filter running (reqs (running_batch x))) ++
    (bkv <$> option_list (chunked_req x))) ++ [])) → same_content cfg (cache (sys x)) st →
  mid_inv stashed (set_sys (mkSys st (req_to_token_pool (sys x))) x).
Proof.
  intros [[Hcols Hcore Hrd Hbt] Hib Hlv Hq Hids Hk Hrt Hpo Hcx Hsz0 Hop Hde] Hw [Hroot Hslots Hal _ Hdown].
  set (s' := mkSys st (req_to_token_pool (sys x))). set (run := (bkv <$> filter running (reqs (running_batch x))) ++ _) in *.
  assert (Hcore' : serve_core cfg S0 s' run []).
  { apply serve_looked_up; [done|done|split; [done|done|rewrite Hal; apply rtc_refl]|]. unfold all_slots. by rewrite Hslots, Hal. }
  assert (Hrd' : kv_ready (allocator (cache s'))) by (cbn; by rewrite Hal).
  assert (Hroom : room s' = room (sys x)).
  { rewrite (room_eq cfg S0 _ _ _ Hcore Hnd Hrd), (room_eq cfg S0 _ _ _ Hcore' Hnd Hrd'). done. }
  split; cbn [set_sys sys running_batch chunked_req waiting_queue] in *; try done.
  eapply Forall_impl; [exact Hk|]. intros c [[] ?]. split; [split|]; try done. by rewrite Hroom.
Qed.

Lemma queued_same_req r r' : same_req r r' → queued prio ctx pool r → queued prio ctx pool r'.
Proof.
  intros [? Ho Hq _ Hm Hp Hr [F1 F2] [G1 G2] Hch Hf Hs] [[Hsk Hfi Hout Hpr Hc Hpl] [W1 [W2 W3] W4 W5] Hn].
  unfold output_len, fill_ok, all_ids in *.
  split; [split|split|]; unfold output_len, fill_ok, all_ids; rewrite ?Ho, ?Hq, ?Hm, ?Hp, ?Hr, ?F1, ?F2, ?G1, ?G2, ?Hch, ?Hf, ?Hs; done.
Qed.

Variables (check_threshold deprioritize_threshold : Z).
Variables (shuffle : list SReq → list SReq) (fast_match : bool).
Hypothesis shuffle_perm : ∀ l, shuffle l ≡ₚ l.
Hypothesis Hpos : 0 < deprioritize_threshold.

Lemma calc_priority_settings sp fast queue running (st : RadixCache A) q sp' st' :
  calc_priority cfg check_threshold deprioritize_threshold shuffle sp fast queue running st = Ok (q, sp', st') →
  enable_priority_scheduling sp' = enable_priority_scheduling sp.
Proof.
  unfold calc_priority. intros Hc. inv_ok. case_match; inv_ok. case_decide; inv_ok; [done|].
  destruct (determine_active_policy _ _); inv_ok; [|done]. repeat (case_match; inv_ok); done.
Qed.

Lemma calc_priority_step x :
  mid_inv stashed x →
  ∃ q pol st, calc_priority cfg check_threshold deprioritize_threshold shuffle (sched_policy x) fast_match
      (sreq <$> waiting_queue x) (Some (sreq <$> reqs (running_batch x))) (cache (sys x)) = Ok (q, pol, st) ∧
    mid_inv stashed (set_sys (mkSys st (req_to_token_pool (sys x))) (set_policy pol
      (set_queue (rejoin (waiting_queue x) q) x))) ∧
    gist <$> rejoin (waiting_queue x) q ≡ₚ gist <$> waiting_queue x.
Proof.
  intros Hi. pose proof (mi_queue _ _ Hi) as Hq. pose proof (mi_ids _ _ Hi) as Hids. rewrite fmap_app in Hids.
  apply NoDup_app in Hids as (Hndq & _ & _).
  assert (Hqs : Forall (queued prio ctx pool) (sreq <$> waiting_queue x)) by (by apply Forall_fmap).
  destruct (calc_priority_ok cfg check_threshold deprioritize_threshold Hdis shuffle shuffle_perm Hpos
    (sched_policy x) fast_match (sreq <$> waiting_queue x) (Some (sreq <$> reqs (running_batch x))) (cache (sys x)) _
    (sv_wf _ _ _ _ _ (dr_core _ _ _ _ _ _ (mi_ready _ _ Hi)))) as (q & pol & st & Hc & Hw & Hsame & _ & q0 & Hf & Hperm).
  { rewrite (mi_policy _ _ Hi). intros Hp. eapply Forall_impl; [exact Hqs|]. intros r [[_ _ _ ? _ _] _ _]. unfold has_priority. auto. }
  exists q, pol, st. split; [done|].
  assert (Hrids : rid <$> q ≡ₚ brid <$> waiting_queue x).
  { rewrite Hperm, brid_sreq. clear -Hf. induction Hf as [|r r' l l' [Hr _ _ _ _ _ _ _ _ _ _ _] _ IH]; [done|]. csimpl. by rewrite Hr, IH. }
  assert (Hj : sreq <$> rejoin (waiting_queue x) q = q).
  { apply rejoin_sreq; [done|]. apply Forall_forall. intros y Hy. rewrite <-Hrids. apply list_elem_of_fmap. eauto. }
  assert (Hb : brid <$> rejoin (waiting_queue x) q ≡ₚ brid <$> waiting_queue x) by (by rewrite (brid_sreq (rejoin _ _)), Hj).
  split.
  2:{ assert (∀ l : list BReq, gist <$> l = gist_of <$> (sreq <$> l)) as Hgs by (intros; by rewrite <-list_fmap_compose).
      rewrite !Hgs, Hj, Hperm. clear -Hf. induction Hf as [|r r' l l' Hr _ IH]; [done|]. csimpl. rewrite IH. f_equiv.
      destruct Hr as [R1 R2 R3 _ R5 _ _ _ _ _ _ _]. unfold gist_of, output_len, all_ids. by rewrite R1, R2, R3, R5. }
  assert (Hi1 : mid_inv stashed (set_queue (rejoin (waiting_queue x) q) x)).
  { apply mid_queue; [|by rewrite Hb|done]. apply (Forall_fmap sreq). rewrite Hj, Hperm. clear -Hf Hqs.
    induction Hf as [|r r' l l' Hr _ IH]; [done|]. apply Forall_cons in Hqs as [? ?]. constructor; [by eapply queued_same_req|auto]. }
  pose proof (calc_priority_settings _ _ _ _ _ _ _ _ Hc) as Hset.
  assert (Hi2 : mid_inv stashed (set_policy pol (set_queue (rejoin (waiting_queue x) q) x))).
  { destruct Hi1. split; try done. cbn. by rewrite Hset. }
  by apply (mid_looked_up _ _ Hi2).
Qed.
End inv.
