(* ===== verification/AbortInv.v ===== *)
(** Aborts: a request that is to finish is marked, which nothing of the invariant looks at,
    and the request between two chunks leaves with its KV. *)

From stdpp Require Import base gmap strings list relations.
From Stdlib Require Import ZArith QArith Lia Lqa.
From S2P Require Import Prelude.
From S2P Require Import PyData.
From S2P Require Import RadixKey.
From S2P Require Import RadixTree.
From S2P Require Import RadixInv.
From S2P Require Import RadixContent.
From S2P Require Import RadixOps.
From S2P Require Import RadixInsert.
From S2P Require Import RadixEvict.
From S2P Require Import RadixSession.
From S2P Require Import ReqCache.
From S2P Require Import ReqCacheInv.
From S2P Require Import ReqAlloc.
From S2P Require Import ReqLife.
From S2P Require Import BatchAlloc.
From S2P Require Import Delayer.
From S2P Require Import PrefillAdder.
From S2P Require Import ScheduleBatch.
From S2P Require Import BatchInv.
From S2P Require Import ServeInv.
From S2P Require Import ServeOps.
From S2P Require Import Room.
From S2P Require Import ExtendInv.
From S2P Require Import MemCheck.
From S2P Require Import RatioInv.
From S2P Require Import DecodeInv.
From S2P Require Import ResultInv.
From S2P Require Import ServeLoop.
From S2P Require Import PrefillAdderInv.
From S2P Require Import PassInv.
From S2P Require Import SchedulePolicy.
From S2P Require Import SchedulePolicyInv.
From S2P Require Import Scheduler.
From S2P Require Import Load.
From S2P Require Import QueueInv.
From S2P Require Import SchedulerInv.

Open Scope Z_scope.

(** ** Requests without their mark *)

Definition unmark (r : BReq) : BReq :=
  mkBReq (sreq r) (extend_batch_idx r) (decode_batch_idx r) (cached_tokens r) (already_computed r)
    (cache_breakdown_computed r) (cached_tokens_device r) (cached_tokens_host r)
    (cached_tokens_storage r) (storage_hit_length r) (is_retracted r) (retraction_count r)
    (top_logprobs_num r) (token_ids_logprob r) (has_grammar r) (wants_hidden_states r) None.
Definition unmark_batch (b : ScheduleBatch) : ScheduleBatch := set_reqs (unmark <$> reqs b) b.
Definition unmark_launched (l : Launched) : Launched := set_batch (unmark_batch (lb_batch l)) l.

Lemma unmark_marked hit msg r : unmark (mark_abort hit msg r) = unmark r.
Proof. unfold mark_abort. by case_match. Qed.
Lemma unmark_marked_batch hit msg b : unmark_batch (mark_reqs hit msg b) = unmark_batch b.
Proof.
  unfold unmark_batch, mark_reqs. cbn [reqs set_reqs]. unfold set_reqs at 1. cbn. rewrite <-list_fmap_compose.
  unfold set_reqs. f_equal. apply list_fmap_ext. intros i r _. apply unmark_marked.
Qed.

(** The batch operations do not look at the mark. *)

Lemma pick_fmap {A B} (f : A → B) l idx : pick (f <$> l) idx = (let! k := pick l idx in Ok (f <$> k)).
Proof.
  induction idx as [|i idx IH]; [done|]. cbn [pick]. rewrite list_lookup_fmap. destruct (l !! i); [|done].
  cbn [fmap option_fmap option_map of_option rbind]. rewrite IH. by destruct (pick l idx).
Qed.

Lemma existsb_unmark (f : BReq → bool) l : (∀ r, f (unmark r) = f r) → existsb f (unmark <$> l) = existsb f l.
Proof. intros Hf. induction l as [|r l IH]; [done|]. cbn. by rewrite Hf, IH. Qed.

Lemma filter_keep_unmark keep b : filter_keep keep (unmark_batch b) = (let! b := filter_keep keep b in Ok (unmark_batch b)).
Proof.
  unfold filter_keep. case_match; [done|]. cbn [unmark_batch set_reqs reqs]. rewrite length_fmap. case_match; [done|].
  rewrite pick_fmap. destruct (pick (reqs b) keep) as [rs|]; [|done]. cbn [rbind].
  change (cols (unmark_batch b)) with (cols b). change (input_ids (unmark_batch b)) with (input_ids b).
  change (logp (unmark_batch b)) with (logp b). change (flags (unmark_batch b)) with (flags b).
  rewrite !existsb_unmark by done.
  destruct (pick (req_pool_indices (cols b)) keep); [cbn [rbind]|done]. destruct (pick (req_pool_indices_cpu (cols b)) keep); [cbn [rbind]|done].
  destruct (pick (seq_lens (cols b)) keep); [cbn [rbind]|done]. destruct (pick (orig_seq_lens (cols b)) keep); [cbn [rbind]|done].
  destruct (pick_opt (input_ids b) keep); [cbn [rbind]|done]. destruct (pick_opt (seq_lens_cpu (cols b)) keep); [cbn [rbind]|done].
  destruct (existsb _ rs); [|done]. destruct (top_logprobs_nums (logp b)) as [tops|]; [cbn [of_option rbind]|done].
  destruct (pick tops keep); [cbn [rbind]|done]. destruct (token_ids_logprobs (logp b)) as [toks|]; [cbn [of_option rbind]|done].
  by destruct (pick toks keep).
Qed.

Lemma filter_batch_unmark ex b :
  filter_batch ex None (unmark_batch b) = (let! b := filter_batch ex None b in Ok (unmark_batch b)).
Proof.
  unfold filter_batch. cbn [default from_option]. rewrite <-filter_keep_unmark. f_equal. unfold default_keep.
  cbn [unmark_batch set_reqs reqs]. rewrite length_fmap. apply list_filter_iff. intros i. unfold stays. rewrite list_lookup_fmap.
  by destruct (reqs b !! i).
Qed.

Lemma empty_unmark b : is_empty (unmark_batch b) = is_empty b.
Proof. unfold is_empty. cbn. by rewrite length_fmap. Qed.

Lemma merge_batch_unmark b o : merge_batch (unmark_batch b) (unmark_batch o) = (let! b := merge_batch b o in Ok (unmark_batch b)).
Proof.
  unfold merge_batch. cbn [unmark_batch set_reqs reqs logp]. rewrite !length_fmap.
  destruct (merge_logp _ _ _ _); [|done]. cbn [rbind]. unfold unmark_batch, set_reqs. cbn. by rewrite fmap_app.
Qed.

Lemma merge_last_batch_unmark ex last b :
  merge_last_batch ex (unmark_batch last) (unmark_batch b) = (let! b := merge_last_batch ex last b in Ok (unmark_batch b)).
Proof.
  unfold merge_last_batch. rewrite filter_batch_unmark. destruct (filter_batch ex None last) as [l|]; [|done]. cbn [rbind].
  rewrite empty_unmark. assert (Hbs : ∀ b, batch_size (unmark_batch b) = batch_size b) by (intros; unfold batch_size; cbn; by rewrite length_fmap).
  rewrite !Hbs. set (b1 := if (_ <? _)%nat then set_full false b else b).
  assert ((if (batch_size l <? batch_size last)%nat then set_full false (unmark_batch b) else unmark_batch b) = unmark_batch b1) as ->
    by (unfold b1; by case_match).
  rewrite empty_unmark. case_match; [done|]. case_match; [done|]. apply merge_batch_unmark.
Qed.

Lemma merge_last_unmark c last b :
  merge_last c (unmark_launched <$> last) (unmark_batch b) =
  (let! (b, l) := merge_last c last b in Ok (unmark_batch b, unmark_launched <$> l)).
Proof.
  destruct last as [l|]; [|done]. cbn [fmap option_fmap option_map merge_last].
  change (lb_batch (unmark_launched l)) with (unmark_batch (lb_batch l)). change (is_extend (unmark_batch (lb_batch l))) with (is_extend (lb_batch l)).
  change (lb_chunked_req (unmark_launched l)) with (lb_chunked_req l). destruct (is_extend (lb_batch l)); [|done].
  rewrite merge_last_batch_unmark, filter_batch_unmark. destruct (merge_last_batch _ _ _) as [m|]; [|done]. cbn [rbind].
  destruct (filter_batch _ _ _) as [st|]; [|done]. cbn [rbind]. by rewrite !empty_unmark.
Qed.

(** Batches that differ in marks merge to batches that differ in marks. *)
Lemma merge_last_marked (c c' : option BReq) last last' running running' b l :
  brid <$> c' = brid <$> c → unmark_launched <$> last' = unmark_launched <$> last → unmark_batch running' = unmark_batch running →
  merge_last c last running = Ok (b, l) →
  ∃ b' l', merge_last c' last' running' = Ok (b', l') ∧ unmark_batch b' = unmark_batch b.
Proof.
  intros Hc Hl Hr Hm. assert (Hc' : merge_last c' last' running' = merge_last c last' running') by (unfold merge_last; by rewrite Hc).
  rewrite Hc'. pose proof (merge_last_unmark c last running) as H1. pose proof (merge_last_unmark c last' running') as H2.
  rewrite Hl, Hr, H1, Hm in H2. cbn [rbind] in H2. destruct (merge_last c last' running') as [[b' l']|]; [|done].
  apply (f_equal (λ r, match r with Ok (b, _) => b | Raise _ => b end)) in H2. by exists b', l'.
Qed.

(** ** The invariant does not look at the mark *)

Section marks.
Context {A : Type} `{KVPool A} `{!KVPoolTotal A} `{!KVPoolSlots A} `{KVAlloc A} `{!KVAllocLaws A} `{KVPaged A}.
Context `{KVGroup A} `{!KVGroupLaws A} `{KVFreeList A} `{!KVFreeListLaws A} `{Env} `{!EnvLaws} `{HeapQ} `{!HeapQLaws}.
Variables (cfg : Config) (sc : SchedCfg) (gather : Delayer.Info → list Delayer.Info).
Hypothesis Hpv : plain_server cfg sc gather.
Variables (S0 : list Z) (ctx : nat).
Notation prio := (priority_scheduling_on sc).
Notation pool := (max_total_num_tokens sc).
Implicit Types (x : Scheduler A) (s : Sys A).
Notation inv := (sched_inv cfg sc S0 ctx).

Lemma unmark_reqs b b' : unmark_batch b' = unmark_batch b → unmark <$> reqs b' = unmark <$> reqs b.
Proof. apply (f_equal reqs). Qed.

Lemma unmark_fmap {B} (f : BReq → B) (l l' : list BReq) :
  (∀ r, f (unmark r) = f r) → unmark <$> l' = unmark <$> l → f <$> l' = f <$> l.
Proof.
  intros Hf Hl. rewrite <-(list_fmap_ext (f ∘ unmark) f l'), <-(list_fmap_ext (f ∘ unmark) f l) by (intros; apply Hf).
  by rewrite !list_fmap_compose, Hl.
Qed.
Lemma unmark_filter (l l' : list BReq) : unmark <$> l' = unmark <$> l → unmark <$> filter running l' = unmark <$> filter running l.
Proof.
  assert (Hu : ∀ l : list BReq, unmark <$> filter running l = filter running (unmark <$> l)).
  { clear. induction l as [|r l IH]; [done|]. csimpl. rewrite !filter_cons. 
    repeat case_decide; try done; csimpl; by rewrite IH. }
  intros Hl. by rewrite !Hu, Hl.
Qed.
Lemma unmark_Forall (P : BReq → Prop) (l l' : list BReq) :
  (∀ r, P r ↔ P (unmark r)) → unmark <$> l' = unmark <$> l → Forall P l → Forall P l'.
Proof.
  intros HP Hl Hf. assert (Forall P (unmark <$> l')) as Hf'.
  { rewrite Hl. apply Forall_fmap. eapply Forall_impl; [exact Hf|]. intros r. apply HP. }
  apply (proj1 (Forall_fmap _ _ _)) in Hf'. eapply Forall_impl; [exact Hf'|]. intros r. apply HP.
Qed.

Lemma unmark_cols b b' : unmark_batch b' = unmark_batch b → batch_cols_ok b → batch_cols_ok b'.
Proof.
  assert (Hu : ∀ b, batch_cols_ok b ↔ batch_cols_ok (unmark_batch b)).
  { clear. intros b. unfold batch_cols_ok. cbn [unmark_batch set_reqs reqs].
    assert (columns_ok b ↔ columns_ok (unmark_batch b)) as ->; [|split; intros [E|E]; [left; by rewrite E|by right|left; by apply fmap_nil_inv in E|by right]].
    split; intros [C1 C2 C3 C4 [L1 L2] C6]; split; cbn [unmark_batch set_reqs reqs cols input_ids logp flags] in *; rewrite ?length_fmap in *;
      rewrite ?existsb_unmark in * by done; try done.
    - intros i r Hr. rewrite list_lookup_fmap in Hr. apply fmap_Some in Hr as (r0 & Hr & ->). exact (C4 i r0 Hr).
    - split; [by rewrite existsb_unmark|]. intros Hb. destruct (L2 Hb) as (tops & toks & ? & ? & ? & ? & Hi). exists tops, toks.
      rewrite length_fmap. split_and!; try done. intros i r Hr. rewrite list_lookup_fmap in Hr. apply fmap_Some in Hr as (r0 & Hr & ->). exact (Hi i r0 Hr).
    - intros i r Hr. apply (C4 i (unmark r)). by rewrite list_lookup_fmap, Hr.
    - split; [done|]. intros Hb. destruct (L2 Hb) as (tops & toks & ? & ? & ? & ? & Hi). exists tops, toks.
      split_and!; try done. intros i r Hr. apply (Hi i (unmark r)). by rewrite list_lookup_fmap, Hr. }
  intros Hb Hc. apply (proj2 (Hu _)). rewrite Hb. by apply (proj1 (Hu _)).
Qed.

Lemma mid_marked K x x' :
  (∀ s c c', sreq c' = sreq c → K s c → K s c') →
  unmark_batch (running_batch x') = unmark_batch (running_batch x) → sreq <$> chunked_req x' = sreq <$> chunked_req x →
  sys x' = sys x → sched_policy x' = sched_policy x → waiting_queue x' = waiting_queue x →
  new_token_ratio_tracker x' = new_token_ratio_tracker x → mid_inv cfg sc S0 ctx K x → mid_inv cfg sc S0 ctx K x'.
Proof.
  intros HK Hb Hc Hs Hp Hq Ht [[Hcols Hcore Hrd Hbt] Hib Hlv Hqu Hids Hch Hrt Hpo Hcx Hsz Hop Hde].
  pose proof (unmark_reqs _ _ Hb) as Hr. pose proof (unmark_filter _ _ Hr) as Hf.
  assert (Hkv : bkv <$> filter running (reqs (running_batch x')) = bkv <$> filter running (reqs (running_batch x))) by (by apply unmark_fmap).
  assert (Hsq : sreq <$> option_list (chunked_req x') = sreq <$> option_list (chunked_req x)).
  { by rewrite !fmap_option_list, Hc. }
  assert (Hck : bkv <$> option_list (chunked_req x') = bkv <$> option_list (chunked_req x)).
  { change bkv with (kv ∘ sreq). by rewrite !list_fmap_compose, Hsq. }
  assert (Hbr : brid <$> option_list (chunked_req x') = brid <$> option_list (chunked_req x)).
  { change brid with (rid ∘ sreq). by rewrite !list_fmap_compose, Hsq. }
  split; rewrite ?Hs, ?Hp, ?Hq, ?Ht; try done.
  - split; [by eapply unmark_cols|by rewrite Hkv, Hck|done|]. eapply unmark_Forall; [|exact Hf|done]. intros r. split; intros []; by split.
  - eapply unmark_Forall; [|exact Hr|done]. intros r. split; intros [[] ? ?]; (split; [by split|done..]).
  - by eapply unmark_Forall.
  - rewrite !fmap_app in *. by rewrite Hbr, (unmark_fmap brid _ _ ltac:(done) Hf).
  - destruct (chunked_req x) as [c|] eqn:E, (chunked_req x') as [c'|] eqn:E'; try done. apply Forall_cons in Hch as [Hch _].
    constructor; [|constructor]. eapply HK; [|exact Hch]. by injection Hc.
  - intros E. change (batch_is_full (running_batch x')) with (batch_is_full (unmark_batch (running_batch x'))). rewrite Hb. apply Hop.
    rewrite E in Hr. symmetry in Hr. by apply fmap_nil_inv in Hr.
  - intros E. change (flags (running_batch x')) with (flags (unmark_batch (running_batch x'))) in E. rewrite Hb in E. specialize (Hde E).
    rewrite Hde in Hf. by apply fmap_nil_inv in Hf.
Qed.

Lemma computed_marked s c c' : sreq c' = sreq c → computed sc ctx s c → computed sc ctx s c'.
Proof.
  intros Hc. assert (Hk : bkv c' = bkv c) by (unfold bkv; by rewrite Hc).
  intros [[] ? ? ?]. split; [split|..]; unfold running in *; rewrite ?Hk, ?Hc; done.
Qed.

(** ** Steps that take work off *)

(** What the invariant and the account keep over such a step. *)
Record eased x x' : Prop := {
  ea_inv : inv x';
  ea_ids : held_rids x ++ sent_aborts x ⊆ held_rids x' ++ sent_aborts x';
  ea_load : load_le (held_load x') (held_load x);
  ea_busy : busy x' → busy x;
  ea_delayer : sched_delayer x' = sched_delayer x;
}.

Lemma eased_trans x y z : eased x y → eased y z → eased x z.
Proof.
  intros [I1 A1 L1 B1 D1] [I2 A2 L2 B2 D2]. split; [done|by etrans|by etrans|auto|congruence].
Qed.

Lemma eased_refl x : inv x → eased x x.
Proof. by split. Qed.

(** Only marks change. *)
Lemma eased_marks x x' :
  inv x → unmark_launched <$> last_batch x' = unmark_launched <$> last_batch x →
  unmark_batch (running_batch x') = unmark_batch (running_batch x) → sreq <$> chunked_req x' = sreq <$> chunked_req x →
  sys x' = sys x → sched_policy x' = sched_policy x → waiting_queue x' = waiting_queue x →
  new_token_ratio_tracker x' = new_token_ratio_tracker x → sched_delayer x' = sched_delayer x → sent_aborts x' = sent_aborts x →
  eased x x'.
Proof.
  intros (b & last & Hm & Hi & Hcl) Hl Hr Hc Hs Hp Hq Ht Hd Ha.
  assert (Hb : brid <$> chunked_req x' = brid <$> chunked_req x).
  { change brid with (rid ∘ sreq). by rewrite !option_fmap_compose, Hc. }
  destruct (merge_last_marked _ (chunked_req x') _ (last_batch x') _ (running_batch x') _ _ Hb Hl Hr Hm) as (b' & last' & Hm' & Hu).
  pose proof (unmark_filter _ _ (unmark_reqs _ _ Hu)) as Hf.
  assert (Hsq : sreq <$> option_list (chunked_req x') = sreq <$> option_list (chunked_req x)) by (by rewrite !fmap_option_list, Hc).
  assert (Hw : ∀ f : SReq → Z, weigh (f ∘ sreq) (option_list (chunked_req x')) = weigh (f ∘ sreq) (option_list (chunked_req x))).
  { intros f. unfold weigh. by rewrite !list_fmap_compose, Hsq. }
  split; try done.
  - exists b', last'. split; [done|]. split.
    + eapply mid_marked; [intros; by eapply computed_marked|..|exact Hi]; try done.
    + intros id Hid. rewrite Hb in Hid. destruct (Hcl id Hid) as (l & El & Elc). rewrite El in Hl.
      destruct (last_batch x') as [l'|]; [|done]. exists l'. split; [done|]. rewrite <-Elc. injection Hl as _ Hl _ _ _. done.
  - unfold held_rids. rewrite Hm, Hm', Ha. unfold mid_rids. cbn [set_running waiting_queue chunked_req running_batch].
    rewrite Hq, !fmap_app. rewrite !fmap_option_list, Hb, (unmark_fmap brid _ _ ltac:(done) Hf). done.
  - unfold held_load. rewrite Hm, Hm'. unfold load. cbn [set_running waiting_queue chunked_req running_batch]. rewrite Hq, !weigh_app.
    pose proof (Hw (λ y, max_new_tokens y - output_len y + 1)) as W1. change (_ ∘ sreq) with tokens_left in W1.
    pose proof (Hw (λ y, Z.of_nat (length (all_ids (kv y))) - Z.of_nat (kv_committed_len (kv y)) + 1)) as W2. change (_ ∘ sreq) with chunk_left in W2.
    rewrite W1, W2. unfold weigh at 3. rewrite (unmark_fmap tokens_left _ _ ltac:(done) Hf). done.
  - unfold busy. rewrite Hm, Hm'. intros Hne E. apply Hne. apply unmark_reqs in Hu. rewrite E in Hu. by apply fmap_nil_inv in Hu.
Qed.

(** Requests leave the queue, and the tokenizer is told. *)
Lemma eased_queue (P : BReq → Prop) `{∀ r, Decision (P r)} ids x :
  inv x → (∀ r, r ∈ waiting_queue x → ¬ P r → brid r ∈ ids) →
  eased x (send_aborts ids (set_queue (filter P (waiting_queue x)) x)).
Proof.
  intros (b & last & Hm & Hi & Hcl) Hids. set (q := filter P (waiting_queue x)). split; try done.
  - exists b, last. split; [exact Hm|]. split; [|exact Hcl].
    assert (Hq : mid_inv cfg sc S0 ctx (computed sc ctx) (set_queue q (set_running b x))).
    { apply mid_queue; [| |done].
      - pose proof (mi_queue _ _ _ _ _ _ Hi) as Hq. cbn in Hq. rewrite Forall_forall in Hq. apply Forall_forall.
        intros r [_ Hr]%list_elem_of_filter. auto.
      - apply fmap_submseteq, sublist_submseteq, sublist_filter. }
    eapply mid_rest; [..|exact Hq]; done.
  - unfold held_rids. cbn [send_aborts set_queue chunked_req last_batch running_batch sent_aborts]. rewrite Hm. unfold mid_rids.
    cbn [set_running send_aborts set_queue chunked_req last_batch running_batch waiting_queue]. rewrite !fmap_app.
    intros id. rewrite !elem_of_app. intros [[Hid|Hid]|Hid]; [|by auto|by auto].
    apply list_elem_of_fmap in Hid as (r & -> & Hr). destruct (decide (P r)).
    + left. left. apply list_elem_of_fmap. exists r. split; [done|]. by apply list_elem_of_filter.
    + right. right. by apply Hids.
  - unfold held_load. cbn [send_aborts set_queue chunked_req last_batch running_batch]. rewrite Hm. unfold load.
    cbn [set_running send_aborts set_queue chunked_req running_batch waiting_queue].
    destruct (queue_lighter q (waiting_queue x)) as [Hq1 Hq2].
    { by apply fmap_submseteq, sublist_submseteq, sublist_filter. }
    { eapply Forall_impl; [exact (mi_queue _ _ _ _ _ _ Hi)|]. intros r [[_ _ ? _ _ _] _ _]. unfold tokens_left. lia. }
    apply load_both; cbn [fst snd]; rewrite ?weigh_app; lia.
Qed.

Lemma eased_pending id x : inv x → eased x (set_pending id x).
Proof.
  intros (b & last & Hm & Hi & Hcl). split; try done. exists b, last. split; [exact Hm|]. split; [|exact Hcl].
  eapply mid_rest; [..|exact Hi]; done.
Qed.

Lemma abort_on_waiting_timeout_eased deadline x : inv x → eased x (abort_on_waiting_timeout deadline x).
Proof.
  intros Hi. destruct deadline as [d|]; [|by apply eased_refl]. apply eased_queue; [done|]. intros r Hr Hn.
  apply list_elem_of_fmap. exists r. split; [done|]. apply list_elem_of_filter. split; [|done]. destruct (decide (timed_out d r)); tauto.
Qed.

Lemma abort_on_running_timeout_eased expired x : inv x → eased x (abort_on_running_timeout expired x).
Proof.
  intros Hi. destruct expired as [hit|]; [|by apply eased_refl]. cbn [abort_on_running_timeout]. case_match; [by apply eased_refl|].
  apply eased_marks; try done. apply unmark_marked_batch.
Qed.

Lemma abort_request_eased id all x : inv x → eased x (abort_request id all x).
Proof.
  intros Hi. unfold abort_request. set (pending := match chunked_req x with Some _ => _ | None => _ end). cbv zeta.
  pose proof (eased_pending pending x Hi) as E1.
  assert (E2 : eased (set_pending pending x) (send_aborts (rev (brid <$> filter (λ r, targeted id all r = true) (waiting_queue x)))
    (set_queue (filter (λ r, targeted id all r = false) (waiting_queue x)) (set_pending pending x)))).
  { apply (eased_queue (λ r, targeted id all r = false) _ (set_pending pending x)); [apply E1|]. intros r Hr Hn. apply list_elem_of_In. rewrite <-in_rev. apply list_elem_of_In.
    apply list_elem_of_fmap. exists r. split; [done|]. apply list_elem_of_filter. split; [by apply not_false_is_true|done]. }
  eapply eased_trans; [exact E1|]. eapply eased_trans; [exact E2|]. apply eased_marks; try done; [apply E2|..].
  - cbn. destruct (last_batch x) as [l|]; [|done]. cbn. f_equal. unfold unmark_launched. cbn [set_batch lb_batch].
    by rewrite unmark_marked_batch.
  - apply unmark_marked_batch.
  - cbn. destruct (chunked_req x) as [c|]; [|done]. cbn. f_equal. unfold mark_abort. repeat case_match; done.
Qed.

(** The request between two chunks leaves with its KV. *)

Lemma merge_last_no_chunk x : chunk_launched x → merge_last None (last_batch x) (running_batch x) =
  merge_last (chunked_req x) (last_batch x) (running_batch x).
Proof.
  intros Hcl. destruct (chunked_req x) as [c|] eqn:Hc; [|done]. destruct (Hcl (brid c)) as (l & -> & Hl); [by rewrite Hc|].
  cbn [merge_last]. rewrite Hl. cbn [fmap option_fmap option_map option_list app].
  assert (Hk : ∀ rs, default_keep [brid c] rs = default_keep [brid c; brid c] rs).
  { intros rs. unfold default_keep. apply list_filter_iff. intros i. unfold stays. destruct (rs !! i); [|done].
    assert (bool_decide (rid (sreq b) ∈ [brid c; brid c]) = bool_decide (rid (sreq b) ∈ [brid c])) as ->; [|done].
    apply bool_decide_ext. set_solver. }
  assert (Hf : ∀ b, filter_batch [brid c] None b = filter_batch [brid c; brid c] None b).
  { intros b. unfold filter_batch. cbn [default from_option]. by rewrite Hk. }
  unfold merge_last_batch. by rewrite Hf.
Qed.

Lemma drop_marker_eased id x : inv x → eased x (drop_marker id x).
Proof. intros Hi. unfold drop_marker. repeat case_match; (by apply eased_pending) || (by apply eased_refl). Qed.

Lemma process_pending_chunked_abort_ok x : inv x →
  ∃ x', process_pending_chunked_abort cfg sc x = Ok x' ∧ eased x x'.
Proof.
  intros Hi. unfold process_pending_chunked_abort. destruct (pending_chunked_abort_req x) as [id|]; [|eexists; split; [done|by apply eased_refl]].
  destruct (chunked_req x) as [c|] eqn:Hc; [|eexists; split; [done|by apply drop_marker_eased]].
  case_bool_decide as Hid; [|eexists; split; [done|by apply drop_marker_eased]]. subst id.
  destruct Hi as (b & last & Hm & Hi & Hcl). pose proof Hi as [[Hcols Hcore Hrd Hbt] Hib Hlv Hq Hids Hk Hrt Hpo Hcx Hsz Hop Hde].
  cbn [set_running sys running_batch chunked_req waiting_queue new_token_ratio_tracker sched_policy] in *.
  rewrite Hc in Hcore, Hids, Hk. cbn [option_list fmap list_fmap] in Hcore. apply Forall_cons in Hk as [[Hck _ _ _] _].
  assert (Hcore1 : serve_core cfg S0 (sys x) (bkv c :: (bkv <$> filter running (reqs b))) []).
  { by rewrite Permutation_app_comm in Hcore. }
  pose proof (sv_run _ _ _ _ _ Hcore1) as Hrun. apply Forall_cons in Hrun as [[[i Hrow] _ _ [Hf1 _] _ _ _] _].
  rewrite Hrow, Hf1. cbn [andb negb]. unfold spec_on. rewrite (pv_spec _ _ _ Hpv).
  destruct (serve_release cfg (pv_cache _ _ _ Hpv) (pv_page _ _ _ Hpv) S0 (sys x) (bkv c) (bkv <$> filter running (reqs b)) [] false Hcore1)
    as (s & -> & Hcore2 & Hfr & _ & Hdim).
  { pose proof (ck_left _ _ _ _ Hck). lia. }
  py_run. eexists. split; [done|].
  assert (Hm' : merge_last None (last_batch x) (running_batch x) = Ok (b, last)) by (by rewrite merge_last_no_chunk, Hm).
  split; [| | | |done].
  - exists b, last. split; [exact Hm'|]. split; [|by intros id].
    split; cbn [set_running send_aborts set_pending set_chunked set_sys sys running_batch chunked_req waiting_queue new_token_ratio_tracker sched_policy]; try done.
    + split; [done|by rewrite app_nil_r|by eapply frees_ready|done].
    + rewrite !fmap_app in *. eapply submseteq_NoDup; [|exact Hids]. apply submseteq_app; [done|]. cbn [option_list fmap list_fmap app].
      by apply submseteq_cons.
    + by rewrite (dims_ctx _ _ Hdim).
    + by rewrite (dims_size _ _ Hdim).
  - unfold held_rids. rewrite Hm. cbn [send_aborts set_pending set_chunked set_sys last_batch running_batch chunked_req sent_aborts]. rewrite Hm'.
    unfold mid_rids. cbn [set_running send_aborts set_pending set_chunked set_sys running_batch chunked_req waiting_queue]. rewrite Hc, !fmap_app.
    intros id'. rewrite !elem_of_app. cbn. rewrite !list_elem_of_singleton, !elem_of_nil. tauto.
  - unfold held_load. rewrite Hm. cbn [send_aborts set_pending set_chunked set_sys last_batch running_batch chunked_req]. rewrite Hm'.
    unfold load. cbn [set_running send_aborts set_pending set_chunked set_sys running_batch chunked_req waiting_queue]. rewrite Hc.
    destruct Hck as [[_ _ Hout _ _ _] _ _ Hleft _ _].
    assert (Htl : 0 ≤ tokens_left c) by (unfold tokens_left; lia).
    assert (Hcl0 : 0 ≤ chunk_left c) by (unfold chunk_left, input_len; lia). clear -Htl Hcl0.
    change (option_list (Some c)) with [c]. change (option_list None) with (@nil BReq).
    apply load_both; cbn [fst snd]; rewrite ?weigh_app, ?weigh_cons, ?weigh_nil; lia.
  - unfold busy. rewrite Hm. cbn [send_aborts set_pending set_chunked set_sys last_batch running_batch chunked_req]. by rewrite Hm'.
Qed.
End marks.
