(* ===== verification/LaunchInv.v ===== *)
(** Launching a prefill batch: the batch the admission pass has built gets its slots, and
    whatever tokens the forward pass yields, the results leave the scheduler in order and
    the self checks find nothing. *)

From stdpp Require Import base gmap strings list relations.
From Stdlib Require Import ZArith QArith Lia Lqa.
From S2P Require Import Prelude.
From S2P Require Import PyData.
From S2P Require Import RadixKey.
From S2P Require Import RadixTree.
From S2P Require Import RadixInv.
From S2P Require Import RadixContent.
From S2P Require Import RadixOps.
From S2P Require Import RadixInsert.
From S2P Require Import RadixEvict.
From S2P Require Import RadixSession.
From S2P Require Import ReqCache.
From S2P Require Import ReqCacheInv.
From S2P Require Import ReqAlloc.
From S2P Require Import ReqLife.
From S2P Require Import BatchAlloc.
From S2P Require Import Delayer.
From S2P Require Import PrefillAdder.
From S2P Require Import ScheduleBatch.
From S2P Require Import BatchInv.
From S2P Require Import ServeInv.
From S2P Require Import ServeOps.
From S2P Require Import Room.
From S2P Require Import ExtendInv.
From S2P Require Import MemCheck.
From S2P Require Import RatioInv.
From S2P Require Import DecodeInv.
From S2P Require Import ResultInv.
From S2P Require Import ServeLoop.
From S2P Require Import PrefillAdderInv.
From S2P Require Import PassInv.
From S2P Require Import SchedulePolicy.
From S2P Require Import SchedulePolicyInv.
From S2P Require Import Scheduler.
From S2P Require Import Load.
From S2P Require Import QueueInv.
From S2P Require Import SchedulerInv.

Open Scope Z_scope.

Section launch.
Context {A : Type} `{KVPool A} `{!KVPoolTotal A} `{!KVPoolSlots A} `{KVAlloc A} `{!KVAllocLaws A} `{KVPaged A}.
Context `{KVGroup A} `{!KVGroupLaws A} `{KVFreeList A} `{!KVFreeListLaws A} `{Env} `{!EnvLaws} `{HeapQ} `{!HeapQLaws}.
Variables (cfg : Config) (sc : SchedCfg) (gather : Delayer.Info → list Delayer.Info).
Hypothesis Hpv : plain_server cfg sc gather.
Variables (S0 : list Z) (ctx : nat).
Hypothesis Hnd : NoDup S0.
Hypothesis Htotal : max_total_num_tokens sc = Z.of_nat (length S0).
Variable verdict : nat → BReq → bool.
Hypothesis Hstop : ∀ n r, verdict n r = false → output_len (sreq r) < max_new_tokens (sreq r).
Notation prio := (priority_scheduling_on sc).
Notation pool := (max_total_num_tokens sc).
Notation Hdis := (pv_cache _ _ _ Hpv).
Notation Hps1 := (pv_page _ _ _ Hpv).
Implicit Types (x : Scheduler A) (s : Sys A).

(** ** Counting chunks *)

(** Only the number of chunks under way differs. *)
Definition chunks_up (r r' : Req) : Prop :=
  r' = with_output (output_ids r) (inflight_middle_chunks r') r ∧
  (0 < inflight_middle_chunks r → 0 < inflight_middle_chunks r').

Lemma chunks_up_fields {B} (f : Req → B) l l' :
  (∀ r n, f (with_output (output_ids r) n r) = f r) → Forall2 chunks_up l l' → f <$> l' = f <$> l.
Proof.
  intros Hf. induction 1 as [|r r' l l' [Hr _] _ IH]; [done|]. csimpl. rewrite IH. f_equal. rewrite Hr. apply Hf.
Qed.

Lemma serve_chunks_up s run ready ready' :
  Forall2 chunks_up ready ready' → serve_core cfg S0 s run ready →
  serve_core cfg S0 s run ready' ∧ taken s run ready' = taken s run ready.
Proof.
  intros Hf [Hw Hs Hp Ht Hrun Hready].
  assert (Hn : omap last_node (run ++ ready') = omap last_node (run ++ ready)).
  { apply omap_via. by rewrite !fmap_app, (chunks_up_fields last_node _ _ ltac:(done) Hf). }
  split.
  - split; try done.
    + by rewrite Hn.
    + by rewrite (chunks_up_fields ready_owned _ _ ltac:(done) Hf).
    + unfold pool_inv, rows_of in *. erewrite omap_via; [exact Hp|].
      by rewrite !fmap_app, (chunks_up_fields req_pool_idx _ _ ltac:(done) Hf).
    + clear -Hf Hready. induction Hf as [|r r' l l' [Hr Hc] _ IH]; [done|]. apply Forall_cons in Hready as [[stop Hrd] Hl].
      constructor; [|auto]. exists stop. destruct Hrd as [? ? ? ? ? ? Hre]. rewrite Hr. split; try done.
      intros Hi. destruct (Hre Hi) as [?|?]; [left; cbn; auto|by right].
  - unfold taken. by rewrite (chunks_up_fields ready_share _ _ ltac:(done) Hf).
Qed.

(** ** What becomes of a request *)

(** A request of the batch: [inflight_middle_chunks] tells whether more chunks follow. *)
Record launching s (r : BReq) : Prop := {
  lc_ready : ready_ok cfg (cache s) (bkv r) (stop_of (bkv r));
  lc_running : running r;
  lc_skip : skip_radix_cache_insert (bkv r) = false;
  lc_fits : Z.of_nat (length (origin_input_ids (bkv r))) + max_new_tokens (sreq r) ≤ Z.of_nat ctx;
  lc_pool : Z.of_nat (length (origin_input_ids (bkv r))) + max_new_tokens (sreq r) + 1 < pool;
  lc_output : output_len (sreq r) ≤ max_new_tokens (sreq r);
  lc_priority : prio = true → is_Some (req_priority (bkv r));
  lc_chunks : inflight_middle_chunks (bkv r) = 0 ∨ inflight_middle_chunks (bkv r) = 1;
}.

Lemma launching_stop s r : launching s r → (stop_of (bkv r) ≤ ctx)%nat.
Proof.
  intros [Hrd _ _ Hf _ Ho _ _]. destruct (rd_stop _ _ _ _ Hrd) as [_ [_ Hle]]. unfold all_ids in Hle. rewrite length_app in Hle.
  unfold output_len in Ho. change (kv (sreq r)) with (bkv r) in *. lia.
Qed.

(** Behind [prepare_for_extend], the forward pass and [process_batch_result_prefill]. *)
Record outcome (r r' : BReq) : Prop := {
  oc_rid : brid r' = brid r;
  oc_tidy : tidy ctx r';
  oc_gone : ¬ running r' → req_pool_idx (bkv r') = None;
  oc_lively : inflight_middle_chunks (bkv r) = 0 → running r' → lively sc ctx r';
  oc_tokens : inflight_middle_chunks (bkv r) = 0 → tokens_left r' + 1 = tokens_left r;
  oc_same : inflight_middle_chunks (bkv r) = 1 → tokens_left r' = tokens_left r;
  oc_max_new : max_new_tokens (sreq r') = max_new_tokens (sreq r);
  oc_chunk : inflight_middle_chunks (bkv r) = 1 →
    running r' ∧ decent prio ctx pool (sreq r') ∧ all_ids (bkv r') = all_ids (bkv r) ∧
    full_untruncated_fill_ids (bkv r') = all_ids (bkv r) ∧ kv_committed_len (bkv r') = stop_of (bkv r) ∧
    extend_range (bkv r') = extend_range (bkv r) ∧ prefix_indices (bkv r') = prefix_indices (bkv r);
}.

Lemma prefill_outcome s r p t r' :
  launching s r → extended_from r p → prefill_result verdict false t p r' → outcome r r'.
Proof.
  intros Hl [[Hrid Hfin _ _ _ _ Hmax] Hlv Hkv].
  assert (∃ i, bkv p = extended (stop_of (bkv r)) (with_pool_idx i (bkv r))) as [i Hkv'] by eauto. clear Hkv. rename Hkv' into Hkv. pose proof (launching_stop _ _ Hl) as Hctx.
  destruct Hl as [[Hrg Hst Hfill [Hf1 Hf2] _ _ _] Hrn Hsk Hfits Hpool Hout Hpr Hch]. unfold prefill_result. cbv zeta.
  assert (Hc : inflight_middle_chunks (bkv p) = inflight_middle_chunks (bkv r)) by (by rewrite Hkv).
  assert (Hids : output_ids (bkv p) = output_ids (bkv r)) by (by rewrite Hkv).
  rewrite decide_False by (rewrite Hlv, Hfin; intros [?|[? _]]; [done|]; unfold running in Hrn; congruence).
  set (r1 := append_tokens verdict [t] p).
  assert (Ht1 : tidy ctx r1).
  { split; unfold r1; rewrite append_tokens_kv, Hkv; cbn; by rewrite ?Hf1, ?Hf2. }
  assert (Hl1 : is_finished (sreq r1) = false → inflight_middle_chunks (bkv r) = 0 → lively sc ctx r1).
  { intros Hn Hz0. unfold r1, append_tokens in Hn. cbn [with_sreq with_finished is_finished sreq] in Hn.
    apply orb_false_iff in Hn as [_ Hv]. apply Hstop in Hv.
    assert (Hlt : output_len (sreq r1) < max_new_tokens (sreq r1)) by exact Hv.
    assert (Hk1 : kv (sreq r1) = with_output (output_ids (bkv r) ++ [t]) 0 (bkv p)).
    { change (kv (sreq r1)) with (bkv r1). unfold r1. by rewrite append_tokens_kv, Hids, Hc, Hz0. }
    assert (Hm1 : max_new_tokens (sreq r1) = max_new_tokens (sreq r)) by exact Hmax.
    split; [|done]. split; [..|clear -Hlt; lia| | |]; rewrite ?Hm1, Hk1, ?Hkv; done. }
  assert (Hm1 : max_new_tokens (sreq r1) = max_new_tokens (sreq r)) by exact Hmax.
  assert (Htok : tokens_left r1 + 1 = tokens_left r).
  { unfold tokens_left. rewrite Hm1. unfold output_len. change (kv (sreq r1)) with (bkv r1). unfold r1.
    rewrite append_tokens_kv. cbn. rewrite Hids, length_app. change (kv (sreq r)) with (bkv r). cbn. lia. }
  rewrite Hc. destruct Hch as [Hz0|Hz1].
  - rewrite decide_False by lia. rewrite (ltac:(by rewrite Hkv) : skip_radix_cache_insert (bkv p) = false). cbn [orb].
    destruct (is_finished (sreq r1)) eqn:Hn.
    + intros ->. split; [exact Hrid| |done| |intros _; exact Htok|intros Hx; lia|exact Hm1|intros Hx; lia].
      * destruct Ht1 as [T1 T2 T3 T4]. split; try done. intros [? [=]].
      * intros _ Hx. change (is_finished (sreq r1) = false) in Hx. congruence.
    + intros (kv' & n & y & ->). split; [exact Hrid| | | |intros _; exact Htok|intros Hx; lia|exact Hm1|intros Hx; lia].
      * destruct Ht1 as [T1 T2 T3 T4]. by split.
      * intros Hx. by destruct Hx.
      * intros _ _. destruct (Hl1 eq_refl Hz0) as [Hd Ho]. split; [|done]. eapply decent_kin; [|exact Hd]. by split.
  - rewrite decide_True by lia. intros ->. set (r' := with_bkv _ p).
    assert (Hk2 : kv (sreq r') = with_output (output_ids (bkv r)) 0 (bkv p)).
    { change (kv (sreq r')) with (bkv r'). unfold r'. by rewrite <-Hids, Hz1. }
    assert (Hm2 : max_new_tokens (sreq r') = max_new_tokens (sreq r)) by exact Hmax.
    assert (Hrn2 : running r') by (unfold running; change (is_finished (sreq p) = false); by rewrite Hfin).
    split.
    + exact Hrid.
    + split; change (bkv r') with (kv (sreq r')); rewrite Hk2, Hkv; cbn; by rewrite ?Hf1, ?Hf2.
    + intros Hx. by destruct Hx.
    + intros Hx. lia.
    + intros Hx. lia.
    + intros _. unfold tokens_left, output_len. by rewrite Hm2, Hk2.
    + exact Hm2.
    + intros _. split; [done|]. split; [split; unfold output_len; rewrite ?Hm2, Hk2, Hkv; done|].
      change (bkv r') with (kv (sreq r')). rewrite Hk2, Hkv. by split_and!.
Qed.

(** ** The launch *)

(** [req.inflight_middle_chunks += 1] for the request that is chunked. *)
Definition bumped (c : option BReq) (r : BReq) : BReq :=
  if bool_decide (brid <$> c = Some (brid r)) then bump_chunks r else r.

Definition new_slots (rs : list BReq) : Z := b_extend_num_tokens (extend_batch (bkv <$> rs) (stops_of rs)).

(** The state and the batch in front of [prepare_for_extend]. *)
Record launch_inv x (rs : list BReq) : Prop := {
  li_ready : decode_ready cfg S0 (sys x) (running_batch x) [] (bkv <$> rs);
  li_batch : Forall (in_batch ctx) (reqs (running_batch x));
  li_lively : Forall (lively sc ctx) (filter running (reqs (running_batch x)));
  li_queue : Forall (λ r, queued prio ctx pool (sreq r)) (waiting_queue x);
  li_ids : NoDup (brid <$> waiting_queue x ++ rs ++ filter running (reqs (running_batch x)));
  li_reqs : Forall (λ r, decent prio ctx pool (sreq r) ∧ running r) rs;
  li_rows : (fresh_reqs (bkv <$> rs) ≤ pool_available_size (req_to_token_pool (sys x)))%nat;
  li_room : new_slots rs ≤ room (sys x);
  li_whole : Forall (λ r, brid <$> chunked_req x ≠ Some (brid r) → stop_of (bkv r) = length (all_ids (bkv r))) rs;
  li_chunk : ∀ c, chunked_req x = Some c → c ∈ rs ∧
    (length (prefix_indices (bkv c)) < stop_of (bkv c) < length (all_ids (bkv c)))%nat ∧
    new_slots rs + Z.of_nat (length (all_ids (bkv c)) - stop_of (bkv c)) + 1 < room (sys x) ∧
    is_Some (chunked_prefill_size sc);
  li_ratio : tracker_ok (new_token_ratio_tracker x);
  li_policy : enable_priority_scheduling (sched_policy x) = prio;
  li_ctx : max_context_len (req_to_token_pool (sys x)) = ctx;
  li_size : (0 < rp_size (req_to_token_pool (sys x)))%nat;
  li_some : rs ≠ [];
  li_decodes : is_prefill_only (flags (running_batch x)) = true → filter running (reqs (running_batch x)) = [];
}.

(** The load in front of the launch; a request of the batch has the input behind its
    cached prefix to compute. *)
Definition rest_left (r : BReq) : Z := input_len r - Z.of_nat (length (prefix_indices (bkv r))) + 1.
Definition launch_load x (rs : list BReq) : Z * Z :=
  (weigh tokens_left (waiting_queue x ++ rs ++ filter running (reqs (running_batch x))),
   weigh input_left (waiting_queue x) + weigh rest_left rs).

(** The requests due are held, aborted, or finished in the batch, and the load is lighter. *)
Definition settled (U : Due) (l : Launched) x : Prop :=
  (∀ id, id ∈ due_ids U → id ∈ held_rids x ∨ id ∈ sent_aborts x ∨ id ∈ brid <$> filter (λ r, ¬ running r) (reqs (lb_batch l))) ∧
  load_lt (held_load x) (due_load U).

(** Whatever the forward pass yields, the iteration ends well. *)
Definition good_launch (U : Due) (l : Launched) x : Prop :=
  ∀ toks, length toks = length (reqs (lb_batch l)) →
    ∃ l' x', process_batch_result cfg sc verdict l toks x = Ok (l', x') ∧
      sched_inv cfg sc S0 ctx (set_last (Some l') x') ∧ busy_check cfg sc (set_last (Some l') x') = Ok tt ∧
      settled U l' (set_last (Some l') x').

Lemma bumped_up c (rs : list BReq) : Forall (λ r, inflight_middle_chunks (bkv r) = 0) rs →
  Forall2 chunks_up (bkv <$> rs) (bkv <$> (bumped c <$> rs)).
Proof.
  induction 1 as [|r rs Hr _ IH]; [constructor|]. csimpl. constructor; [|done]. unfold bumped. case_bool_decide.
  - split; [done|]. change (0 < inflight_middle_chunks (bkv r) → 0 < inflight_middle_chunks (bkv r) + 1). lia.
  - split; [|done]. by destruct (bkv r).
Qed.

Lemma bumped_new_slots c rs : new_slots (bumped c <$> rs) = new_slots rs.
Proof.
  unfold new_slots, extend_batch, stops_of. cbn [b_extend_num_tokens]. do 2 f_equal.
  induction rs as [|r rs IH]; [done|]. csimpl. rewrite IH. unfold bumped. by case_bool_decide.
Qed.

Lemma bumped_brid c (rs : list BReq) : brid <$> (bumped c <$> rs) = brid <$> rs.
Proof. rewrite <-list_fmap_compose. apply list_fmap_ext. intros i r _. cbn. unfold bumped. by case_bool_decide. Qed.

Lemma bumped_fresh c (rs : list BReq) : fresh_reqs (bkv <$> (bumped c <$> rs)) = fresh_reqs (bkv <$> rs).
Proof.
  unfold fresh_reqs. induction rs as [|r rs IH]; [done|]. csimpl. rewrite !filter_cons.
  assert (req_pool_idx (bkv (bumped c r)) = req_pool_idx (bkv r)) as -> by (unfold bumped; by case_bool_decide).
  case_decide; cbn; by rewrite IH.
Qed.

(** The requests of the batch, with the chunk counted. *)
Lemma launching_bumped x rs :
  launch_inv x rs → Forall (λ r, launching (sys x) (bumped (chunked_req x) r) ∧
    inflight_middle_chunks (bkv (bumped (chunked_req x) r)) = (if bool_decide (brid <$> chunked_req x = Some (brid r)) then 1 else 0)) rs.
Proof.
  intros Hi. pose proof (sv_ready _ _ _ _ _ (dr_core _ _ _ _ _ _ (li_ready _ _ Hi))) as Hrd. rewrite Forall_fmap in Hrd.
  apply Forall_forall. intros r Hr. pose proof (li_reqs _ _ Hi) as Hd. rewrite Forall_forall in Hrd, Hd.
  destruct (Hrd r Hr) as [stop Hrr]. destruct (Hd r Hr) as [[D1 D2 D3 D4 D5 D6] Hrn]. pose proof (ready_stop _ _ _ _ Hrr) as Hst.
  rewrite <-Hst in Hrr. change (kv (sreq r)) with (bkv r) in *. unfold bumped. case_bool_decide.
  - split; [|change (inflight_middle_chunks (bkv r) + 1 = 1); lia]. split; try done.
    + destruct Hrr as [? ? ? ? ? ? Hre]. split; try done. intros Hi2. left. cbn. lia.
    + right. change (inflight_middle_chunks (bkv r) + 1 = 1). lia.
  - split; [|done]. split; try done. by left.
Qed.

Lemma outcomes s rs ps toks rs' :
  Forall (launching s) rs → Forall2 extended_from rs ps → length toks = length ps →
  Forall2 (λ '(r, t) r', prefill_result verdict false t r r') (zip ps toks) rs' → Forall2 outcome rs rs'.
Proof.
  intros Hl He. revert toks rs'. induction He as [|r p rs ps Hp _ IH]; intros [|t toks] rs' Hlen Hf; try done.
  { apply Forall2_nil_inv_l in Hf as ->. constructor. }
  apply Forall_cons in Hl as [Hr Hl]. apply Forall2_cons_inv_l in Hf as (r' & rs'' & Hres & Hf & ->).
  constructor; [by eapply prefill_outcome|]. eapply IH; [done| |done]. by injection Hlen.
Qed.

(** The requests left out of the merge: the chunked one. *)
Definition left_out x : list string := option_list (brid <$> chunked_req x) ++ option_list (brid <$> chunked_req x).

Lemma elem_left_out x id : id ∈ left_out x ↔ brid <$> chunked_req x = Some id.
Proof. unfold left_out. destruct (chunked_req x) as [c|]; cbn; set_solver. Qed.

(** The chunked request behind the results. *)
Definition chunk_after x (rs' : list BReq) : option BReq :=
  (λ c, default c (find_req (brid c) rs')) <$> (bump_chunks <$> chunked_req x).

Lemma filter_singleton (l : list BReq) c (ids : list string) :
  NoDup (brid <$> l) → c ∈ l → (∀ id, id ∈ ids ↔ id = brid c) → filter (λ r, rid (sreq r) ∈ ids) l = [c].
Proof.
  intros Hl Hc Hids. induction l as [|r l IH]; [by apply elem_of_nil in Hc|]. csimpl in Hl. apply NoDup_cons in Hl as [Hr Hl].
  rewrite filter_cons. apply elem_of_cons in Hc as [->|Hc].
  - rewrite decide_True by (by apply Hids). f_equal. apply filter_none. intros y Hb Hy. apply Hids in Hy.
    apply Hr. change (rid (sreq y)) with (brid y) in Hy. rewrite <-Hy. apply list_elem_of_fmap. eauto.
  - rewrite decide_False; [by apply IH|]. intros Hx%Hids. apply Hr. change (rid (sreq r)) with (brid r) in Hx.
    rewrite Hx. apply list_elem_of_fmap. eauto.
Qed.

Lemma outcome_brid rs rs' : Forall2 outcome rs rs' → brid <$> rs' = brid <$> rs.
Proof. induction 1 as [|r r' l l' Hr _ IH]; [done|]. csimpl. by rewrite IH, (oc_rid _ _ Hr). Qed.

Lemma chunk_result x rs rs' :
  launch_inv x rs → Forall2 outcome (bumped (chunked_req x) <$> rs) rs' →
  filter (λ r, rid (sreq r) ∈ left_out x) rs' = option_list (chunk_after x rs') ∧
  brid <$> chunk_after x rs' = brid <$> chunked_req x ∧
  ∀ c', chunk_after x rs' = Some c' → c' ∈ rs' ∧ ∃ c, chunked_req x = Some c ∧ outcome (bump_chunks c) c'.
Proof.
  intros Hi Ho. unfold chunk_after.
  pose proof (outcome_brid _ _ Ho) as Hb. rewrite bumped_brid in Hb.
  pose proof (li_ids _ _ Hi) as Hids. rewrite !fmap_app in Hids. apply NoDup_app in Hids as (_ & _ & Hids).
  apply NoDup_app in Hids as (Hids & _ & _).
  destruct (chunked_req x) as [c|] eqn:Hc; cbn [fmap option_fmap option_map default].
  2:{ split_and!; [|done|done]. apply filter_none. intros r _ Hr. apply elem_left_out in Hr. by rewrite Hc in Hr. }
  destruct (li_chunk _ _ Hi c Hc) as [Hin _].
  apply list_elem_of_lookup in Hin as [i Hin].
  destruct (Forall2_lookup_l _ _ _ i (bumped (Some c) c) Ho) as (c' & Hc' & Hoc); [by rewrite list_lookup_fmap, Hin|].
  unfold bumped in Hoc. rewrite bool_decide_eq_true_2 in Hoc by done. pose proof (oc_rid _ _ Hoc) as Hrid.
  change (brid (bump_chunks c)) with (brid c) in *. apply list_elem_of_lookup_2 in Hc'.
  assert (find_req (brid c) rs' = Some c') as Hfind.
  { rewrite <-Hrid. apply find_req_self; [|done]. by rewrite Hb. }
  rewrite Hfind. cbn [default]. split_and!.
  - apply filter_singleton; [by rewrite Hb|done|]. intros id. rewrite elem_left_out, Hc. cbn. rewrite Hrid. naive_solver.
  - cbn. by rewrite Hrid.
  - intros ? [= <-]. eauto.
Qed.

(** What the others of the batch are, behind the results. *)
Lemma others_lively x rs rs' r' :
  launch_inv x rs → Forall2 outcome (bumped (chunked_req x) <$> rs) rs' → r' ∈ rs' →
  tidy ctx r' ∧ (¬ running r' → req_pool_idx (bkv r') = None) ∧
  (rid (sreq r') ∉ left_out x → running r' → lively sc ctx r') ∧ (rid (sreq r') ∈ left_out x → running r').
Proof.
  intros Hi Ho [i Hr']%list_elem_of_lookup. destruct (Forall2_lookup_r _ _ _ _ _ Ho Hr') as (r0 & Hr0 & Hoc).
  rewrite list_lookup_fmap in Hr0. destruct (rs !! i) as [r|] eqn:Hr; [|done]. injection Hr0 as <-.
  destruct (Forall_lookup_1 _ _ _ _ (launching_bumped _ _ Hi) Hr) as [_ Hch].
  pose proof Hoc as [Hrid Htd Hg Hlv _ _ _ Hck]. split_and!; [done..| |].
  - intros Hx. apply Hlv. rewrite Hch, bool_decide_eq_false_2; [done|]. intros E. apply Hx, elem_left_out. rewrite E.
    f_equal. change (rid (sreq r')) with (brid r'). rewrite Hrid. unfold bumped. by case_bool_decide.
  - intros Hx%elem_left_out. apply Hck. rewrite Hch, bool_decide_eq_true_2; [done|]. rewrite Hx.
    f_equal. change (rid (sreq r')) with (brid r'). rewrite Hrid. unfold bumped. by case_bool_decide.
Qed.

Lemma split_running (ex : list string) (l : list BReq) :
  (∀ r, r ∈ l → rid (sreq r) ∈ ex → running r) →
  filter running l ≡ₚ filter (kept_in_batch ex) l ++ filter (λ r, rid (sreq r) ∈ ex) l.
Proof.
  induction l as [|r l IH]; intros Hl; [done|]. rewrite !filter_cons.
  assert (kept_in_batch ex r ↔ running r ∧ rid (sreq r) ∉ ex) as Hk by done.
  assert (rid (sreq r) ∈ ex → running r) by (apply Hl; set_solver).
  assert (filter running l ≡ₚ filter (kept_in_batch ex) l ++ filter (λ r, rid (sreq r) ∈ ex) l) as IH' by (apply IH; set_solver).
  repeat case_decide; try tauto; rewrite IH'; [done|by rewrite Permutation_middle].
Qed.

Lemma computed_after x rs rs' s2 c' :
  launch_inv x rs → Forall2 outcome (bumped (chunked_req x) <$> rs) rs' → chunk_after x rs' = Some c' →
  room (sys x) - new_slots rs ≤ room s2 → computed sc ctx s2 c'.
Proof.
  intros Hi Ho Hc' Hroom. destruct (chunk_result _ _ _ Hi Ho) as (_ & _ & Hch). destruct (Hch _ Hc') as (_ & c & Hc & Hoc).
  destruct (li_chunk _ _ Hi c Hc) as (Hin & Hlt & Hr & Hsz).
  pose proof (launching_bumped _ _ Hi) as Hall. rewrite Forall_forall in Hall. destruct (Hall c Hin) as [Hlc Hn].
  unfold bumped in Hlc, Hn. rewrite Hc, bool_decide_eq_true_2 in Hlc, Hn by done.
  destruct (oc_chunk _ _ Hoc Hn) as (Hrn & Hd & Hids & Hfi & Hcl & Hrg & Hpi).
  change (stop_of (bkv (bump_chunks c))) with (stop_of (bkv c)) in *.
  change (prefix_indices (bkv (bump_chunks c))) with (prefix_indices (bkv c)) in *.
  change (all_ids (bkv (bump_chunks c))) with (all_ids (bkv c)) in *.
  split; [split|..].
  - done.
  - done.
  - intros _. left. change (origin_input_ids (bkv c') ++ output_ids (bkv c')) with (all_ids (bkv c')). by rewrite Hfi, Hids.
  - rewrite Hcl, Hids. lia.
  - rewrite Hcl, Hids. lia.
  - done.
  - congruence.
  - rewrite Hrg, Hcl, Hpi. apply (rd_range _ _ _ _ (lc_ready _ _ Hlc)).
  - rewrite Hcl, Hpi. lia.
Qed.

(** ** The load behind the launch *)

Lemma merged_open ex last b b' :
  merge_last_batch ex last b = Ok b' → reqs last ≠ [] → reqs b' = [] → batch_is_full b' = false.
Proof.
  unfold merge_last_batch. intros Hm Hne He. destruct (filter_batch ex None last) as [x|]; [|done]. cbn [rbind] in Hm.
  unfold is_empty, batch_size in Hm. destruct (Nat.eqb_spec (length (reqs x)) 0) as [Hz|Hz].
  - inv_ok. destruct (Nat.ltb_spec (length (reqs x)) (length (reqs last))) as [|Hge]; [done|].
    destruct (reqs last); [done|]. cbn in Hge. lia.
  - destruct (Nat.eqb_spec (length (reqs (if (length (reqs x) <? length (reqs last))%nat then set_full false b else b))) 0).
    + inv_ok. by rewrite He in Hz.
    + unfold merge_batch in Hm. inv_ok. cbn in He. apply app_nil in He as [_ He]. by rewrite He in Hz.
Qed.

Lemma merged_reqs ex last b b' :
  merge_last_batch ex last b = Ok b' → ∃ l, filter_batch ex None last = Ok l ∧ reqs b' = reqs b ++ reqs l.
Proof.
  unfold merge_last_batch. intros Hm. destruct (filter_batch ex None last) as [l|]; [|done]. cbn [rbind] in Hm. exists l.
  split; [done|]. unfold is_empty in Hm.
  assert (∀ c : bool, reqs (if c then set_full false b else b) = reqs b) as Hc by (by intros []). rewrite Hc in Hm.
  destruct (Nat.eqb_spec (length (reqs l)) 0) as [Hz|Hz].
  { apply nil_length_inv in Hz. inv_ok. by rewrite Hc, Hz, app_nil_r. }
  destruct (Nat.eqb_spec (length (reqs b)) 0) as [Hz1|Hz1].
  { apply nil_length_inv in Hz1. inv_ok. by rewrite Hz1. }
  unfold merge_batch in Hm. inv_ok. cbn. by rewrite Hc.
Qed.

Lemma merged_flags ex last b b' l :
  merge_last_batch ex last b = Ok b' → filter_batch ex None last = Ok l → is_prefill_only (flags b') = true →
  (reqs b = [] ∨ is_prefill_only (flags b) = true) ∧ (reqs l = [] ∨ is_prefill_only (flags last) = true).
Proof.
  unfold merge_last_batch. intros Hm Hf He. rewrite Hf in Hm. cbn [rbind] in Hm.
  destruct (filter_keep_flags _ _ _ Hf) as [Hfl _]. unfold is_empty in Hm.
  assert (∀ c : bool, flags (if c then set_full false b else b) = flags b ∧ reqs (if c then set_full false b else b) = reqs b) as Hc by (by intros []).
  destruct (Hc (batch_size l <? batch_size last)%nat) as [Hc1 Hc2].
  destruct (Nat.eqb_spec (length (reqs l)) 0) as [Hz|Hz].
  { apply nil_length_inv in Hz. inv_ok. rewrite Hc1 in He. auto. }
  rewrite Hc2 in Hm. destruct (Nat.eqb_spec (length (reqs b)) 0) as [Hz1|Hz1].
  { apply nil_length_inv in Hz1. inv_ok. rewrite Hfl in He. auto. }
  unfold merge_batch in Hm. inv_ok. cbn [flags merge_flags is_prefill_only] in He. rewrite Hc1 in He.
  apply andb_true_iff in He as [? He]. rewrite Hfl in He. auto.
Qed.

(** Every request but the chunked one has a token less to go. *)
Lemma tokens_drop c rs rs' :
  Forall (λ r, 1 ≤ tokens_left r ∧
    inflight_middle_chunks (bkv (bumped c r)) = (if bool_decide (brid <$> c = Some (brid r)) then 1 else 0)) rs →
  Forall2 outcome (bumped c <$> rs) rs' →
  weigh tokens_left (filter running rs') + Z.of_nat (length (filter (λ r, brid <$> c ≠ Some (brid r)) rs)) ≤ weigh tokens_left rs.
Proof.
  intros Hrs. revert rs'. induction Hrs as [|r rs [Hr Hn] _ IH]; intros rs' Ho.
  { by apply Forall2_nil_inv_l in Ho as ->. }
  csimpl in Ho. apply Forall2_cons_inv_l in Ho as (r' & rs'' & Hoc & Ho & ->). specialize (IH rs'' Ho).
  assert (Hb : tokens_left (bumped c r) = tokens_left r) by (unfold bumped; by case_bool_decide).
  rewrite !filter_cons, weigh_cons. case_bool_decide as Hc.
  - pose proof (oc_same _ _ Hoc Hn) as Ht. rewrite (decide_False (P := brid <$> c ≠ Some (brid r))) by (intros []; done).
    case_decide; rewrite ?weigh_cons; lia.
  - pose proof (oc_tokens _ _ Hoc Hn) as Ht. rewrite (decide_True (P := brid <$> c ≠ Some (brid r))) by done.
    case_decide; rewrite ?weigh_cons; cbn [length]; lia.
Qed.

Lemma only_chunk x rs c :
  launch_inv x rs → chunked_req x = Some c → filter (λ r, brid <$> chunked_req x ≠ Some (brid r)) rs = [] → rs = [c].
Proof.
  intros Hi Hc Hf. pose proof (li_ids _ _ Hi) as Hids. rewrite !fmap_app in Hids. apply NoDup_app in Hids as (_ & _ & Hids).
  apply NoDup_app in Hids as (Hids & _ & _). destruct (li_chunk _ _ Hi c Hc) as [Hin _]. rewrite Hc in Hf.
  assert (Hall : ∀ r, r ∈ rs → brid r = brid c).
  { intros r Hr. destruct (decide (brid r = brid c)) as [|Hne]; [done|]. exfalso. apply (elem_of_nil r). rewrite <-Hf.
    apply list_elem_of_filter. split; [|done]. cbn. congruence. }
  destruct rs as [|r [|r2 rs]]; [by apply elem_of_nil in Hin|set_solver|]. exfalso. csimpl in Hids.
  apply NoDup_cons in Hids as [Hn _]. apply Hn. rewrite (Hall r), (Hall r2) by set_solver. set_solver.
Qed.

Lemma launch_lighter x rs rs' kept :
  launch_inv x rs → Forall2 outcome (bumped (chunked_req x) <$> rs) rs' →
  filter running rs' ≡ₚ kept ++ option_list (chunk_after x rs') →
  load_lt (weigh tokens_left (waiting_queue x ++ option_list (chunk_after x rs') ++ filter running (reqs (running_batch x)) ++ kept),
    weigh input_left (waiting_queue x) + weigh chunk_left (option_list (chunk_after x rs'))) (launch_load x rs).
Proof.
  intros Hi Ho Hk. pose proof (launching_bumped _ _ Hi) as Hall.
  unshelve epose proof (tokens_drop (chunked_req x) rs rs' _ Ho) as Hd.
  { apply Forall_forall. intros r Hr. rewrite Forall_forall in Hall. split; [|by apply Hall].
    pose proof (li_reqs _ _ Hi) as Hrs. rewrite Forall_forall in Hrs. destruct (Hrs r Hr) as [[_ _ Hout _ _ _] _]. unfold tokens_left. lia. }
  unfold load_lt, launch_load. cbn [fst snd]. rewrite Hk in Hd. rewrite !weigh_app in *.
  destruct (filter (λ r, brid <$> chunked_req x ≠ Some (brid r)) rs) as [|r0 l] eqn:Hf; [|cbn [length] in Hd; lia].
  assert (is_Some (chunked_req x)) as [c Hc].
  { destruct rs as [|r rs0]; [by destruct (li_some _ _ Hi)|]. rewrite filter_cons in Hf. case_decide as Hx; [done|].
    destruct (chunked_req x); [by eexists|]. done. }
  pose proof (only_chunk x rs c Hi Hc Hf) as ->. destruct (chunk_result _ _ _ Hi Ho) as (_ & Hb & Hch).
  destruct (chunk_after x rs') as [c'|] eqn:Hc'; [|by rewrite Hc in Hb]. destruct (Hch c' eq_refl) as (_ & c2 & Hc2 & Hoc).
  rewrite Hc in Hc2. injection Hc2 as <-. destruct (li_chunk _ _ Hi c Hc) as (_ & Hlt & _). apply Forall_cons in Hall as [[_ Hn] _].
  unfold bumped in Hn. rewrite Hc, bool_decide_eq_true_2 in Hn by done.
  destruct (oc_chunk _ _ Hoc Hn) as (_ & _ & Hids & _ & Hcl & _). change (option_list (Some c')) with [c'] in *. cbn [length] in *.
  unfold weigh, sumZ in *. cbn [fmap list_fmap foldr] in *. unfold chunk_left, rest_left, input_len. rewrite Hids, Hcl.
  change (all_ids (bkv (bump_chunks c))) with (all_ids (bkv c)). change (stop_of (bkv (bump_chunks c))) with (stop_of (bkv c)). lia.
Qed.

(** Behind the merge of the results into the running batch. *)
Section results.
Variables (x : Scheduler A) (rs rs' : list BReq) (s2 : Sys A) (b' bp : ScheduleBatch) (flag : bool).
Hypothesis Hi : launch_inv x rs.
Hypothesis Ho : Forall2 outcome (bumped (chunked_req x) <$> rs) rs'.
Hypothesis Hmode : forward_mode bp = Some EXTEND.
Hypothesis Hprefill : is_prefill_only (flags bp) = true → Forall (λ r, max_new_tokens (sreq r) = 0) rs.
Hypothesis Hmerge : merge_last_batch (left_out x) (set_reqs rs' bp) (running_batch x) = Ok b'.
Hypothesis Hreqs : reqs b' = reqs (running_batch x) ++ filter (kept_in_batch (left_out x)) rs'.
Hypothesis Hready : decode_ready cfg S0 s2 b' ((bkv <$> filter (λ r, rid (sreq r) ∈ left_out x) rs') ++ []) [].
Hypothesis Hdim : pool_dims s2 = pool_dims (sys x).
Hypothesis Hroom : room (sys x) - new_slots rs ≤ room s2.
Definition launched : Scheduler A :=
  set_last (Some (mkLaunched (set_reqs rs' bp) (brid <$> chunked_req x) [] flag false)) (set_sys s2 (set_chunked (chunk_after x rs') x)).

Lemma results_split : filter running rs' ≡ₚ filter (kept_in_batch (left_out x)) rs' ++ option_list (chunk_after x rs').
Proof.
  destruct (chunk_result _ _ _ Hi Ho) as (<- & _). apply split_running. intros r Hr. by apply (others_lively x rs rs' r Hi Ho).
Qed.

Lemma results_running : filter running (reqs b') = filter running (reqs (running_batch x)) ++ filter (kept_in_batch (left_out x)) rs'.
Proof.
  rewrite Hreqs, filter_app. f_equal. apply filter_full. clear. generalize rs' as l. induction l as [|r l IH]; [done|].
  rewrite !filter_cons. case_decide as Hk; [|done]. rewrite filter_cons, decide_True by apply Hk. cbn. by f_equal.
Qed.

Lemma results_merge : ∃ last, merge_last (chunked_req launched) (last_batch launched) (running_batch launched) = Ok (b', last).
Proof.
  assert (∃ stay, filter_batch (left_out x) None (set_reqs rs' bp) = Ok stay) as [stay Hstay].
  { pose proof Hmerge as Hm. unfold merge_last_batch in Hm. inv_ok. eauto. }
  destruct (chunk_result _ _ _ Hi Ho) as (_ & Hbc & _). unfold merge_last.
  cbn [launched set_last set_sys set_chunked last_batch chunked_req running_batch lb_batch lb_chunked_req].
  unfold is_extend. cbn [forward_mode set_reqs]. rewrite Hmode, Hbc. fold (left_out x). rewrite Hmerge. py_run.
  rewrite Hstay. py_run. eauto.
Qed.

(** A batch that only prefills has no request that goes on. *)
Lemma results_prefill_only : is_prefill_only (flags b') = true → filter running (reqs b') = [].
Proof.
  rewrite results_running. destruct (merged_reqs _ _ _ _ Hmerge) as (l & Hl & Hlr). rewrite Hreqs in Hlr. apply app_inv_head in Hlr.
  intros Hpo. destruct (merged_flags _ _ _ _ _ Hmerge Hl Hpo) as [Hb1 Hb2]. apply app_nil. split.
  - destruct Hb1 as [->|Hb1]; [done|]. by apply Hi.
  - destruct Hb2 as [Hb2|Hb2]; [by rewrite <-Hlr in Hb2|]. apply filter_none. intros r Hr [Hrn Hx].
    destruct (others_lively x rs rs' r Hi Ho Hr) as (_ & _ & Hlv & _). destruct (Hlv Hx Hrn) as [_ Hlt].
    apply list_elem_of_lookup in Hr as [i Hr]. destruct (Forall2_lookup_r _ _ _ _ _ Ho Hr) as (r0 & Hr0 & Hoc).
    rewrite list_lookup_fmap in Hr0. destruct (rs !! i) as [r1|] eqn:Hr1; [|done]. injection Hr0 as <-.
    pose proof (Forall_lookup_1 _ _ _ _ (Hprefill Hb2) Hr1) as Hz. cbn in Hz. pose proof (oc_max_new _ _ Hoc) as Hmx.
    assert (Hbm : max_new_tokens (sreq (bumped (chunked_req x) r1)) = max_new_tokens (sreq r1)) by (unfold bumped; by case_bool_decide).
    unfold output_len in Hlt. lia.
Qed.

Lemma results_mid : mid_inv cfg sc S0 ctx (computed sc ctx) (set_running b' launched).
Proof.
  destruct (chunk_result _ _ _ Hi Ho) as (Hfl & Hbc & _). pose proof Hready as Hrd. rewrite Hfl, app_nil_r in Hrd.
  pose proof (λ r', others_lively x rs rs' r' Hi Ho) as Hoth.
  split; cbn [launched set_running set_last set_sys set_chunked sys running_batch chunked_req waiting_queue]; try done.
  - rewrite Hreqs. apply Forall_app. split; [apply Hi|]. apply Forall_forall.
    intros r [[Hr Hx] Hin]%list_elem_of_filter. destruct (Hoth r Hin) as (Ht & Hg & Hlv & _). split; [done..|].
    destruct (Hlv Hx Hr). lia.
  - rewrite results_running. apply Forall_app. split; [apply Hi|]. apply Forall_forall.
    intros r [[Hr Hx] Hin]%list_elem_of_filter. by apply Hoth.
  - apply Hi.
  - pose proof (li_ids _ _ Hi) as Hids. eapply submseteq_NoDup; [|exact Hids]. rewrite results_running, !fmap_app.
    rewrite <-(bumped_brid (chunked_req x) rs), <-(outcome_brid _ _ Ho). apply submseteq_app; [done|].
    rewrite (Permutation_app_comm (brid <$> filter running (reqs (running_batch x)))), app_assoc.
    apply submseteq_app; [|done]. rewrite <-fmap_app, (Permutation_app_comm (option_list _)), <-results_split.
    apply fmap_submseteq, sublist_submseteq, sublist_filter.
  - destruct (chunk_after x rs') as [c'|] eqn:Hc'; [|constructor]. constructor; [|constructor]. by eapply computed_after.
  - apply Hi.
  - apply Hi.
  - etrans; [exact (dims_ctx _ _ Hdim)|]. apply Hi.
  - rewrite (dims_size _ _ Hdim). apply Hi.
  - eapply merged_open; [exact Hmerge|]. cbn [set_reqs reqs]. intros E. pose proof Ho as Ho'. rewrite E in Ho'. apply Forall2_nil_inv_r in Ho'.
    apply fmap_nil_inv in Ho'. by destruct (li_some _ _ Hi).
  - exact results_prefill_only.
Qed.

Lemma results_check : busy_check cfg sc launched = Ok tt.
Proof.
  destruct (chunk_result _ _ _ Hi Ho) as (Hfl & _). pose proof Hready as [_ Hcore Hrd _]. rewrite Hfl, app_nil_r in Hcore. unfold busy_check.
  cbn [launched set_last last_batch lb_batch lb_is_running set_reqs reqs running_batch set_sys set_chunked sys].
  eapply (self_check_ok cfg sc gather Hpv S0 ctx Hnd); [done|done|rewrite (dims_ctx _ _ Hdim); apply Hi|done| |].
  - rewrite results_running, filter_app, results_split, !fmap_app. by rewrite Permutation_app_comm, app_assoc.
  - apply Forall_app. split.
    + apply Forall_forall. intros r Hr. destruct (others_lively x rs rs' r Hi Ho Hr) as (? & ? & _). done.
    + eapply Forall_impl; [apply Hi|]. by intros r [].
Qed.

Lemma results_held id : id ∈ brid <$> waiting_queue x ++ rs ++ filter running (reqs (running_batch x)) →
  id ∈ held_rids launched ∨ id ∈ brid <$> filter (λ r, ¬ running r) rs'.
Proof.
  intros Hid. destruct results_merge as [last Hme]. unfold held_rids. rewrite Hme. unfold mid_rids.
  cbn [set_running waiting_queue chunked_req running_batch launched set_last set_sys set_chunked].
  rewrite results_running, !fmap_app, !elem_of_app. rewrite !fmap_app, !elem_of_app in Hid.
  destruct Hid as [Hid|[Hid|Hid]]; [by left; left| |by left; right; right; left].
  rewrite <-(bumped_brid (chunked_req x) rs), <-(outcome_brid _ _ Ho) in Hid. apply list_elem_of_fmap in Hid as (r & -> & Hr).
  destruct (decide (running r)) as [Hrn|Hrn].
  - left. assert (r ∈ filter running rs') as Hin by (by apply list_elem_of_filter). rewrite results_split, elem_of_app in Hin.
    destruct Hin as [Hin|Hin]; apply (list_elem_of_fmap_2 brid) in Hin; auto.
  - right. apply list_elem_of_fmap. exists r. split; [done|]. by apply list_elem_of_filter.
Qed.

Lemma launch_results :
  sched_inv cfg sc S0 ctx launched ∧ busy_check cfg sc launched = Ok tt ∧
  (∀ id, id ∈ brid <$> waiting_queue x ++ rs ++ filter running (reqs (running_batch x)) →
    id ∈ held_rids launched ∨ id ∈ brid <$> filter (λ r, ¬ running r) rs') ∧
  load_lt (held_load launched) (launch_load x rs).
Proof.
  destruct results_merge as [last Hme]. split_and!.
  - exists b', last. split; [done|]. split; [exact results_mid|]. destruct (chunk_result _ _ _ Hi Ho) as (_ & Hbc & _).
    intros id Hid. eexists. split; [done|]. by rewrite <-Hbc.
  - exact results_check.
  - exact results_held.
  - unfold held_load. rewrite Hme. unfold load.
    cbn [set_running waiting_queue chunked_req running_batch launched set_last set_sys set_chunked]. rewrite results_running.
    apply launch_lighter; try done. exact results_split.
Qed.
End results.

Lemma prepare_for_extend_mode v b s bp s1 : prepare_for_extend cfg v b s = Ok (bp, s1) →
  forward_mode bp = Some EXTEND ∧ flags bp = flags b.
Proof. unfold prepare_for_extend. intros He. inv_ok. repeat (case_match; inv_ok). done. Qed.

Lemma launch_ok U x rs ov flag :
  launch_inv x rs → due_ids U ⊆ (brid <$> waiting_queue x ++ rs ++ filter running (reqs (running_batch x))) ++ sent_aborts x →
  load_le (launch_load x rs) (due_load U) →
  ∃ bp s1, prepare_for_extend cfg (vocab_size sc) (init_new (bumped (chunked_req x) <$> rs) ov (spec_on (spec_args sc))) (sys x)
      = Ok (bp, s1) ∧
    good_launch U (mkLaunched bp (brid <$> chunked_req x) [] flag false) (set_sys s1 (set_chunked (bump_chunks <$> chunked_req x) x)).
Proof.
  intros Hi HU HL. set (cs := bumped (chunked_req x) <$> rs). pose proof (launching_bumped _ _ Hi) as Hall.
  assert (Hlc : Forall (launching (sys x)) cs) by (apply Forall_fmap; eapply Forall_impl; [exact Hall|]; by intros ? []).
  assert (Hup : Forall2 chunks_up (bkv <$> rs) (bkv <$> cs)).
  { apply bumped_up. eapply Forall_impl; [apply Hi|]. intros r [Hd _]. by destruct Hd. }
  destruct (li_ready _ _ Hi) as [Hcols Hcore Hrd Hbt]. destruct (serve_chunks_up _ _ _ _ Hup Hcore) as [Hcore' Htk].
  destruct (prefill_round_ok cfg Hdis Hps1 verdict (vocab_size sc) S0 (sys x) (running_batch x) [] cs [] (left_out x) ov
    (spec_on (spec_args sc))) as (bp & s1 & Hprep & Hex & Hround).
  { split; [done|by rewrite (app_nil_r (bkv <$> cs))|done|done]. }
  { eapply Forall_impl; [exact Hlc|]. by intros ? []. }
  { apply Forall_fmap, Forall_forall. intros r Hr. rewrite Forall_forall in Hall. destruct (Hall r Hr) as [Hl Hch].
    pose proof (li_whole _ _ Hi) as Hw. rewrite Forall_forall in Hw. specialize (Hw r Hr).
    assert (Hid : rid (sreq (bumped (chunked_req x) r)) = brid r) by (unfold bumped; by case_bool_decide).
    split; [apply Hl|cbn; rewrite Hid, elem_left_out, Hch; case_bool_decide; split; intros; (done || lia)|].
    cbn. rewrite Hid, elem_left_out. intros Hn. unfold bumped. case_bool_decide; [done|]. by apply Hw. }
  { unfold cs. rewrite bumped_fresh. apply Hi. }
  { rewrite (li_ctx _ _ Hi). unfold stops_of. rewrite !Forall_fmap. eapply Forall_impl; [exact Hlc|]. intros r Hr. by eapply launching_stop. }
  { change (new_slots cs ≤ room (sys x)). unfold cs. rewrite bumped_new_slots. apply Hi. }
  exists bp, s1. split; [done|]. intros toks Hlen. cbn [lb_batch] in Hlen. pose proof (Forall2_length _ _ _ Hex) as Hlp.
  destruct (Hround toks ltac:(lia)) as (rs' & s2 & b' & Hproc & Hmerge & Hreqs & Hready & Hm & Hres & Htk2).
  destruct (prepare_for_extend_mode _ _ _ _ _ Hprep) as [Hmode Hflags].
  assert (Ho : Forall2 outcome cs rs') by (by eapply outcomes).
  unfold process_batch_result. cbn [lb_batch]. unfold is_extend. rewrite Hmode.
  unfold spec_on. rewrite (pv_spec _ _ _ Hpv). cbn [decoding_reqs set_sys sys]. rewrite Hproc. py_run.
  eexists _, _. split; [done|]. cbn [set_batch lb_batch lb_chunked_req decoding_reqs contains_last_prefill_chunk lb_is_running].
  assert (Hrm : room (sys x) - new_slots rs ≤ room s2).
  { assert (Hrd2 : kv_ready (allocator (cache s2))) by apply Hready.
    pose proof (dr_core _ _ _ _ _ _ Hready) as Hc2.
    rewrite (room_eq cfg S0 _ _ _ Hc2 Hnd Hrd2), (room_eq cfg S0 _ _ _ Hcore Hnd Hrd).
    fold (new_slots cs) in Htk2. unfold cs in Htk2. rewrite bumped_new_slots in Htk2. fold cs in Htk2.
    rewrite (app_nil_r (bkv <$> cs)), Htk in Htk2. lia. }
  destruct (launch_results x rs rs' s2 b' bp flag Hi Ho Hmode) as (R1 & R2 & R3 & R4); try done.
  { rewrite Hflags. cbn [init_new flags is_prefill_only]. intros Hpf. apply Forall_forall. intros r Hr.
    rewrite forallb_forall in Hpf. specialize (Hpf (bumped (chunked_req x) r)). rewrite <-list_elem_of_In in Hpf.
    specialize (Hpf (list_elem_of_fmap_2 _ _ _ Hr)). apply andb_true_iff in Hpf as [Hpf%Z.eqb_eq _]. rewrite <-Hpf.
    unfold bumped. by case_bool_decide. }
  split; [exact R1|]. split; [exact R2|]. split; [|by eapply load_lt_le].
  intros id [Hid|Hid]%HU%elem_of_app; [|by right; left]. destruct (R3 id Hid) as [?|?]; [by left|by right; right].
Qed.
End launch.
