(* ===== verification/PassStep.v ===== *)
(** The prefill pass of the scheduler: the request between two chunks goes first, the
    queue follows, and what the adder admits is launched; the requests that stay behind
    wait as before. *)

From stdpp Require Import base gmap strings list relations.
From Stdlib Require Import ZArith QArith Lia Lqa.
From S2P Require Import Prelude.
From S2P Require Import PyData.
From S2P Require Import RadixKey.
From S2P Require Import RadixTree.
From S2P Require Import RadixInv.
From S2P Require Import RadixContent.
From S2P Require Import RadixOps.
From S2P Require Import RadixInsert.
From S2P Require Import RadixEvict.
From S2P Require Import RadixSession.
From S2P Require Import ReqCache.
From S2P Require Import ReqCacheInv.
From S2P Require Import ReqAlloc.
From S2P Require Import ReqLife.
From S2P Require Import BatchAlloc.
From S2P Require Import Delayer.
From S2P Require Import PrefillAdder.
From S2P Require Import ScheduleBatch.
From S2P Require Import BatchInv.
From S2P Require Import ServeInv.
From S2P Require Import ServeOps.
From S2P Require Import Room.
From S2P Require Import ExtendInv.
From S2P Require Import MemCheck.
From S2P Require Import RatioInv.
From S2P Require Import DecodeInv.
From S2P Require Import ResultInv.
From S2P Require Import ServeLoop.
From S2P Require Import PrefillAdderInv.
From S2P Require Import PassInv.
From S2P Require Import PassIdle.
From S2P Require Import SchedulePolicy.
From S2P Require Import SchedulePolicyInv.
From S2P Require Import Scheduler.
From S2P Require Import Load.
From S2P Require Import QueueInv.
From S2P Require Import SchedulerInv.
From S2P Require Import LaunchInv.

Open Scope Z_scope.

Section step.
Context {A : Type} `{KVPool A} `{!KVPoolTotal A} `{!KVPoolSlots A} `{KVAlloc A} `{!KVAllocLaws A} `{KVPaged A}.
Context `{KVGroup A} `{!KVGroupLaws A} `{KVFreeList A} `{!KVFreeListLaws A} `{Env} `{!EnvLaws} `{HeapQ} `{!HeapQLaws}.
Variables (cfg : Config) (sc : SchedCfg) (gather : Delayer.Info → list Delayer.Info) (perf_counter : nat → Q).
Hypothesis Hpv : plain_server cfg sc gather.
Variables (S0 : list Z) (ctx : nat).
Hypothesis Hnd : NoDup S0.
Hypothesis Htotal : max_total_num_tokens sc = Z.of_nat (length S0).
Variable verdict : nat → BReq → bool.
Hypothesis Hstop : ∀ n r, verdict n r = false → output_len (sreq r) < max_new_tokens (sreq r).
Notation prio := (priority_scheduling_on sc).
Notation pool := (max_total_num_tokens sc).
Notation Hdis := (pv_cache _ _ _ Hpv).
Notation Hps1 := (pv_page _ _ _ Hpv).
Notation spec := (spec_on (spec_args sc)).
Notation steps := (retract_decode_steps sc).
Local Instance step_cache : PrefixCache (Sys A) := radix_prefix_cache cfg false spec steps.
Local Instance step_cache_laws : PrefixCacheLaws (Sys A) := radix_prefix_cache_laws cfg false spec steps Hdis.
Implicit Types (x : Scheduler A) (s : Sys A).
Notation mid := (mid_inv cfg sc S0 ctx (stashed sc ctx)).
Notation bat ac := (batching cfg Hdis false spec steps ac S0).

(** ** The adder of the pass *)

Lemma adder_cfg_ok n x : cfg_ok (adder_cfg cfg sc n x) gather.
Proof. split; cbn; [rewrite Hps1; lia|apply (pv_clip _ _ _ Hpv)|done|done|apply (pv_gather _ _ _ Hpv)]. Qed.
Lemma adder_cfg_page n x : ac_page_size (adder_cfg cfg sc n x) = 1.
Proof. cbn. by rewrite Hps1. Qed.
Lemma adder_cfg_plain n x : is_all_swa (adder_cfg cfg sc n x) = false ∧ is_hybrid_swa (adder_cfg cfg sc n x) = false ∧
  is_hybrid_ssm_cache (adder_cfg cfg sc n x) = false.
Proof. done. Qed.

Notation acfg x := (adder_cfg cfg sc (Z.of_nat (length (waiting_queue x))) x).
Definition batch_kvs x : list Req := bkv <$> filter running (reqs (running_batch x)).

Lemma new_adder_ok x exec :
  mid x → bat (acfg x) (batch_kvs x ++ (bkv <$> option_list (chunked_req x))) (req_to_token_pool (sys x))
    (new_adder cfg sc exec x).
Proof.
  intros Hi. pose proof (mi_ready _ _ _ _ _ _ Hi) as [Hcols Hcore Hrd Hbt]. split; [|exact Hcore|done].
  eexists. unfold new_adder. rewrite (pv_mixed _ _ _ Hpv). apply init_adder_inv.
  - split; [apply Hcore|done].
  - cbn. apply Hdis.
  - done.
  - cbn. apply (mi_ratio _ _ _ _ _ _ Hi).
  - cbn. apply (pv_clip _ _ _ Hpv).
  - apply Forall_fmap. eapply Forall_impl; [apply Hi|]. by intros r [_ _ ?].
Qed.

(** ** The request between two chunks *)

(** What [readd_chunked] leaves: the adder, and the chunked request with what is left of it. *)
Record readded x (rest first : option BReq) (ad : Adder (Sys A)) : Prop := {
  ra_batching : bat (acfg x) (batch_kvs x) (req_to_token_pool (sys x)) ad;
  ra_cache : ad_cache ad = sys x;
  ra_running : ad_running ad = Some (sreq <$> reqs (running_batch x)) ∧ preempt_list ad = [] ∧ new_chunked_req ad = None;
  ra_size : is_Some (rem_chunk_tokens (ad_budget ad)) → is_Some (chunked_prefill_size sc);
  ra_case : match chunked_req x with
    | None => rest = None ∧ first = None ∧ can_run_list ad = []
    | Some c => ∃ c1 stop, first = Some c1 ∧ brid c1 = brid c ∧
        let r2 := with_sreq (set_range (prefix_len (sreq c)) (Z.of_nat stop) (sreq c1)) c1 in
        can_run_list ad = [sreq r2] ∧ decent prio ctx pool (sreq r2) ∧ running r2 ∧ is_Some (req_pool_idx (bkv r2)) ∧
        (length (prefix_indices (bkv r2)) < stop ≤ length (all_ids (bkv r2)))%nat ∧
        Z.of_nat (length (all_ids (bkv r2)) - length (prefix_indices (bkv r2))) + 1 < room (sys x) ∧
        is_Some (chunked_prefill_size sc) ∧ gist r2 = gist c ∧ rest_left r2 = chunk_left c ∧
        (rest = None ∧ stop = length (all_ids (bkv r2)) ∨
         rest = Some r2 ∧ (stop < length (all_ids (bkv r2)))%nat ∧ closed cfg false spec steps (acfg x) ad)
    end;
}.

Lemma readd_ok x exec :
  mid x → ∃ rest first ad, readd_chunked cfg sc (acfg x) (new_adder cfg sc exec x) (chunked_req x) = Ok (rest, first, ad) ∧
    readded x rest first ad.
Proof.
  intros Hi. pose proof (new_adder_ok x exec Hi) as Hb. destruct (chunked_req x) as [c|] eqn:Hc; cbn [readd_chunked].
  2:{ cbn [option_list fmap list_fmap] in Hb. rewrite app_nil_r in Hb. eexists _, _, _. split; [done|]. split; try done.
      - cbn. by destruct (chunked_prefill_size sc).
      - by rewrite Hc. }
  pose proof (mi_chunk _ _ _ _ _ _ Hi) as Hk. rewrite Hc in Hk. apply Forall_cons in Hk as [[[Hd Hrn Hfl Hlt Hroom [m Hm]] Hpre] _].
  assert (Hb' : bat (acfg x) (kv (sreq c) :: batch_kvs x) (req_to_token_pool (sys x)) (new_adder cfg sc exec x)).
  { destruct Hb as [? Hcore ?]. split; try done. by rewrite Permutation_app_comm in Hcore. }
  destruct (rechunk_joined cfg Hdis false spec steps (acfg x) gather (adder_cfg_ok _ x) (adder_cfg_page _ x)
    (adder_cfg_plain _ x) S0 (batch_kvs x) (req_to_token_pool (sys x)) (new_adder cfg sc exec x) (sreq c) (m - 0) Hb')
    as (stop & ad2 & Hst & Hpl & Hadd & Hcan & Hnc & Hch & Hru & Hpe & Hb2 & Hcl); try done.
  { unfold new_adder. rewrite (pv_mixed _ _ _ Hpv). cbn. by rewrite Hm. }
  { pose proof (pv_chunk _ _ _ Hpv m Hm). lia. }
  { destruct Hd as [_ _ Ho _ _ _]. unfold output_len in Ho. lia. }
  set (c1 := with_bkv (refreshed (bkv c)) c) in *. change (with_kv (refreshed (kv (sreq c))) (sreq c)) with (sreq c1) in *.
  unfold sched_cache. unfold pass_cache in Hadd. rewrite Hadd. py_run. eexists _, _, _. split; [done|].
  destruct (refreshed_same (bkv c) Hfl) as [F1 [F2 F3] _ F4 _ _ F5 _ _ (F6 & _ & _)].
  assert (Hids : all_ids (bkv c1) = all_ids (bkv c)) by (unfold all_ids; cbn; by rewrite F2, F3).
  assert (Hpc : length (prefix_indices (bkv c1)) = kv_committed_len (bkv c)).
  { cbn. rewrite F6. unfold prefix_len in Hpl. change (kv (sreq c)) with (bkv c) in Hpl. lia. }
  split; try done.
  - rewrite Hc. exists c1, stop. split; [done|]. split; [done|]. cbv zeta. set (r2 := with_sreq _ c1).
    assert (Hids2 : all_ids (bkv r2) = all_ids (bkv c)) by exact Hids.
    assert (Hpc2 : length (prefix_indices (bkv r2)) = kv_committed_len (bkv c)) by exact Hpc.
    split_and!.
    + done.
    + eapply decent_kin; [|exact Hd]. unfold r2, c1. split; try done; unfold refreshed, refresh_fill_ids; cbn; repeat case_match; done.
    + done.
    + change (is_Some (req_pool_idx (refreshed (bkv c)))). rewrite F4.
      destruct Hb' as [_ Hcore _]. pose proof (sv_run _ _ _ _ _ Hcore) as Hrun. apply Forall_cons in Hrun as [Hr _]. apply Hr.
    + rewrite Hpc2. apply Hst.
    + rewrite Hids2. apply Hst.
    + rewrite Hids2, Hpc2. done.
    + by eexists.
    + unfold gist, gist_of. change (kv (sreq r2)) with (bkv r2). rewrite Hids2. unfold output_len. cbn. by rewrite F3.
    + unfold rest_left, chunk_left, input_len. by rewrite Hids2, Hpc2.
    + rewrite Hids2. change (all_ids (kv (sreq c))) with (all_ids (bkv c)) in *. case_bool_decide as E; [by left|right].
      split; [done|]. split; [lia|]. by apply Hcl.
Qed.

(** ** The batch of the pass *)

Lemma slots_tokens ac (st : RadixCache A) (rs : list BReq) :
  ac_page_size ac = 1 → Forall (λ r, ∃ stop, ready_ok cfg st (bkv r) stop) rs →
  new_slots rs + Z.of_nat (length rs) = batch_tokens ac (sreq <$> rs).
Proof.
  intros Hp. induction 1 as [|r rs [stop Hr] _ IH]; [done|]. unfold new_slots, extend_batch, stops_of in *.
  cbn [b_extend_num_tokens] in *. csimpl. rewrite Nat2Z.inj_add. cbn [length batch_tokens foldr].
  fold (batch_tokens ac (sreq <$> rs)). rewrite <-IH, Hp, (ready_stop _ _ _ _ Hr). unfold extend_length.
  change (kv (sreq r)) with (bkv r). rewrite (rd_range _ _ _ _ Hr). destruct (rd_stop _ _ _ _ Hr) as [? _]. lia.
Qed.

Lemma rejoin_elem objs l y :
  NoDup (brid <$> objs) → rid y ∈ brid <$> objs → y ∈ l →
  ∃ o, find_req (rid y) objs = Some o ∧ with_sreq y o ∈ rejoin objs l.
Proof.
  intros Hno Hy Hl. destruct (find_req_rid objs (rid y) Hno Hy) as (o & Ho & _). exists o. split; [done|].
  unfold rejoin. apply list_elem_of_omap. exists y. split; [done|]. by rewrite Ho.
Qed.

Lemma drop_preempted_ok (b : ScheduleBatch) :
  batch_cols_ok b → ∃ b', drop_preempted (sreq <$> reqs b) b = Ok b' ∧ batch_cols_ok b' ∧ reqs b' = reqs b ∧
    is_prefill_only (flags b') = is_prefill_only (flags b).
Proof.
  intros Hb. unfold drop_preempted.
  match goal with |- context [filter_batch [] (Some ?k) b] => change (filter_batch [] (Some k) b) with (filter_keep k b) end.
  assert (filter (λ i, kept_at (sreq <$> reqs b) (reqs b) i = true) (seq 0 (length (reqs b))) = seq 0 (length (reqs b))) as ->.
  { apply filter_every. intros i Hi%elem_of_seq. unfold kept_at. destruct (lookup_lt_is_Some_2 (reqs b) i ltac:(lia)) as [r Hr].
    rewrite Hr. apply bool_decide_eq_true_2. rewrite <-brid_sreq. apply list_elem_of_fmap. eexists; split; [done|]. by eapply list_elem_of_lookup_2. }
  destruct (filter_keep_ok (seq 0 (length (reqs b))) b) as (b' & Hf & Hb' & _ & Heq & _); [apply NoDup_seq|apply in_range_seq|done|].
  exists b'. split_and!; [done..| |by apply (filter_keep_flags _ _ _ Hf)]. rewrite Heq by done. apply at_indices_all.
Qed.

Section one_pass.
Variables (x : Scheduler A) (rest first : option BReq) (ad ad' : Adder (Sys A)) (added restq : list SReq).
Hypothesis Hi : mid x.
Hypothesis Hra : readded x rest first ad.
Hypothesis Hpa : passed cfg Hdis false spec steps (acfg x) S0 (batch_kvs x) (req_to_token_pool (sys x))
  (sreq <$> waiting_queue x) ad added restq ad'.

Let objs := option_list first ++ waiting_queue x.
Let rs := rejoin objs (can_run_list ad').
Let queue := rejoin (waiting_queue x) (added ++ restq).

Lemma first_brid : brid <$> option_list first = brid <$> option_list (chunked_req x).
Proof.
  pose proof (ra_case _ _ _ _ Hra) as Hc. destruct (chunked_req x) as [c|].
  - destruct Hc as (c1 & stop & -> & Hb & _). cbn. by rewrite Hb.
  - by destruct Hc as (_ & -> & _).
Qed.

Lemma first_rids : rid <$> can_run_list ad = brid <$> option_list (chunked_req x).
Proof.
  pose proof (ra_case _ _ _ _ Hra) as Hc. destruct (chunked_req x) as [c|].
  - destruct Hc as (c1 & stop & -> & Hb & -> & _). cbn. by rewrite <-Hb.
  - by destruct Hc as (_ & _ & ->).
Qed.

Lemma queue_rids : rid <$> (added ++ restq) = brid <$> waiting_queue x.
Proof.
  rewrite brid_sreq. pose proof (ps_kin _ _ _ _ _ _ _ _ _ _ _ _ _ _ Hpa) as Hk. clear -Hk.
  induction Hk as [|r r' l l' Hr _ IH]; [done|]. csimpl. by rewrite IH, (kn_rid _ _ Hr).
Qed.

Lemma can_run_eq : can_run_list ad' = can_run_list ad ++ added.
Proof. apply Hpa. Qed.

Lemma all_ids_distinct : NoDup ((brid <$> waiting_queue x) ++ (brid <$> option_list (chunked_req x)) ++
  (brid <$> filter running (reqs (running_batch x)))).
Proof. pose proof (mi_ids _ _ _ _ _ _ Hi) as Hn. by rewrite !fmap_app in Hn. Qed.

Lemma objs_distinct : NoDup (brid <$> objs).
Proof.
  unfold objs. rewrite fmap_app, first_brid, Permutation_app_comm. pose proof all_ids_distinct as Hn.
  rewrite app_assoc in Hn. by apply NoDup_app in Hn as [? _].
Qed.

Lemma can_run_known : Forall (λ y, rid y ∈ brid <$> objs) (can_run_list ad').
Proof.
  apply Forall_forall. intros y Hy. apply (list_elem_of_fmap_2 rid) in Hy. rewrite can_run_eq, fmap_app, first_rids in Hy.
  unfold objs. rewrite fmap_app, first_brid, <-queue_rids, fmap_app. set_solver.
Qed.

Lemma rs_sreq : sreq <$> rs = can_run_list ad'.
Proof. apply rejoin_sreq; [apply objs_distinct|apply can_run_known]. Qed.

Lemma rs_brid : brid <$> rs = (brid <$> option_list (chunked_req x)) ++ (rid <$> added).
Proof. by rewrite brid_sreq, rs_sreq, can_run_eq, fmap_app, first_rids. Qed.

Lemma queue_sreq : sreq <$> queue = added ++ restq.
Proof.
  apply rejoin_sreq; [pose proof all_ids_distinct as Hn; by apply NoDup_app in Hn as [? _]|].
  apply Forall_forall. intros y Hy. rewrite <-queue_rids. apply list_elem_of_fmap. eauto.
Qed.

Lemma filter_rids (ids : list string) (l : list BReq) :
  sreq <$> filter (λ r, brid r ∉ ids) l = filter (λ y, rid y ∉ ids) (sreq <$> l).
Proof. induction l as [|r l IH]; [done|]. csimpl. rewrite !filter_cons. change (brid r) with (rid (sreq r)).
  case_decide; csimpl; by rewrite IH. Qed.

(** Those that are not admitted stay in the queue. *)
Lemma left_queue : sreq <$> filter (λ r, brid r ∉ (brid <$> rs)) queue = restq.
Proof.
  rewrite filter_rids, queue_sreq, filter_app, rs_brid. pose proof all_ids_distinct as Hn.
  rewrite <-queue_rids, fmap_app in Hn. rewrite filter_none, filter_every; [done| |].
  - intros y Hy Hx. apply (list_elem_of_fmap_2 rid) in Hy. rewrite <-app_assoc in Hn. apply NoDup_app in Hn as (_ & Hd & Hn).
    apply NoDup_app in Hn as (_ & Hd2 & _). apply elem_of_app in Hx as [Hx|Hx]; [|apply (Hd _ Hx); set_solver].
    apply (Hd2 _ Hy). set_solver.
  - intros y Hy Hx. apply Hx. apply (list_elem_of_fmap_2 rid) in Hy. set_solver.
Qed.

(** [self.chunked_req] behind the pass. *)
Definition new_chunk : option BReq := new_chunked_req ad' ≫= λ y, with_sreq y <$> find_req (rid y) objs.
Definition final_chunk : option BReq := match new_chunk with Some c => Some c | None => rest end.

Lemma pass_core : serve_core cfg S0 (ad_cache ad') (batch_kvs x) (kv <$> can_run_list ad') ∧
  kv_ready (allocator (cache (ad_cache ad'))) ∧ req_to_token_pool (ad_cache ad') = req_to_token_pool (sys x) ∧
  (can_run_list ad' = [] ∨ batch_tokens (acfg x) (can_run_list ad') < room (ad_cache ad')).
Proof.
  destruct (ps_batching _ _ _ _ _ _ _ _ _ _ _ _ _ _ Hpa) as [[L [[_ Hrd] _ _ _ Hf _]] Hc Hp].
  by split_and!.
Qed.

(** Lookups alone make no room and take none. *)
Lemma pass_room : added = [] → room (ad_cache ad') = room (sys x).
Proof.
  intros Ha. destruct pass_core as (Hc & Hrd & Hp & _). rewrite can_run_eq, Ha, app_nil_r in Hc.
  destruct (ra_batching _ _ _ _ Hra) as [[L [[_ Hrd0] _ _ _ _ _]] Hc0 _]. rewrite <-(ra_cache _ _ _ _ Hra).
  rewrite (room_eq cfg S0 _ _ _ Hc Hnd Hrd), (room_eq cfg S0 _ _ _ Hc0 Hnd Hrd0). f_equal.
  unfold taken. f_equal. f_equal. apply list_fmap_ext. intros j r _. unfold run_share, run_owned, run_held.
  by rewrite Hp, (ra_cache _ _ _ _ Hra).
Qed.

Lemma whole_or_rest : (rest = None ∧ Forall whole (can_run_list ad)) ∨
  ∃ r2, rest = Some r2 ∧ can_run_list ad = [sreq r2] ∧ added = [] ∧ r2 ∈ rs ∧
    (length (prefix_indices (bkv r2)) < stop_of (bkv r2) < length (all_ids (bkv r2)))%nat ∧
    Z.of_nat (length (all_ids (bkv r2)) - length (prefix_indices (bkv r2))) + 1 < room (sys x) ∧
    is_Some (chunked_prefill_size sc).
Proof.
  pose proof (ra_case _ _ _ _ Hra) as Hc. destruct (chunked_req x) as [c|] eqn:Hch.
  2:{ destruct Hc as (-> & _ & ->). by left. }
  destruct Hc as (c1 & stop & Hf & Hb & Hcan & Hd & Hrn & Hrow & Hst & Hroom & Hsz & _ & _ & [[-> Hw]|(Hr & Hlt & Hcl)]).
  { left. split; [done|]. rewrite Hcan. constructor; [|constructor]. unfold whole. cbn. by rewrite Nat2Z.id. }
  right. eexists. split; [exact Hr|]. set (r2 := with_sreq _ _) in *.
  assert (Hst2 : stop_of (bkv r2) = stop) by (unfold r2; cbn; by rewrite Nat2Z.id).
  split; [done|]. split; [by apply (ps_closed _ _ _ _ _ _ _ _ _ _ _ _ _ _ Hpa)|]. split.
  - destruct (rejoin_elem objs (can_run_list ad') (sreq r2)) as (o & Ho & Hin).
    + apply objs_distinct.
    + pose proof can_run_known as Hk. rewrite can_run_eq, Hcan in Hk. apply Forall_app in Hk as [Hk _]. by apply Forall_cons in Hk as [? _].
    + rewrite can_run_eq, Hcan. set_solver.
    + assert (o = c1) as ->; [|exact Hin]. change (rid (sreq r2)) with (brid c1) in Ho.
      rewrite find_req_self in Ho; [by injection Ho|apply objs_distinct|]. unfold objs. rewrite Hf. set_solver.
  - rewrite Hst2. split_and!; try done; lia.
Qed.

Lemma pass_chunk :
  (final_chunk = None ∧ Forall whole (can_run_list ad')) ∨
  ∃ c l, final_chunk = Some c ∧ c ∈ rs ∧ can_run_list ad' = l ++ [sreq c] ∧ Forall whole l ∧
    (length (prefix_indices (bkv c)) < stop_of (bkv c) < length (all_ids (bkv c)))%nat ∧
    batch_tokens (acfg x) l + Z.of_nat (length (all_ids (bkv c)) - length (prefix_indices (bkv c))) + 1 < room (ad_cache ad') ∧
    is_Some (chunked_prefill_size sc) ∧ (new_chunk = None ∨ rest = None).
Proof.
  pose proof (ps_chunk _ _ _ _ _ _ _ _ _ _ _ _ _ _ Hpa) as Hends. destruct (ra_running _ _ _ _ Hra) as (_ & _ & Hnc).
  rewrite Hnc in Hends. unfold final_chunk, new_chunk.
  destruct whole_or_rest as [[Hrest Hw]|(r2 & Hrest & Hcan & Ha & Hin & Hlt & Hroom & Hsz)].
  - rewrite Hrest. destruct Hends as [[-> Hwa]|(l & r & Hadd & Hn & Hwl & Hst & Hroom)].
    { left. split; [done|]. rewrite can_run_eq. by apply Forall_app. }
    right. rewrite Hn. cbn [mbind option_bind].
    assert (Hr : r ∈ can_run_list ad') by (rewrite can_run_eq, Hadd; set_solver).
    destruct (rejoin_elem objs (can_run_list ad') r objs_distinct) as (o & Ho & Hino).
    { pose proof can_run_known as Hk. rewrite Forall_forall in Hk. by apply Hk. } { done. }
    rewrite Ho. cbn [fmap option_fmap option_map]. exists (with_sreq r o), (can_run_list ad ++ l).
    change (bkv (with_sreq r o)) with (kv r). split_and!; try done.
    + by rewrite can_run_eq, Hadd, app_assoc.
    + by apply Forall_app.
    + pose proof (ps_fresh _ _ _ _ _ _ _ _ _ _ _ _ _ _ Hpa) as Hfr. rewrite Hadd in Hfr. apply Forall_app in Hfr as [_ Hfr].
      apply Forall_cons in Hfr as [[_ Hext] _]. destruct pass_core as (Hc & _). pose proof (sv_ready _ _ _ _ _ Hc) as Hrd.
      rewrite Forall_fmap, Forall_forall in Hrd. destruct (Hrd r Hr) as [stop Hrr]. rewrite (ready_stop _ _ _ _ Hrr).
      unfold extend_length in Hext. rewrite (rd_range _ _ _ _ Hrr) in Hext. lia.
    + destruct (ps_size _ _ _ _ _ _ _ _ _ _ _ _ _ _ Hpa) as [E|Hs]; [by rewrite Hn, Hnc in E|]. by apply (ra_size _ _ _ _ Hra).
    + by right.
  - rewrite Hrest. destruct Hends as [[-> _]|(l & r & Hadd & _)]; [|rewrite Ha in Hadd; by destruct l]. right. exists r2, []. cbn [mbind option_bind].
    rewrite can_run_eq, Hcan, Ha, pass_room by done.
    split_and!; try done; [lia..|by left].
Qed.

(** The admitted requests. *)
Lemma pass_members : Forall (λ y, decent prio ctx pool y ∧ is_finished y = false) (can_run_list ad').
Proof.
  rewrite can_run_eq. apply Forall_app. split.
  - pose proof (ra_case _ _ _ _ Hra) as Hc. destruct (chunked_req x) as [c|].
    + destruct Hc as (c1 & stop & _ & _ & -> & Hd & Hrn & _). constructor; [done|constructor].
    + destruct Hc as (_ & _ & ->). constructor.
  - pose proof (ps_kin _ _ _ _ _ _ _ _ _ _ _ _ _ _ Hpa) as Hk. pose proof (mi_queue _ _ _ _ _ _ Hi) as Hq.
    apply (Forall_fmap sreq) in Hq. apply Forall2_app_inv_r in Hk as (q1 & q2 & Hk & _ & E). rewrite E in Hq.
    apply Forall_app in Hq as [Hq _]. clear -Hk Hq. induction Hk as [|r r' l l' Hr _ IH]; [constructor|].
    apply Forall_cons in Hq as [[Hd _ Hn] Hq]. constructor; [|auto]. split; [by eapply decent_kin|]. by rewrite (kn_finished _ _ Hr).
Qed.

Lemma rest_queued : Forall (queued prio ctx pool) restq.
Proof.
  pose proof (ps_kin _ _ _ _ _ _ _ _ _ _ _ _ _ _ Hpa) as Hk. pose proof (mi_queue _ _ _ _ _ _ Hi) as Hq.
  pose proof (ps_rest _ _ _ _ _ _ _ _ _ _ _ _ _ _ Hpa) as Hw.
  apply (Forall_fmap sreq) in Hq. apply Forall2_app_inv_r in Hk as (q1 & q2 & _ & Hk & E). rewrite E in Hq.
  apply Forall_app in Hq as [_ Hq]. clear -Hk Hq Hw. induction Hk as [|r r' l l' Hr _ IH]; [constructor|].
  apply Forall_cons in Hq as [[Hd _ Hn] Hq]. apply Forall_cons in Hw as [Hwr Hw]. constructor; [|auto].
  split; [by eapply decent_kin|done|]. by rewrite (kn_finished _ _ Hr).
Qed.

(** Rows for those that have none. *)
Lemma pass_rows : (fresh_reqs (bkv <$> rs) ≤ pool_available_size (req_to_token_pool (ad_cache ad')))%nat.
Proof.
  rewrite bkv_sreq, rs_sreq. destruct pass_core as (_ & _ & -> & _).
  destruct (ps_slots _ _ _ _ _ _ _ _ _ _ _ _ _ _ Hpa) as [Ha|Hl].
  - rewrite can_run_eq, Ha, app_nil_r. pose proof (ra_case _ _ _ _ Hra) as Hc. unfold fresh_reqs. destruct (chunked_req x) as [c|].
    + destruct Hc as (c1 & stop & _ & _ & -> & _ & _ & [j Hj] & _). cbn [fmap list_fmap]. rewrite filter_cons, decide_False; [cbn; lia|].
      intros E. change (req_pool_idx (kv ?r)) with (req_pool_idx (kv r)) in E. cbn in Hj, E. by rewrite Hj in E.
    + destruct Hc as (_ & _ & ->). cbn. lia.
  - etrans; [|exact Hl]. unfold fresh_reqs. etrans; [apply length_filter|]. by rewrite length_fmap.
Qed.

Lemma pass_launch b :
  batch_cols_ok b → reqs b = reqs (running_batch x) → is_prefill_only (flags b) = is_prefill_only (flags (running_batch x)) →
  can_run_list ad' ≠ [] →
  launch_inv cfg sc S0 ctx (set_chunked final_chunk (set_queue (filter (λ r, brid r ∉ (brid <$> rs)) queue)
    (set_sys (ad_cache ad') (set_running b x)))) rs.
Proof.
  intros Hb Hrb Hfb Hsome. destruct pass_core as (Hcore & Hrd & Hpool & Hfit). pose proof (mi_ready _ _ _ _ _ _ Hi) as [_ _ _ Hbt].
  assert (Hkv : bkv <$> rs = kv <$> can_run_list ad') by (by rewrite bkv_sreq, rs_sreq).
  assert (Hready : Forall (λ r, ∃ stop, ready_ok cfg (cache (ad_cache ad')) (bkv r) stop) rs).
  { pose proof (sv_ready _ _ _ _ _ Hcore) as Hr0. rewrite <-Hkv, Forall_fmap in Hr0. exact Hr0. }
  pose proof (slots_tokens (acfg x) _ rs (adder_cfg_page _ x) Hready) as Hslots. rewrite rs_sreq in Hslots.
  split; cbn [set_chunked set_queue set_sys set_running sys running_batch waiting_queue chunked_req]; rewrite ?Hrb; try apply Hi.
  - split; [done| |done|by rewrite Hrb]. rewrite Hrb, app_nil_r, Hkv. done.
  - pose proof rest_queued as Hq. rewrite <-left_queue, Forall_fmap in Hq. exact Hq.
  - rewrite !fmap_app, (brid_sreq (filter _ _)), left_queue, rs_brid. pose proof all_ids_distinct as Hn.
    rewrite <-queue_rids, fmap_app in Hn. eapply submseteq_NoDup; [|exact Hn]. apply Permutation_submseteq.
    rewrite <-!app_assoc, !(app_assoc (rid <$> restq)). apply Permutation_app_swap_app.
  - pose proof pass_members as Hm. rewrite <-rs_sreq, Forall_fmap in Hm. done.
  - apply pass_rows.
  - destruct Hfit as [Hnil|Hlt]; [|lia]. rewrite Hnil in Hslots. pose proof rs_sreq as Hl. rewrite Hnil in Hl.
    apply fmap_nil_inv in Hl. rewrite Hl in *. cbn in Hslots. cbn. pose proof (kv_available_nonneg (allocator (cache (ad_cache ad')))).
    assert (0 ≤ evictable_size_ (tree (cache (ad_cache ad')))) by (eapply evictable_nonneg, Hcore). unfold room. lia.
  - apply Forall_forall. intros r Hr Hne. apply (list_elem_of_fmap_2 sreq) in Hr. rewrite rs_sreq in Hr.
    destruct pass_chunk as [[_ Hw]|(c & l & Hf & _ & Hcan & Hw & _)].
    + rewrite Forall_forall in Hw. by apply Hw.
    + rewrite Hcan in Hr. apply elem_of_app in Hr as [Hr|Hr]; [rewrite Forall_forall in Hw; by apply Hw|].
      apply list_elem_of_singleton in Hr. exfalso. apply Hne. rewrite Hf. cbn. unfold brid. by rewrite Hr.
  - intros c Hc. destruct pass_chunk as [[Hn _]|(c' & l & Hf & Hin & Hcan & _ & Hlt & Hroom & Hsz & _)]; [congruence|].
    rewrite Hc in Hf. injection Hf as <-. split_and!; try done; try lia.
    rewrite Hcan, batch_tokens_snoc, (adder_cfg_page _ x) in Hslots.
    rewrite Forall_forall in Hready. destruct (Hready c Hin) as [stop Hrr]. rewrite (ready_stop _ _ _ _ Hrr) in *.
    unfold extend_length in Hslots. change (kv (sreq c)) with (bkv c) in Hslots. rewrite (rd_range _ _ _ _ Hrr) in Hslots.
    assert (1 ≤ Z.of_nat (length rs)) by (destruct rs; [by apply elem_of_nil in Hin|cbn; lia]). lia.
  - rewrite Hpool. apply Hi.
  - rewrite Hpool. apply Hi.
  - intros E. pose proof rs_sreq as Hrs. rewrite E in Hrs. by destruct (can_run_list ad').
  - rewrite Hfb. apply Hi.
Qed.

(** The load moves from the queue to the batch. *)
Definition rest_of (y : SReq) : Z := Z.of_nat (length (all_ids (kv y))) - Z.of_nat (length (prefix_indices (kv y))) + 1.

Lemma gist_sreq (l : list BReq) : gist <$> l = gist_of <$> (sreq <$> l).
Proof. by rewrite <-list_fmap_compose. Qed.
Lemma rest_sreq (l : list BReq) : weigh rest_left l = sumZ (rest_of <$> (sreq <$> l)).
Proof. unfold weigh. by rewrite <-list_fmap_compose. Qed.

Lemma queue_gists : gist_of <$> (added ++ restq) = gist <$> waiting_queue x.
Proof.
  rewrite gist_sreq. pose proof (ps_kin _ _ _ _ _ _ _ _ _ _ _ _ _ _ Hpa) as Hk. clear -Hk.
  induction Hk as [|r r' l l' Hr _ IH]; [done|]. csimpl. rewrite IH. f_equal.
  destruct Hr as [R1 R2 _ R3 R4 _ _ _]. unfold gist_of, output_len, all_ids. by rewrite R1, R2, R3, R4.
Qed.

Lemma first_gists : gist_of <$> can_run_list ad = gist <$> option_list (chunked_req x) ∧
  sumZ (rest_of <$> can_run_list ad) = weigh chunk_left (option_list (chunked_req x)).
Proof.
  pose proof (ra_case _ _ _ _ Hra) as Hc. destruct (chunked_req x) as [c|].
  - destruct Hc as (c1 & stop & _ & _ & -> & _ & _ & _ & _ & _ & _ & Hg & Hl & _). split; [cbn; by f_equal|].
    unfold weigh. cbn. f_equal. exact Hl.
  - by destruct Hc as (_ & _ & ->).
Qed.

Lemma pass_load b : reqs b = reqs (running_batch x) →
  load_le (launch_load (set_chunked final_chunk (set_queue (filter (λ r, brid r ∉ (brid <$> rs)) queue)
    (set_sys (ad_cache ad') (set_running b x)))) rs) (load x).
Proof.
  intros Hrb. destruct first_gists as [Hg Hl]. apply load_both; cbn [launch_load load fst snd set_chunked set_queue set_sys set_running
    waiting_queue running_batch chunked_req].
  - rewrite Hrb. apply Z.eq_le_incl. apply (gist_same _ (λ g, g.1.2)); [done|].
    rewrite !fmap_app, (gist_sreq (filter (λ r, brid r ∉ (brid <$> rs)) queue)), left_queue, (gist_sreq rs), rs_sreq, can_run_eq, fmap_app, Hg, <-queue_gists, fmap_app.
    rewrite <-!app_assoc. rewrite (app_assoc (gist_of <$> restq)), (Permutation_app_comm (gist_of <$> restq)). solve_perm.
  - rewrite (rest_sreq rs), rs_sreq, can_run_eq, fmap_app, sumZ_app, Hl.
    rewrite !(weigh_gist input_left (λ g, g.2 + 2)) by done. rewrite (gist_sreq (filter _ queue)), left_queue, <-queue_gists, fmap_app, fmap_app, sumZ_app.
    assert (sumZ (rest_of <$> added) ≤ sumZ ((λ g : string * Z * Z, g.2 + 2) <$> (gist_of <$> added))); [|lia].
    generalize added as l. induction l as [|y l IH]; [done|]. unfold sumZ in *. rewrite !fmap_cons. cbn [foldr gist_of snd].
    unfold rest_of at 1. lia.
Qed.

(** Nobody is admitted. *)
Lemma pass_mid b :
  can_run_list ad' = [] → batch_cols_ok b → reqs b = reqs (running_batch x) →
  is_prefill_only (flags b) = is_prefill_only (flags (running_batch x)) → (reqs b = [] → batch_is_full b = false) →
  let x' := set_sys (ad_cache ad') (set_chunked rest (set_running b (set_queue queue x))) in
  rest = None ∧ mid x' ∧ accounted x ⊆ accounted x' ∧ load x' = load x.
Proof.
  intros Hnil Hb Hrb Hfb Hop x'. unfold x'. clear x'. pose proof can_run_eq as Hc. rewrite Hnil in Hc. symmetry in Hc. apply app_nil in Hc as [Hc Ha].
  assert (Hrest : rest = None) by (destruct whole_or_rest as [[? _]|(r2 & _ & E & _)]; [done|by rewrite Hc in E]).
  assert (Hbq : brid <$> queue = brid <$> waiting_queue x) by (by rewrite (brid_sreq queue), queue_sreq, queue_rids).
  split; [done|]. destruct pass_core as (Hcore & Hrd & Hpool & _). rewrite Hnil in Hcore.
  pose proof (mi_ready _ _ _ _ _ _ Hi) as [_ _ _ Hbt].
  assert (Hch : chunked_req x = None).
  { pose proof first_rids as Hfr. rewrite Hc in Hfr. by destruct (chunked_req x). }
  split_and!.
  2:{ unfold accounted, mid_rids. cbn [set_sys set_chunked set_running set_queue waiting_queue chunked_req running_batch sent_aborts].
      rewrite Hrb, !fmap_app, Hbq, <-first_rids, Hc. set_solver. }
  2:{ assert (Hgq : gist <$> queue = gist <$> waiting_queue x) by (by rewrite (gist_sreq queue), queue_sreq, queue_gists).
      unfold load. cbn [set_sys set_chunked set_running set_queue waiting_queue chunked_req running_batch]. rewrite Hrb, Hrest, Hch. f_equal.
      - apply (gist_same _ (λ g, g.1.2)); [done|]. by rewrite !fmap_app, Hgq.
      - f_equal. apply (gist_same _ (λ g, g.2 + 2)); [done|]. by rewrite Hgq. }
  split; cbn [set_chunked set_queue set_sys set_running sys running_batch waiting_queue chunked_req new_token_ratio_tracker sched_policy];
    rewrite ?Hrb, ?Hrest; try apply Hi.
  - split; [done| |done|by rewrite Hrb]. rewrite Hrb, app_nil_r. exact Hcore.
  - pose proof rest_queued as Hq. pose proof queue_sreq as Hqs. rewrite Ha in Hqs. cbn in Hqs. rewrite <-Hqs, Forall_fmap in Hq. exact Hq.
  - rewrite fmap_app, Hbq. pose proof all_ids_distinct as Hn. cbn [option_list fmap list_fmap app].
    eapply submseteq_NoDup; [|exact Hn]. apply submseteq_app; [done|]. by apply submseteq_inserts_l.
  - constructor.
  - rewrite Hpool. apply Hi.
  - rewrite Hpool. apply Hi.
  - rewrite <-Hrb. done.
  - rewrite Hfb. apply Hi.
Qed.

Lemma pass_accounted b : reqs b = reqs (running_batch x) →
  accounted x ⊆ (brid <$> filter (λ r, brid r ∉ (brid <$> rs)) queue ++ rs ++ filter running (reqs b)) ++ sent_aborts x.
Proof.
  intros Hrb. unfold accounted, mid_rids. rewrite Hrb, !fmap_app, (brid_sreq (filter (λ r, brid r ∉ (brid <$> rs)) queue)), left_queue, rs_brid.
  rewrite <-queue_rids, fmap_app. set_solver.
Qed.
End one_pass.

Lemma bump_brid (c : option BReq) : brid <$> (bump_chunks <$> c) = brid <$> c.
Proof. by destruct c. Qed.

Lemma launch_prefill_ok U now rs (c : option BReq) x :
  c = None ∨ chunked_req x = None →
  due_ids U ⊆ (brid <$> filter (λ r, brid r ∉ (brid <$> rs)) (waiting_queue x) ++ rs ++ filter running (reqs (running_batch x))) ++ sent_aborts x →
  load_le (launch_load (set_chunked (match c with Some c => Some c | None => chunked_req x end)
    (set_queue (filter (λ r, brid r ∉ (brid <$> rs)) (waiting_queue x)) x)) rs) (due_load U) →
  launch_inv cfg sc S0 ctx (set_chunked (match c with Some c => Some c | None => chunked_req x end)
    (set_queue (filter (λ r, brid r ∉ (brid <$> rs)) (waiting_queue x)) x)) rs →
  ∃ l x', launch_prefill cfg sc now rs [] c x = Ok (Some l, x') ∧ good_launch cfg sc S0 ctx verdict U l x'.
Proof.
  intros Hc HU HL Hl. unfold launch_prefill. cbn [add_requests]. py_run.
  set (F := match c with Some c => Some c | None => chunked_req x end) in *.
  set (X := set_queue (filter _ _) x) in *.
  assert ((match c with
      | None => Ok (chunked_req X)
      | Some c => let! _ := py_assert (match chunked_req X with None => true | Some _ => false end) in Ok (Some c)
      end) = Ok F) as ->.
  { unfold F. destruct c as [c|]; [|done]. destruct Hc as [|Hc]; [done|]. unfold X. cbn [set_queue chunked_req]. by rewrite Hc. }
  py_run. rewrite bump_brid. fold (bumped F). set (pb := Z.max _ _).
  assert (Hl' : launch_inv cfg sc S0 ctx (set_prefill_bs pb (set_chunked F X)) rs).
  { destruct Hl. by split. }
  set (flag := match bump_chunks <$> F with None => true | Some _ => _ end).
  destruct (launch_ok cfg sc gather Hpv S0 ctx Hnd Htotal verdict Hstop U _ rs (overlap_on sc) flag Hl' HU HL) as (bp & s1 & Hprep & Hgood).
  cbn [set_prefill_bs sys chunked_req set_chunked] in Hprep |- *. unfold X in *. cbn [set_queue sys running_batch] in Hprep |- *.
  rewrite Hprep. py_run. unfold mix_running. rewrite (pv_mixed _ _ _ Hpv). cbn [andb rbind].
  eexists _, _. split; [done|]. exact Hgood.
Qed.

(** The outcome of a way to choose a prefill batch: one that ends well, or none; what is
    due stays covered, and a server that does nothing has a reason to. *)
Definition chosen (U : Due) (ob : option Launched) x : Prop :=
  match ob with
  | None => chunked_req x = None ∧ mid x ∧ covered U x ∧ (due_slack U ∨ waiting_queue x = [])
  | Some l => good_launch cfg sc S0 ctx verdict U l x
  end.

(** With nothing that runs and no chunk, a waiting request is admitted. *)
Lemma pass_idle x exec full q ad' :
  mid x → reqs (running_batch x) = [] → chunked_req x = None → waiting_queue x ≠ [] →
  add_waiting (acfg x) gather perf_counter (pp_max_micro_batch_size sc) false (schedule_low_priority_values_first sc) None
    (batch_is_full (running_batch x)) (sreq <$> waiting_queue x) (new_adder cfg sc exec x) = Ok (full, q, ad') →
  can_run_list ad' ≠ [] ∨ full = false ∧ exec ≠ None.
Proof.
  intros Hi Hr Hc Hw Hadd. rewrite (mi_open _ _ _ _ _ _ Hi Hr) in Hadd.
  assert (Hq : Forall (queued prio ctx (Z.of_nat (length S0))) (sreq <$> waiting_queue x)) by (rewrite <-Htotal; apply Forall_fmap; apply Hi).
  assert (∃ r l, sreq <$> waiting_queue x = r :: l) as (r & l & Hwq) by (destruct (waiting_queue x); [done|by eexists _, _]).
  rewrite Hwq in Hadd, Hq. pose proof (new_adder_ok x exec Hi) as Hb. unfold batch_kvs in Hb. rewrite Hr, Hc in Hb.
  assert (Hrows : (0 < pool_available_size (req_to_token_pool (sys x)))%nat).
  { pose proof (sv_rows _ _ _ _ _ (bg_core _ _ _ _ _ _ _ _ _ _ Hb)) as Hp. unfold pool_inv in Hp. cbn in Hp. rewrite app_nil_r in Hp.
    unfold pool_available_size. apply Permutation_length in Hp. rewrite length_seq in Hp.
    pose proof (mi_size _ _ _ _ _ _ Hi). lia. }
  eapply (idle_pass cfg Hdis false spec steps (acfg x) gather perf_counter (adder_cfg_ok _ x) (adder_cfg_page _ x)
    (adder_cfg_plain _ x) eq_refl eq_refl (pv_prefills _ _ _ Hpv) prio ctx S0 Hnd (req_to_token_pool (sys x)) _ _ r l
    (new_adder cfg sc exec x) full q ad'); [|apply (pv_micro _ _ _ Hpv)|done|done|exact Hadd].
  split; try done.
  - unfold new_adder. cbn. by rewrite Hr.
  - unfold new_adder. rewrite (pv_mixed _ _ _ Hpv). cbn. rewrite Hr. done.
  - unfold new_adder. rewrite (pv_mixed _ _ _ Hpv). cbn. destruct (chunked_prefill_size sc) as [c|] eqn:Hch; [|done].
    intros ? [= <-]. pose proof (pv_chunk _ _ _ Hpv c Hch). lia.
Qed.

Lemma prefill_pass_ok U now exec x :
  mid x → covered U x → (exec ≠ None → due_slack U) →
  ∃ ob exec' x', prefill_pass cfg sc gather perf_counter now exec x = Ok (ob, exec', x') ∧ chosen U ob x'.
Proof.
  intros Hi HU Hex. unfold prefill_pass. destruct (readd_ok x exec Hi) as (rest & first & ad & Hrd & Hra). rewrite Hrd. py_run.
  rewrite (pv_preempt _ _ _ Hpv), (pv_align _ _ _ Hpv).
  assert (Hq : Forall (queued prio ctx pool) (sreq <$> waiting_queue x)) by (apply Forall_fmap; apply Hi).
  destruct (queue_pass cfg Hdis false spec steps (acfg x) gather perf_counter (adder_cfg_ok _ x) (adder_cfg_page _ x)
    (adder_cfg_plain _ x) prio ctx pool S0 (batch_kvs x) (req_to_token_pool (sys x)) (pp_max_micro_batch_size sc)
    (schedule_low_priority_values_first sc) (batch_is_full (running_batch x)) (sreq <$> waiting_queue x) ad
    (ra_batching _ _ _ _ Hra) Hq) as (full & added & restq & ad' & Hadd & Hpa).
  unfold sched_cache. unfold pass_cache in Hadd. rewrite Hadd. py_run.
  destruct (ra_running _ _ _ _ Hra) as (Hrn & Hpe & _). destruct (ps_same _ _ _ _ _ _ _ _ _ _ _ _ _ _ Hpa) as [Hs1 Hs2].
  rewrite Hs1, Hrn, Hs2, Hpe. cbn [default from_option id].
  destruct (drop_preempted_ok (running_batch x)) as (b & Hb & Hcols & Hrb & Hfb); [apply Hi|]. unfold default, from_option. rewrite Hb. py_run.
  destruct HU as (HU & HL & HS & HP).
  destruct (Nat.eqb_spec (length (can_run_list ad')) 0) as [Hz|Hz].
  { apply nil_length_inv in Hz. eexists _, _, _. split; [done|].
    assert (Hch : chunked_req x = None).
    { pose proof (first_rids x rest first ad ad' Hra) as Hfr. pose proof (ps_list _ _ _ _ _ _ _ _ _ _ _ _ _ _ Hpa) as Hce.
      rewrite Hz in Hce. symmetry in Hce. apply app_nil in Hce as [Hce _]. rewrite Hce in Hfr. by destruct (chunked_req x). }
    assert (Had : ad = new_adder cfg sc exec x).
    { rewrite Hch in Hrd. cbn [readd_chunked] in Hrd. by simplify_eq. }
    assert (Hidle : reqs (running_batch x) = [] → full = false ∧ (due_slack U ∨ waiting_queue x = [])).
    { intros Hr. destruct (waiting_queue x) as [|r0 q0] eqn:Hwq; [|rewrite <-Hwq in *].
      - cbn in Hadd. simplify_eq. split; [by apply Hi|by right].
      - rewrite Had in Hadd. destruct (pass_idle x exec full _ ad' Hi Hr Hch ltac:(by rewrite Hwq) Hadd) as [?|[-> He]]; [done|].
        split; [done|left; auto]. }
    destruct (pass_mid x rest first ad ad' added restq Hi Hra Hpa (set_full full b) Hz) as (Hr & Hm & Ha & Hld);
      [by apply set_full_cols|done|done| |].
    { cbn [set_full reqs batch_is_full]. rewrite Hrb. by apply Hidle. }
    split_and!; [exact Hr|exact Hm| | ].
    - split_and!; [by etrans|by rewrite Hld|..]; cbn [set_sys set_chunked set_running running_batch set_full reqs flags]; by rewrite Hrb, ?Hfb.
    - destruct (decide (reqs (running_batch x) = [])) as [Hr0|Hr0]; [|left; auto]. destruct (Hidle Hr0) as [_ [?|Hwq]]; [by left|right].
      cbn [set_sys set_chunked set_running set_queue waiting_queue]. rewrite Hwq. unfold rejoin. cbn.
      generalize (added ++ restq) as l. by induction l. }
  assert (Hsome : can_run_list ad' ≠ []) by (by intros E; rewrite E in Hz).
  pose proof (pass_launch x rest first ad ad' added restq Hi Hra Hpa (set_full full b) ltac:(by apply set_full_cols) Hrb Hfb Hsome) as Hl.
  set (X := set_sys _ _).
  destruct (launch_prefill_ok U now (rejoin (option_list first ++ waiting_queue x) (can_run_list ad')) (new_chunk x first ad') X)
    as (l & x' & Hrun & Hg).
  { destruct (pass_chunk x rest first ad ad' added restq Hi Hra Hpa) as [[Hf _]|(c & l & _ & _ & _ & _ & _ & _ & _ & Hor)]; [|exact Hor].
    unfold final_chunk in Hf. left. by destruct (new_chunk x first ad'). }
  { etrans; [exact HU|]. exact (pass_accounted x rest first ad ad' added restq Hi Hra Hpa (set_full full b) Hrb). }
  { etrans; [|exact HL]. exact (pass_load x rest first ad ad' added restq Hi Hra Hpa (set_full full b) Hrb). }
  { exact Hl. }
  unfold new_chunk in Hrun. cbn [preempted_reqs omap list_omap]. rewrite Hrun. py_run. eexists _, _, _. split; [done|]. exact Hg.
Qed.
End step.
