(* ===== verification/LoopInv.v ===== *)
(** An iteration of the scheduler loop: the next batch is a prefill batch or the running
    batch, its results leave the scheduler in order, and the self checks find nothing. *)

From stdpp Require Import base gmap strings list relations.
From Stdlib Require Import ZArith QArith Lia Lqa.
From S2P Require Import Prelude.
From S2P Require Import PyData.
From S2P Require Import RadixKey.
From S2P Require Import RadixTree.
From S2P Require Import RadixInv.
From S2P Require Import RadixContent.
From S2P Require Import RadixOps.
From S2P Require Import RadixInsert.
From S2P Require Import RadixEvict.
From S2P Require Import RadixSession.
From S2P Require Import ReqCache.
From S2P Require Import ReqCacheInv.
From S2P Require Import ReqAlloc.
From S2P Require Import ReqLife.
From S2P Require Import BatchAlloc.
From S2P Require Import Delayer.
From S2P Require Import PrefillAdder.
From S2P Require Import ScheduleBatch.
From S2P Require Import BatchInv.
From S2P Require Import ServeInv.
From S2P Require Import ServeOps.
From S2P Require Import Room.
From S2P Require Import ExtendInv.
From S2P Require Import MemCheck.
From S2P Require Import RatioInv.
From S2P Require Import DecodeInv.
From S2P Require Import ResultInv.
From S2P Require Import ServeLoop.
From S2P Require Import PrefillAdderInv.
From S2P Require Import PassInv.
From S2P Require Import SchedulePolicy.
From S2P Require Import SchedulePolicyInv.
From S2P Require Import Scheduler.
From S2P Require Import Load.
From S2P Require Import QueueInv.
From S2P Require Import SchedulerInv.
From S2P Require Import AbortInv.
From S2P Require Import LaunchInv.
From S2P Require Import PassStep.

Open Scope Z_scope.

Section loop.
Context {A : Type} `{KVPool A} `{!KVPoolTotal A} `{!KVPoolSlots A} `{KVAlloc A} `{!KVAllocLaws A} `{KVPaged A}.
Context `{KVGroup A} `{!KVGroupLaws A} `{KVFreeList A} `{!KVFreeListLaws A} `{Env} `{!EnvLaws} `{HeapQ} `{!HeapQLaws}.
Variables (cfg : Config) (sc : SchedCfg) (gather : Delayer.Info → list Delayer.Info) (perf_counter : nat → Q).
Hypothesis Hpv : plain_server cfg sc gather.
Variables (S0 : list Z) (ctx : nat).
Hypothesis Hnd : NoDup S0.
Hypothesis Htotal : max_total_num_tokens sc = Z.of_nat (length S0).
Variable verdict : nat → BReq → bool.
Hypothesis Hstop : ∀ n r, verdict n r = false → output_len (sreq r) < max_new_tokens (sreq r).
Notation prio := (priority_scheduling_on sc).
Notation pool := (max_total_num_tokens sc).
Notation Hdis := (pv_cache _ _ _ Hpv).
Notation Hps1 := (pv_page _ _ _ Hpv).
Implicit Types (x : Scheduler A) (s : Sys A).
Notation mid := (mid_inv cfg sc S0 ctx (stashed sc ctx)).
Notation good := (good_launch cfg sc S0 ctx verdict).
Notation chosen := (chosen cfg sc S0 ctx verdict).

(** ** The running batch decodes *)

Lemma lively_fits r : between r → lively sc ctx r → (kv_committed_len (bkv r) < ctx)%nat.
Proof.
  intros [Hl _ _] [[_ Hf _ _ _ _] Ho]. unfold all_ids in Hl. rewrite length_app in Hl. unfold output_len in Ho.
  change (kv (sreq r)) with (bkv r) in *. lia.
Qed.

Lemma lively_retracted r : between r → running r → lively sc ctx r → queued prio ctx pool (sreq (retracted_req r)).
Proof.
  intros Hb Hn [[D1 D2 D3 D4 D5 D6] _]. split; [by split|by apply (between_retracted cfg Hps1)|done].
Qed.

Lemma decode_outcome r t :
  between r → running r → lively sc ctx r → in_batch ctx r →
  let r' := after_tokens verdict [t] (decode_one r) in
  brid r' = brid r ∧ in_batch ctx r' ∧ (running r' → lively sc ctx r') ∧ tokens_left r' + 1 = tokens_left r.
Proof.
  intros Hb Hn Hlv [[T1 T2 T3 T4] _ _]. pose proof (lively_fits r Hb Hlv) as Hfit. destruct Hlv as [[D1 D2 D3 D4 D5 D6] Hout].
  unfold after_tokens. set (r1 := append_tokens verdict [t] (decode_one r)). cbv zeta.
  assert (Ho1 : output_len (sreq r1) = output_len (sreq r) + 1).
  { change (Z.of_nat (length (output_ids (bkv r) ++ [t])) = Z.of_nat (length (output_ids (bkv r))) + 1). rewrite length_app. cbn [length]. lia. }
  assert (Hm1 : max_new_tokens (sreq r1) = max_new_tokens (sreq r)) by done.
  assert (Ht1 : tidy ctx r1).
  { split; [done|done| |]; change (bkv r1) with (with_output (output_ids (bkv r) ++ [t]) (inflight_middle_chunks (bkv r)) (bkv (decode_one r)));
      cbn; rewrite T3 in *; [done|]. change (kv (sreq r)) with (bkv r). lia. }
  assert (Htk : tokens_left r1 + 1 = tokens_left r) by (unfold tokens_left; lia).
  destruct (is_finished (sreq r1)) eqn:Hfin.
  - split; [done|]. split; [|split; [|exact Htk]].
    + split; [|done|change (output_len (sreq r1) ≤ max_new_tokens (sreq r1)); lia].
      destruct Ht1 as [_ _ U3 U4]. split; [done|by intros [? [=]]|exact U3|exact U4].
    + intros Hr. change (is_finished (sreq r1) = false) in Hr. congruence.
  - split; [done|]. split; [|split; [|exact Htk]].
    + split; [done|by intros Hx; destruct Hx|lia].
    + intros _. unfold r1, append_tokens in Hfin. cbn [with_sreq with_finished is_finished sreq] in Hfin.
      apply orb_false_iff in Hfin as [_ Hv]. apply Hstop in Hv. split; [|exact Hv].
      split; [done|done|change (output_len (sreq r1) < max_new_tokens (sreq r1)) in Hv; lia|done|done|done].
Qed.

Lemma decode_outcomes (l : list BReq) toks rs :
  Forall (λ r, between r ∧ running r ∧ lively sc ctx r ∧ in_batch ctx r) l → length toks = length l →
  Forall2 (λ '(r, t) r', decode_result verdict t r r') (zip (decode_one <$> l) ((λ y, [y]) <$> toks)) rs →
  brid <$> rs = brid <$> l ∧ Forall (in_batch ctx) rs ∧ Forall (lively sc ctx) (filter running rs) ∧
  weigh tokens_left (filter running rs) + Z.of_nat (length l) ≤ weigh tokens_left l.
Proof.
  intros Hl. revert toks rs. induction Hl as [|r l (Hb & Hn & Hlv & Hib) _ IH]; intros [|t toks] rs Hlen Hf; try done.
  { apply Forall2_nil_inv_l in Hf as ->. by split_and!. }
  csimpl in Hf. apply Forall2_cons_inv_l in Hf as (r' & rs' & [Hres _] & Hf & ->).
  destruct (between_decoded cfg Hps1 r Hb Hn) as [Ha _]. specialize (Hres Ha). subst r'.
  destruct (IH toks rs' ltac:(by injection Hlen) Hf) as (I1 & I2 & I3 & I4).
  destruct (decode_outcome r t Hb Hn Hlv Hib) as (O1 & O2 & O3 & O4). csimpl. rewrite O1, I1. split_and!; [done|by constructor|..].
  - rewrite filter_cons. case_decide; [constructor; auto|done].
  - destruct Hlv as [_ Ho]. rewrite filter_cons, weigh_cons. unfold tokens_left in *. case_decide; rewrite ?weigh_cons; lia.
Qed.

Lemma update_running_batch_mode args steps test b t s b' retracted aborted t' s' :
  update_running_batch cfg false args steps test b t s = Ok (b', retracted, aborted, t', s') → reqs b' ≠ [] →
  forward_mode b' = Some DECODE.
Proof.
  unfold update_running_batch. intros Hu Hne. inv_ok. case_match; inv_ok.
  { match goal with E : is_empty _ = true |- _ => unfold is_empty in E; apply Nat.eqb_eq, nil_length_inv in E end. done. }
  repeat (case_match; inv_ok); try (unfold is_empty in *; match goal with E : (length _ =? 0)%nat = true |- _ =>
    apply Nat.eqb_eq, nil_length_inv in E end; done).
  all: match goal with E : prepare_for_decode _ _ _ = Ok _ |- _ => unfold prepare_for_decode in E; inv_ok; repeat (case_match; inv_ok); done end.
Qed.

Lemma mid_no_chunk K K' x : chunked_req x = None → mid_inv cfg sc S0 ctx K x → mid_inv cfg sc S0 ctx K' x.
Proof. intros Hc []. split; try done. by rewrite Hc. Qed.

(** The running requests of a batch, with what the invariant says of each. *)
Lemma mid_running K x : mid_inv cfg sc S0 ctx K x →
  Forall (λ r, between r ∧ running r ∧ lively sc ctx r ∧ in_batch ctx r) (filter running (reqs (running_batch x))).
Proof.
  intros Hi. pose proof (mi_lively _ _ _ _ _ _ Hi) as Hl. pose proof (dr_reqs _ _ _ _ _ _ (mi_ready _ _ _ _ _ _ Hi)) as Hb.
  pose proof (mi_batch _ _ _ _ _ _ Hi) as Hib. rewrite Forall_forall in Hl, Hb, Hib. apply Forall_forall.
  intros r Hr. pose proof Hr as [Hn Hin]%list_elem_of_filter. auto.
Qed.

(** The tokens of a decode batch. *)
Lemma decode_good U x l b (kept : list BReq) :
  reqs b ≡ₚ decode_one <$> kept → Forall (λ r, between r ∧ running r ∧ lively sc ctx r ∧ in_batch ctx r) kept →
  batch_cols_ok b → forward_mode b = Some DECODE → lb_batch l = b → lb_is_running l = true →
  chunked_req x = None → running_batch x = b →
  serve_core cfg S0 (sys x) ((bkv <$> reqs b) ++ []) [] → kv_ready (allocator (cache (sys x))) →
  Forall (λ r, queued prio ctx pool (sreq r)) (waiting_queue x) →
  NoDup ((brid <$> waiting_queue x) ++ (brid <$> kept)) → tracker_ok (new_token_ratio_tracker x) →
  enable_priority_scheduling (sched_policy x) = prio → max_context_len (req_to_token_pool (sys x)) = ctx →
  (0 < rp_size (req_to_token_pool (sys x)))%nat → reqs b ≠ [] → is_prefill_only (flags b) = false →
  due_ids U ⊆ (brid <$> waiting_queue x) ++ (brid <$> kept) ++ sent_aborts x →
  weigh tokens_left (waiting_queue x ++ kept) ≤ (due_load U).1 → good U l x.
Proof.
  intros Hk Hall Hcols Hmode Hlb Hlr Hch Hrb Hcore Hrd Hq Hids Hrt Hpo Hcx Hsz Hne Hfl HU HL toks Hlen. rewrite Hlb in Hlen.
  apply Permutation_map_inv in Hk as (k & Hkeq & Hkk). rewrite Hkk in Hall, Hids, HL.
  assert (HU' : due_ids U ⊆ (brid <$> waiting_queue x) ++ (brid <$> k) ++ sent_aborts x) by (intros id Hid%HU; by rewrite Hkk in Hid).
  clear HU Hkk kept.
  assert (Hbt : Forall between k) by (eapply Forall_impl; [exact Hall|]; by intros ? []).
  assert (Hrn : Forall running k) by (eapply Forall_impl; [exact Hall|]; by intros ? (_ & ? & _)).
  destruct (decode_process_ok cfg Hdis Hps1 verdict S0 (sys x) b k [] [] (enable_overlap b) toks Hkeq Hbt Hrn Hcols Hcore Hrd Hlen)
    as (rs & s2 & Hproc & Hres & Hready & Hm).
  rewrite Hkeq in Hres. destruct (decode_outcomes k toks rs Hall) as (Hb & Hib & Hlv & Hwt); [by rewrite Hlen, Hkeq, length_fmap|done|].
  unfold process_batch_result. rewrite Hlb. unfold is_extend. rewrite Hmode. unfold spec_on. rewrite (pv_spec _ _ _ Hpv), Hproc. py_run.
  eexists _, _. split; [done|]. set (x2 := set_last _ _).
  assert (Hmid : mid_inv cfg sc S0 ctx (computed sc ctx) x2).
  { split; cbn [x2 set_last set_sys set_running sys running_batch chunked_req waiting_queue new_token_ratio_tracker sched_policy];
      rewrite ?Hch; try done.
    - cbn [option_list app reqs set_reqs]. rewrite fmap_app. eapply submseteq_NoDup; [|exact Hids]. apply submseteq_app; [done|].
      rewrite <-Hb. apply fmap_submseteq, sublist_submseteq, sublist_filter.
    - rewrite (dims_ctx _ _ Hm). done.
    - rewrite (dims_size _ _ Hm). done.
    - cbn [set_reqs reqs]. intros E. rewrite E in Hb. symmetry in Hb. apply fmap_nil_inv in Hb. by rewrite Hkeq, Hb in Hne.
    - cbn [set_reqs flags]. by rewrite Hfl. }
  assert (Hme : merge_last (chunked_req x2) (last_batch x2) (running_batch x2) =
    Ok (set_reqs rs b, Some (set_batch (set_reqs rs b) l))).
  { cbn [x2 set_last last_batch merge_last set_batch lb_batch]. unfold is_extend. cbn [forward_mode set_reqs]. by rewrite Hmode. }
  split_and!.
  - exists (set_reqs rs b), (Some (set_batch (set_reqs rs b) l)). split; [exact Hme|]. split; [exact Hmid|].
    intros id. cbn [x2 set_last set_sys set_running chunked_req]. by rewrite Hch.
  - unfold busy_check. cbn [x2 set_last last_batch set_batch lb_batch lb_is_running]. rewrite Hlr. cbn [set_reqs reqs].
    destruct Hready as [_ Hc2 Hrd2 _]. eapply (self_check_ok cfg sc gather Hpv S0 ctx Hnd); [exact Hc2|done|cbn; by rewrite (dims_ctx _ _ Hm)|done| |].
    + by rewrite app_nil_r, app_nil_r.
    + rewrite app_nil_r. eapply Forall_impl; [exact Hib|]. by intros r [].
  - split.
    2:{ left. unfold held_load. rewrite Hme. unfold load. cbn [fst set_running waiting_queue chunked_req running_batch].
        change (waiting_queue x2) with (waiting_queue x). change (chunked_req x2) with (chunked_req x). rewrite Hch.
        change (option_list None) with (@nil BReq). cbn [app]. rewrite weigh_app in *. cbn [set_reqs reqs].
        assert (1 ≤ Z.of_nat (length k)); [|lia]. destruct k; [by rewrite Hkeq in Hne|cbn; lia]. }
    intros id Hid%HU'. unfold held_rids. rewrite Hme. unfold mid_rids. cbn [set_running waiting_queue chunked_req running_batch reqs set_reqs].
    change (waiting_queue x2) with (waiting_queue x). change (sent_aborts x2) with (sent_aborts x).
    cbn [set_batch lb_batch reqs set_reqs]. rewrite !fmap_app, !elem_of_app. rewrite !elem_of_app, <-Hb in Hid.
    destruct Hid as [Hid|[Hid|Hid]]; [by left; left| |by right; left]. apply list_elem_of_fmap in Hid as (r & -> & Hr).
    destruct (decide (running r)).
    + left. right. right. apply list_elem_of_fmap. exists r. split; [done|]. by apply list_elem_of_filter.
    + right. right. apply list_elem_of_fmap. exists r. split; [done|]. by apply list_elem_of_filter.
Qed.

Lemma tracker_updated t t' (kept : list BReq) :
  tracker_ok t → Forall (λ r, between r ∧ running r ∧ lively sc ctx r ∧ in_batch ctx r) kept →
  (t' = t ∨ t' = decay_step t ∨
    ∃ l, l ≡ₚ kept ∧ t' = set_current (estimate_new_token_ratio_after_retract (retract_decode_steps sc) l) t) → tracker_ok t'.
Proof.
  intros Ht Hk [->|[->|(l & Hl & ->)]]; [done|by apply decay_step_ok|]. apply set_current_ok; [|done]. apply estimate_range.
  - apply (pv_steps _ _ _ Hpv).
  - rewrite Hl. eapply Forall_impl; [exact Hk|]. intros r (_ & _ & [_ Ho] & _). unfold output_len in *. split; lia.
Qed.

(** [update_running_batch] leaves the flags alone, and a batch it empties takes requests again. *)
Lemma prepare_for_decode_flags b s b' s' :
  prepare_for_decode cfg b s = Ok (b', s') →
  flags b' = flags b ∧ batch_is_full b' = batch_is_full b ∧ reqs b' = decode_one <$> reqs b.
Proof. unfold prepare_for_decode. intros Hp. inv_ok. repeat (case_match; inv_ok); done. Qed.

Lemma retract_decode_flags args steps b s b' retracted aborted q s' :
  retract_decode cfg false args steps b s = Ok (b', retracted, aborted, q, s') → is_prefill_only (flags b') = is_prefill_only (flags b).
Proof.
  unfold retract_decode. intros Hr. inv_ok. repeat (case_match; inv_ok).
  match goal with E : filter_keep _ _ = Ok _ |- _ => apply filter_keep_flags in E as [-> _] end. done.
Qed.

Lemma update_running_batch_flags args steps test b t s b' retracted aborted t' s' :
  update_running_batch cfg false args steps test b t s = Ok (b', retracted, aborted, t', s') →
  is_prefill_only (flags b') = is_prefill_only (flags b) ∧ (reqs b' = [] → batch_is_full b' = false).
Proof.
  unfold update_running_batch. intros Hu. destruct (filter_batch [] None b) as [b1|] eqn:Hf; [|done]. cbn [rbind] in Hu.
  destruct (filter_keep_flags _ _ _ Hf) as [Hf1 _]. unfold is_empty at 1 in Hu.
  destruct (Nat.eqb_spec (length (reqs b1)) 0) as [Hz|Hz]; [by simplify_eq|].
  assert (Hne : (0 < batch_size b)%nat).
  { unfold batch_size. destruct (reqs b) eqn:Hb; [|cbn; lia]. unfold filter_batch, filter_keep in Hf. rewrite Hb in Hf. cbn in Hf.
    by simplify_eq. }
  destruct (check_decode_mem _ _ _ _ _) as [[enough s1]|]; [|done]. cbn [rbind] in Hu.
  match type of Hu with rbind ?m _ = _ => destruct m as [[[[[b2 re] ab] t2] s2]|] eqn:Hr end; [|done]. cbn [rbind] in Hu.
  assert (Hf2 : is_prefill_only (flags b2) = is_prefill_only (flags b)).
  { rewrite <-Hf1. destruct (_ || _); [|by simplify_eq]. destruct (retract_decode _ _ _ _ _ _) as [[[[[b3 ?] ?] ?] ?]|] eqn:E; [|done].
    cbn [rbind] in Hr. simplify_eq. by eapply retract_decode_flags. }
  set (b3 := if (batch_size b2 <? batch_size b)%nat then set_full false b2 else b2) in *.
  assert (Hf3 : is_prefill_only (flags b3) = is_prefill_only (flags b) ∧ (reqs b3 = [] → batch_is_full b3 = false)).
  { unfold b3. destruct (Nat.ltb_spec (batch_size b2) (batch_size b)) as [|Hge]; [by rewrite <-Hf2|]. split; [done|].
    intros E. unfold batch_size in Hge at 2. rewrite E in Hge. cbn in Hge. lia. }
  destruct (is_empty b3) eqn:He; [by simplify_eq|].
  destruct (prepare_for_decode _ _ _) as [[b4 s4]|] eqn:Hp; [|done]. cbn [rbind] in Hu. simplify_eq.
  destruct (prepare_for_decode_flags _ _ _ _ Hp) as (-> & _ & Hrq). split; [apply Hf3|]. intros E. rewrite Hrq in E.
  apply fmap_nil_inv in E. unfold is_empty in He. by rewrite E in He.
Qed.

(** The outcome of an iteration without a batch: nothing runs, and the load is lighter or
    there is a reason to wait. *)
Definition decided (U : Due) (ob : option Launched) x : Prop :=
  match ob with
  | None => chunked_req x = None ∧ mid x ∧ due_ids U ⊆ accounted x ∧ reqs (running_batch x) = [] ∧
      (load_lt (load x) (due_load U) ∨ load_le (load x) (due_load U) ∧ (due_slack U ∨ waiting_queue x = []))
  | Some l => good U l x
  end.

(** What [update_running_batch] and the way back into the queue leave: the requests [kept],
    those that are [gone] back to the queue, and the one that is aborted. *)
Record decode_step x (b : ScheduleBatch) (q : list BReq) (ids : list string) t s (kept gone ab : list BReq) : Prop := {
  ds_split : filter running (reqs (running_batch x)) ≡ₚ kept ++ gone ++ ab;
  ds_kept : reqs b ≡ₚ decode_one <$> kept;
  ds_core : serve_core cfg S0 s ((bkv <$> reqs b) ++ []) [];
  ds_ready : kv_ready (allocator (cache s));
  ds_cols : batch_cols_ok b;
  ds_none : ab = [] ∧ (kept = [] → gone = []) ∨ length ab = 1%nat ∧ kept = [];
  ds_queue : Forall (λ r, queued prio ctx pool (sreq r)) q;
  ds_gists : gist <$> q ⊆+ gist <$> (waiting_queue x ++ gone);
  ds_cover : ∀ id, id ∈ brid <$> (waiting_queue x ++ gone ++ ab) → id ∈ brid <$> q ∨ id ∈ ids;
  ds_tracker : tracker_ok t;
  ds_dims : pool_dims s = pool_dims (sys x);
  ds_flags : is_prefill_only (flags b) = false;
  ds_open : reqs b = [] → batch_is_full b = false;
  ds_mode : reqs b ≠ [] → forward_mode b = Some DECODE;
}.
Notation stepped x b q ids t s := (set_queue q (send_aborts ids (set_sys s (set_tracker t (set_running b x))))).

Lemma send_aborts_twice ids ids' x : send_aborts ids' (send_aborts ids x) = send_aborts (ids ++ ids') x.
Proof. unfold send_aborts. cbn. by rewrite app_assoc. Qed.

Lemma decode_step_ok now test x :
  mid x → chunked_req x = None → reqs (running_batch x) ≠ [] → is_prefill_only (flags (running_batch x)) = false →
  ∃ b q ids t s kept gone ab, decode_running cfg sc now test x =
      Ok (if negb (is_empty b) then Some (mkLaunched b None [] true true) else None, stepped x b q ids t s) ∧
    decode_step x b q ids t s kept gone ab.
Proof.
  intros Hi Hch Hne Hnp. unfold decode_running. rewrite Hnp. unfold is_empty at 1.
  destruct (Nat.eqb_spec (length (reqs (running_batch x))) 0) as [Hz|_]; [by apply nil_length_inv in Hz|]. cbn [negb andb].
  pose proof (mid_running _ _ Hi) as Hall. pose proof (mi_ready _ _ _ _ _ _ Hi) as [Hcols Hcore Hrd Hbt]. rewrite Hch in Hcore.
  destruct (update_running_batch_ok cfg Hdis Hps1 (spec_args sc) (retract_decode_steps sc) (pv_spec _ _ _ Hpv) [] S0 (sys x)
    (running_batch x) [] test (new_token_ratio_tracker x)) as
    (b & retracted & aborted & t & s & kept & gone & ab & Hrun & Hsplit & Hk & Hgone & Hab & Hc' & Hrd' & Hb' & Hkept & _ & _ & Ht & Hm & _).
  { done. }
  { split; [done|done|]. eapply Forall_impl; [exact Hbt|]. intros r [Hl _ _]. lia. }
  { rewrite (mi_ctx _ _ _ _ _ _ Hi). eapply Forall_impl; [exact Hall|]. intros r (? & _ & ? & _). by apply lively_fits. }
  rewrite Hrun. py_run. rewrite Hsplit in Hall. apply Forall_app in Hall as [Hak Hag]. apply Forall_app in Hag as [Hag _].
  set (X := send_aborts (brid <$> aborted) _).
  destruct (add_requests_ok sc ctx (pv_queue _ _ _ Hpv) now retracted X) as (q & ids & Hadd & Hq & Hqs & Hqc).
  { rewrite Hgone. apply Forall_fmap. eapply Forall_impl; [exact Hag|]. intros r (? & ? & ? & _). by apply lively_retracted. }
  { apply Hi. }
  rewrite Hadd. py_run. unfold X at 1. rewrite send_aborts_twice. eexists b, q, _, t, s, kept, gone, ab. split; [done|].
  destruct (update_running_batch_flags _ _ _ _ _ _ _ _ _ _ _ Hrun) as [Hfl Hop].
  assert (Hrid : gist <$> retracted = gist <$> gone) by (rewrite Hgone, <-list_fmap_compose; by apply list_fmap_ext).
  assert (Hrid2 : brid <$> aborted = brid <$> ab) by (rewrite Hab, <-list_fmap_compose; by apply list_fmap_ext).
  cbn [X send_aborts set_sys waiting_queue set_tracker set_running] in Hqs, Hqc. split; try done.
  - rewrite fmap_app, <-Hrid, <-fmap_app. exact Hqs.
  - intros id. specialize (Hqc id). rewrite !fmap_app, (gist_fmap_brid _ _ Hrid), Hrid2, !elem_of_app in *. tauto.
  - eapply tracker_updated; [apply Hi|exact Hak|exact Ht].
  - by rewrite Hfl.
  - intros Hb. by eapply update_running_batch_mode.
Qed.

Section decoding.
Variables (x : Scheduler A) (b : ScheduleBatch) (q : list BReq) (ids : list string) (t : NewTokenRatioTracker) (s : Sys A).
Variables (kept gone ab : list BReq).
Hypothesis Hi : mid x.
Hypothesis Hch : chunked_req x = None.
Hypothesis Hd : decode_step x b q ids t s kept gone ab.
Notation good_req := (λ r, between r ∧ running r ∧ lively sc ctx r ∧ in_batch ctx r).

Lemma decode_parts : Forall good_req kept ∧ Forall good_req gone ∧ Forall good_req ab.
Proof.
  pose proof (mid_running _ _ Hi) as Hall. rewrite (ds_split _ _ _ _ _ _ _ _ _ Hd) in Hall.
  by apply Forall_app in Hall as [? [? ?]%Forall_app].
Qed.

Lemma decode_accounted : accounted x ⊆ (brid <$> q) ++ (brid <$> kept) ++ sent_aborts x ++ ids.
Proof.
  intros id Hid. unfold accounted, mid_rids in Hid. pose proof (ds_cover _ _ _ _ _ _ _ _ _ Hd id) as Hc.
  rewrite Hch, (ds_split _ _ _ _ _ _ _ _ _ Hd), !fmap_app, !elem_of_app in *. cbn in Hid. rewrite elem_of_nil in Hid. tauto.
Qed.

Lemma decode_distinct : NoDup ((brid <$> q) ++ (brid <$> kept)).
Proof.
  pose proof (mi_ids _ _ _ _ _ _ Hi) as Hn. rewrite Hch, (ds_split _ _ _ _ _ _ _ _ _ Hd), !fmap_app in Hn.
  change (brid <$> option_list (@None BReq)) with (@nil string) in Hn. cbn [app] in Hn.
  eapply submseteq_NoDup; [|exact Hn]. pose proof (gist_brid _ _ (ds_gists _ _ _ _ _ _ _ _ _ Hd)) as Hqg. rewrite fmap_app in Hqg.
  etrans; [apply submseteq_app; [exact Hqg|done]|]. rewrite <-app_assoc. apply submseteq_app; [done|].
  rewrite (Permutation_app_comm (brid <$> gone) (brid <$> kept)), app_assoc. by apply submseteq_inserts_r.
Qed.

(** The queue takes no more than the requests that were there, and the aborted one counts. *)
Lemma decode_weights :
  weigh tokens_left q + weigh tokens_left kept + Z.of_nat (length ab) ≤ (load x).1 ∧
  weigh input_left q ≤ (load x).2 + weigh input_left gone.
Proof.
  destruct decode_parts as (_ & Hg & Hb).
  destruct (queue_lighter q (waiting_queue x ++ gone) (ds_gists _ _ _ _ _ _ _ _ _ Hd)) as [Ht Hin].
  { apply Forall_app; split; [eapply Forall_impl; [apply Hi|]|eapply Forall_impl; [exact Hg|]].
    - intros r [[_ _ ? _ _ _] _ _]. unfold tokens_left. lia.
    - intros r (_ & _ & [_ ?] & _). unfold tokens_left. lia. }
  assert (Hl : Z.of_nat (length ab) ≤ weigh tokens_left ab).
  { clear -Hb. induction Hb as [|r l (_ & _ & [_ Ho] & _) _ IH]; [done|]. rewrite weigh_cons. cbn [length]. unfold tokens_left at 1. lia. }
  unfold load. cbn [fst snd]. rewrite Hch, (ds_split _ _ _ _ _ _ _ _ _ Hd). change (option_list None) with (@nil BReq).
  rewrite !weigh_app, !weigh_nil in *. lia.
Qed.

(** The batch is empty: nothing runs. *)
Lemma decode_emptied U : reqs b = [] → due_ids U ⊆ accounted x → load_le (load x) (due_load U) → due_slack U →
  decided U None (stepped x b q ids t s).
Proof.
  intros He HU HL Hslack. destruct Hd as [Hsplit Hk Hc' Hrd' Hcols Hnone Hq Hqg _ Htk Hdim Hfl Hop _].
  rewrite He in Hk, Hc'. apply Permutation_nil, fmap_nil_inv in Hk.
  pose proof decode_distinct as Hids. pose proof decode_accounted as Hacc. pose proof decode_weights as [Hw1 Hw2].
  rewrite Hk in Hids, Hacc, Hw1. cbn [decided]. split_and!; [exact Hch| | |exact He|].
  - split; cbn [set_queue send_aborts set_sys set_tracker set_running sys running_batch chunked_req waiting_queue new_token_ratio_tracker
      sched_policy]; rewrite ?Hch, ?He; try done.
    + split; rewrite ?He; done.
    + change (option_list None ++ filter running []) with (@nil BReq). rewrite app_nil_r. by apply NoDup_app in Hids as [? _].
    + apply Hi.
    + rewrite (dims_ctx _ _ Hdim). apply Hi.
    + rewrite (dims_size _ _ Hdim). apply Hi.
    + intros _. by apply Hop.
  - etrans; [exact HU|]. etrans; [exact Hacc|]. unfold accounted, mid_rids. cbn. rewrite !fmap_app. clear. intros id. rewrite !elem_of_app. tauto.
  - assert (load (stepped x b q ids t s) = (weigh tokens_left q, weigh input_left q)) as ->.
    { unfold load. cbn [set_queue send_aborts set_sys set_tracker set_running running_batch chunked_req waiting_queue]. rewrite Hch, He.
      change (option_list None) with (@nil BReq). cbn [app]. rewrite filter_nil, app_nil_r, (weigh_nil chunk_left). f_equal. lia. }
    rewrite weigh_nil in Hw1. destruct Hnone as [[-> Hg]|[Hone _]].
    + right. rewrite (Hg Hk), weigh_nil in Hw2. cbn [length] in Hw1. split; [|by left]. etrans; [|exact HL]. apply load_both; cbn [fst snd]; lia.
    + left. eapply load_lt_le; [|exact HL]. left. cbn [fst]. lia.
Qed.

(** The batch decodes. *)
Lemma decode_launched U : reqs b ≠ [] → due_ids U ⊆ accounted x → load_le (load x) (due_load U) →
  good U (mkLaunched b None [] true true) (stepped x b q ids t s).
Proof.
  intros Hne HU HL. destruct decode_parts as (Hak & _ & _). pose proof decode_weights as [Hw _]. pose proof decode_distinct as Hids.
  pose proof decode_accounted as Hacc. destruct Hd as [Hsplit Hk Hc' Hrd' Hcols _ Hq _ _ Htk Hdim Hfl _ Hmode].
  apply (decode_good U (stepped x b q ids t s) _ b kept); try done.
  - by apply Hmode.
  - apply Hi.
  - cbn. rewrite (dims_ctx _ _ Hdim). apply Hi.
  - cbn. rewrite (dims_size _ _ Hdim). apply Hi.
  - by etrans.
  - cbn [set_queue send_aborts set_sys set_tracker set_running waiting_queue]. rewrite weigh_app. unfold load_le in HL. lia.
Qed.
End decoding.

Lemma decode_running_ok U now test x :
  mid x → chunked_req x = None → covered U x → (due_slack U ∨ waiting_queue x = []) →
  ∃ ob x', decode_running cfg sc now test x = Ok (ob, x') ∧ decided U ob x'.
Proof.
  intros Hi Hch (HU & HL & HS & Hpo) Hwait.
  destruct (decide (reqs (running_batch x) = [])) as [Hr|Hr].
  { unfold decode_running, is_empty. rewrite Hr. eexists _, _. split; [done|]. split_and!; try done. by right. }
  destruct (is_prefill_only (flags (running_batch x))) eqn:Hnp; [by destruct (Hr (Hpo eq_refl))|].
  destruct (decode_step_ok now test x Hi Hch Hr Hnp) as (b & q & ids & t & s & kept & gone & ab & -> & Hd).
  eexists _, _. split; [done|]. unfold is_empty. destruct (Nat.eqb_spec (length (reqs b)) 0) as [Hz|Hz]; cbn [negb].
  - apply nil_length_inv in Hz. apply (decode_emptied x b q ids t s kept gone ab Hi Hch Hd U); auto.
  - apply (decode_launched x b q ids t s kept gone ab Hi Hch Hd U); try done. intros E. by rewrite E in Hz.
Qed.

(** ** A new prefill batch, or none *)

Variables (check_threshold deprioritize_threshold : Z).
Variables (shuffle : list SReq → list SReq) (fast_match : bool) (pool_usage : Sys A → Q).
Hypothesis shuffle_perm : ∀ l, shuffle l ≡ₚ l.
Hypothesis Hpos : 0 < deprioritize_threshold.

Lemma mid_some K x : mid_inv cfg sc S0 ctx K x → reqs (running_batch x) = [] → chunked_req x = None →
  0 < @get_num_allocatable_reqs _ (sched_cache cfg sc) (pp_max_micro_batch_size sc) 0 (sys x).
Proof.
  intros Hi Hr Hc. pose proof (sv_rows _ _ _ _ _ (dr_core _ _ _ _ _ _ (mi_ready _ _ _ _ _ _ Hi))) as Hp. rewrite Hr, Hc in Hp.
  unfold pool_inv in Hp. cbn in Hp. rewrite app_nil_r in Hp. apply Permutation_length in Hp. rewrite length_seq in Hp.
  pose proof (mi_size _ _ _ _ _ _ Hi). pose proof (pv_micro _ _ _ Hpv). unfold get_num_allocatable_reqs. cbn. unfold pool_available_size. lia.
Qed.

(** Without a batch: there is a reason to wait, or nothing waits. *)
Lemma chosen_none U x : mid x → chunked_req x = None → covered U x →
  (reqs (running_batch x) = [] → waiting_queue x = []) → chosen U None x.
Proof.
  intros Hi Hc HU Hw. split_and!; [done|done|done|]. destruct (decide (reqs (running_batch x) = [])); [by right; auto|left]. by apply HU.
Qed.

Lemma get_new_batch_prefill_raw_ok U now exec x :
  mid x → covered U x → (exec ≠ None → due_slack U) →
  ∃ ob exec' x', get_new_batch_prefill_raw cfg sc check_threshold deprioritize_threshold shuffle fast_match
      gather perf_counter now exec x = Ok (ob, exec', x') ∧ chosen U ob x'.
Proof.
  intros Hi HU Hex. unfold get_new_batch_prefill_raw. rewrite (pv_preempt _ _ _ Hpv).
  assert (Hnc : no_chunk x = true → chunked_req x = None) by (unfold no_chunk; by destruct (chunked_req x)).
  destruct ((_ || _) && no_chunk x) eqn:E1.
  { apply andb_true_iff in E1 as [E1 E2]. eexists _, _, _. split; [done|]. apply chosen_none; auto.
    intros Hr. rewrite (mi_open _ _ _ _ _ _ Hi Hr) in E1. by apply Nat.eqb_eq, nil_length_inv in E1. }
  destruct (match min_free_slots_delayer sc with Some n => _ | None => false end) eqn:E2.
  { destruct (min_free_slots_delayer sc); [|done]. apply andb_true_iff in E2 as [E2 E3]. apply MinFreeSlots.should_delay_iff in E3 as [E3 _].
    eexists _, _, _. split; [done|]. apply chosen_none; auto. intros Hr. by rewrite Hr in E3. }
  destruct ((_ <=? 0) && no_chunk x && _) eqn:E3.
  { apply andb_true_iff in E3 as [E3 _]. apply andb_true_iff in E3 as [E3 E4]. apply Z.leb_le in E3. eexists _, _, _. split; [done|].
    assert (Hrun : reqs (running_batch x) ≠ []).
    { intros Hr. rewrite Hr in E3. by apply Z.lt_nge in E3; [|apply (mid_some _ _ Hi Hr (Hnc E4))]. }
    apply chosen_none; [by apply mid_full|by apply Hnc|done|]. cbn. by intros Hr. }
  destruct (calc_priority_step cfg sc gather Hpv S0 ctx Hnd check_threshold deprioritize_threshold shuffle fast_match
    shuffle_perm Hpos x Hi) as (q & pol & st & -> & Hm & Hb). py_run. rewrite (pv_test _ _ _ Hpv).
  apply (prefill_pass_ok cfg sc gather perf_counter Hpv S0 ctx Hnd Htotal verdict Hstop U now exec _ Hm); [|done].
  destruct HU as (HU & HL & HS & HP). split_and!; [| |done|done].
  - etrans; [exact HU|]. unfold accounted, mid_rids. cbn. rewrite !fmap_app. intros id. by rewrite (gist_brid_perm _ _ Hb).
  - etrans; [|exact HL]. unfold load. cbn [set_sys set_policy set_queue waiting_queue chunked_req running_batch]. rewrite !weigh_app.
    rewrite (gist_same _ (λ g, g.1.2) _ _ tokens_gist Hb), (gist_same _ (λ g, g.2 + 2) _ _ input_gist Hb). done.
Qed.

Lemma finalize_total e : ∃ e', Delayer.finalize gather perf_counter e = Ok e'.
Proof.
  unfold Delayer.finalize. destruct (Delayer.exec_result e) eqn:E; [eauto|]. unfold Delayer.negotiate_should_allow_prefill. rewrite E.
  edestruct (negotiate_total gather perf_counter (Delayer.prefill_delayer e)) as (out & d & ->); [apply (pv_gather _ _ _ Hpv)|].
  py_run. eauto.
Qed.

Lemma process_delayer d l toks x :
  process_batch_result cfg sc verdict l toks (set_delayer d x) =
  (let! (l', x') := process_batch_result cfg sc verdict l toks x in Ok (l', set_delayer d x')).
Proof.
  unfold process_batch_result. cbn [set_delayer sys chunked_req]. destruct (is_extend (lb_batch l)).
  - by destruct (process_batch_result_prefill _ _ _ _ _ _ _ _) as [[rs s]|e].
  - by destruct (process_batch_result_decode _ _ _ _ _ _ _ _) as [[rs s]|e].
Qed.

Lemma chosen_delayer U ob d x : chosen U ob x → chosen U ob (set_delayer d x).
Proof.
  destruct ob as [l|]; cbn [PassStep.chosen].
  - intros Hg toks Hlen. destruct (Hg toks Hlen) as (l' & x' & Hp & (b & last & Hme & Hmi & Hcl) & Hbc & Hse).
    exists l', (set_delayer d x'). split.
    + by rewrite process_delayer, Hp.
    + split_and!; [|exact Hbc|exact Hse]. exists b, last. split; [exact Hme|]. split; [|exact Hcl]. eapply mid_rest; [..|exact Hmi]; done.
  - intros (Hc & Hm & Ha & Hw). split_and!; [done| |exact Ha|exact Hw]. eapply mid_rest; [..|exact Hm]; done.
Qed.

Lemma get_new_batch_prefill_ok U now x :
  mid x → covered U x → (sched_delayer x ≠ None → due_slack U) →
  ∃ ob x', get_new_batch_prefill cfg sc check_threshold deprioritize_threshold shuffle fast_match
      gather perf_counter pool_usage now x = Ok (ob, x') ∧ chosen U ob x'.
Proof.
  intros Hi HU Hd. unfold get_new_batch_prefill.
  destruct (get_new_batch_prefill_raw_ok U now ((λ d, Delayer.executor_init d (pool_usage (sys x))) <$> sched_delayer x) x Hi HU)
    as (ob & exec & x' & -> & Hc).
  { intros E. apply Hd. intros E'. by rewrite E' in E. }
  py_run. destruct exec as [e|]; [|by eexists _, _]. destruct (finalize_total e) as [e' ->]. py_run.
  eexists _, _. split; [done|]. by apply chosen_delayer.
Qed.

(** ** The next batch *)

Notation inv := (sched_inv cfg sc S0 ctx).

Lemma merge_last_brid (c c' : option BReq) last b : brid <$> c' = brid <$> c → merge_last c' last b = merge_last c last b.
Proof. intros Hc. unfold merge_last. by rewrite Hc. Qed.

Lemma get_next_batch_to_run_ok U now deadline expired test x :
  inv x → due_ids U ⊆ held_rids x ++ sent_aborts x → load_le (held_load x) (due_load U) →
  (busy x → due_slack U) → (sched_delayer x ≠ None → due_slack U) →
  ∃ ob x', get_next_batch_to_run cfg sc check_threshold deprioritize_threshold shuffle fast_match
      gather perf_counter pool_usage now deadline expired test x = Ok (ob, x') ∧ decided U ob x'.
Proof.
  intros Hi HU HL Hbusy Hdel. unfold get_next_batch_to_run.
  destruct (process_pending_chunked_abort_ok cfg sc gather Hpv S0 ctx x Hi) as (xp & -> & Ep). py_run.
  pose proof (abort_on_waiting_timeout_eased cfg sc S0 ctx deadline _ (ea_inv _ _ _ _ _ _ Ep)) as Ew.
  pose proof (abort_on_running_timeout_eased cfg sc S0 ctx expired _ (ea_inv _ _ _ _ _ _ Ew)) as Er.
  pose proof (eased_trans _ _ _ _ _ _ _ Ep (eased_trans _ _ _ _ _ _ _ Ew Er)) as [Hi1 Ha1 Hl1 Hb1 Hd1]. clear Ep Ew Er.
  set (x1 := abort_on_running_timeout _ _) in *. clearbody x1. clear xp. destruct Hi1 as (b & last & Hm & Hi1 & _).
  unfold held_rids at 2 in Ha1. unfold held_load at 1 in Hl1. unfold busy at 1 in Hb1. rewrite Hm in Ha1, Hl1, Hb1.
  destruct (stash_chunked_request_ok cfg sc gather Hpv S0 ctx Hnd _ Hi1) as (c & s & Hst & Hb & Hld & Hi2).
  cbn [set_running chunked_req sys] in Hst, Hb. rewrite Hst. py_run. rewrite (merge_last_brid _ _ _ _ Hb), Hm. py_run.
  destruct (clean_prefill_only_ok cfg sc S0 ctx _ _ Hi2) as (b2 & Hcl & Hi3 & Hf & Hem & Hpo).
  cbn [set_sys set_chunked set_running running_batch] in Hcl, Hf, Hem.
  rewrite Hcl. py_run. set (X := set_running b2 _).
  assert (HX : mid X) by (eapply mid_rest; [..|exact Hi3]; done).
  assert (HlX : load X = load (set_running b x1)).
  { rewrite <-Hld. unfold load. cbn [X set_running set_last set_sys set_chunked waiting_queue chunked_req running_batch]. by rewrite Hf. }
  assert (HUX : covered U X).
  { split_and!.
    - etrans; [exact HU|]. etrans; [exact Ha1|]. unfold accounted, mid_rids. cbn [X set_running set_last set_sys set_chunked waiting_queue
        chunked_req running_batch sent_aborts]. rewrite Hf, !fmap_app.
      assert (brid <$> option_list c = brid <$> option_list (chunked_req x1)) as ->; [|done].
      by rewrite !fmap_option_list, Hb.
    - rewrite HlX. by etrans.
    - cbn [X set_running running_batch]. intros Hne. apply Hbusy, Hb1. intros E. by rewrite (Hem E) in Hne.
    - exact Hpo. }
  destruct (get_new_batch_prefill_ok U now X HX HUX) as (ob & x' & -> & Hc).
  { cbn [X set_running set_last set_sys set_chunked sched_delayer]. by rewrite Hd1. }
  py_run. destruct ob as [l|]; [by eexists _, _|].
  destruct Hc as (Hn & Hmid & Ha & Hw). apply decode_running_ok; try done.
Qed.

(** ** An iteration *)

Lemma on_idle_ok x : mid x → ∃ x', on_idle sc x = Ok x' ∧ chunked_req x' = chunked_req x ∧ mid x' ∧ accounted x' = accounted x ∧
  load x' = load x ∧ waiting_queue x' = waiting_queue x ∧ running_batch x' = running_batch x.
Proof.
  intros Hi. unfold on_idle. destruct (is_fully_idle x) eqn:E; [|by eexists]. unfold is_fully_idle in E.
  apply andb_true_iff in E as [E _]. apply andb_true_iff in E as [E _]. apply andb_true_iff in E as [E1 E2].
  unfold is_empty in E1. apply Nat.eqb_eq, nil_length_inv in E1. unfold no_chunk in E2. destruct (chunked_req x) eqn:Hc; [done|].
  pose proof (mi_ready _ _ _ _ _ _ Hi) as [_ Hcore Hrd _]. rewrite E1, Hc in Hcore.
  rewrite (idle_silent cfg Hps1 S0) by done. py_run. eexists; split; [done|]. split; [exact Hc|].
  split; [|done]. destruct Hi. split; try done. by apply reset_ratio_ok.
Qed.

Variable forward : ScheduleBatch → list Z.
Hypothesis Hforward : ∀ b, length (forward b) = length (reqs b).

(** The requests that have just finished. *)
Definition finished_rids x : list string :=
  match last_batch x with Some l => brid <$> filter (λ r, ¬ running r) (reqs (lb_batch l)) | None => [] end.

(** An iteration makes the load lighter, or it only empties the running batch, or there is
    nothing to do. *)
Definition progress x x' : Prop :=
  load_lt (held_load x') (held_load x) ∨
  load_le (held_load x') (held_load x) ∧ ¬ busy x' ∧ (busy x ∨ sched_delayer x ≠ None ∨ held_rids x' = []).

Lemma event_loop_step_ok now deadline expired test x :
  inv x → ∃ x', event_loop_step cfg sc check_threshold deprioritize_threshold shuffle fast_match
      gather perf_counter pool_usage verdict now deadline expired test forward x = Ok x' ∧ inv x' ∧
    held_rids x ++ sent_aborts x ⊆ held_rids x' ++ sent_aborts x' ++ finished_rids x' ∧ progress x x'.
Proof.
  intros Hi. unfold event_loop_step. set (U := mkDue (held_rids x ++ sent_aborts x) (held_load x) (busy x ∨ sched_delayer x ≠ None)).
  destruct (get_next_batch_to_run_ok U now deadline expired test x Hi) as (ob & x1 & -> & Hc); [done|done|by left|by right|]. py_run.
  destruct ob as [l|]; cbn [decided] in Hc.
  - destruct (Hc (forward (lb_batch l)) (Hforward _)) as (l' & x2 & -> & Hi2 & Hb & Hse & Hl). py_run. rewrite Hb. py_run.
    eexists. split; [done|]. split; [done|]. split; [|by left]. intros id Hid%Hse. rewrite !elem_of_app. done.
  - destruct Hc as (Hn & Hm & Ha & Hr & Hl). destruct (on_idle_ok x1 Hm) as (x2 & -> & Hn2 & Hm2 & He & Hl2 & Hq2 & Hr2). py_run.
    eexists; split; [done|]. rewrite Hn in Hn2. split; [|split].
    + exists (running_batch x2), None. split; [done|]. split; [|intros id; cbn; by rewrite Hn2].
      apply (mid_no_chunk (stashed sc ctx)); [exact Hn2|]. eapply mid_rest; [..|exact Hm2]; done.
    + etrans; [exact Ha|]. rewrite <-He. unfold accounted, held_rids. cbn [set_last chunked_req last_batch merge_last running_batch sent_aborts].
      unfold mid_rids. cbn [set_last set_running chunked_req running_batch waiting_queue].
      clear. intros id. rewrite !elem_of_app. tauto.
    + assert (Hh : held_load (set_last None x2) = load x1) by (rewrite <-Hl2; done). unfold progress. rewrite Hh.
      destruct Hl as [Hl|[Hl Hw]]; [by left|right]. split; [exact Hl|]. split.
      { unfold busy. cbn. rewrite Hr2, Hr. intros E. by apply E. }
      destruct Hw as [[?|?]|Hw]; [by left|by right; left|right; right].
      unfold held_rids. cbn. unfold mid_rids. cbn. rewrite Hq2, Hr2, Hn2, Hw, Hr. done.
Qed.

(** ** A request comes in *)

(** A request as the tokenizer sends it. *)
Record received (r : BReq) : Prop := {
  rv_row : req_pool_idx (bkv r) = None;
  rv_flags : kv_committed_freed (bkv r) = false ∧ kv_overallocated_freed (bkv r) = false;
  rv_fill : full_untruncated_fill_ids (bkv r) = [];
  rv_input : origin_input_ids (bkv r) ≠ [];
  rv_output : output_ids (bkv r) = [];
  rv_skip : skip_radix_cache_insert (bkv r) = false;
  rv_chunks : inflight_middle_chunks (bkv r) = 0;
  rv_running : running r;
}.

(** The limits of the server fit the rows of the request pool and the KV pool. *)
Definition limits_ok : Prop :=
  max_req_len sc ≤ Z.of_nat ctx ∧ 0 < max_req_input_len sc ≤ Z.of_nat ctx ∧ max_req_input_len sc + 2 ≤ pool.

Lemma received_queued r :
  received r → 0 ≤ max_new_tokens (sreq r) →
  Z.of_nat (length (origin_input_ids (bkv r))) + max_new_tokens (sreq r) ≤ Z.of_nat ctx →
  Z.of_nat (length (origin_input_ids (bkv r))) + max_new_tokens (sreq r) + 1 < pool → queued false ctx pool (sreq r).
Proof.
  intros [R1 R2 R3 R4 R5 R6 R7 R8] Hm Hf Hp. change (kv (sreq r)) with (bkv r).
  split; [split; try done|split; try done|done].
  - unfold output_len. change (kv (sreq r)) with (bkv r). by rewrite R5.
  - intros _. left. change (kv (sreq r)) with (bkv r). rewrite R3. apply prefix_nil.
  - unfold all_ids. change (kv (sreq r)) with (bkv r). rewrite R5, app_nil_r. done.
Qed.

Lemma enqueue_ok now r x :
  inv x → queued false ctx pool (sreq r) → brid r ∉ held_rids x →
  ∃ x', add_request_to_queue sc now r x = Ok x' ∧ inv x' ∧
    (∀ id, id ∈ brid r :: held_rids x ++ sent_aborts x → id ∈ held_rids x' ++ sent_aborts x').
Proof.
  intros (b & last & Hm & Hi & Hcl) Hr Hnew. unfold held_rids in Hnew. rewrite Hm in Hnew.
  destruct (add_request_to_queue_ok sc ctx (pv_queue _ _ _ Hpv) now r x Hr (mi_queue _ _ _ _ _ _ Hi)) as (q & ids & Hadd & Hq & Hqs%gist_brid & Hqc).
  rewrite Hadd. eexists. split; [done|]. split.
  - exists b, last. split; [exact Hm|]. split; [|exact Hcl]. destruct Hi as [? ? ? ? Hids ? ? ? ? ? ? ?]. split; try done.
    cbn [set_running set_queue send_aborts waiting_queue chunked_req running_batch] in *. unfold mid_rids in Hnew.
    cbn [set_running waiting_queue chunked_req running_batch] in Hnew. rewrite !fmap_app in *. csimpl in Hqs.
    eapply (submseteq_NoDup _ (((brid <$> waiting_queue x) ++ [brid r]) ++ (brid <$> option_list (chunked_req x)) ++
      (brid <$> filter running (reqs b)))); [by apply submseteq_app|].
    rewrite <-app_assoc. cbn [app]. rewrite <-Permutation_middle. by apply NoDup_cons.
  - unfold held_rids. cbn [set_queue send_aborts chunked_req last_batch running_batch sent_aborts]. rewrite Hm. unfold mid_rids.
    cbn [set_running set_queue send_aborts waiting_queue chunked_req running_batch]. rewrite !fmap_app in *. csimpl in Hqc.
    intros id. specialize (Hqc id). rewrite elem_of_cons, !elem_of_app, list_elem_of_singleton in *. clear -Hqc. tauto.
Qed.

Lemma handle_generate_request_ok now wanted start r x :
  inv x → received r → limits_ok → brid r ∉ held_rids x →
  ∃ x', handle_generate_request sc (Z.of_nat (page_size cfg)) now wanted start r x = Ok x' ∧ inv x' ∧
    (∀ id, id ∈ brid r :: held_rids x ++ sent_aborts x → id ∈ held_rids x' ++ sent_aborts x').
Proof.
  intros Hi Hr (L1 & L2 & L3) Hnew. unfold handle_generate_request. rewrite Hps1. set (r1 := init_req_max_new_tokens sc _ wanted r).
  assert (Hlen : 1 ≤ Z.of_nat (length (origin_input_ids (bkv r)))).
  { destruct Hr as [_ _ _ Hne _ _ _ _]. destruct (origin_input_ids (bkv r)); [done|cbn; lia]. }
  assert (Hm : 0 ≤ max_new_tokens (sreq r1) ∧
    max_new_tokens (sreq r1) ≤ Z.max 0 (Z.of_nat ctx - Z.of_nat (length (origin_input_ids (bkv r))) - 1) ∧
    max_new_tokens (sreq r1) ≤ Z.max 0 (pool - Z.of_nat (length (origin_input_ids (bkv r))) - 2)).
  { unfold r1, init_req_max_new_tokens. cbn [set_max_new with_sreq sreq max_new_tokens]. rewrite Z.div_1_r. lia. }
  assert (Hr1 : received r1) by (destruct Hr; by split).
  unfold validate_input_length. change (origin_input_ids (bkv r1)) with (origin_input_ids (bkv r)).
  assert (Hgo : ∀ r2, received r2 → max_new_tokens (sreq r2) = max_new_tokens (sreq r1) → brid r2 = brid r →
    Z.of_nat (length (origin_input_ids (bkv r2))) ≤ Z.of_nat (length (origin_input_ids (bkv r))) →
    Z.of_nat (length (origin_input_ids (bkv r2))) ≤ max_req_input_len sc →
    ∃ x', add_request_to_queue sc now r2 x = Ok x' ∧ inv x' ∧
      (∀ id, id ∈ brid r :: held_rids x ++ sent_aborts x → id ∈ held_rids x' ++ sent_aborts x')).
  { intros r2 Hr2 Hm2 Hb Hl Hc. rewrite <-Hb. apply enqueue_ok; [done| |by rewrite Hb].
    apply received_queued; [done|lia|rewrite Hm2; lia|rewrite Hm2; lia]. }
  destruct (Z.leb_spec (max_req_input_len sc) (Z.of_nat (length (origin_input_ids (bkv r))))) as [Hle|Hlt]; [destruct (allow_auto_truncate sc)|].
  - set (ids := py_take _ _).
    assert (Hids : Z.of_nat (length ids) = max_req_input_len sc).
    { unfold ids. rewrite <-(Z2Nat.id (max_req_input_len sc)) at 1 by lia. rewrite py_take_nat, length_take. lia. }
    assert (received (with_bkv (with_origin ids (bkv r1)) r1)) as Hr2.
    { destruct Hr1. split; try done. cbn. intros E. rewrite E in Hids. cbn in Hids. lia. }
    case_match; (apply Hgo; [destruct Hr2; by split|done|done| |]); cbn; try rewrite Hids; cbn; lia.
  - apply Hgo; [destruct Hr1; by split|done|done|cbn; lia|cbn; lia].
  - case_match; (apply Hgo; [destruct Hr1; by split|done|done| |]); cbn; change (kv (sreq r)) with (bkv r); lia.
Qed.
End loop.
