(* ===== verification/Server.v ===== *)
(** The server as a whole: requests come in, the loop iterates.  A state is reachable
    when a run of the server leads to it; the invariant of the loop holds in each. *)

From stdpp Require Import base gmap strings list relations.
From Stdlib Require Import ZArith QArith Lia Lqa.
From S2P Require Import Prelude.
From S2P Require Import PyData.
From S2P Require Import RadixKey.
From S2P Require Import RadixTree.
From S2P Require Import RadixInv.
From S2P Require Import RadixContent.
From S2P Require Import RadixOps.
From S2P Require Import RadixInsert.
From S2P Require Import RadixEvict.
From S2P Require Import RadixSession.
From S2P Require Import ReqCache.
From S2P Require Import ReqCacheInv.
From S2P Require Import ReqAlloc.
From S2P Require Import ReqLife.
From S2P Require Import BatchAlloc.
From S2P Require Import Delayer.
From S2P Require Import PrefillAdder.
From S2P Require Import ScheduleBatch.
From S2P Require Import BatchInv.
From S2P Require Import ServeInv.
From S2P Require Import ServeOps.
From S2P Require Import Room.
From S2P Require Import ExtendInv.
From S2P Require Import MemCheck.
From S2P Require Import RatioInv.
From S2P Require Import DecodeInv.
From S2P Require Import ResultInv.
From S2P Require Import ServeLoop.
From S2P Require Import PrefillAdderInv.
From S2P Require Import PassInv.
From S2P Require Import SchedulePolicy.
From S2P Require Import SchedulePolicyInv.
From S2P Require Import Scheduler.
From S2P Require Import Load.
From S2P Require Import NoDelay.
From S2P Require Import QueueInv.
From S2P Require Import SchedulerInv.
From S2P Require Import AbortInv.
From S2P Require Import LaunchInv.
From S2P Require Import PassStep.
From S2P Require Import LoopInv.
From S2P Require Import Allocator.
From S2P Require Import AllocatorInv.

Open Scope Z_scope.

(** What a server is started with and what it calls: the settings of the cache and of the
    scheduler, the schedule policy, the collective, clock and pool usage of the prefill
    delayer, the stop conditions, and the size of the request pool. *)
Record ServerEnv := mkServerEnv {
  se_cfg : Config;
  se_sc : SchedCfg;
  se_check_threshold : Z;
  se_deprioritize_threshold : Z;
  se_shuffle : list SReq → list SReq;
  se_fast_match : bool;
  se_gather : Delayer.Info → list Delayer.Info;
  se_perf_counter : nat → Q;
  se_pool_usage : Sys Allocator → Q;
  se_verdict : nat → BReq → bool;
  se_rows : nat;
  se_context_len : nat;
  se_need_sort : bool;
  se_policy : SchedulePolicy;
  se_tracker : NewTokenRatioTracker;
  se_delayer : option Delayer.PrefillDelayer;
}.

(** A message of the tokenizer, a generation request or an abort, or an iteration of
    [event_loop_normal].  Embedding requests ([handle_embedding_request]) are no event: the
    theorems about the server say nothing of them. *)
Inductive Event :=
  | Receive (now : Z) (wanted : option Z) (logprob_start : Z) (r : BReq)
  | Abort (id : string) (abort_all : bool)
  | Iterate (now : Z) (deadline : option Z) (expired : option (BReq → bool)) (test : bool)
      (forward : ScheduleBatch → list Z).

(** The request that arrives with an event. *)
Definition arrivals (ev : Event) : list string :=
  match ev with Receive _ _ _ r => [brid r] | _ => [] end.

Section server.
Context `{KVPaged Allocator} `{Env} `{HeapQ}.
Variable se : ServerEnv.
Notation cfg := (se_cfg se).
Notation sc := (se_sc se).

(** The state [Scheduler.__init__] leaves. *)
Definition sched_init : Scheduler Allocator :=
  mkScheduler [] (empty_batch false) None None (se_policy se) (se_tracker se) 0 (se_delayer se) [] None
    (mkSys (init_cache cfg (token_init (max_total_num_tokens sc) (se_need_sort se)) 0)
      (pool_init (se_rows se) (se_context_len se))).

Definition run_event (ev : Event) (x : Scheduler Allocator) : result (Scheduler Allocator) :=
  match ev with
  | Receive now wanted logprob_start r =>
      handle_generate_request sc (Z.of_nat (page_size cfg)) now wanted logprob_start r x
  | Abort id abort_all => Ok (abort_request id abort_all x)
  | Iterate now deadline expired test forward =>
      event_loop_step cfg sc (se_check_threshold se) (se_deprioritize_threshold se) (se_shuffle se)
        (se_fast_match se) (se_gather se) (se_perf_counter se) (se_pool_usage se) (se_verdict se) now deadline expired test forward x
  end.

(** Requests have identities of their own, and the model yields a token per request. *)
Definition event_ok (x : Scheduler Allocator) (ev : Event) : Prop :=
  match ev with
  | Receive _ _ _ r => received r ∧ brid r ∉ held_rids x
  | Abort _ _ => True
  | Iterate _ _ _ _ forward => ∀ b, length (forward b) = length (reqs b)
  end.

Inductive reachable : Scheduler Allocator → Prop :=
  | reach_init : reachable sched_init
  | reach_step x ev x' : reachable x → event_ok x ev → run_event ev x = Ok x' → reachable x'.

(** A run of events. *)
Fixpoint run_events (evs : list Event) (x : Scheduler Allocator) : result (Scheduler Allocator) :=
  match evs with
  | [] => Ok x
  | ev :: evs => let! x := run_event ev x in run_events evs x
  end.

(** The servers the theorems are about: plain ones ([plain_server]: pages of one token, the
    radix cache on, no preemption, mixed chunks, speculation or truncation alignment,
    positive bounds of queue and batch), with limits that fit the rows and the pool, and stop
    conditions that end a request at its number of new tokens. *)
Record server_ok : Prop := {
  so_plain : plain_server cfg sc (se_gather se);
  so_slots : 0 ≤ max_total_num_tokens sc;
  so_limits : limits_ok sc (se_context_len se);
  so_rows : (0 < se_rows se)%nat;
  so_shuffle : ∀ l, se_shuffle se l ≡ₚ l;
  so_threshold : 0 < se_deprioritize_threshold se;
  so_verdict : ∀ n r, se_verdict se n r = false → output_len (sreq r) < max_new_tokens (sreq r);
  so_tracker : tracker_ok (se_tracker se);
  so_policy : enable_priority_scheduling (se_policy se) = priority_scheduling_on sc;
}.

Definition pool_slots : list Z := torch_arange 1 (max_total_num_tokens sc + 1).

Context `{!EnvLaws} `{!HeapQLaws}.
Hypothesis Hok : server_ok.
Notation inv := (sched_inv cfg sc pool_slots (se_context_len se)).
Implicit Types x y : Scheduler Allocator.

Lemma pool_slots_total : max_total_num_tokens sc = Z.of_nat (length pool_slots).
Proof. unfold pool_slots. rewrite length_arange. pose proof (so_slots Hok). lia. Qed.

Lemma init_core : serve_core cfg pool_slots (sys sched_init) [] [] ∧ kv_ready (allocator (cache (sys sched_init))).
Proof.
  set (c := init_cache cfg (token_init (max_total_num_tokens sc) (se_need_sort se)) 0).
  assert (Ht : tree_slots (tree c) = []).
  { unfold c, init_cache, reset, record_all_cleared_event, tree_slots.
    case_match; cbn [tree nodes with_events]; by rewrite map_to_list_singleton. }
  assert (Ha : allocator c = token_init (max_total_num_tokens sc) (se_need_sort se)).
  { unfold c, init_cache, reset, record_all_cleared_event. by case_match. }
  split; [|cbn; fold c; rewrite Ha; by split].
  split; cbn [sched_init sys cache req_to_token_pool app]; fold c.
  - apply reset_wf. rewrite (pv_page _ _ _ (so_plain Hok)). done.
  - unfold all_slots. rewrite Ht, Ha. cbn. by rewrite !app_nil_r.
  - apply pool_init_ok.
  - intros i Hi. exists (replicate (se_context_len se) 0). split; [|by rewrite length_replicate]. cbn [req_to_token pool_init].
    apply lookup_replicate. split; [done|]. cbn in Hi. lia.
  - constructor.
  - constructor.
Qed.

Lemma sched_init_inv : inv sched_init.
Proof.
  destruct init_core as [Hc Hr]. exists (empty_batch false), None. split; [done|]. split; [|done]. split; try done.
  - split; [by left|done|done|done].
  - constructor.
  - apply Hok.
  - apply Hok.
  - apply Hok.
Qed.

(** Progress and preservation, with the requests accounted for. *)
Lemma run_event_ok ev x :
  inv x → event_ok x ev → ∃ x', run_event ev x = Ok x' ∧ inv x' ∧
    arrivals ev ++ held_rids x ++ sent_aborts x ⊆ held_rids x' ++ sent_aborts x' ++ finished_rids x'.
Proof.
  intros Hi. destruct ev as [now wanted start r|id all|now deadline expired test forward]; cbn [event_ok run_event arrivals].
  - intros [Hr Hn].
    destruct (handle_generate_request_ok cfg sc (se_gather se) (so_plain Hok) pool_slots (se_context_len se)
      now wanted start r x Hi Hr (so_limits Hok) Hn) as (x' & -> & Hi' & Ha). exists x'. split; [done|]. split; [done|].
    intros id Hid. specialize (Ha id Hid). rewrite !elem_of_app in *. tauto.
  - intros _. destruct (abort_request_eased cfg sc pool_slots (se_context_len se) id all x Hi) as [Hi' Ha _ _ _]. eexists. split; [done|].
    split; [done|]. intros i Hid%Ha. rewrite !elem_of_app in *. tauto.
  - intros Hf. destruct (event_loop_step_ok cfg sc (se_gather se) (se_perf_counter se) (so_plain Hok) pool_slots (se_context_len se)
      (NoDup_arange _ _) pool_slots_total (se_verdict se) (so_verdict Hok) (se_check_threshold se)
      (se_deprioritize_threshold se) (se_shuffle se) (se_fast_match se) (se_pool_usage se) (so_shuffle Hok) (so_threshold Hok)
      forward Hf now deadline expired test x Hi) as (x' & -> & Hi' & Ha & _). exists x'. done.
Qed.

Lemma reachable_inv x : reachable x → inv x.
Proof.
  induction 1 as [|x ev x' _ IH He Hr]; [apply sched_init_inv|]. destruct (run_event_ok ev x IH He) as (x2 & Hr2 & Hi & _).
  by same_run.
Qed.

(** ** The server gets to the end of its work *)

Lemma held_load_nonneg x : inv x → 0 ≤ (held_load x).1 ∧ 0 ≤ (held_load x).2.
Proof.
  intros (b & last & Hm & Hi & _). unfold held_load. rewrite Hm. unfold load. cbn [fst snd set_running waiting_queue chunked_req running_batch].
  destruct Hi as [_ _ Hlv Hq _ Hc _ _ _ _ _ _]. cbn [set_running waiting_queue chunked_req running_batch] in *. split.
  - apply weigh_nonneg, Forall_app; split; [|apply Forall_app; split].
    + eapply Forall_impl; [exact Hq|]. intros r [[_ _ ? _ _ _] _ _]. unfold tokens_left. lia.
    + eapply Forall_impl; [exact Hc|]. intros r [[[_ _ ? _ _ _] _ _ _ _ _] _ _ _]. unfold tokens_left. lia.
    + eapply Forall_impl; [exact Hlv|]. intros r [_ ?]. unfold tokens_left. lia.
  - assert (0 ≤ weigh input_left (waiting_queue x)) by (apply weigh_nonneg, Forall_forall; intros; apply input_nonneg).
    assert (0 ≤ weigh chunk_left (option_list (chunked_req x))); [|lia].
    apply weigh_nonneg. eapply Forall_impl; [exact Hc|]. intros r [[_ _ _ ? _ _] _ _ _]. unfold chunk_left, input_len. lia.
Qed.

(** An iteration leaves less to do, if there was anything. *)
Definition busy_bit x : Z :=
  match merge_last (chunked_req x) (last_batch x) (running_batch x) with
  | Ok (b, _) => if decide (reqs b = []) then 0 else 1
  | Raise _ => 0
  end.
Lemma busy_bit_range x : 0 ≤ busy_bit x ≤ 1.
Proof. unfold busy_bit. repeat case_match; lia. Qed.
Lemma busy_bit_1 x : busy x → busy_bit x = 1.
Proof. unfold busy, busy_bit. case_match; [|done]. case_match. by case_decide. Qed.
Lemma busy_bit_0 x : ¬ busy x → busy_bit x = 0.
Proof. unfold busy, busy_bit. case_match; [|done]. case_match. case_decide; [done|]. tauto. Qed.

(** The work left: tokens first, then input, then whether a batch runs. *)
Definition work x : nat * nat := (Z.to_nat (held_load x).1, Z.to_nat (2 * (held_load x).2 + busy_bit x)).

Lemma progress_work x x' : inv x → inv x' → sched_delayer x = None → progress x x' →
  held_rids x' = [] ∨ ((work x').1 < (work x).1)%nat ∨ (work x').1 = (work x).1 ∧ ((work x').2 < (work x).2)%nat.
Proof.
  intros Hi Hi' Hd Hp. pose proof (held_load_nonneg x Hi). pose proof (held_load_nonneg x' Hi').
  pose proof (busy_bit_range x). pose proof (busy_bit_range x'). unfold work. cbn [fst snd].
  destruct Hp as [[Hl|[Hl1 Hl2]]|(Hl & Hb' & [Hb|[?|?]])]; [right; left; lia|right; right; lia| |done|by left].
  rewrite (busy_bit_1 x Hb), (busy_bit_0 x' Hb'). destruct Hl as [Hl|[Hl1 Hl2]]; right; [left|right]; lia.
Qed.

(** Iterations only: no request arrives. *)
Definition iteration (ev : Event) : Prop :=
  match ev with Iterate _ _ _ _ forward => ∀ b, length (forward b) = length (reqs b) | _ => False end.

Lemma iteration_progress ev x : iteration ev → inv x → sched_delayer x = None →
  ∃ x', run_event ev x = Ok x' ∧ inv x' ∧ sched_delayer x' = None ∧
    held_rids x ++ sent_aborts x ⊆ held_rids x' ++ sent_aborts x' ++ finished_rids x' ∧ progress x x'.
Proof.
  destruct ev as [| |now deadline expired test forward]; [done..|]. intros Hf Hi Hd.
  destruct (event_loop_step_ok cfg sc (se_gather se) (se_perf_counter se) (so_plain Hok) pool_slots (se_context_len se)
    (NoDup_arange _ _) pool_slots_total (se_verdict se) (so_verdict Hok) (se_check_threshold se)
    (se_deprioritize_threshold se) (se_shuffle se) (se_fast_match se) (se_pool_usage se) (so_shuffle Hok) (so_threshold Hok)
    forward Hf now deadline expired test x Hi) as (x' & Hs & Hi' & Ha & Hp).
  exists x'. split_and!; try done. by eapply step_no_delayer.
Qed.

(** The input of a request fits a row of the request pool, so the load is bounded by the
    tokens alone. *)
Lemma decent_input (r : BReq) : decent (priority_scheduling_on sc) (se_context_len se) (max_total_num_tokens sc) (sreq r) →
  input_len r ≤ Z.of_nat (se_context_len se) ∧ 1 ≤ tokens_left r.
Proof.
  intros [_ Hf Ho _ _ _]. unfold input_len, tokens_left, output_len, all_ids in *. rewrite length_app.
  change (kv (sreq r)) with (bkv r) in *. lia.
Qed.

Lemma weigh_bound (f g : BReq → Z) (l : list BReq) (k : Z) : Forall (λ r, f r ≤ k * g r) l → weigh f l ≤ k * weigh g l.
Proof. induction 1 as [|r l Hr _ IH]; [rewrite !weigh_nil; lia|]. rewrite !weigh_cons. lia. Qed.

Lemma held_load_bound x : inv x → (held_load x).2 ≤ (Z.of_nat (se_context_len se) + 2) * (held_load x).1.
Proof.
  intros (b & last & Hm & Hi & _). unfold held_load. rewrite Hm. unfold load. cbn [fst snd set_running waiting_queue chunked_req running_batch].
  destruct Hi as [_ _ Hlv Hq _ Hc _ _ _ _ _ _]. cbn [set_running waiting_queue chunked_req running_batch] in *.
  set (c := Z.of_nat (se_context_len se)). rewrite !weigh_app.
  assert (H4 : weigh input_left (waiting_queue x) ≤ (c + 2) * weigh tokens_left (waiting_queue x)).
  { apply weigh_bound. eapply Forall_impl; [exact Hq|]. intros r [Hd _ _]. destruct (decent_input r Hd). unfold input_left. nia. }
  assert (H5 : weigh chunk_left (option_list (chunked_req x)) ≤ (c + 2) * weigh tokens_left (option_list (chunked_req x))).
  { apply weigh_bound. eapply Forall_impl; [exact Hc|]. intros r [[Hd _ _ _ _ _] _ _ _]. destruct (decent_input r Hd). unfold chunk_left. nia. }
  assert (0 ≤ weigh tokens_left (filter running (reqs b))); [|nia].
  apply weigh_nonneg. eapply Forall_impl; [exact Hlv|]. intros r [_ ?]. unfold tokens_left. lia.
Qed.

(** The number of iterations that is enough for so many tokens. *)
Definition span (tokens : Z) : Z := 2 * (tokens * (Z.of_nat (se_context_len se) + 2)) + 2.
Definition iterations_for (tokens : Z) : Z := (tokens + 1) * span tokens.

(** Whatever the iterations are, after finitely many of them nothing is held. *)
Lemma drains_in T x : inv x → sched_delayer x = None → (held_load x).1 ≤ T → ∀ evs : nat → Event, (∀ i, iteration (evs i)) →
  ∃ n x', run_events (evs <$> seq 0 n) x = Ok x' ∧ held_rids x' = [] ∧
    Z.of_nat n ≤ Z.of_nat (work x).1 * span T + Z.of_nat (work x).2 + 1.
Proof.
  remember (work x).1 as m eqn:Hm. revert x Hm. induction m as [m IHm] using lt_wf_ind. intros x Hm.
  remember (work x).2 as k eqn:Hk. revert x Hm Hk. induction k as [k IHk] using lt_wf_ind. intros x -> -> Hi Hd HT evs Hev.
  destruct (iteration_progress (evs 0%nat) x (Hev _) Hi Hd) as (x1 & Hr & Hi1 & Hd1 & _ & Hp).
  pose proof (held_load_nonneg x Hi). pose proof (held_load_nonneg x1 Hi1). pose proof (held_load_bound x1 Hi1).
  pose proof (busy_bit_range x1).
  assert (Hnext : ∀ k : Z, (∃ n x', run_events ((evs ∘ S) <$> seq 0 n) x1 = Ok x' ∧ held_rids x' = [] ∧ Z.of_nat n ≤ k) →
    ∃ n x', run_events (evs <$> seq 0 n) x = Ok x' ∧ held_rids x' = [] ∧ Z.of_nat n ≤ k + 1).
  { intros k (n & x' & Hrun & Hh & Hn). exists (S n), x'. split_and!; [|done|lia]. cbn [seq fmap list_fmap run_events]. rewrite Hr.
    cbn [rbind]. rewrite <-fmap_S_seq, <-list_fmap_compose. exact Hrun. }
  assert (HC : 0 ≤ span T) by (unfold span; nia).
  destruct (progress_work x x1 Hi Hi1 Hd Hp) as [Hh|[Hlt|[He Hlt]]].
  - destruct (Hnext 0) as (n & x' & ? & ? & ?); [by exists 0%nat, x1|]. exists n, x'. split_and!; [done..|]. nia.
  - destruct (Hnext (Z.of_nat (work x1).1 * span T + Z.of_nat (work x1).2 + 1)) as (n & x' & ? & ? & Hn).
    { apply (IHm _ Hlt x1 eq_refl Hi1 Hd1); [|intros i; apply Hev]. unfold work in Hlt. cbn in Hlt. lia. }
    exists n, x'. split_and!; [done..|].
    assert (Z.of_nat (work x1).2 + 1 ≤ span T) by (unfold work, span in *; cbn [fst snd] in *; nia). nia.
  - destruct (Hnext (Z.of_nat (work x1).1 * span T + Z.of_nat (work x1).2 + 1)) as (n & x' & ? & ? & Hn).
    { rewrite He. apply (IHk _ Hlt x1 (eq_sym He) eq_refl Hi1 Hd1); [|intros i; apply Hev]. unfold work in He. cbn in He. lia. }
    exists n, x'. split_and!; [done..|]. rewrite He in Hn. lia.
Qed.

Lemma drains x : inv x → sched_delayer x = None → ∀ evs : nat → Event, (∀ i, iteration (evs i)) →
  ∃ n x', run_events (evs <$> seq 0 n) x = Ok x' ∧ held_rids x' = [] ∧ Z.of_nat n ≤ iterations_for (held_load x).1.
Proof.
  intros Hi Hd evs Hev. destruct (drains_in (held_load x).1 x Hi Hd ltac:(lia) evs Hev) as (n & x' & ? & ? & Hn).
  exists n, x'. split_and!; [done..|]. pose proof (held_load_nonneg x Hi). pose proof (held_load_bound x Hi). pose proof (busy_bit_range x).
  etrans; [exact Hn|]. unfold iterations_for, work. cbn [fst snd]. rewrite !Z2Nat.id by lia.
  assert (2 * (held_load x).2 + busy_bit x + 1 ≤ span (held_load x).1) by (unfold span; nia). lia.
Qed.

(** ... so every request of the server is answered: it finishes or is aborted. *)
Lemma answered x n : inv x → sched_delayer x = None → ∀ (evs : nat → Event) x', (∀ i, iteration (evs i)) →
  run_events (evs <$> seq 0 n) x = Ok x' → held_rids x' = [] → ∀ id, id ∈ held_rids x →
  ∃ k y, (0 < k ≤ n)%nat ∧ run_events (evs <$> seq 0 k) x = Ok y ∧ (id ∈ sent_aborts y ∨ id ∈ finished_rids y).
Proof.
  revert x. induction n as [|n IH]; intros x Hi Hd evs x' Hev Hrun Hh id Hid.
  { cbn in Hrun. simplify_eq. rewrite Hh in Hid. by apply elem_of_nil in Hid. }
  destruct (iteration_progress (evs 0%nat) x (Hev _) Hi Hd) as (x1 & Hr & Hi1 & Hd1 & Ha & _).
  cbn [seq fmap list_fmap run_events] in Hrun. rewrite Hr in Hrun. cbn [rbind] in Hrun.
  rewrite <-fmap_S_seq, <-list_fmap_compose in Hrun.
  assert (id ∈ held_rids x1 ++ sent_aborts x1 ++ finished_rids x1) as Hid1 by (apply Ha; rewrite elem_of_app; by left).
  rewrite !elem_of_app in Hid1. destruct Hid1 as [Hid1|Hid1].
  - destruct (IH x1 Hi1 Hd1 (evs ∘ S) x' (λ i, Hev (S i)) Hrun Hh id Hid1) as (k & y & Hk & Hy & Hans).
    exists (S k), y. split; [lia|]. split; [|done]. cbn [seq fmap list_fmap run_events]. rewrite Hr. cbn [rbind].
    rewrite <-fmap_S_seq, <-list_fmap_compose. exact Hy.
  - exists 1%nat, x1. split; [lia|]. split; [|done]. cbn [seq fmap list_fmap run_events]. rewrite Hr. done.
Qed.

Lemma reachable_no_delayer x : se_delayer se = None → reachable x → sched_delayer x = None.
Proof.
  intros Hd. induction 1 as [|x ev x' _ IH He Hr]; [exact Hd|]. destruct ev as [now wanted start r|id all|now deadline expired test forward].
  - apply intake_keeps_delayer in Hr. congruence.
  - cbn in Hr. by simplify_eq.
  - by eapply step_no_delayer.
Qed.
End server.
