(* ===== verification/RadixSystem.v ===== *)
(** The cache and its clients as a transition system: sequences of lookups,
    insertions, locks, evictions, session releases, allocations and frees in any
    order.  In every reachable state the invariant of the cache holds and every
    slot has exactly one owner: the tree, the allocator or a client. *)

From stdpp Require Import base gmap strings list relations.
From Stdlib Require Import ZArith Lia.
From S2P Require Import Prelude.
From S2P Require Import PyData.
From S2P Require Import Allocator.
From S2P Require Import AllocatorInv.
From S2P Require Import RadixKey.
From S2P Require Import RadixTree.
From S2P Require Import RadixInv.
From S2P Require Import RadixContent.
From S2P Require Import RadixOps.
From S2P Require Import RadixInsert.
From S2P Require Import RadixEvict.
From S2P Require Import RadixSession.
From S2P Require Import ReqCache.
From S2P Require Import ReqCacheInv.
From S2P Require Import ReqAlloc.

Open Scope Z_scope.

Section system.
Context {A : Type} `{KVPool A} `{!KVPoolTotal A} `{!KVPoolSlots A} `{KVAlloc A} `{!KVAllocLaws A}.
Context `{Env} `{!EnvLaws} `{HeapQ} `{!HeapQLaws}.
Variable cfg : Config.
Notation ps := (page_size cfg).
Notation eagle := (is_eagle cfg).

(** The cache, the locks its clients hold and the slots they own. *)
Record world := mkWorld { w_cache : RadixCache A; w_locks : list nat; w_slots : list Z }.

Inductive cache_step : world → world → Prop :=
  | step_match st L out key vs x st' :
      key_fits eagle key → match_prefix cfg key st = Ok (vs, x, st') →
      cache_step (mkWorld st L out) (mkWorld st' L out)
  | step_insert st L out out' key v prio chunked plen x st' :
      key_fits eagle key → (page_floor ps (key_len (view eagle key)) ≤ length v)%nat →
      insert cfg key (Some v) prio chunked st = Ok (plen, x, st') →
      out ≡ₚ drop plen (insert_value cfg key (Some v)) ++ out' →
      cache_step (mkWorld st L out) (mkWorld st' L out')
  | step_lock st L out n d st' :
      is_Some (nodes (tree st) !! n) → inc_lock_ref cfg n st = Ok (d, st') →
      cache_step (mkWorld st L out) (mkWorld st' (n :: L) out)
  | step_unlock st L L' out n d st' :
      L ≡ₚ n :: L' → dec_lock_ref cfg n st = Ok (d, st') →
      cache_step (mkWorld st L out) (mkWorld st' L' out)
  | step_evict st L out num n st' :
      evict cfg num st = Ok (n, st') →
      cache_step (mkWorld st L out) (mkWorld st' L out)
  | step_tag st L out sid key node st' :
      key_fits eagle key → (∀ n, node = Some n → is_Some (nodes (tree st) !! n)) →
      tag_session_leaf cfg sid key node st = Ok st' →
      cache_step (mkWorld st L out) (mkWorld st' L out)
  | step_release st L out sid freed st' :
      release_radix_session cfg sid st = Ok (freed, st') →
      cache_step (mkWorld st L out) (mkWorld st' L out)
  | step_alloc st L out n l st' :
      0 ≤ n → alloc_token_slots cfg n st = Ok (l, st') →
      cache_step (mkWorld st L out) (mkWorld st' L (l ++ out))
  | step_free st L out l out' st' :
      out ≡ₚ l ++ out' → free_kv l st = Ok st' →
      cache_step (mkWorld st L out) (mkWorld st' L out').

(** [S0] are all the slots of the pool. *)
Record world_inv (S0 : list Z) (w : world) : Prop := {
  wi_wf : cache_wf cfg (w_cache w) (w_locks w);
  wi_ready : kv_ready (allocator (w_cache w));
  wi_slots : all_slots (w_cache w) ++ w_slots w ≡ₚ S0;
}.

Hypothesis Hdis : disable cfg = false.

Lemma world_keep S0 st L out st' :
  world_inv S0 (mkWorld st L out) → cache_wf cfg st' L → all_slots st' ≡ₚ all_slots st →
  kv_ready (allocator st') → world_inv S0 (mkWorld st' L out).
Proof. intros [Hw Hr Hs] Hw' Hs' Hr'. split; cbn in *; [done..|]. by rewrite Hs'. Qed.

Lemma same_content_keep S0 st L out st' :
  world_inv S0 (mkWorld st L out) → cache_wf cfg st' L → same_content cfg st st' →
  world_inv S0 (mkWorld st' L out).
Proof.
  intros Hi Hw Hsc. eapply world_keep; [done..| |]; [by eapply same_content_slots|].
  rewrite (sc_alloc _ _ _ Hsc). apply Hi.
Qed.

Lemma alloc_step_inv S0 st L out n l st' :
  0 ≤ n → world_inv S0 (mkWorld st L out) → alloc_token_slots cfg n st = Ok (l, st') →
  world_inv S0 (mkWorld st' L (l ++ out)).
Proof.
  intros Hn [Hw Hr Hs] Ha. cbn in *.
  destruct (decide (n ≤ kv_available_size (allocator st) + evictable_size_ (tree st))) as [Hle|Hgt].
  - destruct (alloc_token_slots_ok cfg n st L Hw Hdis Hr ltac:(lia)) as
      (l' & st1 & Ha' & _ & Hw1 & Hr1 & Hs1 & _). same_run.
    split; cbn; [done..|]. rewrite <-Hs, Hs1. solve_perm.
  - rewrite (alloc_token_slots_refuses cfg n st L Hw Hdis Hr) in Ha by lia. done.
Qed.

Lemma cache_step_inv S0 w w' : cache_step w w' → world_inv S0 w → world_inv S0 w'.
Proof.
  intros Hstep Hi. pose proof Hi as [Hw Hr Hs]. destruct Hstep; cbn in *.
  - destruct (match_prefix_ok cfg st L key Hw Hdis) as (vs' & x' & st1 & Hrun & Hsp); [done|].
    same_run. eapply same_content_keep; [done|apply Hsp|by eapply match_same_content].
  - destruct (insert_ok cfg st L key (Some v) prio chunked Hw Hdis) as (old & pl & y & st1 & Hrun & Hsp);
      [done|by intros ? [= <-]|]. same_run.
    destruct (is_frame _ _ _ _ _ _ _ _ _ Hsp) as [Ha _].
    split; cbn; [apply Hsp|by rewrite Ha|]. rewrite <-Hs. unfold all_slots.
    rewrite (is_slots _ _ _ _ _ _ _ _ _ Hsp), Ha. solve_perm.
  - destruct (inc_lock_ref_ok cfg st L n Hw Hdis) as (d' & st1 & Hrun & Hw1 & Hsp); [done|]. same_run.
    pose proof (lock_same_content cfg _ _ _ Hsp) as Hsc.
    split; cbn; [done|by rewrite (sc_alloc _ _ _ Hsc)|]. by rewrite (same_content_slots cfg _ _ Hsc).
  - assert (Hw1 : cache_wf cfg st (n :: L')) by (by eapply cache_wf_perm).
    destruct (dec_lock_ref_ok cfg st L' n Hw1 Hdis) as (d' & st1 & Hrun & Hw2 & Hsp). same_run.
    pose proof (lock_same_content cfg _ _ _ Hsp) as Hsc.
    split; cbn; [done|by rewrite (sc_alloc _ _ _ Hsc)|]. by rewrite (same_content_slots cfg _ _ Hsc).
  - destruct (evict_ok cfg st L num Hw Hdis) as (xs & n' & st1 & Hrun & Hsp). same_run.
    eapply world_keep; [done|by eapply evict_spec_post|by eapply evict_spec_slots|].
    by eapply evict_spec_available.
  - destruct (tag_session_leaf_ok cfg sid key node st L Hw Hdis) as (st1 & Hrun & Hw1 & Hsc); [done..|].
    same_run. by eapply same_content_keep.
  - destruct (release_radix_session_ok cfg sid st L Hw) as (f & st1 & Hrun & Hw1 & Hsh & _). same_run.
    eapply world_keep; [done..|apply Hsh|]. by eapply frees_ready; [apply Hsh|].
  - by eapply alloc_step_inv.
  - destruct (free_kv_ok cfg st l L Hw) as (st1 & Hrun & Hw1 & Ht & _ & Hk). same_run.
    split; cbn; [done| |].
    + match goal with Hrun : free_kv _ _ = Ok _ |- _ => unfold free_kv in Hrun end.
      inv_ok. by eapply kv_free_ready.
    + rewrite <-Hs. unfold all_slots. rewrite Ht, Hk. solve_perm.
Qed.

Lemma cache_reach_inv S0 w w' : rtc cache_step w w' → world_inv S0 w → world_inv S0 w'.
Proof. induction 1; eauto using cache_step_inv. Qed.
End system.

(** ** Over the token allocator *)

Section token_system.
Context `{Env} `{!EnvLaws} `{HeapQ} `{!HeapQLaws}.
Variable cfg : Config.

Definition token_world (size : Z) (need_sort : bool) : world (A := Allocator) :=
  mkWorld (init_cache cfg (token_init size need_sort) 0) [] [].

Lemma token_world_inv size ns :
  (1 ≤ page_size cfg)%nat → world_inv cfg (torch_arange 1 (size + 1)) (token_world size ns).
Proof.
  intros Hps. split; cbn [token_world w_cache w_locks w_slots].
  - by apply reset_wf.
  - unfold init_cache, reset, record_all_cleared_event. by case_match.
  - assert (Ht : tree_slots (tree (init_cache cfg (token_init size ns) 0)) = []).
    { unfold init_cache, reset, record_all_cleared_event, tree_slots.
      case_match; cbn [tree nodes with_events]; by rewrite map_to_list_singleton. }
    unfold all_slots. rewrite Ht, app_nil_r. unfold init_cache, reset, record_all_cleared_event.
    case_match; cbn; by rewrite !app_nil_r.
Qed.
End token_system.

