(* ===== verification/AllocatorProps.v ===== *)
(** The claims about the KV-slot allocators, with concrete instances. *)

From stdpp Require Import base gmap list relations.
From Stdlib Require Import ZArith Lia.
From S2P Require Import Prelude.
From S2P Require Import Allocator.
From S2P Require Import AllocKernel.
From S2P Require Import AllocatorInv.

Open Scope Z_scope.

(** C21: whatever order the programs of the grid run in, [alloc_extend_kernel]
    fills the output exactly as the reference routine [alloc_extend_naive] does,
    provided the free list holds the pages of the batch; words loaded past its
    end are never used. *)
Theorem extend_kernel_is_naive ps pres seqs lasts free junk order out :
  0 < ps → extend_batch pres seqs lasts → order ≡ₚ seq 0 (length pres) →
  page_start ps seqs pres (length pres) ≤ Z.of_nat (length free) →
  Z.of_nat (length out) = out_start seqs pres (length pres) →
  foldl (λ out pid, alloc_extend_kernel (load_or junk free) ps pres seqs lasts pid out) out order =
    alloc_extend_naive pres seqs lasts free ps out.
Proof.
  intros Hps HB Ho Hf Hl. rewrite (grid_any_order ps pres seqs lasts) by done.
  rewrite (naive_spec ps pres seqs lasts) by done. apply batch_spec_ext; [done..|].
  intros j Hj. unfold load_or. rewrite (proj2 (Z.leb_le 0 j)), (proj2 (Z.ltb_lt j _)) by lia. done.
Qed.

(** Two requests on pages of four: three new tokens after a prefix of two, and
    five tokens of a new request; the programs run in reverse order. *)
Lemma extend_kernel_is_naive_witness :
  foldl (λ out pid, alloc_extend_kernel (load_or (λ _, -7) [5; 9; 3]) 4 [2; 0] [5; 5] [21; -1] pid out)
    (replicate 8 0) [1%nat; 0%nat] = [22; 23; 20; 36; 37; 38; 39; 12].
Proof.
  rewrite (extend_kernel_is_naive 4 [2; 0] [5; 5] [21; -1] [5; 9; 3] (λ _, -7) [1%nat; 0%nat] (replicate 8 0));
    [vm_compute; reflexivity|lia| |apply Permutation_swap|vm_compute; discriminate|reflexivity].
  split; [done..|]. intros [|[|i]] p s; cbn; intros; simplify_eq; lia.
Defined.

(** One decode step is an extension by one token: the decode kernel writes
    the slot the extend kernel writes, and [get_num_new_pages] counts the pages
    it opens. *)
Theorem decode_is_extend_by_one fp ps seqs lasts pid out :
  1 < ps → Forall (λ s, 1 ≤ s) seqs → length lasts = length seqs → (pid < length seqs)%nat →
  alloc_decode_kernel fp ps seqs lasts pid out =
    alloc_extend_kernel fp ps ((λ s, s - 1) <$> seqs) seqs lasts pid out ∧
  get_num_new_pages seqs ps None true = get_num_new_pages seqs ps (Some ((λ s, s - 1) <$> seqs)) false.
Proof.
  intros Hps Hs Hl Hp. split; [apply alloc_decode_kernel_extend; (done || lia)|].
  rewrite (get_num_new_pages_decode ps seqs) by done. rewrite get_num_new_pages_extend, length_fmap.
  by rewrite Nat.min_id.
Qed.

Lemma decode_is_extend_by_one_witness :
  alloc_decode_kernel (λ i, 10 + i) 4 [5; 7] [30; 41] 0 [0; 0] = [40; 0] ∧
  get_num_new_pages [5; 7] 4 (Some ((λ s, s - 1) <$> [5; 7])) false = Ok 1.
Proof.
  destruct (decode_is_extend_by_one (λ i, 10 + i) 4 [5; 7] [30; 41] 0 [0; 0]) as [Hk Hn];
    [lia|repeat constructor; lia|reflexivity|cbn; lia|].
  split; [rewrite Hk; vm_compute; reflexivity|rewrite <-Hn; vm_compute; reflexivity].
Defined.

(** in every state a client of the token allocator can reach, through
    allocations, frees, free groups, rollbacks and clears, the free list, the
    pending frees and the slots of the client partition [1 .. size]; so no slot
    is handed out twice or lost, and slot 0 is never handed out. *)
Theorem token_slots_partition size ns st live :
  rtc token_step (token_init size ns, []) (st, live) →
  held st ++ pending st ++ live ≡ₚ torch_arange 1 (size + 1) ∧
  NoDup live ∧ (∀ x, x ∈ live → 1 ≤ x ≤ size ∧ x ∉ held st) ∧
  token_available_size st + Z.of_nat (length (pending st)) + Z.of_nat (length live) = Z.max 0 size.
Proof.
  intros Hr. apply token_reach_inv in Hr as (_ & Hp & _). cbn in Hp.
  destruct (partition_safe _ _ _ _ _ Hp) as (Hnd & Hrange & Hd). split_and!; try done.
  - intros x Hx. specialize (Hrange x Hx). split; [lia|auto].
  - apply Permutation_length in Hp. rewrite !length_app, length_arange in Hp.
    unfold token_available_size, held in *. rewrite length_app in Hp. lia.
Qed.

(** A client that takes three slots and gives one back. *)
Lemma token_slots_partition_witness :
  held (set_free_pages (token_init 4 false) [4; 2]) ++ [] ++ [1; 3] ≡ₚ torch_arange 1 5.
Proof.
  destruct (token_slots_partition 4 false (set_free_pages (token_init 4 false) [4; 2]) [1; 3]) as [Hp _];
    [|exact Hp].
  eapply rtc_l; [apply (ts_alloc (token_init 4 false) [] 3 (Some [1; 2; 3])); reflexivity|].
  eapply rtc_l; [eapply (ts_free _ _ [2] [1; 3]); [|reflexivity]|apply rtc_refl].
  apply Permutation_swap.
Defined.

(** An allocation of the token allocator is refused exactly when it asks
    for more than is available. *)
Theorem token_alloc_exact size ns st live n :
  rtc token_step (token_init size ns, []) (st, live) → 0 ≤ n →
  (token_alloc st n).1 = None ↔ token_available_size st < n.
Proof.
  intros Hr Hn. apply token_reach_inv in Hr as (_ & _ & Hrel). cbn in Hrel.
  destruct (token_alloc st n) as [[l|] st'] eqn:Ha; cbn; split; try done.
  - pose proof (token_alloc_Some st n l st' Hn Ha). apply token_alloc_held in Ha as (Hh & _).
    apply Permutation_length in Hh. rewrite length_app in Hh. cbn in Hh.
    unfold token_available_size, held in *. rewrite length_app in Hh. lia.
  - intros _. by eapply token_alloc_None.
Qed.

Lemma token_alloc_exact_witness :
  (token_alloc (token_init 4 true) 5).1 = None ↔ token_available_size (token_init 4 true) < 5.
Proof. apply (token_alloc_exact 4 true (token_init 4 true) []); [apply rtc_refl|lia]. Defined.

(** C23: in every state a client of the paged allocator can reach, whatever the
    kernels read past the free list and in whatever order the grid runs, the
    free pages, the pages pending in a free group and the pages of the client
    partition [1 .. size / page_size]. *)
Theorem paged_pages_partition junk grid size ps ns dbg st live :
  (∀ n, grid n ≡ₚ seq 0 n) → 1 < ps →
  rtc (paged_step junk grid) (paged_init size ps ns dbg, []) (st, live) →
  held st ++ pending_pages st ++ live ≡ₚ torch_arange 1 (size / ps + 1) ∧
  NoDup live ∧ (∀ p, p ∈ live → 1 ≤ p ≤ size / ps ∧ p ∉ held st).
Proof.
  intros Hg Hps Hr. apply (paged_reach_inv junk grid Hg size ps ns dbg) in Hr as (_ & _ & Hp); [|done].
  cbn in Hp. destruct (partition_safe _ _ _ _ _ Hp) as (Hnd & Hrange & Hd). split_and!; try done.
  intros p Hpl. specialize (Hrange p Hpl). split; [lia|auto].
Qed.

(** One page of four of an eight-slot pool is taken. *)
Lemma paged_pages_partition_witness :
  held (set_free_pages (paged_init 8 4 false false) [2]) ++ [] ++ [1] ≡ₚ torch_arange 1 3.
Proof.
  destruct (paged_pages_partition (λ _, 0) (seq 0) 8 4 false false
    (set_free_pages (paged_init 8 4 false false) [2]) [1]) as [Hp _]; [done|lia| |exact Hp].
  eapply rtc_l; [|apply rtc_refl].
  exact (pg_alloc (λ _, 0) (seq 0) (paged_init 8 4 false false) [] 4 [4; 5; 6; 7] _ eq_refl).
Defined.

(** C22: the slots [alloc_extend] returns to a caller that holds the pages [live]
    are pairwise distinct, one per new token, and lie in its own pages or in
    pages that were free before; the token at position [pos] of a request gets a
    slot at offset [pos mod page_size] of its page. *)
Theorem alloc_extend_slots junk grid size ps st live pres seqs lasts out st' :
  (∀ n, grid n ≡ₚ seq 0 n) → 0 < ps → paged_inv size ps (st, live) →
  extend_call ps live pres seqs lasts →
  paged_alloc_extend junk grid st pres seqs lasts (out_start seqs pres (length pres)) None
    = Ok (Some out, st') →
  NoDup out ∧ paged_inv size ps (st', live ++ new_pages ps live out) ∧
  ∀ i p s pos, pres !! i = Some p → seqs !! i = Some s → p ≤ pos < s →
    ∃ x, out !! Z.to_nat (out_start seqs pres i + (pos - p)) = Some x ∧ x mod ps = pos mod ps.
Proof.
  intros Hg Hps Hi Hc Ha.
  destruct (paged_extend_inv junk grid Hg size ps st live pres seqs lasts out st' Hps Hi Hc Ha) as [Hnd Hi'].
  split_and!; [done..|]. intros i p s pos Hp Hs Hpos. pose proof (ec_batch _ _ _ _ _ Hc) as HB.
  destruct Hi as (_ & Hpsz & _). cbn in Hpsz.
  destruct (paged_extend_out junk grid Hg st pres seqs lasts out st') as [fp ->]; [lia|done|done|].
  rewrite Hpsz in *. destruct (lookup_lt_is_Some_2 lasts i) as [l Hl].
  { rewrite (eb_lasts _ _ _ HB). by eapply lookup_lt_Some. }
  by eapply batch_spec_offset; [..|by eapply ec_aligned|].
Qed.

(** A fresh request of five tokens on pages of four. *)
Lemma alloc_extend_slots_witness :
  NoDup [4; 5; 6; 7; 8].
Proof.
  refine (proj1 (alloc_extend_slots (λ _, 0) (seq 0) 12 4 (paged_init 12 4 false true) [] [0] [5] [-1]
    [4; 5; 6; 7; 8] (set_free_pages (paged_init 12 4 false true) [3]) (λ n, reflexivity _) _
    (paged_init_inv 12 4 false true) _ _)); [lia| |vm_compute; reflexivity].
  split; [split; [done..|]| | |]; intros [|i] *; try (destruct i; done); cbn; intros; simplify_eq/=; try lia; try done.
Defined.
