(* ===== verification/Samples.v ===== *)
(** A small concrete system: an empty cache over a pool of eight slots and the
    cache after one allocation and one insertion.  The concrete instances of the
    theorems run on it. *)

From stdpp Require Import base gmap strings list relations.
From Stdlib Require Import ZArith Lia.
From S2P Require Import Prelude.
From S2P Require Import PyData.
From S2P Require Import Allocator.
From S2P Require Import AllocatorInv.
From S2P Require Import RadixKey.
From S2P Require Import RadixTree.
From S2P Require Import RadixInv.
From S2P Require Import RadixContent.
From S2P Require Import RadixOps.
From S2P Require Import RadixInsert.
From S2P Require Import RadixEvict.
From S2P Require Import RadixSession.
From S2P Require Import ReqCache.
From S2P Require Import ReqAlloc.
From S2P Require Import RadixSystem.
From S2P Require Import PrefillAdderInv.

Open Scope Z_scope.

(** ** A concrete system *)

(** A clock that ticks and a hash of zeros. *)
Definition sample_env : Env := {|
  monotonic n := Z.of_nat n;
  force_miss := false;
  get_hash_str k _ ps := replicate (key_len k / ps)%nat "0000000000000000"%string;
|}.
#[export] Existing Instance sample_env.

Lemma sample_env_laws : EnvLaws.
Proof.
  split.
  - intros i j. cbn. lia.
  - intros k prior ps _ _. cbn. rewrite length_replicate. split; [done|].
    apply Forall_replicate. by exists 0.
Qed.
#[export] Existing Instance sample_env_laws.

(** Pages of two tokens, events and sessions on, least recently used first. *)
Definition sample_cfg : Config := mkConfig false 2 true true false false LRUStrategy.

Definition ok_or {A} (d : A) (r : result A) : A := match r with Ok a => a | Raise _ => d end.
Definition is_ok {A} (r : result A) : bool := match r with Ok _ => true | Raise _ => false end.

Lemma ok_or_eq {A} (d : A) r : is_ok r = true → r = Ok (ok_or d r).
Proof. by destruct r. Qed.

(** An empty cache over a pool of eight slots. *)
Definition sample0 : RadixCache Allocator := init_cache sample_cfg (token_init 8 false) 0.

Definition sample_key (l : list Z) : RadixKey := mkKey l None false None.

(** Five slots are allocated and four of them stored for the tokens 1 2 3 4. *)
Definition sample_alloc : list Z * RadixCache Allocator :=
  ok_or ([], sample0) (alloc_token_slots sample_cfg 5 sample0).
Definition sample_insert : nat * option nat * RadixCache Allocator :=
  ok_or (0%nat, None, sample0)
    (insert sample_cfg (sample_key [1; 2; 3; 4]) (Some sample_alloc.1) (Some 0) false sample_alloc.2).
Definition sample1 : RadixCache Allocator := sample_insert.2.
Definition sample_world : world := mkWorld sample1 [] [5].

Lemma sample0_wf : cache_wf sample_cfg sample0 [].
Proof. apply reset_wf. cbn. lia. Qed.

Lemma sample_alloc_step :
  cache_step sample_cfg (token_world sample_cfg 8 false) (mkWorld sample_alloc.2 [] (sample_alloc.1 ++ [])).
Proof.
  apply (step_alloc sample_cfg sample0 [] [] 5 sample_alloc.1 sample_alloc.2); [lia|].
  rewrite (ok_or_eq ([], sample0) (alloc_token_slots sample_cfg 5 sample0)) by (vm_compute; reflexivity).
  fold sample_alloc. by destruct sample_alloc.
Qed.

Lemma sample_reach : rtc (cache_step sample_cfg) (token_world sample_cfg 8 false) sample_world.
Proof.
  eapply rtc_l; [exact sample_alloc_step|]. eapply rtc_l; [|apply rtc_refl].
  apply (step_insert sample_cfg sample_alloc.2 [] _ [5] (sample_key [1; 2; 3; 4]) sample_alloc.1 (Some 0) false
    sample_insert.1.1 sample_insert.1.2 sample1).
  - done.
  - vm_compute. lia.
  - rewrite (ok_or_eq (0%nat, None, sample0) (insert _ _ _ _ _ _)) by (vm_compute; reflexivity).
    fold sample_insert. unfold sample1. by destruct sample_insert as [[? ?] ?].
  - replace (sample_alloc.1 ++ []) with [1; 2; 3; 4; 5] by (vm_compute; reflexivity).
    replace (drop _ _) with [1; 2; 3; 4] by (vm_compute; reflexivity). done.
Qed.

Lemma sample_reach_wf w :
  rtc (cache_step sample_cfg) (token_world sample_cfg 8 false) w →
  cache_wf sample_cfg (w_cache w) (w_locks w).
Proof.
  intros Hr. apply (wi_wf sample_cfg (torch_arange 1 9)).
  eapply cache_reach_inv; [done|exact Hr|]. apply (token_world_inv sample_cfg 8 false). cbn. lia.
Qed.

Lemma sample_alloc_wf : cache_wf sample_cfg sample_alloc.2 [].
Proof. exact (sample_reach_wf _ (rtc_once _ _ sample_alloc_step)). Qed.
Lemma sample1_wf : cache_wf sample_cfg sample1 [].
Proof. exact (sample_reach_wf _ sample_reach). Qed.
Lemma sample1_ready : kv_ready (allocator sample1).
Proof. vm_compute. repeat split. Qed.
