(* ===== verification/RadixProps.v ===== *)
(** The claims about the radix cache, with concrete instances. *)

From stdpp Require Import base gmap strings list relations.
From Stdlib Require Import ZArith Lia.
From S2P Require Import Prelude.
From S2P Require Import PyData.
From S2P Require Import Allocator.
From S2P Require Import AllocatorInv.
From S2P Require Import RadixKey.
From S2P Require Import RadixTree.
From S2P Require Import RadixInv.
From S2P Require Import RadixContent.
From S2P Require Import RadixOps.
From S2P Require Import RadixInsert.
From S2P Require Import RadixEvict.
From S2P Require Import RadixSession.
From S2P Require Import ReqCache.
From S2P Require Import ReqAlloc.
From S2P Require Import RadixSystem.
From S2P Require Import PrefillAdderInv.
From S2P Require Import Samples.

Open Scope Z_scope.

(** ** Claims *)

Section claims.
Context {A : Type} `{KVPool A} `{!KVPoolTotal A} `{!KVPoolSlots A} `{KVAlloc A} `{!KVAllocLaws A}.
Context `{Env} `{!EnvLaws} `{HeapQ} `{!HeapQLaws}.
Variable cfg : Config.
Hypothesis Hdis : disable cfg = false.
Implicit Types st : RadixCache A.
Notation ps := (page_size cfg).
Notation eagle := (is_eagle cfg).

(** C13: [match_prefix] returns, without raising, the slots of the longest
    page-aligned prefix of the key that is cached under its extra key; the
    lookup may split nodes but leaves the content, the allocator and the
    invariant of the cache as they are. *)
Theorem match_prefix_longest st L key :
  cache_wf cfg st L → key_fits eagle key →
  ∃ vs x st', match_prefix cfg key st = Ok (vs, x, st') ∧ cache_wf cfg st' L ∧
    cached ps (tree st) (extra_key key) (take (length vs) (units (view eagle key))) vs ∧
    (∀ us w, cached ps (tree st) (extra_key key) us w → us `prefix_of` units (view eagle key) →
       (length us ≤ length vs)%nat) ∧
    (∀ e us w, cached ps (tree st') e us w ↔ cached ps (tree st) e us w) ∧
    allocator st' = allocator st ∧ sizes st' = sizes st.
Proof.
  intros Hw Hf. destruct (match_prefix_ok cfg st L key Hw Hdis Hf) as (vs & x & st' & Hrun & Hs).
  exists vs, x, st'. pose proof (ms_wf _ _ _ _ _ _ _ Hs) as Hw'.
  split_and!; try done; try apply Hs; [|by eapply match_prefix_sizes].
  pose proof (down_length _ (cw_ps _ _ _ Hw') (tw_shape _ _ _ _ (cw_tree _ _ _ Hw')) _ _ _ _ _
    (ms_down _ _ _ _ _ _ _ Hs)) as [Hl Hal].
  split; [done|]. eexists x, _, vs. split_and!; [|done|by rewrite <-Hl, firstn_all].
  rewrite (ms_root _ _ _ _ _ _ _ Hs). by apply (ms_down _ _ _ _ _ _ _ Hs).
Qed.

(** C14: [insert] returns the length of the longest prefix that was cached
    already, keeps the slots of that prefix and stores the given slots for the
    rest: afterwards exactly the prefixes cached before and the page-aligned
    prefixes of the key are cached, and the slots given for the tokens beyond
    the old prefix are the only new ones in the tree. *)
Theorem insert_stores_suffix st L key v prio chunked :
  cache_wf cfg st L → key_fits eagle key →
  (page_floor ps (key_len (view eagle key)) ≤ length v)%nat →
  ∃ old plen x st', insert cfg key (Some v) prio chunked st = Ok (plen, Some x, st') ∧
    cache_wf cfg st' L ∧ allocator st' = allocator st ∧ length old = plen ∧
    (∀ us w, cached ps (tree st) (extra_key key) us w → us `prefix_of` insert_units cfg key →
       (length us ≤ plen)%nat) ∧
    tree_slots (tree st') ≡ₚ tree_slots (tree st) ++ drop plen (insert_value cfg key (Some v)) ∧
    ∀ e us w, cached ps (tree st') e us w ↔
      cached ps (tree st) e us w ∨
      (e = extra_key key ∧ (ps | length us)%nat ∧ us `prefix_of` insert_units cfg key ∧
       (plen < length us)%nat ∧
       w = take (length us) (old ++ drop plen (insert_value cfg key (Some v)))).
Proof.
  intros Hw Hf Hv.
  destruct (insert_ok cfg st L key (Some v) prio chunked Hw Hdis Hf) as (old & plen & x & st' & Hrun & Hs);
    [by intros ? [= <-]|].
  exists old, plen, x, st'. destruct (is_frame _ _ _ _ _ _ _ _ _ Hs) as [Ha _].
  destruct (is_plen _ _ _ _ _ _ _ _ _ Hs) as [Hl _]. split_and!; try done; apply Hs.
Qed.

(** C32: a lookup right after an insertion finds the whole page-aligned key,
    with the old slots of the prefix that was cached before and the inserted
    ones behind it. *)
Theorem insert_then_match st L key v prio chunked plen x st1 :
  cache_wf cfg st L → key_fits eagle key →
  (page_floor ps (key_len (view eagle key)) ≤ length v)%nat →
  insert cfg key (Some v) prio chunked st = Ok (plen, x, st1) →
  ∃ vs y st2, match_prefix cfg key st1 = Ok (vs, y, st2) ∧
    length vs = page_floor ps (key_len (view eagle key)) ∧
    drop plen vs = drop plen (take (page_floor ps (key_len (view eagle key))) v) ∧
    cached ps (tree st) (extra_key key) (take plen (units (view eagle key))) (take plen vs).
Proof.
  intros Hw Hf Hv Hins.
  destruct (insert_ok cfg st L key (Some v) prio chunked Hw Hdis Hf) as (old & pl & x' & st' & Hrun & Hs);
    [by intros ? [= <-]|]. same_run.
  destruct (insert_match_roundtrip cfg st L key v old pl x' st' Hw Hdis Hf Hv Hs)
    as (vs & y & st2 & ? & ? & ? & ?). eauto 10.
Qed.

(** C19: [evict] returns and keeps its promise ([evict_spec]): it removes, one
    by one, a first evictable leaf of the eviction strategy, frees its slots,
    and stops once enough tokens are evicted or no leaf is left.  It then has
    evicted at least the requested number of tokens or everything that was
    evictable; locked nodes and the paths above them stay as they are, and
    nothing new is cached. *)
Theorem evict_keeps_promise st L num_tokens :
  cache_wf cfg st L →
  ∃ xs n st', evict cfg num_tokens st = Ok (n, st') ∧ evict_spec cfg num_tokens 0 st xs n st' ∧
    cache_wf cfg st' L ∧
    (num_tokens ≤ n ∨ evictable_size_ (tree st') = 0) ∧
    evictable_size_ (tree st') = evictable_size_ (tree st) - n ∧
    protected_size_ (tree st') = protected_size_ (tree st) ∧
    (∀ e us w, cached ps (tree st') e us w → cached ps (tree st) e us w) ∧
    (∀ y nd, nodes (tree st) !! y = Some nd → 0 < lock_ref nd →
       ∀ e m us w, down (tree st) e m us w y → down (tree st') e m us w y).
Proof.
  intros Hw. destruct (evict_ok cfg st L num_tokens Hw Hdis) as (xs & n & st' & Hrun & Hs).
  destruct (evict_spec_post cfg _ _ _ _ _ _ _ Hw Hs) as [? ? [? ?] ? ? ? Hlk].
  exists xs, n, st'. split_and!; try done; [lia|]. intros y nd Hy Hl. by apply Hlk with nd.
Qed.

(** Every slot of an evicted leaf goes back to the allocator: eviction
    moves slots from the tree to the free list without losing or doubling one,
    and the free list grows by the number of evicted tokens. *)
Theorem evict_conserves_slots st L num_tokens n st' :
  cache_wf cfg st L → kv_ready (allocator st) → evict cfg num_tokens st = Ok (n, st') →
  all_slots st' ≡ₚ all_slots st ∧
  kv_available_size (allocator st') = kv_available_size (allocator st) + n.
Proof.
  intros Hw Hr Hrun. destruct (evict_ok cfg st L num_tokens Hw Hdis) as (xs & m & st1 & Hrun' & Hs).
  same_run. split; [by eapply evict_spec_slots|].
  destruct (evict_spec_available cfg _ _ _ _ _ _ _ Hw Hr Hs) as [_ Hav]. lia.
Qed.

(** C33: a lock on a node protects its whole path to the root: [inc_lock_ref]
    moves the tokens of the path that were not locked before from the
    evictable to the protected size, and releasing the lock gives back exactly
    the state before it was taken. *)
Theorem lock_and_unlock st L n :
  cache_wf cfg st L → is_Some (nodes (tree st) !! n) →
  ∃ d st' d', inc_lock_ref cfg n st = Ok (d, st') ∧ cache_wf cfg st' (n :: L) ∧
    evictable_size_ (tree st') = evictable_size_ (tree st) + d ∧
    protected_size_ (tree st') = protected_size_ (tree st) - d ∧
    (∀ e us w, cached ps (tree st') e us w ↔ cached ps (tree st) e us w) ∧
    dec_lock_ref cfg n st' = Ok (d', st).
Proof.
  intros Hw Hn. destruct (inc_lock_ref_ok cfg st L n Hw Hdis Hn) as (d & st' & Hinc & Hw' & Hs).
  destruct (inc_dec_id cfg st L n Hw Hdis Hn) as (d1 & st1 & d' & Hinc' & Hdec). same_run.
  exists d1, st1, d'. split_and!; try done; apply Hs.
Qed.

(** The two size counters account for every token of the tree:
    [total_size], which walks the tree, returns their sum, in every state of
    the cache. *)
Theorem total_size_is_sum st L :
  cache_wf cfg st L →
  total_size (tree st) = Ok (evictable_size_ (tree st) + protected_size_ (tree st)).
Proof.
  intros [Hps [Hsh _ Hac] _ _]. by apply (total_size_accounts (ps := ps) (eagle := eagle)).
Qed.

(** releasing a session returns; it removes only unlocked leaves, all of
    whose slots go to the allocator, leaves the other sessions their tags and
    the locked paths in place, and afterwards no node carries the session. *)
Theorem release_session_safe sid st L :
  cache_wf cfg st L →
  ∃ freed st', release_radix_session cfg sid st = Ok (freed, st') ∧ cache_wf cfg st' L ∧
    all_slots st' ≡ₚ all_slots st ∧ protected_size_ (tree st') = protected_size_ (tree st) ∧
    (∀ e us w, cached ps (tree st') e us w → cached ps (tree st) e us w) ∧
    (∀ y nd, nodes (tree st) !! y = Some nd → 0 < lock_ref nd →
       ∀ e m us w, down (tree st) e m us w y → down (tree st') e m us w y) ∧
    (∀ n m, meta st' !! n = Some m → sid ∉ holders m).
Proof.
  intros Hw. destruct (release_radix_session_ok cfg sid st L Hw) as (f & st' & Hrun & Hw' & Hsh & Hno).
  exists f, st'. split_and!; try done; try apply Hsh.
Qed.

End claims.

(** C9: starting from an empty cache over a fresh pool of [size] slots, after any
    sequence of lookups, insertions, locks, unlocks, evictions, session tags and
    releases, allocations and frees, the invariant of the cache holds and the
    slots [1 .. size] are partitioned among the tree, the allocator and the
    clients: no slot is lost, shared or handed out twice. *)
Theorem every_slot_has_one_owner `{Env} `{!EnvLaws} `{HeapQ} `{!HeapQLaws} cfg size ns w :
  disable cfg = false → (1 ≤ page_size cfg)%nat →
  rtc (cache_step cfg) (token_world cfg size ns) w →
  cache_wf cfg (w_cache w) (w_locks w) ∧
  tree_slots (tree (w_cache w)) ++ kv_slots (allocator (w_cache w)) ++ w_slots w
    ≡ₚ torch_arange 1 (size + 1) ∧
  NoDup (tree_slots (tree (w_cache w)) ++ w_slots w).
Proof.
  intros Hdis Hps Hr. destruct (cache_reach_inv cfg Hdis _ _ _ Hr (token_world_inv cfg size ns Hps)) as [Hw _ Hs].
  unfold all_slots in Hs. rewrite <-app_assoc in Hs. split_and!; [done..|].
  pose proof (NoDup_arange 1 (size + 1)) as Hnd. rewrite <-Hs, Permutation_app_swap_app in Hnd.
  by apply NoDup_app in Hnd as (_ & _ & ?).
Qed.

(** *** Events of a released session *)

Section release_events.
Context {A : Type} `{KVPool A}.
Variable cfg : Config.
Implicit Types st : RadixCache A.

Lemma discard_session_leaf_events n st st' :
  discard_session_leaf n st = Ok st' → kv_event_queue st' = kv_event_queue st.
Proof. unfold discard_session_leaf. intros Hd. inv_ok. by repeat (case_match; simplify_eq/=). Qed.

Lemma delete_leaf_events n st st' :
  delete_leaf cfg n st = Ok st' → kv_event_queue st' = kv_event_queue st.
Proof.
  unfold delete_leaf. intros Hd. inv_ok.
  match goal with H : discard_session_leaf _ _ = Ok _ |- _ => apply discard_session_leaf_events in H end.
  done.
Qed.

Lemma release_climb_events fuel sid n freed st freed' st' :
  release_climb cfg fuel sid n freed st = Ok (freed', st') → kv_event_queue st' = kv_event_queue st.
Proof.
  revert n freed st; induction fuel as [|fuel IH]; intros n freed st; [done|].
  cbn [release_climb]. intros Hr. inv_ok. case_match; [by simplify_eq|]. inv_ok.
  match goal with H : delete_leaf _ _ _ = Ok _ |- _ => apply delete_leaf_events in H; rename H into Hd end.
  erewrite IH by done. done.
Qed.

Lemma release_leaves_events sid l freed st freed' st' :
  release_leaves cfg sid l freed st = Ok (freed', st') → kv_event_queue st' = kv_event_queue st.
Proof.
  revert freed st; induction l as [|n l IH]; intros freed st; cbn [release_leaves]; intros Hr.
  { by simplify_eq. }
  apply rbind_Ok in Hr as (m & _ & Hr). case_match; [|eauto].
  apply rbind_Ok in Hr as ([f st1] & Hc & Hr). apply release_climb_events in Hc.
  erewrite IH by done. done.
Qed.

(** C36: the nodes freed with a session leave no trace in the event stream: unlike
    [evict], [release_radix_session] records no [BlockRemoved], so a subscriber
    keeps believing that the freed blocks are cached. *)
Theorem release_session_sends_no_event sid st freed st' :
  release_radix_session cfg sid st = Ok (freed, st') → kv_event_queue st' = kv_event_queue st.
Proof. unfold release_radix_session. intros Hr. by apply release_leaves_events in Hr. Qed.
End release_events.

(** ** Concrete instances *)

(** A lookup of [1 2 3 9] in the sample cache stops in the middle of the only
    node, which it splits at the page boundary. *)
Lemma match_prefix_longest_witness :
  ok_or [] (let! r := match_prefix sample_cfg (sample_key [1; 2; 3; 9]) sample1 in Ok (r.1.1)) = [1; 2] ∧
  ∃ vs x st', match_prefix sample_cfg (sample_key [1; 2; 3; 9]) sample1 = Ok (vs, x, st') ∧
    cached 2 (tree sample1) None (take (length vs) (Tok <$> [1; 2; 3; 9])) vs.
Proof.
  split; [vm_compute; reflexivity|].
  destruct (match_prefix_longest sample_cfg eq_refl sample1 [] (sample_key [1; 2; 3; 9]) sample1_wf)
    as (vs & x & st' & Hrun & _ & Hc & _); [intros [=]|].
  exists vs, x, st'. split; [exact Hrun|exact Hc].
Defined.

(** The tokens [1 2 7 8] are inserted behind the cached prefix [1 2]. *)
Lemma insert_stores_suffix_witness :
  ∃ plen x st', insert sample_cfg (sample_key [1; 2; 7; 8]) (Some [1; 2; 5; 6]) (Some 0) false sample1
      = Ok (plen, Some x, st') ∧
    tree_slots (tree st') ≡ₚ tree_slots (tree sample1) ++ drop plen [1; 2; 5; 6].
Proof.
  destruct (insert_stores_suffix sample_cfg eq_refl sample1 [] (sample_key [1; 2; 7; 8]) [1; 2; 5; 6]
    (Some 0) false sample1_wf) as (old & plen & x & st' & Hrun & _ & _ & _ & _ & Hs & _);
    [intros [=]|vm_compute; lia|].
  exists plen, x, st'. split; [exact Hrun|exact Hs].
Defined.

Lemma insert_then_match_witness :
  ∃ vs y st2, match_prefix sample_cfg (sample_key [1; 2; 3; 4]) sample1 = Ok (vs, y, st2) ∧
    vs = [1; 2; 3; 4].
Proof.
  destruct (insert_then_match sample_cfg eq_refl sample_alloc.2 [] (sample_key [1; 2; 3; 4]) sample_alloc.1
    (Some 0) false sample_insert.1.1 sample_insert.1.2 sample1) as (vs & y & st2 & Hm & _ & Hd & _).
  - exact sample_alloc_wf.
  - intros [=].
  - vm_compute. lia.
  - vm_compute. reflexivity.
  - exists vs, y, st2. split; [exact Hm|exact Hd].
Defined.

(** Three tokens are asked for, and the one leaf, of four tokens, goes. *)
Lemma evict_keeps_promise_witness :
  ∃ n st', evict sample_cfg 3 sample1 = Ok (n, st') ∧
    (3 ≤ n ∨ evictable_size_ (tree st') = 0) ∧ evictable_size_ (tree st') = 4 - n.
Proof.
  destruct (evict_keeps_promise sample_cfg eq_refl sample1 [] 3 sample1_wf)
    as (xs & n & st' & Hrun & _ & _ & Hn & He & _).
  exists n, st'. split; [exact Hrun|]. split; [exact Hn|exact He].
Defined.

Definition sample_evict : Z * RadixCache Allocator := ok_or (0, sample1) (evict sample_cfg 3 sample1).

Lemma evict_conserves_slots_witness :
  all_slots sample_evict.2 ≡ₚ all_slots sample1 ∧
  kv_available_size (allocator sample_evict.2) = kv_available_size (allocator sample1) + 4.
Proof.
  apply (evict_conserves_slots sample_cfg eq_refl sample1 [] 3 4 sample_evict.2 sample1_wf sample1_ready).
  vm_compute. reflexivity.
Defined.

Lemma lock_and_unlock_witness :
  ∃ d st' d', inc_lock_ref sample_cfg 1 sample1 = Ok (d, st') ∧ dec_lock_ref sample_cfg 1 st' = Ok (d', sample1).
Proof.
  destruct (lock_and_unlock sample_cfg eq_refl sample1 [] 1%nat sample1_wf)
    as (d & st' & d' & Hi & _ & _ & _ & _ & Hd); [vm_compute; eexists; reflexivity|].
  exists d, st', d'. split; [exact Hi|exact Hd].
Defined.

Lemma total_size_is_sum_witness : total_size (tree sample1) = Ok 4.
Proof. exact (total_size_is_sum sample_cfg sample1 [] sample1_wf). Defined.

Lemma release_session_safe_witness :
  ∃ freed st', release_radix_session sample_cfg "s" sample1 = Ok (freed, st') ∧ all_slots st' ≡ₚ all_slots sample1.
Proof.
  destruct (release_session_safe sample_cfg "s" sample1 [] sample1_wf) as (f & st' & Hr & _ & Hs & _).
  exists f, st'. split; [exact Hr|exact Hs].
Defined.


Lemma every_slot_has_one_owner_witness :
  tree_slots (tree sample1) ++ kv_slots (allocator sample1) ++ [5] ≡ₚ torch_arange 1 9.
Proof.
  destruct (every_slot_has_one_owner sample_cfg 8 false sample_world eq_refl ltac:(cbn; lia) sample_reach)
    as (_ & Hp & _). exact Hp.
Defined.

(** A cached node is tagged and released: one node is freed, no event is sent. *)
Definition sample_tagged : RadixCache Allocator :=
  ok_or sample1 (tag_session_leaf sample_cfg (Some "s"%string) (sample_key [1; 2; 3; 4]) (Some 1%nat) sample1).
Definition sample_released : Z * RadixCache Allocator :=
  ok_or (0, sample_tagged) (release_radix_session sample_cfg "s" sample_tagged).

Lemma release_session_sends_no_event_witness :
  sample_released.1 = 1 ∧ kv_event_queue sample_released.2 = kv_event_queue sample_tagged.
Proof.
  split; [vm_compute; reflexivity|].
  apply (release_session_sends_no_event sample_cfg "s" sample_tagged sample_released.1 sample_released.2).
  vm_compute. reflexivity.
Defined.
