(* ===== verification/ReqProps.v ===== *)
(** The claims about keys and about the KV cache of a request. *)

From stdpp Require Import base gmap strings list relations.
From Stdlib Require Import ZArith Lia.
From S2P Require Import Prelude.
From S2P Require Import PyData.
From S2P Require Import Allocator.
From S2P Require Import AllocatorInv.
From S2P Require Import RadixKey.
From S2P Require Import RadixTree.
From S2P Require Import RadixInv.
From S2P Require Import RadixContent.
From S2P Require Import RadixOps.
From S2P Require Import RadixInsert.
From S2P Require Import RadixEvict.
From S2P Require Import RadixSession.
From S2P Require Import ReqCache.
From S2P Require Import ReqCacheInv.
From S2P Require Import ReqAlloc.
From S2P Require Import ReqLife.
From S2P Require Import Samples.

Open Scope Z_scope.

(** ** Keys *)

(** C35: the galloping comparison with its binary search computes the length of
    the longest common prefix of the two keys, in tokens or bigrams, rounded
    down to whole pages; it always terminates with a result, and keys of
    different name spaces are refused. *)
Theorem key_match_is_lcp k1 k2 ps :
  (1 ≤ ps)%nat → is_bigram k1 = is_bigram k2 →
  key_match k1 k2 ps =
    if decide (extra_key k1 = extra_key k2)
    then Ok (page_floor ps (lcp (units k1) (units k2))) else Raise ValueError.
Proof.
  intros Hps Hb. case_decide as He; [by apply key_match_lcp|].
  unfold key_match, check_compatible. by rewrite decide_False.
Qed.

(** Bigram views that share four of five tokens, on pages of two. *)
Lemma key_match_is_lcp_witness :
  key_match (mkKey [1; 2; 3; 4; 5; 6] None true None) (mkKey [1; 2; 3; 4; 9; 6] None true None) 2 = Ok 2%nat.
Proof.
  rewrite (key_match_is_lcp (mkKey [1; 2; 3; 4; 5; 6] None true None) (mkKey [1; 2; 3; 4; 9; 6] None true None) 2);
    [vm_compute; reflexivity|lia|reflexivity].
Defined.

Lemma hex_digit_range c d : hex_digit c = Some d → 0 ≤ d < 16.
Proof.
  unfold hex_digit. intros Hd. repeat case_match; simplify_eq;
    repeat match goal with H : (_ && _) = true |- _ => apply andb_true_iff in H as [? ?] end;
    repeat match goal with H : (_ <=? _)%nat = true |- _ => apply Nat.leb_le in H end;
    repeat match goal with H : (_ <=? _) = true |- _ => apply Z.leb_le in H end; lia.
Qed.

Lemma parse_hex_range s acc z n :
  parse_hex acc s = Ok z → 0 ≤ acc < 16 ^ Z.of_nat n →
  0 ≤ z < 16 ^ Z.of_nat (n + String.length s).
Proof.
  revert acc n; induction s as [|c s IH]; intros acc n; cbn [parse_hex String.length]; intros Hp Ha.
  - simplify_eq. by rewrite Nat.add_0_r.
  - inv_ok. rename Hra into Hd. apply hex_digit_range in Hd.
    replace (n + S (String.length s))%nat with (S n + String.length s)%nat by lia.
    eapply IH; [done|]. rewrite Nat2Z.inj_succ, Z.pow_succ_r by lia. lia.
Qed.

Lemma substring_length n s : (String.length (String.substring 0 n s) ≤ n)%nat.
Proof. revert s; induction n as [|n IH]; intros [|c s]; cbn; try lia. specialize (IH s). lia. Qed.

(** A block hash on the wire is a signed 64-bit integer: the first sixteen
    hex digits of the digest, reinterpreted in two's complement. *)
Theorem block_hash_is_int64 s z :
  hash_str_to_int64 s = Ok z →
  - 2 ^ 63 ≤ z < 2 ^ 63 ∧ parse_hex 0 (String.substring 0 16 s) = Ok (z mod 2 ^ 64).
Proof.
  unfold hash_str_to_int64. intros Hh. inv_ok. rename Hra into Hp.
  assert (Hpx : parse_hex 0 (String.substring 0 16 s) = Ok ra) by (by destruct (String.substring 0 16 s)).
  pose proof (parse_hex_range _ 0 _ 0 Hpx ltac:(lia)) as Hr.
  pose proof (substring_length 16 s) as Hl.
  assert (Hle : 16 ^ Z.of_nat (0 + String.length (String.substring 0 16 s)) ≤ 16 ^ 16)
    by (apply Z.pow_le_mono_r; lia).
  assert (Hb : 0 ≤ ra < 2 ^ 64) by (change (2 ^ 64) with (16 ^ 16); lia).
  rewrite Hpx. destruct (Z.leb_spec (2 ^ 63) ra); simplify_eq.
  - split; [lia|]. f_equal. rewrite <-(Z.mod_small ra (2 ^ 64)) at 1 by lia.
    rewrite <-(Z_mod_plus_full (ra - 2 ^ 64) 1 (2 ^ 64)). f_equal. lia.
  - split; [lia|]. by rewrite Z.mod_small.
Qed.

Lemma block_hash_is_int64_witness : - 2 ^ 63 ≤ -1 < 2 ^ 63.
Proof. exact (proj1 (block_hash_is_int64 "ffffffffffffffff00" (-1) eq_refl)). Defined.

(** ** The KV cache of a request *)

Section req_claims.
Context {A : Type} `{KVPool A} `{!KVPoolTotal A} `{!KVPoolSlots A} `{KVAlloc A}.
Context `{Env} `{!EnvLaws} `{HeapQ} `{!HeapQLaws}.
Variable cfg : Config.
Variable strip : bool.
Hypothesis Hdis : disable cfg = false.
Notation ps := (page_size cfg).

(** C15: when a request leaves, over the radix cache and an allocator that takes single
    slots back (the token allocator), [release_kv_cache] returns; every slot that
    belongs to the request alone ends up exactly once in the tree or in the
    allocator, the over-allocated ones in the allocator; its lock is dropped, its
    row goes back to the request pool, nothing that was cached is lost, and with
    [is_insert] its whole page-aligned token sequence is cached. *)
Theorem release_returns_everything s r spec_algo is_insert L others idx row ids kv :
  cache_wf cfg (cache s) (locks_with r L) →
  kv_committed_freed r = false → kv_overallocated_freed r = false →
  req_pool_idx r = Some idx → req_to_token (req_to_token_pool s) !! idx = Some row →
  ids = take (cache_commit_len strip r) (origin_input_ids r ++ output_ids r) →
  kv = take (length ids) row → req_slots cfg (cache s) r ids kv →
  (spec_algo = false → strip = false → cache_commit_len strip r = kv_allocated_len r) →
  pool_inv (req_to_token_pool s) (r :: others) →
  ∃ r' s', release_kv_cache cfg strip spec_algo r is_insert s = Ok (r', s') ∧
    req_pool_idx r' = None ∧ cache_wf cfg (cache s') L ∧
    pool_inv (req_to_token_pool s') (r' :: others) ∧
    all_slots (cache s') ≡ₚ all_slots (cache s) ++ owned r kv ++
      slice (over_start cfg strip r) (kv_allocated_len r) row ∧
    (∀ e us w, cached ps (tree (cache s)) e us w → cached ps (tree (cache s')) e us w) ∧
    (is_insert = true → skip_radix_cache_insert r = false → disable_finished_insert cfg = false →
       ∃ vs, cached ps (tree (cache s')) (req_extra_key r)
         (take (aligned_len cfg r ids) (units (token_key cfg r ids))) vs).
Proof.
  intros. destruct (release_kv_cache_ok cfg strip Hdis s r spec_algo is_insert L others idx row ids kv) as
    (s' & ? & ? & ? & _ & ? & ? & ? & _); [done..|]. exists (released r), s'. by split_and!.
Qed.

(** after a chunk of its prompt, [cache_unfinished_req] puts the full pages
    of the request in the tree: the slots it owned alone go to the tree, or to the
    allocator where the tree had that prefix already; its row and
    [prefix_indices] then point at the slots of the tree, the lock moves to the
    new last node, and no slot is lost or doubled. *)
Theorem unfinished_req_recached s r chunked L n idx row ids :
  cache_wf cfg (cache s) (n :: L) → last_node r = Some n →
  req_pool_idx r = Some idx → req_to_token (req_to_token_pool s) !! idx = Some row →
  get_fill_ids r = Ok ids → req_slots cfg (cache s) r ids (take (length ids) row) →
  ∃ r' s' y kv', cache_unfinished_req cfg r chunked s = Ok (r', s') ∧
    prefix_indices r' = kv' ∧ cache_protected_len r' = aligned_len cfg r ids ∧ last_node r' = Some y ∧
    cache_wf cfg (cache s') (y :: L) ∧ req_slots cfg (cache s') r' ids kv' ∧
    req_to_token (req_to_token_pool s') =
      <[idx := kv' ++ drop (length ids) row]> (req_to_token (req_to_token_pool s)) ∧
    all_slots (cache s') ++ owned r' kv' ≡ₚ all_slots (cache s) ++ owned r (take (length ids) row) ∧
    (∀ e us w, cached ps (tree (cache s)) e us w → cached ps (tree (cache s')) e us w).
Proof.
  intros Hw Hl Hidx Hrow Hids Hrs.
  destruct (cache_unfinished_req_ok cfg s r chunked L n idx row ids (take (length ids) row))
    as (r' & s' & y & kv' & Hrun & -> & ? & ? & _ & ? & _ & ? & ? & _); [done..|].
  exists (with_prefix kv' (aligned_len cfg r ids) (Some y) r), s', y, kv'. by split_and!.
Qed.

(** C34: for the next round the request looks up its input and output tokens and
    always leaves at least one token to compute (and the tokens from
    [logprob_start_len] on, when their logprobs are wanted); the prefix it gets is
    cached, and the lookup changes neither the slots nor the locks. *)
Theorem next_round_leaves_a_token s r L :
  cache_wf cfg (cache s) L → fill_ok r →
  ∃ r' s', init_next_round_input cfg r s = Ok (r', s') ∧ cache_wf cfg (cache s') L ∧
    all_slots (cache s') ≡ₚ all_slots (cache s) ∧
    full_untruncated_fill_ids r' = origin_input_ids r ++ output_ids r ∧
    (length (prefix_indices r') ≤ length (origin_input_ids r ++ output_ids r) - 1)%nat ∧
    (return_logprob r = true → session_streaming r = false → 0 ≤ logprob_start_len r →
       Z.of_nat (length (prefix_indices r')) ≤ logprob_start_len r) ∧
    (∃ us, length us = length (prefix_indices r') ∧
       cached ps (tree (cache s')) (req_extra_key r) us (prefix_indices r')).
Proof.
  intros Hw Hok. destruct (next_round_ok cfg Hdis s r L Hw Hok) as
    (vs & n & st' & -> & Hw' & Hk & Hs & Hlen & Hlp & Hd & Hn).
  eexists _, _; split; [done|]. cbn [cache prefix_indices with_prefix].
  split_and!; try done.
  - by apply refreshed_same.
  - eexists; split; [|by eapply (cached_whole cfg _ L)].
    by destruct (down_length _ (cw_ps _ _ _ Hw') (tw_shape _ _ _ _ (cw_tree _ _ _ Hw')) _ _ _ _ _ Hd) as [Hl _].
Qed.
End req_claims.

(** ** Request rows *)

(** whatever batches are admitted and whichever requests finish, the free
    rows and the rows of the requests partition [1 .. size]: two requests never
    share a row, row 0 is never handed out, and a batch is refused exactly when
    there are fewer free rows than requests without one. *)
Theorem request_rows_partition size mcl p rs :
  rtc pool_step (pool_init size mcl, []) (p, rs) →
  rp_free_slots p ++ rows_of rs ≡ₚ seq 1 size ∧ NoDup (rows_of rs) ∧
  (∀ i, i ∈ rows_of rs → (1 ≤ i ≤ size)%nat ∧ i ∉ rp_free_slots p) ∧
  ∀ batch others o batch' p', rs ≡ₚ batch ++ others → pool_alloc p batch = Ok (o, batch', p') →
    o = None ↔ (pool_available_size p < fresh_reqs batch)%nat.
Proof.
  intros Hr. destruct (pool_reach_inv _ _ Hr (pool_init_ok size mcl)) as [Hi Hsz]. cbn in Hi, Hsz.
  pose proof Hi as Hp. unfold pool_inv in Hp. rewrite Hsz in Hp.
  pose proof (NoDup_seq 1 size) as Hnd. rewrite <-Hp in Hnd. apply NoDup_app in Hnd as (_ & Hd & Hnd).
  split_and!; try done.
  - intros i Hi'. split; [|intros ?; by eapply Hd].
    assert (i ∈ seq 1 size) as Hs%elem_of_seq by (rewrite <-Hp; set_solver). lia.
  - intros batch others o batch' p' Hb Ha. unfold pool_inv in Hi. rewrite Hb in Hi.
    pose proof (pool_alloc_ok p batch others Hi (pool_alloc_reusing _ _ _ Ha)) as Hok.
    unfold pool_available_size. destruct (Nat.ltb_spec (length (rp_free_slots p)) (fresh_reqs batch)).
    + rewrite Ha in Hok. by simplify_eq.
    + destruct Hok as (l & ? & ? & Ha' & _). same_run. split; [done|lia].
Qed.

(** ** Concrete instances *)

(** A request of five tokens that owns the slots 1 to 5 and row 1. *)
Definition sample_req (node : option nat) : Req :=
  mkReq [1; 2; 3] [4; 5] [1; 2; 3; 4; 5] false (Some (0, 5)) None (Some 1%nat) 5 5 false false 0 []
    node (Some 0) None 0 false (-1) 0 false false false 0 0.
Definition sample_pool : ReqToTokenPool :=
  mkPool 2 6 [replicate 6 0; [1; 2; 3; 4; 5; 0]; replicate 6 0] [2%nat].
Definition sample_sys : Sys Allocator := mkSys sample_alloc.2 sample_pool.

Lemma sample_alloc_locked : cache_wf sample_cfg sample_alloc.2 [0%nat].
Proof.
  destruct (inc_lock_ref_ok sample_cfg sample_alloc.2 [] 0%nat sample_alloc_wf eq_refl)
    as (d & st' & Hrun & Hw & _); [vm_compute; eexists; reflexivity|].
  replace sample_alloc.2 with st'; [done|].
  assert (inc_lock_ref sample_cfg 0 sample_alloc.2 = Ok (0, sample_alloc.2)) as Hid by (vm_compute; reflexivity).
  rewrite Hid in Hrun. by injection Hrun.
Qed.

Lemma sample_req_slots node :
  req_slots sample_cfg sample_alloc.2 (sample_req node) [1; 2; 3; 4; 5] [1; 2; 3; 4; 5].
Proof.
  split; [done|cbn; lia|]. split; [by exists 0%nat|].
  eexists _, [], []. split; [apply down_nil|done].
Qed.

Lemma release_returns_everything_witness :
  ∃ r' s', release_kv_cache sample_cfg false false (sample_req None) true sample_sys = Ok (r', s') ∧
    all_slots (cache s') ≡ₚ all_slots sample_alloc.2 ++ [1; 2; 3; 4; 5].
Proof.
  destruct (release_returns_everything sample_cfg false eq_refl sample_sys (sample_req None) false true [] []
    1 [1; 2; 3; 4; 5; 0] [1; 2; 3; 4; 5] [1; 2; 3; 4; 5]) as (r' & s' & Hrun & _ & _ & _ & Hs & _);
    [exact sample_alloc_wf|reflexivity..|apply sample_req_slots|reflexivity|apply Permutation_swap|].
  exists r', s'. split; [exact Hrun|exact Hs].
Defined.

Lemma unfinished_req_recached_witness :
  ∃ r' s' kv', cache_unfinished_req sample_cfg (sample_req (Some 0%nat)) false sample_sys = Ok (r', s') ∧
    prefix_indices r' = kv' ∧
    all_slots (cache s') ++ owned r' kv' ≡ₚ all_slots sample_alloc.2 ++ [1; 2; 3; 4; 5].
Proof.
  destruct (unfinished_req_recached sample_cfg eq_refl sample_sys (sample_req (Some 0%nat)) false [] 0
    1 [1; 2; 3; 4; 5; 0] [1; 2; 3; 4; 5]) as (r' & s' & y & kv' & Hrun & Hp & _ & _ & _ & _ & _ & Hs & _);
    [exact sample_alloc_locked|reflexivity..|apply sample_req_slots|].
  exists r', s', kv'. split; [exact Hrun|]. split; [exact Hp|exact Hs].
Defined.

(** The whole prompt is cached but for its last token. *)
Lemma next_round_leaves_a_token_witness :
  ∃ r' s', init_next_round_input sample_cfg (sample_req None) (mkSys sample1 sample_pool) = Ok (r', s') ∧
    (length (prefix_indices r') ≤ 4)%nat.
Proof.
  destruct (next_round_leaves_a_token sample_cfg eq_refl (mkSys sample1 sample_pool) (sample_req None) [])
    as (r' & s' & Hrun & _ & _ & _ & Hl & _); [exact sample1_wf|left; reflexivity|].
  exists r', s'. split; [exact Hrun|exact Hl].
Defined.

(** Two requests arrive and get the rows 1 and 2. *)
Lemma request_rows_partition_witness :
  NoDup (rows_of [with_pool_idx (Some 1%nat) (sample_req None); with_pool_idx (Some 2%nat) (sample_req None)]).
Proof.
  destruct (request_rows_partition 2 6 (mkPool 2 6 (replicate 3 (replicate 6 0)) [])
    ([with_pool_idx (Some 1%nat) (sample_req None); with_pool_idx (Some 2%nat) (sample_req None)] ++ []))
    as (_ & Hnd & _); [|exact Hnd].
  eapply rtc_l; [apply (ps_arrive _ _ (with_pool_idx None (sample_req None))); reflexivity|].
  eapply rtc_l; [apply (ps_arrive _ _ (with_pool_idx None (sample_req None))); reflexivity|].
  eapply rtc_l; [eapply (ps_alloc _ _ _ []); [symmetry; rewrite app_nil_r; reflexivity|reflexivity]|].
  apply rtc_refl.
Defined.
