(* ===== verification/SchedProps.v ===== *)
(** The claims about scheduling: admission to a prefill batch, the order of the
    waiting queue, preemption, the delayers and the input of the scheduler. *)

From stdpp Require Import base gmap strings list relations sorting.
From Stdlib Require Import ZArith QArith Lia Lqa.
From S2P Require Import Prelude.
From S2P Require Import PyData.
From S2P Require Import Allocator.
From S2P Require Import RadixKey.
From S2P Require Import RadixTree.
From S2P Require Import RadixInv.
From S2P Require Import RadixContent.
From S2P Require Import RadixOps.
From S2P Require Import RadixEvict.
From S2P Require Import RadixSession.
From S2P Require Import ReqCache.
From S2P Require Import ReqAlloc.
From S2P Require Import Delayer.
From S2P Require Import PrefillAdder.
From S2P Require Import PrefillAdderInv.
From S2P Require Import SchedulePolicy.
From S2P Require Import SchedulePolicyInv.
From S2P Require Import Samples.

Open Scope Z_scope.

(** ** Admission *)

Section admission_claims.
Context {S : Type} `{PrefixCache S} `{!PrefixCacheLaws S} (ac : AdderCfg).
Context (gather : Delayer.Info → list Delayer.Info) (perf_counter : nat → Q).
Hypothesis Hcfg : cfg_ok ac gather.

(** C25: with the radix cache on, no diffusion blocks and a request whose prefix is on the
    device (nothing to load back from the host), [add_one_req] returns and the temporary
    lock of its [with] block is released: it admits the request, which then holds
    exactly one lock more, is last in the batch, fits the memory left and is
    charged to the budget, or it refuses it and leaves cache, budget and batch as
    they were. *)
Theorem admission_balances_locks al r n L (ad : Adder S) :
  adder_inv ac ad L → req_ready (ad_cache ad) r n → (∀ a, al = Some a → 0 < a) →
  ∃ res r' ad', add_one_req ac gather perf_counter al r ad = Ok (res, r', ad') ∧
    ((res ≠ CONTINUE ∧ r' = r ∧ ad' = set_exec (ad_exec ad') ad ∧ adder_inv ac ad' L) ∨
     (can_run_list ad' = can_run_list ad ++ [r'] ∧
      pc_inc_lock_ref (Some n) (ad_cache ad) = Ok (ad_cache ad') ∧
      extend_length r' ≤ cand_extend_input_len r ∧
      charged ac r' ad ad' ∧ res = budget_state ac ad' ∧ adder_inv ac ad' (n :: L))).
Proof.
  intros Hi Hr Hal.
  destruct (add_one_req_ok ac gather perf_counter Hcfg al r n L ad Hi Hr Hal) as (res & r' & ad' & Hrun & Hc).
  exists res, r', ad'. split; [done|]. destruct Hc as [[(? & ? & ?) ?]|((? & ? & (stop & -> & Hst & _) & _) & ? & ? & ? & _)].
  - by left.
  - right. split_and!; try done. unfold cand_extend_input_len. cbn. lia.
Qed.

(** chunked prefill cuts at most one request of a batch: once a request of the
    pass is chunked, what is left of the chunk budget is less than a chunk, and no
    later request replaces it. *)
Theorem one_chunk_per_pass al r n L (ad : Adder S) res r' ad' :
  adder_inv ac ad L → req_ready (ad_cache ad) r n → (ac_page_size ac | prefix_len r)%Z →
  (∀ a, al = Some a → 0 < a ∧ (ac_page_size ac | a)%Z) → chunk_spent ac al ad →
  add_one_req ac gather perf_counter al r ad = Ok (res, r', ad') →
  chunk_spent ac al ad' ∧ (new_chunked_req ad ≠ None → new_chunked_req ad' = new_chunked_req ad).
Proof. intros. by eapply chunk_once. Qed.
End admission_claims.

Section radix_pass.
Context {A : Type} `{KVPool A} `{!KVPoolTotal A} `{!KVPoolSlots A} `{KVAlloc A} `{!KVAllocLaws A}.
Context `{Env} `{!EnvLaws} `{HeapQ} `{!HeapQLaws}.
Variables (cfg : Config) (strip spec_algo : bool) (retract_decode_steps : Z).
Hypothesis Hdis : disable cfg = false.
Local Instance rp : PrefixCache (Sys A) := radix_prefix_cache cfg strip spec_algo retract_decode_steps.
Local Instance rpl : PrefixCacheLaws (Sys A) :=
  radix_prefix_cache_laws cfg strip spec_algo retract_decode_steps Hdis.

(** The new tokens of a batch. *)
Definition new_tokens (l : list SReq) : Z := foldr (λ r n, extend_length r + n) 0 l.

Lemma new_tokens_nonneg l : Forall (λ r, 0 ≤ extend_length r) l → 0 ≤ new_tokens l.
Proof. unfold new_tokens. induction 1; cbn [foldr]; lia. Qed.

Lemma new_tokens_le ac l : 1 ≤ ac_page_size ac → new_tokens l ≤ batch_tokens ac l.
Proof.
  intros Hp. unfold new_tokens, batch_tokens. induction l as [|r l IH]; cbn [foldr]; lia.
Qed.

(** C16: the batch an admission pass builds can run: for a pass that starts with an
    empty batch over the radix cache, without preemption by priority and for models
    without sliding windows or mamba states, the loop over the waiting queue returns and
    admits a prefix of the queue; the request pool has a free row for each of
    them, and the allocator, after evicting what nobody holds, has a slot for each
    of their new tokens, so that the allocation of the batch succeeds and the
    cache keeps its invariant with one lock per request. *)
Theorem admitted_batch_can_run ac gather perf_counter s exec running input chunk mixed dllm m1 m2
    pp low al full queue L :
  cfg_ok ac gather → is_all_swa ac = false → is_hybrid_swa ac = false → is_hybrid_ssm_cache ac = false →
  cache_wf cfg (cache s) L → kv_ready (allocator (cache s)) → 0 ≤ mixed → (0 <= new_token_ratio ac)%Q →
  Forall (λ r, output_len r ≤ max_new_tokens r) running → Forall (λ r, 0 ≤ max_new_tokens r) queue →
  (∀ a, al = Some a → 0 < a) →
  ∃ full' queue' ad' locks,
    add_waiting ac gather perf_counter pp false low al full queue
      (init_adder ac s exec (Some running) input chunk mixed dllm m1 m2) = Ok (full', queue', ad') ∧
    rid <$> queue' = rid <$> queue ∧ can_run_list ad' `prefix_of` queue' ∧ length locks = length (can_run_list ad') ∧
    (length (can_run_list ad') ≤ pool_available_size (req_to_token_pool (ad_cache ad')))%nat ∧
    (∃ l st', alloc_token_slots cfg (new_tokens (can_run_list ad')) (cache (ad_cache ad')) = Ok (l, st') ∧
       Z.of_nat (length l) = new_tokens (can_run_list ad') ∧ cache_wf cfg st' (locks ++ L)).
Proof.
  intros Hcfg Hs1 Hs2 Hs3 Hw Hr Hm Hratio Hrun Hq Hal.
  set (ad := init_adder ac s exec (Some running) input chunk mixed dllm m1 m2).
  assert (Hi : adder_inv ac ad L) by (apply init_adder_inv; (done || apply Hcfg)).
  destruct (add_waiting_ok ac gather perf_counter Hcfg pp low al full queue L ad Hi Hal Hq)
    as (full' & queue' & ad' & -> & (added & locks & Hi' & Hcan & Hpre & Hqr & Hll & Hsl) & _).
  cbn in Hcan. exists full', queue', ad', locks. rewrite Hcan. split_and!; try done.
  - destruct Hsl as [->|Hsl]; [cbn; lia|]. rewrite Hcan in Hsl. cbn in Hsl. lia.
  - rewrite <-Hcan in *. destruct (ai_wf _ _ _ Hi') as [Hw' Hr'].
    destruct (alloc_token_slots_ok cfg (new_tokens (can_run_list ad')) (cache (ad_cache ad')) (locks ++ L) Hw' Hdis Hr')
      as (l & st' & Hal' & Hlen & Hwf & _); [|eauto].
    split; [by apply new_tokens_nonneg, Hi'|].
    pose proof (kv_available_nonneg (allocator (cache (ad_cache ad')))).
    assert (0 ≤ evictable_size_ (tree (cache (ad_cache ad')))) by (by eapply evictable_nonneg).
    destruct (ai_fits _ _ _ Hi') as [->|Hf]; [cbn; lia|].
    unfold available_and_evictable in Hf. rewrite Hs1, Hs2, Hs3 in Hf. cbn in Hf.
    pose proof (new_tokens_le ac (can_run_list ad') (co_page _ _ Hcfg)). lia.
Qed.
End radix_pass.

(** ** Preemption *)

Section preemption.
Context {S : Type} `{PrefixCache S} (ac : AdderCfg).
Implicit Types ad : Adder S.
Notation offset := (get_running_request_total_token_offset ac).



(** The running requests that may be preempted. *)
Definition preemptible ad (v : SReq) : Prop :=
  rid v ∉ rids (preempt_list ad) ∧ is_finished v = false.
Global Instance preemptible_dec ad v : Decision (preemptible ad v).
Proof. unfold preemptible. apply _. Defined.

End preemption.

(** ** The order of the waiting queue *)

Lemma longest_prefix_key_plain dep n r :
  longest_prefix_key dep r = Ok [0; - n] ↔ rid r ∉ dep ∧ num_matched_prefix_tokens r = n.
Proof.
  unfold longest_prefix_key. case_decide; split; [done|by intros []| |].
  - intros [= ?]. split; [done|lia].
  - intros [_ ->]. done.
Qed.

Lemma longest_prefix_key_last dep r : longest_prefix_key dep r = Ok [1] ↔ rid r ∈ dep.
Proof. unfold longest_prefix_key. by case_decide. Qed.

(** The longest-prefix order is a stable sort: it returns, keeps exactly the
    requests of the queue, puts the deprioritized ones last and among the others
    those with the longer cached prefix first, and keeps the order of arrival
    among requests with the same prefix length and among the deprioritized. *)
Theorem longest_prefix_order queue dep :
  ∃ q, sort_by_longest_prefix queue dep = Ok q ∧ q ≡ₚ queue ∧
    StronglySorted (λ r1 r2, rid r2 ∉ dep →
      rid r1 ∉ dep ∧ num_matched_prefix_tokens r2 ≤ num_matched_prefix_tokens r1) q ∧
    (∀ n, filter (λ r, rid r ∉ dep ∧ num_matched_prefix_tokens r = n) q =
          filter (λ r, rid r ∉ dep ∧ num_matched_prefix_tokens r = n) queue) ∧
    filter (λ r, rid r ∈ dep) q = filter (λ r, rid r ∈ dep) queue.
Proof.
  unfold sort_by_longest_prefix. destruct (sorted_reqs_total (longest_prefix_key dep) queue) as [q Hq].
  { apply Forall_forall. intros r _. by eexists. }
  destruct (sorted_reqs_ok _ _ _ Hq) as [Hp Hs]. exists q. split_and!; try done.
  - clear -Hs. induction Hs as [|r l Hl IH Hr]; constructor; [done|].
    eapply Forall_impl; [exact Hr|]. intros r2 (k1 & k2 & [= <-] & [= <-] & Hlt) Hn.
    revert Hlt. rewrite (decide_False (P := rid r2 ∈ dep)) by done.
    case_decide; cbn; [done|]. intros Hlt. split; [done|].
    destruct (Z.ltb_spec (- num_matched_prefix_tokens r2) (- num_matched_prefix_tokens r)); [done|lia].
  - intros n. rewrite <-!(list_filter_iff _ _ _ (longest_prefix_key_plain dep n)).
    by apply sorted_reqs_stable.
  - rewrite <-!(list_filter_iff _ _ _ (longest_prefix_key_last dep)). by apply sorted_reqs_stable.
Qed.

Section policy_claims.
Context {A : Type} `{KVPool A} `{KVAlloc A} `{Env} `{!EnvLaws} `{HeapQ}.
Variable cfg : Config.
Variables (check_threshold deprioritize_threshold : Z).
Hypothesis Hdis : disable cfg = false.
Hypothesis Hpos : 0 < deprioritize_threshold.

(** C26: whatever the policy, [calc_priority] returns and only reorders the queue:
    no waiting request is lost or doubled, each keeps its prompt, priority and
    limits, and the lookups change neither the content nor the invariant of the
    cache. *)
Theorem calc_priority_only_reorders shuffle sp fast queue running (st : RadixCache A) L :
  (∀ l, shuffle l ≡ₚ l) → cache_wf cfg st L →
  (enable_priority_scheduling sp = true → Forall has_priority queue) →
  ∃ queue' sp' st',
    calc_priority cfg check_threshold deprioritize_threshold shuffle sp fast queue
      running st = Ok (queue', sp', st') ∧
    cache_wf cfg st' L ∧ same_content cfg st st' ∧ policy sp' = policy sp ∧ reordered queue queue'.
Proof. intros. by apply calc_priority_ok. Qed.

(** A request is deprioritized only when an earlier request of the queue
    shares with it a prefix of at least the threshold: its prefix will be cached
    once that request has run. *)
Theorem deprioritized_shares_prefix queue (st : RadixCache A) sim L :
  cache_wf cfg st L →
  ∃ queue' dep st' sim',
    compute_prefix_matches cfg check_threshold deprioritize_threshold queue st sim
      = Ok (queue', dep, st', sim') ∧ cache_wf cfg st' L ∧ Forall2 same_req queue queue' ∧
    ∀ d, d ∈ dep → ∃ q1 r q2, queue = q1 ++ r :: q2 ∧ rid r = d ∧
      shares_prefix deprioritize_threshold q1 r.
Proof.
  intros Hw. unfold compute_prefix_matches.
  destruct (prefix_matches_loop_ok cfg check_threshold deprioritize_threshold Hdis queue ∅ st
    (reset simulated_cfg sim) [] L Hw (sim_reset_ok sim) Hpos)
    as (q & dep & st' & sim' & -> & Hw' & _ & _ & Hf & _ & _ & Hd).
  exists q, dep, st', sim'. split_and!; try done. intros d Hdd.
  destruct (Hd d Hdd) as [|(q1 & r & q2 & ? & ? & Hsh)]; [set_solver|].
  rewrite app_nil_r in Hsh. eauto 10.
Qed.

End policy_claims.

(** ** Delays *)

(** C30: while some ranks can prefill and others cannot, the delayer holds the
    prefill back for fewer than [max_delay_passes] passes in a row: no run of
    refusals is longer. *)
Theorem mixed_delay_is_bounded d outs d' :
  Delayer.run d outs d' → Delayer.curr_state d = None → 0 ≤ Delayer.max_delay_passes d →
  Forall (λ o, Delayer.output_allow o = false ∧ Delayer.input_estimation o = Delayer.Mixed) outs →
  outs = [] ∨ Z.of_nat (length outs) < Delayer.max_delay_passes d.
Proof.
  intros Hr Hd Hm Hf. inversion Hr as [|outs0 d1 gather pc a out d2 Hr1 Hn]; subst; [by left|right].
  apply Forall_app in Hf as [Hf0 Hf1]. inversion Hf1 as [|? ? [Ha He] _]; subst.
  destruct (Delayer.run_inv _ _ _ Hr1 Hd Hm) as (Hmax & _ & Hcnt).
  assert (Hcnt' := Hcnt (Forall_impl _ _ _ Hf0 (λ o Ho, proj1 Ho))).
  pose proof (Delayer.negotiate_cases _ _ _ _ _ _ Hn) as (_ & _ & [(Hc & _)|(_ & Hreason & _)]); [congruence|].
  apply (Delayer.negotiate_mixed _ _ _ _ _ _ Hn He) in Ha; [|by rewrite Hreason].
  rewrite Hcnt', Hmax in Ha. rewrite length_app. cbn. lia.
Qed.

(** ranks that gather the same rows and have the same history decide alike,
    so that either all of them prefill or none does, whatever their clocks say, as
    long as the queue trigger is off. *)
Theorem ranks_decide_alike gather1 gather2 pc1 pc2 d1 d2 a1 a2 o1 d1' :
  Delayer.queue_min_ratio d1 = None → Delayer.queue_min_ratio d2 = None →
  Delayer.max_delay_passes d1 = Delayer.max_delay_passes d2 → Delayer.dp_size d1 = Delayer.dp_size d2 →
  Delayer.enable_dp_attention d1 = Delayer.enable_dp_attention d2 →
  Delayer.skip_first_delayer d1 = Delayer.skip_first_delayer d2 →
  Delayer.delayed_count <$> Delayer.curr_state d1 = Delayer.delayed_count <$> Delayer.curr_state d2 →
  Delayer.max_running_requests a1 = Delayer.max_running_requests a2 →
  Delayer.gather_info gather1 d1 a1 = Delayer.gather_info gather2 d2 a2 →
  Delayer.negotiate gather1 pc1 d1 a1 = Ok (o1, d1') →
  ∃ o2 d2', Delayer.negotiate gather2 pc2 d2 a2 = Ok (o2, d2') ∧
    Delayer.output_allow o2 = Delayer.output_allow o1 ∧
    Delayer.skip_first_delayer d2' = Delayer.skip_first_delayer d1' ∧
    Delayer.delayed_count <$> Delayer.curr_state d2' = Delayer.delayed_count <$> Delayer.curr_state d1'.
Proof.
  intros. destruct (Delayer.negotiate_agree gather1 gather2 pc1 pc2 d1 d2 a1 a2 o1 d1')
    as (o2 & d2' & ? & ? & _ & ? & ?); try done. by exists o2, d2'.
Qed.

(** The number of free slots the decode delayer waits for is at least 2, at
    most 4, below the number of slots there are and never above the value the user
    gave; and prefills are held back exactly when something runs and fewer slots
    are free, so an idle server never waits. *)
Theorem min_free_slots_bounds user m dflash n :
  MinFreeSlots.resolve_min_free_slots user m dflash = Some n →
  2 ≤ n ≤ 4 ∧ n < m ∧ (∀ v, user = Some v → n ≤ v) ∧
  ∀ running free, MinFreeSlots.should_delay n running free = true ↔ 0 < running ∧ free < n.
Proof.
  intros Hr. destruct (MinFreeSlots.resolve_bounds _ _ _ _ Hr) as (? & ? & ?).
  split_and!; try done; try lia. intros. apply MinFreeSlots.should_delay_iff.
Qed.

(** With weights of at least one, the scheduler polls for requests at least
    every [threshold] iterations. *)
Theorem recv_skips_are_bounded {Mode} `{EqDecision Mode} (dec ver : Mode) w1 w2 w3 w4 l s :
  (∀ m, 1 ≤ RecvSkipper.weight_of dec ver w1 w2 w3 w4 m) → 0 ≤ RecvSkipper.counter s → l ≠ [] →
  Forall (λ b, b = false) (RecvSkipper.handles dec ver w1 w2 w3 w4 l s).1 →
  Z.of_nat (length l) < RecvSkipper.threshold s.
Proof.
  intros Hw Hc Hl Hf.
  destruct (RecvSkipper.handles_bounded dec ver w1 w2 w3 w4 l s Hw Hc Hf) as [Hlo Hhi].
  specialize (Hhi Hl). lia.
Qed.

(** ** The input of the scheduler *)

(** C29: over any run of calls of [handle] on a receiving rank that starts unblocked:
    if every BLOCK comes while unblocked and every UNBLOCK while blocked, every call
    returns, and what was handed on followed by what is still held back is what was
    received, in order, with nothing held back once unblocked; if a BLOCK or UNBLOCK
    comes in another state, the run ends in an AssertionError. *)
Theorem blocker_keeps_order {R : Type} (calls : list (list (Blocker.RecvReq R) * bool)) :
  match Blocker.calls_in_order Blocker.UNBLOCKED calls with
  | Some s => ∃ out b, Blocker.handle_all calls (Blocker.init false) = Ok (out, b) ∧ Blocker.state b = s ∧
      out ++ Blocker.pending_reqs b = mjoin (Blocker.data <$> calls.*1) ∧
      (s = Blocker.UNBLOCKED → Blocker.pending_reqs b = [])
  | None => Blocker.handle_all calls (Blocker.init false) = Raise AssertionError
  end.
Proof.
  destruct (Blocker.calls_in_order _ calls) as [s|] eqn:Hs.
  - destruct (Blocker.handle_all_ok calls (Blocker.init false) s Blocker.init_inv Hs) as (out & b & Hh & Hst & Hi & Ho).
    exists out, b. split_and!; [done..|]. intros ->. by apply Blocker.bi_pending.
  - by apply (Blocker.handle_all_fails calls (Blocker.init false) Blocker.init_inv).
Qed.

(** ** The estimate for requests that ignore the end token *)

Lemma insert_index_last i x l y :
  Forall (λ z, Qle_bool x z.1 = false) (l ++ [y]) → insert_index i x (l ++ [y]) = (i + length l)%nat.
Proof.
  revert i; induction l as [|[t o] l IH]; intros i Hf; inversion Hf as [|? ? Hz Hl]; subst; cbn in *.
  - destruct y as [t o]. cbn in *. rewrite Hz. lia.
  - rewrite Hz, IH by done. lia.
Qed.

(** C38: the insertion that should keep [req_states] sorted misplaces the largest
    entry: a request with more tokens left than all others is put in front of the
    last one, not behind it. *)
Theorem insert_sort_misplaces_largest ac r x l y :
  req_state ac r = Some x → Forall (λ z, Qle_bool x.1 z.1 = false) (l ++ [y]) →
  add_req_state_sorted ac r (l ++ [y]) = l ++ [x; y].
Proof.
  intros Hr Hf. unfold add_req_state_sorted. rewrite Hr, insert_index_last by done. cbn [plus].
  by rewrite take_app_length, drop_app_length.
Qed.

(** ** Concrete instances *)

Definition sample_ac : AdderCfg :=
  mkAdderCfg 2 4096 (1 # 2) false false false 0 0 false 8 None 8 1 None.
Definition sample_gather (i : Delayer.Info) : list Delayer.Info := [i].

Lemma sample_ac_ok : cfg_ok sample_ac sample_gather.
Proof. by split. Qed.

(** A waiting request that may produce one token. *)
Definition sample_sreq (id : string) (prio : Z) (row : option nat) (toks : list Z) : SReq :=
  mkSReq (mkReq toks [] toks false None None row 0 0 false false 0 [] (Some 0%nat) (Some prio) None 0
    false (-1) 0 false false false 0 0) id 1 false 0 None 0 0 0 0 None false false.

Definition sample_sys1 : Sys Allocator := mkSys sample1 (pool_init 2 8).
#[local] Instance sample_pc : PrefixCache (Sys Allocator) := radix_prefix_cache sample_cfg false false 0.
#[local] Instance sample_pcl : PrefixCacheLaws (Sys Allocator) :=
  radix_prefix_cache_laws sample_cfg false false 0 eq_refl.

Definition sample_adder : Adder (Sys Allocator) :=
  init_adder sample_ac sample_sys1 None (Some []) 100 (Some 2) 0 0 0 0.

Lemma sample_adder_inv : adder_inv sample_ac sample_adder [].
Proof. apply init_adder_inv; [exact (conj sample1_wf sample1_ready)|done..]. Qed.

Lemma sample_ready : req_ready (ad_cache sample_adder) (sample_sreq "a" 0 None [5; 6; 7]) 0%nat.
Proof. split; try done. vm_compute. by eexists. Qed.

Lemma admission_balances_locks_witness :
  ∃ res r' ad', add_one_req sample_ac sample_gather (λ _, 0%Q) None (sample_sreq "a" 0 None [5; 6; 7]) sample_adder
    = Ok (res, r', ad').
Proof.
  destruct (admission_balances_locks sample_ac sample_gather (λ _, 0%Q) sample_ac_ok None
    (sample_sreq "a" 0 None [5; 6; 7]) 0%nat [] sample_adder sample_adder_inv sample_ready) as (res & r' & ad' & Hr & _);
    [intros a [=]|].
  exists res, r', ad'. exact Hr.
Defined.

(** Three tokens with a chunk budget of two. *)
Definition sample_chunk : AddReqResult * SReq * Adder (Sys Allocator) :=
  ok_or (OTHER, sample_sreq "a" 0 None [], sample_adder)
    (add_one_req sample_ac sample_gather (λ _, 0%Q) None (sample_sreq "a" 0 None [5; 6; 7]) sample_adder).

Lemma one_chunk_per_pass_witness :
  is_Some (new_chunked_req sample_chunk.2) ∧ chunk_spent sample_ac None sample_chunk.2.
Proof.
  split; [vm_compute; eexists; reflexivity|].
  apply (one_chunk_per_pass sample_ac sample_gather (λ _, 0%Q) sample_ac_ok None
    (sample_sreq "a" 0 None [5; 6; 7]) 0%nat [] sample_adder sample_chunk.1.1 sample_chunk.1.2 sample_chunk.2
    sample_adder_inv).
  - split; [reflexivity|vm_compute; eexists; reflexivity|reflexivity|vm_compute; discriminate|vm_compute; discriminate].
  - exists 0. reflexivity.
  - intros a [=].
  - intros Hn. exfalso. apply Hn. reflexivity.
  - vm_compute. reflexivity.
Defined.

Lemma admitted_batch_can_run_witness :
  ∃ full' queue' ad', add_waiting sample_ac sample_gather (λ _, 0%Q) 8 false false None false
      [sample_sreq "a" 0 None [1; 2; 3; 9]; sample_sreq "b" 0 None [5; 6]]
      (init_adder sample_ac sample_sys1 None (Some []) 100 None 0 0 0 0) = Ok (full', queue', ad') ∧
    ∃ l st', alloc_token_slots sample_cfg (new_tokens (can_run_list ad')) (cache (ad_cache ad')) = Ok (l, st').
Proof.
  destruct (admitted_batch_can_run sample_cfg false false 0 eq_refl sample_ac sample_gather (λ _, 0%Q) sample_sys1
    None [] 100 None 0 0 0 0 8 false None false
    [sample_sreq "a" 0 None [1; 2; 3; 9]; sample_sreq "b" 0 None [5; 6]] [])
    as (full' & queue' & ad' & locks & Hrun & _ & _ & _ & _ & l & st' & Hal & _);
    [exact sample_ac_ok|reflexivity..|exact sample1_wf|exact sample1_ready|lia|discriminate|constructor| | |].
  - repeat constructor; vm_compute; discriminate.
  - intros a [=].
  - exists full', queue', ad'. split; [exact Hrun|]. exists l, st'. exact Hal.
Defined.



Definition sample_queue : list SReq := [sample_sreq "a" 0 None [1; 2; 3; 9]; sample_sreq "b" 0 None [1; 2; 3; 4]].
Definition sample_policy : SchedulePolicy :=
  mkPolicy (Aware LPM) false 1 (init_cache simulated_cfg () 0).

Lemma calc_priority_only_reorders_witness :
  ∃ queue' sp' st', calc_priority sample_cfg 32 32 (λ l, l) sample_policy false sample_queue None sample1
    = Ok (queue', sp', st') ∧ reordered sample_queue queue'.
Proof.
  destruct (calc_priority_only_reorders sample_cfg 32 32 eq_refl eq_refl (λ l, l)
    sample_policy false sample_queue None sample1 [] (λ l, reflexivity l) sample1_wf) as (q & sp & st & Hr & _ & _ & _ & Ho); [intros [=]|].
  exists q, sp, st. split; [exact Hr|exact Ho].
Defined.

(** With thresholds of two, the second request waits for the first. *)
Lemma deprioritized_shares_prefix_witness :
  ok_or ∅ (let! r := compute_prefix_matches sample_cfg 4 2 sample_queue sample1 (init_cache simulated_cfg () 0) in
           Ok r.1.1.2) = {["b"%string]} ∧
  shares_prefix 2 [sample_sreq "a" 0 None [1; 2; 3; 9]] (sample_sreq "b" 0 None [1; 2; 3; 4]).
Proof.
  assert (Hb : ok_or ∅ (let! r := compute_prefix_matches sample_cfg 4 2 sample_queue sample1
    (init_cache simulated_cfg () 0) in Ok r.1.1.2) = {["b"%string]}) by (vm_compute; reflexivity).
  split; [exact Hb|].
  destruct (deprioritized_shares_prefix sample_cfg 4 2 eq_refl eq_refl sample_queue sample1
    (init_cache simulated_cfg () 0) [] sample1_wf) as (q & dep & st' & sim' & Hr & _ & _ & Hd).
  rewrite Hr in Hb. cbn [ok_or rbind fst snd] in Hb.
  destruct (Hd "b"%string) as (q1 & r & q2 & Hq & Hrid & Hs); [rewrite Hb; by apply elem_of_singleton|].
  unfold sample_queue in Hq. destruct q1 as [|x [|y q1]]; cbn [app] in Hq.
  - injection Hq as <- _. discriminate Hrid.
  - injection Hq as <- <- _. exact Hs.
  - injection Hq as _ _ Hq. by destruct q1.
Defined.


(** One rank that can prefill and one that cannot, three passes allowed. *)
Definition sample_delayer : Delayer.PrefillDelayer :=
  Delayer.mkDelayer 3 None None (5000 # 1) 2 true None true.
Definition sample_rows (i : Delayer.Info) : list Delayer.Info := [i; Delayer.mkInfo 0 0 0 0 0].
Definition sample_args : Delayer.Args := Delayer.mkArgs true (1 # 2) 1 1 8 1.
Definition sample_pass (d : Delayer.PrefillDelayer) : Delayer.NegotiateOutput * Delayer.PrefillDelayer :=
  ok_or (Delayer.mkOut None Delayer.All true Delayer.NoWait 0 0 0 0%Q, d)
    (Delayer.negotiate sample_rows (λ _, 0%Q) d sample_args).

Lemma mixed_delay_is_bounded_witness :
  Z.of_nat (length [(sample_pass sample_delayer).1; (sample_pass (sample_pass sample_delayer).2).1]) < 3.
Proof.
  destruct (mixed_delay_is_bounded sample_delayer
    (([] ++ [(sample_pass sample_delayer).1]) ++ [(sample_pass (sample_pass sample_delayer).2).1])
    (sample_pass (sample_pass sample_delayer).2).2) as [Hn|Hl]; [| | | |discriminate Hn|exact Hl].
  - apply (Delayer.run_snoc _ _ (sample_pass sample_delayer).2 sample_rows (λ _, 0%Q) sample_args); [|reflexivity].
    apply (Delayer.run_snoc _ _ sample_delayer sample_rows (λ _, 0%Q) sample_args); [apply Delayer.run_nil|reflexivity].
  - reflexivity.
  - discriminate.
  - repeat constructor.
Defined.

Lemma ranks_decide_alike_witness :
  ∃ o2 d2', Delayer.negotiate sample_rows (λ _, 9%Q) sample_delayer sample_args = Ok (o2, d2') ∧
    Delayer.output_allow o2 = false.
Proof.
  destruct (ranks_decide_alike sample_rows sample_rows (λ _, 0%Q) (λ _, 9%Q) sample_delayer sample_delayer
    sample_args sample_args (sample_pass sample_delayer).1 (sample_pass sample_delayer).2)
    as (o2 & d2' & Hr & Ho & _); [reflexivity..|].
  exists o2, d2'. split; [exact Hr|exact Ho].
Defined.

Lemma min_free_slots_bounds_witness : 2 ≤ 3 ≤ 4.
Proof. exact (proj1 (min_free_slots_bounds (Some 3) 24 false 3 eq_refl)). Defined.

Lemma recv_skips_are_bounded_witness : Z.of_nat (length [Some true; Some true]) < 3.
Proof.
  apply (recv_skips_are_bounded true false 1 1 1 1 [Some true; Some true] (RecvSkipper.mkSkipper 0 3)).
  - intros [[]|]; vm_compute; discriminate.
  - discriminate.
  - discriminate.
  - vm_compute. repeat constructor.
Defined.

(** A request received while blocked comes out after the barrier; a second BLOCK
    raises. *)
Lemma blocker_keeps_order_witness :
  (∃ out b, Blocker.handle_all [([Blocker.Other 1; Blocker.BlockReqInput Blocker.BLOCK; Blocker.Other 2], false);
      ([Blocker.BlockReqInput Blocker.UNBLOCK; Blocker.Other 3], true)] (Blocker.init false) = Ok (out, b) ∧
    out ++ Blocker.pending_reqs b = [1; 2; 3] ∧ Blocker.pending_reqs b = []) ∧
  Blocker.handle_all [([Blocker.Other 1; Blocker.BlockReqInput Blocker.BLOCK], false);
      ([Blocker.Other 2; Blocker.BlockReqInput Blocker.BLOCK], true)] (Blocker.init false) = Raise AssertionError.
Proof.
  split.
  - destruct (blocker_keeps_order [([Blocker.Other 1; Blocker.BlockReqInput Blocker.BLOCK; Blocker.Other 2], false);
      ([Blocker.BlockReqInput Blocker.UNBLOCK; Blocker.Other 3], true)]) as (out & b & Hh & _ & Ho & Hp).
    exists out, b. split; [exact Hh|]. split; [exact Ho|exact (Hp eq_refl)].
  - exact (blocker_keeps_order [([Blocker.Other 1; Blocker.BlockReqInput Blocker.BLOCK], false);
      ([Blocker.Other 2; Blocker.BlockReqInput Blocker.BLOCK], true)]).
Defined.

(** The largest entry 60 lands in front of 10, and the simulation then refuses a
    request that the sorted list admits. *)
Definition sample_long : SReq :=
  mkSReq (kv (sample_sreq "l" 0 None [1; 2; 3; 4; 5])) "l" 60 true 0 None 0 0 0 0 None false false.

Lemma insert_sort_misplaces_largest_witness :
  add_req_state_sorted sample_ac sample_long ([] ++ [(10%Q, 50)]) = [] ++ [((60 * 1 - 0)%Q, 5); (10%Q, 50)] ∧
  enough_to_finish 100 0 [((60 * 1 - 0)%Q, 5); (10%Q, 50)] = false ∧
  enough_to_finish 100 0 [(10%Q, 50); ((60 * 1 - 0)%Q, 5)] = true.
Proof.
  split; [|split; vm_compute; reflexivity].
  apply (insert_sort_misplaces_largest sample_ac sample_long ((60 * 1 - 0)%Q, 5) [] (10%Q, 50)); [reflexivity|].
  repeat constructor.
Defined.
