(* ===== verification/BatchSamples.v ===== *)
(** A small serving system for the concrete instances of the theorems about
    batches: a pool of six slots, and two requests of three tokens that fill it. *)

From stdpp Require Import base gmap strings list relations.
From Stdlib Require Import ZArith QArith Lia.
From S2P Require Import Prelude.
From S2P Require Import PyData.
From S2P Require Import Allocator.
From S2P Require Import AllocatorInv.
From S2P Require Import RadixKey.
From S2P Require Import RadixTree.
From S2P Require Import RadixInv.
From S2P Require Import RadixOps.
From S2P Require Import RadixEvict.
From S2P Require Import RadixSession.
From S2P Require Import ReqCache.
From S2P Require Import ReqAlloc.
From S2P Require Import ReqLife.
From S2P Require Import BatchAlloc.
From S2P Require Import PrefillAdder.
From S2P Require Import ScheduleBatch.
From S2P Require Import BatchInv.
From S2P Require Import ServeInv.
From S2P Require Import ServeOps.
From S2P Require Import ServeReach.
From S2P Require Import ExtendInv.
From S2P Require Import DecodeInv.
From S2P Require Import RatioInv.
From S2P Require Import ResultInv.
From S2P Require Import ServeLoop.
From S2P Require Import Samples.

Open Scope Z_scope.

(** A decidable proposition, by evaluation. *)
Ltac decide_vm := match goal with |- ?P => apply (bool_decide_eq_true_1 P); vm_compute; reflexivity end.

Lemma Ok_one {X} (x x' : X) : Ok x = Ok x' → x = x'.
Proof. by intros [= ->]. Qed.
Lemma Ok_pair {X Y} (x x' : X) (y y' : Y) : Ok (x, y) = Ok (x', y') → x = x' ∧ y = y'.
Proof. by intros [= -> ->]. Qed.

Definition six_cfg : Config := mkConfig false 1 true true false false LRUStrategy.
Definition six_cache : RadixCache Allocator := init_cache six_cfg (token_init 6 false) 0.
Definition six_sys : Sys Allocator := mkSys six_cache (pool_init 3 8).
Definition six_slots : list Z := torch_arange 1 7.
Definition six_paged : KVPaged Allocator := allocator_paged (λ _, 0) (seq 0).
#[export] Existing Instance six_paged.

(** A request that waits. *)
Definition six_kv (ids : list Z) : Req :=
  mkReq ids [] ids true None None None 0 0 false false 0 [] None None None 0 true 0 0
    false false false 0 0.
Definition six_req (id : string) (k : Req) : BReq :=
  mkBReq (mkSReq k id 4 false 0 None 0 0 0 0 None false false)
    0 0 0 0 false 0 0 0 0 false 0 2 None false false None.

(** No speculative decoding. *)
Definition no_spec : SpecArgs := mkSpecArgs None None None None 1 false.
(** A request is finished once it has four output tokens. *)
Definition four_tokens (_ : nat) (r : BReq) : bool := (4 <=? length (output_ids (bkv r)))%nat.

(** [init_next_round_input] and the lock that [add_one_req] takes. *)
Definition admit_req (stop : nat) (r : Req) (s : Sys Allocator) : result (Req * Sys Allocator) :=
  let! (r, s) := init_next_round_input six_cfg r s in
  let! n := of_option AssertionError (last_node r) in
  let! (_, st) := inc_lock_ref six_cfg n (cache s) in
  Ok (set_extend_range (Z.of_nat (length (prefix_indices r))) (Z.of_nat stop) r,
    mkSys st (req_to_token_pool s)).

Lemma six_wf : cache_wf six_cfg six_cache [].
Proof. apply reset_wf. cbn. lia. Qed.
Lemma six_rows : rows_ok (pool_init 3 8).
Proof.
  intros i Hi. exists (replicate 8 0). split; [|done]. cbn [req_to_token pool_init].
  apply lookup_replicate. split; [done|]. cbn in Hi. lia.
Qed.
Lemma six_ready : kv_ready (allocator six_cache).
Proof. vm_compute. repeat split. Qed.
Lemma six_all : all_slots six_cache ≡ₚ six_slots.
Proof. vm_compute. reflexivity. Qed.
Lemma six_pool : pool_inv (req_to_token_pool six_sys) [].
Proof. unfold pool_inv. vm_compute. reflexivity. Qed.

Lemma six_core : serve_core six_cfg six_slots six_sys [] [].
Proof. exact (proj1 (serving_init six_cfg six_slots six_sys six_wf six_all six_ready six_pool six_rows)). Qed.

(** Both requests are admitted. *)
Definition six_first : Req * Sys Allocator := ok_or (six_kv [1; 2; 3], six_sys) (admit_req 3 (six_kv [1; 2; 3]) six_sys).
Definition six_second : Req * Sys Allocator :=
  ok_or (six_kv [4; 5; 6], six_first.2) (admit_req 3 (six_kv [4; 5; 6]) six_first.2).
Definition six_reqs : list BReq := [six_req "a" six_second.1; six_req "b" six_first.1].

Lemma admit_core s run ready r r' s' :
  serve_core six_cfg six_slots s run ready → waiting r → admit_req 3 r s = Ok (r', s') →
  (length (prefix_indices r') < 3 ≤ length (all_ids r))%nat →
  serve_core six_cfg six_slots s' run (r' :: ready) ∧ allocator (cache s') = allocator (cache s).
Proof.
  intros Hc Hw Ha Hlen. destruct (serve_admit six_cfg eq_refl six_slots s run ready r 3 Hc Hw)
    as (r1 & s1 & n & d & st2 & Hi & Hn & Hl & _ & Hal & Hcore).
  unfold admit_req in Ha. rewrite Hi in Ha. cbn [rbind of_option] in Ha. rewrite Hn in Ha. cbn [rbind of_option] in Ha. rewrite Hl in Ha. cbn [rbind of_option] in Ha.
  injection Ha as <- <-. split; [|done]. by apply Hcore.
Qed.

Lemma six_waiting ids : ids ≠ [] → waiting (six_kv ids).
Proof. intros Hne. split; [done|done|done|]. unfold all_ids. cbn. by rewrite app_nil_r. Qed.

Lemma six_first_core : serve_core six_cfg six_slots six_first.2 [] [six_first.1] ∧
  allocator (cache six_first.2) = allocator six_cache.
Proof.
  apply (admit_core six_sys [] [] (six_kv [1; 2; 3])).
  - exact six_core.
  - by apply six_waiting.
  - vm_compute. reflexivity.
  - vm_compute. lia.
Qed.

Lemma six_second_core : serve_core six_cfg six_slots six_second.2 [] [six_second.1; six_first.1] ∧
  allocator (cache six_second.2) = allocator six_cache.
Proof.
  destruct six_first_core as [Hc <-].
  apply (admit_core six_first.2 [] [six_first.1] (six_kv [4; 5; 6])).
  - exact Hc.
  - by apply six_waiting.
  - vm_compute. reflexivity.
  - vm_compute. lia.
Qed.

(** The empty running batch, and the batch that prefills. *)
Definition six_idle : ScheduleBatch := init_new [] false false.
Definition six_prefill : ScheduleBatch * Sys Allocator :=
  ok_or (six_idle, six_second.2) (prepare_for_extend six_cfg 9 (init_new six_reqs false false) six_second.2).
Definition six_results : list BReq * Sys Allocator :=
  ok_or ([], six_prefill.2)
    (process_batch_result_prefill six_cfg false false four_tokens [] [7; 8] (reqs six_prefill.1) six_prefill.2).
Definition six_batch : ScheduleBatch :=
  ok_or six_idle (merge_last_batch [] (set_reqs six_results.1 six_prefill.1) six_idle).
Definition six_run : Sys Allocator := six_results.2.

Lemma six_idle_ready : decode_ready six_cfg six_slots six_second.2 six_idle [] (bkv <$> six_reqs).
Proof.
  destruct six_second_core as [Hc Ha]. split; [by left|exact Hc| |constructor].
  rewrite Ha. exact six_ready.
Qed.

Lemma six_admitted : admitted six_cfg (cache six_second.2) six_reqs.
Proof.
  destruct six_second_core as [[_ _ _ _ _ Hr] _].
  apply Forall_cons in Hr as [[s2 H2] Hr]. apply Forall_cons in Hr as [[s1 H1] _].
  constructor; [|constructor; [|constructor]].
  - pose proof (ready_stop six_cfg _ _ _ H2) as <-. exact H2.
  - pose proof (ready_stop six_cfg _ _ _ H1) as <-. exact H1.
Qed.

Lemma whole_to_prefill r :
  running r → inflight_middle_chunks (bkv r) = 0 → stop_of (bkv r) = length (all_ids (bkv r)) → to_prefill [] r.
Proof. intros Hr Hc Hs. split; [done| |done]. rewrite Hc. split; [lia|set_solver]. Qed.

Lemma six_to_prefill : Forall (to_prefill []) six_reqs.
Proof. do 2 (constructor; [apply whole_to_prefill; vm_compute; reflexivity|]). constructor. Qed.

Lemma six_fresh : (fresh_reqs (bkv <$> six_reqs) ≤ pool_available_size (req_to_token_pool six_second.2))%nat.
Proof. vm_compute. lia. Qed.
Lemma six_context : Forall (λ n, n ≤ max_context_len (req_to_token_pool six_second.2))%nat (stops_of six_reqs).
Proof. do 2 (constructor; [vm_compute; lia|]). constructor. Qed.
Lemma six_room : b_extend_num_tokens (extend_batch (bkv <$> six_reqs) (stops_of six_reqs))
  ≤ kv_available_size (allocator (cache six_second.2)) + evictable_size_ (tree (cache six_second.2)).
Proof. vm_compute. discriminate. Qed.

Lemma six_prefill_eq :
  prepare_for_extend six_cfg 9 (init_new six_reqs false false) six_second.2 = Ok (six_prefill.1, six_prefill.2).
Proof. vm_compute. reflexivity. Qed.
Lemma six_results_eq :
  process_batch_result_prefill six_cfg false false four_tokens [] [7; 8] (reqs six_prefill.1) six_prefill.2
  = Ok (six_results.1, six_run).
Proof. vm_compute. reflexivity. Qed.
Lemma six_batch_eq : merge_last_batch [] (set_reqs six_results.1 six_prefill.1) six_idle = Ok six_batch.
Proof. vm_compute. reflexivity. Qed.

(** The two requests decode, and the pool is full. *)
Lemma six_decode_ready : decode_ready six_cfg six_slots six_run six_batch [] [].
Proof.
  destruct (prefill_round_ok six_cfg eq_refl eq_refl four_tokens 9 six_slots six_second.2 six_idle [] six_reqs [] []
    false false) as (bp & s1 & Hp & _ & Hres).
  - exact six_idle_ready.
  - exact six_admitted.
  - exact six_to_prefill.
  - exact six_fresh.
  - exact six_context.
  - exact six_room.
  - rewrite six_prefill_eq in Hp. apply Ok_pair in Hp as [<- <-].
    destruct (Hres [7; 8] eq_refl) as (rs & s2 & b' & Hr & Hm & _ & Hd & _).
    rewrite six_results_eq in Hr. apply Ok_pair in Hr as [<- <-]. rewrite six_batch_eq in Hm. apply Ok_one in Hm as <-.
    exact Hd.
Qed.

(** ** A decode round without room *)

Definition six_tracker : NewTokenRatioTracker := from_server_args (7 # 10) 1 (1 # 7) 600.
Definition six_update : ScheduleBatch * list BReq * list BReq * NewTokenRatioTracker * Sys Allocator :=
  ok_or (six_batch, [], [], six_tracker, six_run)
    (update_running_batch six_cfg false no_spec 20 false six_batch six_tracker six_run).

Lemma six_update_eq :
  update_running_batch six_cfg false no_spec 20 false six_batch six_tracker six_run = Ok six_update.
Proof. vm_compute. reflexivity. Qed.

Lemma six_running : filter running (reqs six_batch) = reqs six_batch.
Proof. vm_compute. reflexivity. Qed.
Lemma six_runs : runs six_cfg [] six_slots six_run (filter running (reqs six_batch)) [].
Proof.
  destruct six_decode_ready as [_ Hc Hr Hb]. split; [exact Hc|exact Hr|].
  eapply Forall_impl; [exact Hb|]. intros r [Hl _ _]. lia.
Qed.
Lemma six_short :
  Forall (λ r, kv_committed_len (bkv r) < max_context_len (req_to_token_pool six_run))%nat
    (filter running (reqs six_batch)).
Proof. decide_vm. Qed.
Lemma six_tracker_ok : tracker_ok six_tracker.
Proof. apply from_server_args_ok; [done|split; done]. Qed.
