(* ===== verification/ServeProps.v ===== *)
(** The claims about the allocation of a batch, the stop conditions of a request
    and the allocator of hybrid sliding-window models, with concrete instances. *)

From stdpp Require Import base gmap strings list relations.
From Stdlib Require Import ZArith Lia.
From S2P Require Import Prelude.
From S2P Require Import PyData.
From S2P Require Import Allocator.
From S2P Require Import AllocatorInv.
From S2P Require Import SwaAllocator.
From S2P Require Import RadixKey.
From S2P Require Import RadixTree.
From S2P Require Import RadixInv.
From S2P Require Import RadixContent.
From S2P Require Import RadixOps.
From S2P Require Import RadixEvict.
From S2P Require Import RadixSession.
From S2P Require Import ReqCache.
From S2P Require Import ReqAlloc.
From S2P Require Import BatchAlloc.
From S2P Require Import WriteKernel.
From S2P Require Import Finish.
From S2P Require Import Samples.

Open Scope Z_scope.

(** ** Batches *)

Section batches.
Context {A : Type} `{KVPool A} `{!KVPoolTotal A} `{!KVPoolSlots A} `{KVAlloc A} `{!KVAllocLaws A} `{KVPaged A}.
Context `{Env} `{!EnvLaws} `{HeapQ} `{!HeapQLaws}.
Variable cfg : Config.
Hypothesis Hdis : disable cfg = false.

(** With pages of one token, [alloc_for_extend] succeeds on a batch whose rows
    and tokens are there: every request gets a row of its own, which afterwards
    holds its cached prefix, its share of the new slots and what was behind them;
    the new slots leave tree and free list, and rows of other requests are
    untouched. *)
Theorem extend_batch_rows b s L others :
  page_size cfg = 1%nat → cache_wf cfg (cache s) L → kv_ready (allocator (cache s)) → batch_ok b →
  pool_inv (req_to_token_pool s) (b_reqs b ++ others) → rows_ok (req_to_token_pool s) →
  Forall (λ r, is_Some (req_pool_idx r) → 0 < inflight_middle_chunks r ∨ (0 < kv_committed_len r)%nat) (b_reqs b) →
  (fresh_reqs (b_reqs b) ≤ pool_available_size (req_to_token_pool s))%nat →
  Forall (λ n, n ≤ max_context_len (req_to_token_pool s))%nat (b_seq_lens b) →
  b_extend_num_tokens b ≤ kv_available_size (allocator (cache s)) + evictable_size_ (tree (cache s)) →
  ∃ out idxs reqs' s', alloc_for_extend cfg b s = Ok (out, idxs, reqs', s') ∧
    NoDup idxs ∧ idxs = rows_of reqs' ∧ cache_wf cfg (cache s') L ∧
    all_slots (cache s) ≡ₚ out ++ all_slots (cache s') ∧
    pool_inv (req_to_token_pool s') (reqs' ++ others) ∧
    (∀ i, i ∉ idxs → req_to_token (req_to_token_pool s') !! i = req_to_token (req_to_token_pool s) !! i) ∧
    ∀ k i r el, idxs !! k = Some i → b_reqs b !! k = Some r → b_extend_lens b !! k = Some el →
      let pt := sum_list (take k (b_extend_lens b)) in
      ∃ row, req_to_token (req_to_token_pool s) !! i = Some row ∧
        req_to_token (req_to_token_pool s') !! i = Some (prefix_indices r ++ slice pt (pt + el) out ++
          drop (length (prefix_indices r) + el) row).
Proof.
  intros. edestruct (alloc_for_extend_ok cfg Hdis b s L others) as
    (out & idxs & reqs' & s' & ? & _ & _ & ? & ? & ? & ? & ? & ? & ? & _); [done..|].
  exists out, idxs, reqs', s'. by split_and!.
Qed.

(** A decode step of a batch writes one new slot per request, at the
    position behind its sequence, and changes nothing else in the rows. *)
Theorem decode_batch_rows idxs seq_lens s L :
  page_size cfg = 1%nat → cache_wf cfg (cache s) L → kv_ready (allocator (cache s)) →
  NoDup idxs → length seq_lens = length idxs →
  (∀ k i n, idxs !! k = Some i → seq_lens !! k = Some n →
     ∃ row, req_to_token (req_to_token_pool s) !! i = Some row ∧ (n < length row)%nat) →
  Z.of_nat (length idxs) ≤ kv_available_size (allocator (cache s)) + evictable_size_ (tree (cache s)) →
  ∃ out s', alloc_for_decode cfg idxs seq_lens 1 s = Ok (out, s') ∧
    cache_wf cfg (cache s') L ∧ all_slots (cache s) ≡ₚ out ++ all_slots (cache s') ∧
    (∀ i, i ∉ idxs → req_to_token (req_to_token_pool s') !! i = req_to_token (req_to_token_pool s) !! i) ∧
    ∀ k i n, idxs !! k = Some i → seq_lens !! k = Some n → ∃ x, out !! k = Some x ∧
      req_to_token (req_to_token_pool s') !! i = <[n := x]> <$> req_to_token (req_to_token_pool s) !! i.
Proof.
  intros. edestruct (alloc_for_decode_ok cfg Hdis idxs seq_lens s L) as
    (out & s' & ? & Hl & ? & ? & ? & Hw & _); [done..|]. exists out, s'. split_and!; try done.
  intros k i n Hi Hn. destruct (lookup_lt_is_Some_2 out k) as [x Hx].
  { rewrite Hl. by eapply lookup_lt_Some. }
  eauto.
Qed.
End batches.

(** C40: the two branches of [write_cache_indices] agree: for requests with distinct rows
    that fit, with as many new slots as new tokens, the Triton kernel run over the flat
    memory of the rows, its programs in any order, leaves what the torch loop leaves, and
    that loop does not raise; words loaded behind the tensors are never used. *)
Theorem write_kernel_is_torch junk out args prefixes stride p order :
  NoDup (arg_row <$> args) → Forall2 (arg_ok p) args prefixes → (ext_sum args ≤ length out)%nat →
  Forall (λ row, length row = stride) (req_to_token p) → order ≡ₚ seq 0 (length args) →
  ∃ p', write_cache_indices out args prefixes 0 p = Ok p' ∧
    foldl (λ mem pid, write_req_to_token_pool_triton junk (arg_row <$> args) prefixes ((λ x, x.1.1.2) <$> args)
        ((λ x, x.1.2) <$> args) (arg_ext <$> args) out stride pid mem) (concat (req_to_token p)) order
      = concat (req_to_token p').
Proof. intros. by apply kernel_rows. Qed.

(** ** Stop conditions *)

Section stops.
Context (decode : list Z → string) (re_search : string → string → bool).


(** when the window matches, [_locate_str_stop_finished_len] cuts the output
    behind a token up to which it matches, and no shorter cut after the first new
    token matches. *)
Theorem stop_string_cut n matched r :
  matched (window_text decode n r) = true →
  let k := locate_str_stop_finished_len decode n matched r in
  let window := drop (window_start n r) (f_output_ids r) in
  Z.of_nat (window_start n r) ≤ k ≤ Z.of_nat (length (f_output_ids r)) ∧
  matched (decode (take (Z.to_nat k - window_start n r) window)) = true ∧
  ∀ c, (Nat.max 1 (length window + 1 - n) ≤ c)%nat → Z.of_nat (window_start n r + c) < k →
    matched (decode (take c window)) = false.
Proof. apply locate_first. Qed.
End stops.

(** ** The pair of pools of a hybrid model *)

(** C24: with pages of one token, in every state a client of the hybrid allocator can
    reach, free, pending and live slots partition the full pool; free window
    slots and those the mapping points to partition the window pool, so no two
    slots share a window slot; the mapping is positive only on slots in use and
    keeps -1 at its end.  Freeing held slots never raises, and an allocation takes
    slots of both pools or is refused exactly when one of them is short. *)
Theorem swa_pools_partition size size_swa ns dbg st live :
  0 ≤ size → 0 ≤ size_swa → rtc swa_step (swa_init size size_swa 1 ns dbg, []) (st, live) →
  held (full_attn st) ++ pending (full_attn st) ++ swa_pending st ++ live ≡ₚ torch_arange 1 (size + 1) ∧
  held (swa_attn st) ++ pending (swa_attn st) ++ filter (λ v, 0 < v) (full_to_swa st)
    ≡ₚ torch_arange 1 (size_swa + 1) ∧
  mapping_ok size (full_to_swa st) (swa_pending st ++ live) ∧
  (∀ idx live', live ≡ₚ idx ++ live' → ∃ st', swa_free st idx = Ok st') ∧
  ∀ n, 0 ≤ n → ∃ o st', swa_alloc st n = Ok (o, st') ∧ (o = None ↔ swa_pair_available_size st < n).
Proof.
  intros H0 H0' Hr. apply swa_reach_inv in Hr as Hi; [|done..].
  pose proof Hi as [_ (_ & Hf & _) (_ & Hw & _) _ Hm]. split_and!; try done.
  - intros idx live' Hl. destruct (swa_free_ok _ _ _ _ _ _ H0 H0' Hi Hl) as (st' & ? & _). eauto.
  - intros n Hn. destruct (swa_alloc_ok _ _ _ _ _ Hn Hi) as (o & st' & ? & _ & ? & _). eauto.
Qed.

(** ** Concrete instances *)

Definition unit_cfg : Config := mkConfig false 1 true true false false LRUStrategy.
Definition unit_cache : RadixCache Allocator := init_cache unit_cfg (token_init 8 false) 0.
Definition unit_sys : Sys Allocator := mkSys unit_cache (pool_init 3 4).
Definition unit_req (prefix : list Z) : Req :=
  mkReq [1; 2; 3] [] [1; 2; 3] true None None None 0 0 false false 0 prefix None None None 0 false (-1) 0
    false false false 0 0.
#[export] Existing Instance sample_env.
Definition unit_paged : KVPaged Allocator := allocator_paged (λ _, 0) (seq 0).
#[export] Existing Instance unit_paged.

Lemma unit_cache_wf : cache_wf unit_cfg unit_cache [].
Proof. apply reset_wf. cbn. lia. Qed.
Lemma unit_rows_ok : rows_ok (pool_init 3 4).
Proof.
  intros i Hi. exists (replicate 4 0). split; [|done]. cbn [req_to_token pool_init].
  apply lookup_replicate. split; [done|]. cbn in Hi. lia.
Qed.

(** Two new requests, of three tokens and of two. *)
Definition unit_batch : ExtendBatch := mkBatch [unit_req []; unit_req []] [0; 0]%nat [3; 2]%nat [3; 2]%nat 5.

Lemma extend_batch_rows_witness :
  ∃ out idxs reqs' s', alloc_for_extend unit_cfg unit_batch unit_sys = Ok (out, idxs, reqs', s') ∧ NoDup idxs.
Proof.
  destruct (extend_batch_rows unit_cfg eq_refl unit_batch unit_sys [] []) as (out & idxs & reqs' & s' & Hr & Hn & _).
  - reflexivity.
  - exact unit_cache_wf.
  - vm_compute. repeat split.
  - split; reflexivity.
  - unfold pool_inv. vm_compute. reflexivity.
  - exact unit_rows_ok.
  - do 2 (constructor; [intros [? [=]]|]). constructor.
  - vm_compute. lia.
  - repeat constructor; vm_compute; lia.
  - vm_compute. discriminate.
  - exists out, idxs, reqs', s'. split; [exact Hr|exact Hn].
Defined.

(** Two rows with sequences of two and of one token. *)
Lemma decode_batch_rows_witness :
  ∃ out s', alloc_for_decode unit_cfg [1; 3]%nat [2; 1]%nat 1 unit_sys = Ok (out, s') ∧
    cache_wf unit_cfg (cache s') [].
Proof.
  destruct (decode_batch_rows unit_cfg eq_refl [1; 3]%nat [2; 1]%nat unit_sys []) as (out & s' & Hr & Hw & _).
  - reflexivity.
  - exact unit_cache_wf.
  - vm_compute. repeat split.
  - apply NoDup_ListNoDup. repeat constructor; cbn; lia.
  - reflexivity.
  - intros [|[|k]] i n; cbn; intros; simplify_eq; (exists (replicate 4 0); split; [reflexivity|cbn; lia]).
  - vm_compute. discriminate.
  - exists out, s'. split; [exact Hr|exact Hw].
Defined.

(** Three slots behind a cached prefix of one for row 2, two slots for row 1; the second
    program runs first. *)
Lemma write_kernel_is_torch_witness :
  ∃ p', write_cache_indices [7; 8; 9; 5; 6] [(2, 1, 4, 3); (1, 0, 2, 2)]%nat [[3]; []] 0 (pool_init 2 4) = Ok p' ∧
    req_to_token p' = [[0; 0; 0; 0]; [5; 6; 0; 0]; [3; 7; 8; 9]] ∧
    foldl (λ mem pid, write_req_to_token_pool_triton (λ _, -7) [2; 1]%nat [[3]; []] [1; 0]%nat [4; 2]%nat [3; 2]%nat
      [7; 8; 9; 5; 6] 4 pid mem) (concat (req_to_token (pool_init 2 4))) [1; 0]%nat = concat (req_to_token p').
Proof.
  destruct (write_kernel_is_torch (λ _, -7) [7; 8; 9; 5; 6] [(2, 1, 4, 3); (1, 0, 2, 2)]%nat [[3]; []] 4 (pool_init 2 4) [1; 0]%nat)
    as (p' & Hw & Hk).
  - apply (bool_decide_unpack _). vm_compute. exact I.
  - repeat constructor; (eexists; split; [reflexivity|vm_compute; lia]).
  - vm_compute. lia.
  - apply (bool_decide_unpack _). vm_compute. exact I.
  - apply Permutation_swap.
  - exists p'. split; [exact Hw|]. split; [|exact Hk]. vm_compute in Hw. injection Hw as <-. reflexivity.
Defined.

(** A request that has just generated the stop token 9 and a token behind it;
    tokens decode to letters. *)
Definition letters (l : list Z) : string :=
  foldr (λ t s, String (Ascii.ascii_of_nat (Z.to_nat t + 96)) s) EmptyString l.
Definition no_regex (_ _ : string) : bool := false.
Definition stop_req (strs : list string) : FReq :=
  mkFReq [1; 2; 9; 3] "" 30 [] (mkParams 20 false [9] strs [] 2 0) (Some (mkTokenizer None [])) None None None None.


(** The same request with a pending abort, with a terminated grammar, and with a stop
    string but no tokenizer. *)
Example finish_branches :
  let r tk g tf strs := mkFReq [1; 2; 9; 3] "" 30 [] (mkParams 20 false [9] strs [] 2 0) tk g None None tf in
  let reason r := match update_finish_state letters no_regex 2 r with Ok r => Some (finished_reason r) | Raise _ => None end in
  reason (r None None (Some (FINISH_ABORT "gone")) []) = Some (Some (FINISH_ABORT "gone")) ∧
  reason (r None (Some true) None []) = Some (Some (FINISH_MATCHED_TOKEN 3)) ∧
  reason (r None None None ["bi"%string]) = None.
Proof. split_and!; reflexivity. Qed.

(** The window is [b], [i], [c] and ends the output behind [i]. *)
Lemma stop_string_cut_witness :
  str_in "bi" (letters (take (Z.to_nat (locate_str_stop_finished_len letters 2 (str_in "bi") (stop_req ["bi"%string])))
    [1; 2; 9; 3])) = true ∧
  locate_str_stop_finished_len letters 2 (str_in "bi") (stop_req ["bi"%string]) = 3.
Proof.
  split; [|reflexivity].
  exact (proj1 (proj2 (stop_string_cut letters 2 (str_in "bi") (stop_req ["bi"%string]) eq_refl))).
Defined.

(** Three slots are taken and one is given back. *)
Definition swa_sample0 : SwaAlloc := swa_init 4 3 1 false false.
Definition swa_sample1 : SwaAlloc := (ok_or (None, swa_sample0) (swa_alloc swa_sample0 3)).2.
Definition swa_sample2 : SwaAlloc := ok_or swa_sample1 (swa_free swa_sample1 [2]).

Lemma swa_pools_partition_witness :
  held (swa_attn swa_sample2) ++ [] ++ [1; 3] ≡ₚ torch_arange 1 4 ∧ full_to_swa swa_sample2 = [0; 1; 0; 3; 0; -1].
Proof.
  split; [|reflexivity].
  destruct (swa_pools_partition 4 3 false false swa_sample2 [1; 3]) as (_ & Hp & _); [lia|lia| |exact Hp].
  eapply rtc_l; [apply (ss_alloc swa_sample0 [] 3 (Some [1; 2; 3]) swa_sample1); [lia|reflexivity]|].
  eapply rtc_l; [eapply (ss_free swa_sample1 _ [2] [1; 3]); [|reflexivity]|apply rtc_refl].
  apply Permutation_swap.
Defined.
