(* ===== verification/BatchProps.v ===== *)
(** The claims about batches and the serving loop, with concrete instances. *)

From stdpp Require Import base gmap strings list relations.
From Stdlib Require Import ZArith QArith Qminmax Lia Lqa.
From S2P Require Import Prelude.
From S2P Require Import PyData.
From S2P Require Import Allocator.
From S2P Require Import AllocatorInv.
From S2P Require Import RadixKey.
From S2P Require Import RadixTree.
From S2P Require Import RadixInv.
From S2P Require Import RadixOps.
From S2P Require Import RadixEvict.
From S2P Require Import RadixSession.
From S2P Require Import ReqCache.
From S2P Require Import ReqAlloc.
From S2P Require Import ReqLife.
From S2P Require Import BatchAlloc.
From S2P Require Import PrefillAdder.
From S2P Require Import ScheduleBatch.
From S2P Require Import BatchInv.
From S2P Require Import ServeInv.
From S2P Require Import ServeOps.
From S2P Require Import ServeReach.
From S2P Require Import ExtendInv.
From S2P Require Import ResultInv.
From S2P Require Import ServeLoop.
From S2P Require Import Samples.
From S2P Require Import RadixContent.
From S2P Require Import RadixInsert.
From S2P Require Import ReqCacheInv.
From S2P Require Import DecodeInv.
From S2P Require Import RatioInv.
From S2P Require Import BatchSamples.

Open Scope Z_scope.

(** ** The loop *)

Section loop.
Context {A : Type} `{KVPool A} `{!KVPoolTotal A} `{!KVPoolSlots A} `{KVAlloc A} `{!KVAllocLaws A} `{KVPaged A}.
Context `{KVGroup A} `{!KVGroupLaws A} `{Env} `{!EnvLaws} `{HeapQ} `{!HeapQLaws}.
Variable cfg : Config.
Hypothesis Hdis : disable cfg = false.
Hypothesis Hps1 : page_size cfg = 1%nat.

(** C10: with pages of one token and the radix cache on, from an empty cache, after any sequence of admissions, prefill and decode
    batches, new tokens, chunks, finished and retracted requests and evictions, the
    cache is well formed with exactly the locks of the requests being served, and
    every slot of the pool is once in the tree or the allocator or in the part of
    one request that only it owns; every request with a row has its own. *)
Theorem serving_one_owner steps S0 s y :
  cache_wf cfg (cache s) [] → all_slots (cache s) ≡ₚ S0 → kv_ready (allocator (cache s)) →
  pool_inv (req_to_token_pool s) [] → rows_ok (req_to_token_pool s) →
  rtc (serve_step cfg steps) (mkServing s [] []) y →
  cache_wf cfg (cache (srv y)) (omap last_node (running_reqs y ++ ready_reqs y)) ∧
  all_slots (cache (srv y)) ++ concat (run_owned (srv y) <$> running_reqs y) ++
    concat (ready_owned <$> ready_reqs y) ≡ₚ S0 ∧
  rp_free_slots (req_to_token_pool (srv y)) ++ rows_of (running_reqs y ++ ready_reqs y)
    ≡ₚ seq 1 (rp_size (req_to_token_pool (srv y))) ∧
  Forall (λ r, prefix_walk cfg (cache (srv y)) r (row_at (req_to_token_pool (srv y)) r)) (running_reqs y).
Proof.
  intros Hw Hs Hr Hp Ht Hsteps.
  destruct (serving_reach cfg Hdis Hps1 steps S0 _ y (serving_init cfg S0 s Hw Hs Hr Hp Ht) Hsteps)
    as [[Hw' Hs' Hp' _ Hrun _] _].
  split_and!; [done..|]. eapply Forall_impl; [exact Hrun|]. by intros r [].
Qed.

(** C11: with pages of one token, no speculation and no overlap, a decode round of requests
    whose committed tokens leave room in their rows never raises, whatever tokens the forward pass yields: with a
    batch whose columns agree with its requests, [update_running_batch] returns,
    every request it retracts or aborts can be admitted again, and
    [process_batch_result_decode] returns a batch that is ready for the next round,
    next to the same other requests. *)
Theorem decode_round args steps verdict S0 s b rest ready test t :
  speculative_algorithm args = None → decode_ready cfg S0 s b rest ready →
  Forall (λ r, kv_committed_len (bkv r) < max_context_len (req_to_token_pool s))%nat (filter running (reqs b)) →
  ∃ b' retracted aborted t' s',
    update_running_batch cfg false args steps test b t s = Ok (b', retracted, aborted, t', s') ∧
    Forall (λ r, waiting (bkv r)) (retracted ++ aborted) ∧
    ∀ toks, length toks = length (reqs b') →
      ∃ rs s2, process_batch_result_decode cfg false false verdict false ((λ x, [x]) <$> toks) (reqs b') s'
          = Ok (rs, s2) ∧ decode_ready cfg S0 s2 (set_reqs rs b') rest ready.
Proof.
  intros Hspec Hd Hctx.
  destruct (decode_round_ok cfg Hdis Hps1 verdict args steps Hspec S0 s b rest ready test t Hd Hctx)
    as (b' & re & ab & t' & s' & Hu & Hw & Hres).
  exists b', re, ab, t', s'. split_and!; [done..|]. intros toks Hl.
  destruct (Hres toks Hl) as (rs & s2 & ? & ? & _). eauto.
Qed.

(** C12: with pages of one token, no speculation and no overlap, a prefill round of
    admitted requests that fit the free rows of the request pool, the length of a row and
    the free and evictable slots never raises: [prepare_for_extend] returns, so do
    [process_batch_result_prefill] for any tokens and the merge into the running
    batch; those that neither finished nor wait for a further chunk decode behind
    the running ones, and the loop can go on. *)
Theorem prefill_round vocab_size verdict S0 s b rest rs others exclude ov spec :
  decode_ready cfg S0 s b rest ((bkv <$> rs) ++ others) → admitted cfg (cache s) rs →
  Forall (to_prefill exclude) rs →
  (fresh_reqs (bkv <$> rs) ≤ pool_available_size (req_to_token_pool s))%nat →
  Forall (λ n, n ≤ max_context_len (req_to_token_pool s))%nat (stops_of rs) →
  b_extend_num_tokens (extend_batch (bkv <$> rs) (stops_of rs))
    ≤ kv_available_size (allocator (cache s)) + evictable_size_ (tree (cache s)) →
  ∃ bp s1, prepare_for_extend cfg vocab_size (init_new rs ov spec) s = Ok (bp, s1) ∧
    ∀ toks, length toks = length rs →
      ∃ rs' s2 b', process_batch_result_prefill cfg false false verdict [] toks (reqs bp) s1 = Ok (rs', s2) ∧
        merge_last_batch exclude (set_reqs rs' bp) b = Ok b' ∧
        reqs b' = reqs b ++ filter (kept_in_batch exclude) rs' ∧
        decode_ready cfg S0 s2 b' ((bkv <$> filter (λ r, rid (sreq r) ∈ exclude) rs') ++ rest) others.
Proof.
  intros Hd Ha Htp Hf Hc Hr.
  destruct (prefill_round_ok cfg Hdis Hps1 verdict vocab_size S0 s b rest rs others exclude ov spec Hd Ha Htp Hf Hc Hr)
    as (bp & s1 & Hp & _ & Hres). exists bp, s1. split; [done|]. intros toks Hl.
  destruct (Hres toks Hl) as (rs' & s2 & b' & ? & ? & ? & ? & _). eauto 10.
Qed.

(** C17: for pages of one token and no speculation, [update_running_batch] splits the
    running requests: those that stay get one slot each, and the retracted ones had no
    more output than any that stays (with as much output, no shorter an input).  Unless
    a retraction is tested, requests are given up exactly if there are fewer free and
    evictable slots than requests; each one retracted after the first is retracted in
    a state in which it and those left did not fit, and a request is aborted only if it
    is the only one left and finds no slot even then. *)
Theorem retracts_least_output args steps S0 s b rest ready test t :
  speculative_algorithm args = None → batch_cols_ok b → runs cfg rest S0 s (filter running (reqs b)) ready →
  Forall (λ r, kv_committed_len (bkv r) < max_context_len (req_to_token_pool s))%nat (filter running (reqs b)) →
  ∃ b' retracted aborted t' s' kept gone ab,
    update_running_batch cfg false args steps test b t s = Ok (b', retracted, aborted, t', s') ∧
    filter running (reqs b) ≡ₚ kept ++ gone ++ ab ∧ reqs b' ≡ₚ decode_one <$> kept ∧
    retracted = retracted_req <$> gone ∧ aborted = aborted_req <$> ab ∧
    (kept ≠ [] → ∃ out, out_cache_loc b' = Some out ∧ length out = length kept) ∧
    (ab = [] ∨ ∃ r, ab = [r] ∧ kept = [] ∧ short_of_slots cfg rest S0 ready [r]) ∧
    (∀ pre x post, gone = pre ++ x :: post → pre ≠ [] → short_of_slots cfg rest S0 ready (x :: post ++ ab ++ kept)) ∧
    (test = false → gone ++ ab = [] ↔ Z.of_nat (length (filter running (reqs b))) ≤ free_tokens s) ∧
    ∀ x y, x ∈ gone → y ∈ kept ++ ab → retracts_first x y.
Proof.
  intros Hspec Hb Hr Hc.
  destruct (update_running_batch_ok cfg Hdis Hps1 args steps Hspec rest S0 s b ready test t Hb Hr Hc)
    as (b' & re & abt & t' & s' & kept & gone & ab & Hu & Hsp & Hk & Hre & Hab & _ & _ & _ & H1' & H2' & H3' & _ & _ & [Hg1 Hg2] & Hiff).
  exists b', re, abt, t', s', kept, gone, ab. split_and!; try done. destruct H1' as [[? _]|[Hl ?]]; [by left|right].
  destruct ab as [|r [|]]; [done| |done]. exists r. split_and!; [done..|by apply Hg2].
Qed.

(** C18: with pages of one token, [prepare_for_extend] returns for admitted requests that fit: the batch it
    prepares has columns that agree with its requests, one slot per new token, and
    as input exactly the tokens of each range behind the cached prefix. *)
Theorem extend_prepared vocab_size S0 s run rs others ov spec :
  serve_core cfg S0 s run ((bkv <$> rs) ++ others) → kv_ready (allocator (cache s)) → admitted cfg (cache s) rs →
  (fresh_reqs (bkv <$> rs) ≤ pool_available_size (req_to_token_pool s))%nat →
  Forall (λ n, n ≤ max_context_len (req_to_token_pool s))%nat (stops_of rs) →
  b_extend_num_tokens (extend_batch (bkv <$> rs) (stops_of rs))
    ≤ kv_available_size (allocator (cache s)) + evictable_size_ (tree (cache s)) →
  ∃ b out s', prepare_for_extend cfg vocab_size (init_new rs ov spec) s = Ok (b, s') ∧
    columns_ok b ∧ out_cache_loc b = Some out ∧ Z.of_nat (length out) = extend_num_tokens (ext b) ∧
    prefill_input_ids (ext b) = concat ((λ r, drop (length (prefix_indices (bkv r)))
      (take (stop_of (bkv r)) (all_ids (bkv r)))) <$> rs) ∧
    length (prefill_input_ids (ext b)) = length out ∧
    (existsb (λ r, return_logprob (bkv r)) rs = true →
      extend_input_logprob_token_ids (ext b) = Some (logprob_tokens vocab_size rs)) ∧
    serve_core cfg S0 s' (run ++ (bkv <$> reqs b)) others.
Proof.
  intros Hi Hr Ha Hf Hc Ht.
  destruct (prepare_for_extend_ok cfg Hdis Hps1 vocab_size S0 s run rs others ov spec Hi Hr Ha Hf Hc Ht)
    as (b & out & ks & s' & Hp & Hcol & _ & _ & _ & _ & Ho & Hlo & Hlen & Hids & _ & Hlp & Hi' & _).
  exists b, out, s'. split_and!; try done.
  apply Nat2Z.inj. by rewrite Hlo, Hlen.
Qed.

(** [process_batch_result_decode] returns, with overlapped scheduling as well:
    a request that is finished or retracted keeps its state, every other one gets
    its tokens and is released if they finish it, and the slots of the free group
    are back in the pool at the end. *)
Theorem decode_results_returned verdict S0 s overlap toks rs others ready :
  serve_core cfg S0 s ((bkv <$> filter active rs) ++ others) ready → kv_ready (allocator (cache s)) →
  overlap = true ∨ Forall active rs →
  Forall2 (λ r t, active r → kv_committed_len (bkv r) ≤ length (all_ids (bkv r)) + length t)%nat rs toks →
  ∃ rs' s', process_batch_result_decode cfg false false verdict overlap toks rs s = Ok (rs', s') ∧
    Forall2 (λ '(r, t) r', (active r → r' = after_tokens verdict t r) ∧ (¬ active r → r' = r)) (zip rs toks) rs' ∧
    serve_core cfg S0 s' ((bkv <$> filter active rs') ++ others) ready ∧ kv_ready (allocator (cache s')).
Proof.
  intros Hi Hr Ho Hf.
  destruct (process_batch_result_decode_ok cfg Hdis Hps1 verdict S0 s overlap toks rs others ready Hi Hr Ho Hf)
    as (rs' & s' & ? & ? & ? & ? & _). eauto 10.
Qed.
End loop.

(** ** Columns *)

(** C31: [filter_batch] keeps the requests that run and are not excluded, in order,
    and every column keeps exactly their entries: with each request its row, length,
    original length and input id.  [merge_batch] appends every column in the order of
    the requests, and the merge of the last prefill batch appends what is kept of it
    behind the running requests; the columns still agree with the requests, also if
    only one side asks for logprobs. *)
Theorem columns_follow_requests exclude last b :
  batch_cols_ok last → batch_cols_ok b →
  (∃ b', filter_batch exclude None b = Ok b' ∧ batch_cols_ok b' ∧
    reqs b' = filter (kept_in_batch exclude) (reqs b) ∧
    batch_rows b' = filter (λ x, kept_in_batch exclude x.1) (batch_rows b) ∧
    batch_inputs b' = filter (λ x, kept_in_batch exclude x.1) <$> batch_inputs b) ∧
  (reqs last ≠ [] → reqs b ≠ [] → ∃ m, merge_batch b last = Ok m ∧ columns_ok m ∧ reqs m = reqs b ++ reqs last ∧
    batch_rows m = batch_rows b ++ batch_rows last ∧
    batch_inputs m = cat_opt (batch_inputs b) (batch_inputs last)) ∧
  ∃ b', merge_last_batch exclude last b = Ok b' ∧ batch_cols_ok b' ∧
    reqs b' = reqs b ++ filter (kept_in_batch exclude) (reqs last) ∧
    batch_rows b' = batch_rows b ++ filter (λ x, kept_in_batch exclude x.1) (batch_rows last) ∧
    batch_inputs b' =
      let new := filter (λ x, kept_in_batch exclude x.1) <$> batch_inputs last in
      if (length (filter (kept_in_batch exclude) (reqs last)) =? 0)%nat then batch_inputs b
      else if is_empty b then new else cat_opt (batch_inputs b) new.
Proof.
  intros Hl Hb. split_and!.
  - destruct (filter_batch_ok exclude b Hb) as (b' & Hf & ? & ? & _).
    destruct (filter_batch_rows exclude b b' Hb Hf). eauto 10.
  - intros Hnl Hnb. destruct Hl as [?|Hl]; [done|]. destruct Hb as [?|Hb]; [done|].
    destruct (merge_batch_ok b last Hb Hl) as (m & Hm & ? & ? & _).
    destruct (merge_batch_rows b last m Hb Hl Hm). eauto 10.
  - destruct (merge_last_batch_ok exclude last b Hl Hb) as (b' & Hm & ? & ?).
    destruct (merge_last_batch_rows exclude last b b' Hl Hb Hm). eauto 10.
Qed.

(** C39: the token ids whose logprobs a prefill batch computes: each request has one
    for every position of its range from its start on, and the start lies within
    the range; so the padded list is as long as the logits that are kept. *)
Theorem logprob_ids_fit {A : Type} cfg vocab_size (st : RadixCache A) rs :
  admitted cfg st rs → Forall (λ r, -1 ≤ logprob_start_len (bkv r)) rs →
  Z.of_nat (length (logprob_tokens vocab_size rs)) = sumZ (zip_with (λ r start,
    Z.of_nat (stop_of (bkv r)) - Z.of_nat (length (prefix_indices (bkv r))) - start) rs (logprob_starts rs)) ∧
  Forall2 (λ r start, 0 ≤ start ≤ Z.of_nat (stop_of (bkv r)) - Z.of_nat (length (prefix_indices (bkv r))))
    rs (logprob_starts rs).
Proof. apply logprob_tokens_length. Qed.

(** ** The token ratio *)

(** [update_running_batch] keeps the ratio between 0 and 1: it takes a decay step,
    or sets the estimate for the requests a retraction leaves; so does a reset. *)
Theorem ratio_in_range {A : Type} `{KVPool A} `{!KVPoolTotal A} `{!KVPoolSlots A} `{KVAlloc A} `{!KVAllocLaws A}
    `{KVPaged A} `{Env} `{!EnvLaws} `{HeapQ} `{!HeapQLaws} cfg args steps S0 (s : Sys A) b rest ready test t :
  disable cfg = false → page_size cfg = 1%nat → speculative_algorithm args = None →
  batch_cols_ok b → runs cfg rest S0 s (filter running (reqs b)) ready →
  Forall (λ r, kv_committed_len (bkv r) < max_context_len (req_to_token_pool s))%nat (filter running (reqs b)) →
  tracker_ok t → 0 ≤ steps → Forall (λ r, 0 ≤ max_new_tokens (sreq r)) (filter running (reqs b)) →
  ∃ b' retracted aborted t' s',
    update_running_batch cfg false args steps test b t s = Ok (b', retracted, aborted, t', s') ∧
    tracker_ok t' ∧ tracker_ok (reset_ratio t').
Proof.
  intros Hdis Hps1 Hspec Hb Hr Hc Ht Hs Hn.
  destruct (update_running_batch_ok cfg Hdis Hps1 args steps Hspec rest S0 s b ready test t Hb Hr Hc)
    as (b' & re & abt & t' & s' & kept & gone & ab & Hu & Hsp & _ & _ & _ & _ & _ & _ & _ & _ & _ & Htr & _ & _).
  exists b', re, abt, t', s'. split; [done|].
  assert (tracker_ok t'); [|split; [done|by apply reset_ratio_ok]].
  destruct Htr as [->|[->|(l & Hl & ->)]]; [done|by apply decay_step_ok|].
  apply set_current_ok; [|done]. apply estimate_range; [done|]. rewrite Hl. rewrite Hsp in Hn.
  apply Forall_app in Hn as [Hn _]. eapply Forall_impl; [exact Hn|]. intros r Hr'. split; [unfold output_len; lia|done].
Qed.

(** ** Concrete instances *)

(** Both requests are admitted and prefilled, one after the other. *)
Lemma serving_one_owner_witness :
  ∃ y, rtc (serve_step six_cfg 20) (mkServing six_sys [] []) y ∧ length (running_reqs y) = 1%nat ∧
    length (all_slots (cache (srv y))) = 3%nat ∧
    all_slots (cache (srv y)) ++ concat (run_owned (srv y) <$> running_reqs y) ++
      concat (ready_owned <$> ready_reqs y) ≡ₚ six_slots.
Proof.
  set (out := ok_or ([], [], [], six_first.2)
    (alloc_for_extend six_cfg (extend_batch [six_first.1] [3%nat]) six_first.2)).
  set (y := mkServing out.2 (zip_with extended [3%nat] out.1.2) []).
  assert (Hr : rtc (serve_step six_cfg 20) (mkServing six_sys [] []) y).
  { eapply rtc_l.
    - eapply (ss_admit six_cfg 20 six_sys [] [] (six_kv [1; 2; 3])) with (stop := 3%nat).
      + apply six_waiting. discriminate.
      + vm_compute. reflexivity.
      + vm_compute. reflexivity.
      + vm_compute. reflexivity.
      + vm_compute. lia.
    - eapply rtc_l; [|apply rtc_refl].
      apply (ss_extend six_cfg 20 six_first.2 [] [six_first.1] [six_first.1] [] [3%nat] out.1.1.1 out.1.1.2 out.1.2 out.2).
      + reflexivity.
      + constructor; [vm_compute; reflexivity|constructor].
      + vm_compute. lia.
      + constructor; [vm_compute; lia|constructor].
      + vm_compute. discriminate.
      + vm_compute. reflexivity. }
  exists y. split; [exact Hr|]. split; [vm_compute; reflexivity|]. split; [vm_compute; reflexivity|].
  destruct (serving_one_owner six_cfg eq_refl eq_refl 20 six_slots six_sys y) as (_ & Hs & _).
  - exact six_wf.
  - exact six_all.
  - exact six_ready.
  - exact six_pool.
  - exact six_rows.
  - exact Hr.
  - exact Hs.
Defined.

(** The pool is full: one of the two requests is retracted. *)
Lemma decode_round_witness :
  ∃ b' retracted aborted t' s',
    update_running_batch six_cfg false no_spec 20 false six_batch six_tracker six_run
      = Ok (b', retracted, aborted, t', s') ∧ length retracted = 1%nat ∧
    Forall (λ r, waiting (bkv r)) (retracted ++ aborted).
Proof.
  destruct (decode_round six_cfg eq_refl eq_refl no_spec 20 four_tokens six_slots six_run six_batch [] [] false
    six_tracker eq_refl six_decode_ready six_short) as (b' & re & ab & t' & s' & Hu & Hw & _).
  exists b', re, ab, t', s'. split; [exact Hu|]. split; [|exact Hw].
  rewrite six_update_eq in Hu. apply Ok_one in Hu.
  etransitivity; [symmetry; exact (f_equal (λ x, length x.1.1.1.2) Hu)|vm_compute; reflexivity].
Defined.

Lemma retracts_least_output_witness :
  ∃ b' retracted aborted t' s' kept gone ab,
    update_running_batch six_cfg false no_spec 20 false six_batch six_tracker six_run
      = Ok (b', retracted, aborted, t', s') ∧
    filter running (reqs six_batch) ≡ₚ kept ++ gone ++ ab ∧ length (reqs b') = 1%nat ∧ gone ++ ab ≠ [] ∧
    ∀ x y, x ∈ gone → y ∈ kept ++ ab → retracts_first x y.
Proof.
  destruct (retracts_least_output six_cfg eq_refl eq_refl no_spec 20 six_slots six_run six_batch [] [] false
    six_tracker eq_refl (dr_cols _ _ _ _ _ _ six_decode_ready) six_runs six_short)
    as (b' & re & abt & t' & s' & kept & gone & ab & Hu & Hsp & _ & _ & _ & _ & _ & _ & Hiff & Hord).
  exists b', re, abt, t', s', kept, gone, ab. split; [exact Hu|]. split; [exact Hsp|].
  split; [|split; [intros Hn; apply (proj1 (Hiff eq_refl)) in Hn; revert Hn; vm_compute; intros Hn; apply Hn; reflexivity|exact Hord]].
  rewrite six_update_eq in Hu. apply Ok_one in Hu.
  etransitivity; [symmetry; exact (f_equal (λ x, length (reqs x.1.1.1.1)) Hu)|vm_compute; reflexivity].
Defined.

Lemma ratio_in_range_witness :
  ∃ b' retracted aborted t' s',
    update_running_batch six_cfg false no_spec 20 false six_batch six_tracker six_run
      = Ok (b', retracted, aborted, t', s') ∧ tracker_ok t'.
Proof.
  destruct (ratio_in_range six_cfg no_spec 20 six_slots six_run six_batch [] [] false six_tracker eq_refl eq_refl eq_refl
    (dr_cols _ _ _ _ _ _ six_decode_ready) six_runs six_short six_tracker_ok) as (b' & re & ab & t' & s' & Hu & Ht & _).
  - lia.
  - decide_vm.
  - exists b', re, ab, t', s'. split; [exact Hu|exact Ht].
Defined.

Lemma prefill_round_witness :
  ∃ bp s1, prepare_for_extend six_cfg 9 (init_new six_reqs false false) six_second.2 = Ok (bp, s1) ∧
    ∃ rs' s2 b', process_batch_result_prefill six_cfg false false four_tokens [] [7; 8] (reqs bp) s1 = Ok (rs', s2) ∧
      merge_last_batch [] (set_reqs rs' bp) six_idle = Ok b' ∧
      reqs b' = reqs six_idle ++ filter (kept_in_batch []) rs'.
Proof.
  destruct (prefill_round six_cfg eq_refl eq_refl 9 four_tokens six_slots six_second.2 six_idle [] six_reqs [] []
    false false six_idle_ready six_admitted six_to_prefill six_fresh six_context six_room) as (bp & s1 & Hp & Hres).
  exists bp, s1. split; [exact Hp|]. destruct (Hres [7; 8] eq_refl) as (rs' & s2 & b' & Hr & Hm & Hq & _).
  exists rs', s2, b'. split; [exact Hr|]. split; [exact Hm|exact Hq].
Defined.

Lemma extend_prepared_witness :
  ∃ b out s', prepare_for_extend six_cfg 9 (init_new six_reqs false false) six_second.2 = Ok (b, s') ∧
    out_cache_loc b = Some out ∧ Z.of_nat (length out) = 6.
Proof.
  destruct six_idle_ready as [_ Hc Hr _].
  destruct (extend_prepared six_cfg eq_refl eq_refl 9 six_slots six_second.2 [] six_reqs [] false false
    Hc Hr six_admitted six_fresh six_context six_room) as (b & out & s' & Hp & _ & Ho & Hl & _).
  exists b, out, s'. split; [exact Hp|]. split; [exact Ho|]. rewrite Hl.
  rewrite six_prefill_eq in Hp. apply Ok_pair in Hp as [<- _]. vm_compute. reflexivity.
Defined.

(** Both requests get a token. *)
Lemma decode_results_returned_witness :
  ∃ rs' s', process_batch_result_decode six_cfg false false four_tokens true [[1]; [2]] (reqs six_batch) six_run
      = Ok (rs', s') ∧ kv_ready (allocator (cache s')).
Proof.
  destruct six_decode_ready as [_ Hc Hr Hb].
  destruct (decode_results_returned six_cfg eq_refl eq_refl four_tokens six_slots six_run true [[1]; [2]]
    (reqs six_batch) [] []) as (rs' & s' & Hp & _ & _ & Hrd).
  - assert (filter active (reqs six_batch) = filter running (reqs six_batch)) as -> by (vm_compute; reflexivity).
    exact Hc.
  - exact Hr.
  - left. reflexivity.
  - decide_vm.
  - exists rs', s'. split; [exact Hp|exact Hrd].
Defined.

(** The prefill batch joins the one that decodes. *)
Lemma columns_follow_requests_witness :
  ∃ b', merge_last_batch ["a"%string] six_batch six_batch = Ok b' ∧ batch_cols_ok b' ∧
    reqs b' = reqs six_batch ++ filter (kept_in_batch ["a"%string]) (reqs six_batch) ∧
    batch_rows b' = batch_rows six_batch ++ filter (λ x, kept_in_batch ["a"%string] x.1) (batch_rows six_batch).
Proof.
  destruct (proj2 (proj2 (columns_follow_requests ["a"%string] six_batch six_batch
    (dr_cols _ _ _ _ _ _ six_decode_ready) (dr_cols _ _ _ _ _ _ six_decode_ready)))) as (b' & Hm & Hc & Hr & Hw & _).
  exists b'. split; [exact Hm|]. split; [exact Hc|]. split; [exact Hr|exact Hw].
Defined.

Lemma logprob_ids_fit_witness : logprob_tokens 9 six_reqs = [5; 6; 0; 2; 3; 0] ∧ length (logprob_tokens 9 six_reqs) = 6%nat.
Proof.
  split; [vm_compute; reflexivity|].
  destruct (logprob_ids_fit six_cfg 9 (cache six_second.2) six_reqs six_admitted) as [Hl _].
  - decide_vm.
  - apply Nat2Z.inj. rewrite Hl. vm_compute. reflexivity.
Defined.
