(* ===== verification/LoopProps.v ===== *)
(** What the server promises as a whole.  Its states are those a run of the server
    reaches from the start; a server of twelve slots is the concrete instance. *)

From stdpp Require Import base gmap strings list relations.
From Stdlib Require Import ZArith QArith Lia Lqa.
From S2P Require Import Prelude.
From S2P Require Import PyData.
From S2P Require Import Allocator.
From S2P Require Import AllocatorInv.
From S2P Require Import RadixKey.
From S2P Require Import RadixTree.
From S2P Require Import RadixInv.
From S2P Require Import RadixContent.
From S2P Require Import RadixOps.
From S2P Require Import RadixEvict.
From S2P Require Import RadixInsert.
From S2P Require Import RadixSession.
From S2P Require Import ReqCache.
From S2P Require Import ReqAlloc.
From S2P Require Import ReqLife.
From S2P Require Import BatchAlloc.
From S2P Require Import Delayer.
From S2P Require Import PrefillAdder.
From S2P Require Import SchedulePolicy.
From S2P Require Import ScheduleBatch.
From S2P Require Import BatchInv.
From S2P Require Import ServeInv.
From S2P Require Import Room.
From S2P Require Import RatioInv.
From S2P Require Import ResultInv.
From S2P Require Import ServeLoop.
From S2P Require Import PrefillAdderInv.
From S2P Require Import PassInv.
From S2P Require Import MemCheck.
From S2P Require Import Scheduler.
From S2P Require Import QueueInv.
From S2P Require Import Load.
From S2P Require Import SchedulerInv.
From S2P Require Import LoopInv.
From S2P Require Import Server.
From S2P Require Import Samples.
From S2P Require Import BatchSamples.

Open Scope Z_scope.

(** ** The concrete server *)

(** Twelve slots, chunks of three tokens, at most three requests at a time. *)
Definition twelve_sc : SchedCfg :=
  mkSchedCfg 100 (Some 3) false false 3 3 None None 20 10 12 false 4096 10 false false false false None None None 20 9 no_spec.
Definition twelve_env : ServerEnv :=
  mkServerEnv six_cfg twelve_sc 32 32 id true (λ i, [i]) (λ _, 0%Q) (λ _, 0%Q)
    (λ _ r, max_new_tokens (sreq r) <=? output_len (sreq r)) 3 20 false
    (mkPolicy (Agnostic FCFS) false (-1) (init_cache simulated_cfg () 0))
    (from_server_args (7 # 10) 1 (1 # 7) 600) None.

(** A request as it arrives. *)
Definition new_req (id : string) (ids : list Z) : BReq :=
  mkBReq (mkSReq (mkReq ids [] [] false None None None 0 0 false false 0 [] None None None 0 true 0 0
    false false false 0 0) id 0 false 0 None 0 0 0 0 None false false)
    0 0 0 0 false 0 0 0 0 false 0 2 None false false None.
Definition ask (id : string) (ids : list Z) : Event := Receive 0 (Some 4) (-1) (new_req id ids).
(** The model always answers with the token seven. *)
Definition tick : Event := Iterate 0 None None false (λ b, (λ _, 7) <$> reqs b).

(** A run in which the second request waits while the first takes two chunks and decodes. *)
Definition go (se : ServerEnv) (ev : Event) (x : Scheduler Allocator) : Scheduler Allocator := ok_or x (run_event se ev x).
Definition twelve_one : Scheduler Allocator := go twelve_env (ask "a" [1; 2; 3; 4; 5]) (sched_init twelve_env).
Definition twelve_two : Scheduler Allocator := go twelve_env (ask "b" [1; 2; 3; 4]) twelve_one.
Definition twelve_chunk : Scheduler Allocator := go twelve_env tick twelve_two.
Definition twelve_prefilled : Scheduler Allocator := go twelve_env tick twelve_chunk.
Definition twelve_decoded : Scheduler Allocator := go twelve_env tick twelve_prefilled.

Lemma twelve_ok : server_ok twelve_env.
Proof.
  split; try done.
  - split; try done. by intros c [= <-].
  - cbn. lia.
  - intros n r Hv%Z.leb_gt. exact Hv.
Qed.

Lemma new_req_received id ids : ids ≠ [] → received (new_req id ids).
Proof. intros Hne. by split. Qed.

Lemma tick_ok x : event_ok x tick.
Proof. intros b. by rewrite length_fmap. Qed.

Lemma reach_go se ev x :
  reachable se x → event_ok x ev → is_ok (run_event se ev x) = true → reachable se (go se ev x).
Proof. intros Hr He Ho. eapply reach_step; [exact Hr|exact He|]. by apply ok_or_eq. Qed.

Lemma reach_ask id ids x :
  reachable twelve_env x → bool_decide (ids ≠ [] ∧ id ∉ held_rids x) = true →
  is_ok (run_event twelve_env (ask id ids) x) = true → reachable twelve_env (go twelve_env (ask id ids) x).
Proof.
  intros Hr He%bool_decide_eq_true_1 Ho. destruct He as [Hne Hid]. apply reach_go; [done| |done].
  split; [by apply new_req_received|done].
Qed.

(** Fourteen slots and two requests at a time, with preemption by priority. *)
Definition preempt_sc : SchedCfg :=
  mkSchedCfg 100 None false false 2 2 None None 13 8 14 false 4096 10 true false true false None None None 20 9 no_spec.
Definition preempt_env : ServerEnv :=
  mkServerEnv six_cfg preempt_sc 32 32 id true (λ i, [i]) (λ _, 0%Q) (λ _, 0%Q)
    (λ _ r, max_new_tokens (sreq r) <=? output_len (sreq r)) 3 20 false
    (mkPolicy (Agnostic FCFS) true 1 (init_cache simulated_cfg () 0))
    (from_server_args (7 # 10) 1 (1 # 7) 600) None.
Definition prio_req (p : Z) (id : string) (ids : list Z) : BReq :=
  let r := new_req id ids in with_bkv (with_priority (Some p) (bkv r)) r.
Definition prio_ask (wanted p : Z) (id : string) (ids : list Z) : Event := Receive 0 (Some wanted) (-1) (prio_req p id ids).
(** Two requests decode when one of a higher priority arrives. *)
Definition preempt_two : Scheduler Allocator :=
  go preempt_env (prio_ask 3 0 "b" [3; 3]) (go preempt_env (prio_ask 3 0 "a" [1; 1]) (sched_init preempt_env)).
Definition preempt_three : Scheduler Allocator :=
  go preempt_env (prio_ask 4 50 "c" [7; 7; 7; 7; 7; 7]) (go preempt_env tick preempt_two).

Lemma reach_prio_ask wanted p id ids x :
  reachable preempt_env x → bool_decide (ids ≠ [] ∧ id ∉ held_rids x) = true →
  is_ok (run_event preempt_env (prio_ask wanted p id ids) x) = true → reachable preempt_env (go preempt_env (prio_ask wanted p id ids) x).
Proof.
  intros Hr He%bool_decide_eq_true_1 Ho. destruct He as [Hne Hid]. apply reach_go; [done| |done].
  split; [by split|done].
Qed.

Lemma preempt_three_reach : reachable preempt_env preempt_three.
Proof.
  apply reach_prio_ask; [|by vm_compute..]. apply reach_go; [|apply tick_ok|by vm_compute].
  do 2 (apply reach_prio_ask; [|by vm_compute..]). apply reach_init.
Qed.

Lemma twelve_two_reach : reachable twelve_env twelve_two.
Proof.
  apply reach_ask; [|by vm_compute..]. apply reach_ask; [|by vm_compute..]. apply reach_init.
Qed.

Lemma twelve_decoded_reach : reachable twelve_env twelve_decoded.
Proof.
  do 3 (apply reach_go; [|apply tick_ok|by vm_compute]). apply twelve_two_reach.
Qed.

(** ** The theorems *)

(** The servers they are about ([server_ok], with [plain_server]): pages of one token and the
    token allocator, the radix cache on, no preemption by priority, no mixed chunks, no
    speculative decoding, no overlapped loop, no truncation alignment and no retraction test
    by batch size; bounds of queue, batch and chunk that are positive where they are set, at
    least one row, limits that fit rows and pool, stop conditions that end a request at its
    number of new tokens, and ratios in exact arithmetic.  What arrives are generation
    requests ([Receive]) with a non-empty input and an identity that no held request has. *)

Section server.
Context `{KVPaged Allocator} `{Env} `{!EnvLaws} `{HeapQ} `{!HeapQLaws}.
Variable se : ServerEnv.

(** C1: A server as [server_ok] describes it (pages of one token, the radix cache, no
    preemption, mixed chunks or speculation, positive bounds) does not crash.  From its
    start, whatever generation requests with a non-empty input and an identity that is not
    held arrive, however many tokens they ask for, whatever clients abort and whatever the
    model answers, no message and no iteration of the event loop raises: no slice or index
    is out of range, no allocation fails unnoticed, no assertion fires, and neither of the
    two memory checks finds a leak. *)
Theorem serving_never_raises x ev :
  server_ok se → reachable se x → event_ok x ev → ∃ x', run_event se ev x = Ok x'.
Proof.
  intros Hok Hr He. destruct (run_event_ok se Hok ev x (reachable_inv se Hok x Hr) He) as (x' & Hx & _). by exists x'.
Qed.

(** C2: A server as in [server_ok], so without preemption by priority, loses no request.
    After an event (the arrival of a generation request with a non-empty input and an
    identity that is not held, an abort, or an iteration) every request that arrived with
    it, that the server held, or that was aborted before is held by the server, has just
    finished, or the tokenizer was told that it is aborted; this includes the requests
    that are retracted, chunked, evicted from the queue, timed out or aborted by a client.
    *)
Theorem no_request_is_lost x ev x' id :
  server_ok se → reachable se x → event_ok x ev → run_event se ev x = Ok x' →
  id ∈ arrivals ev ++ held_rids x ++ sent_aborts x → id ∈ held_rids x' ++ sent_aborts x' ++ finished_rids x'.
Proof.
  intros Hok Hr He Hx Hid. destruct (run_event_ok se Hok ev x (reachable_inv se Hok x Hr) He) as (x2 & Hx2 & _ & Ha).
  same_run. by apply Ha.
Qed.

(** C5: In every state a server as in [server_ok] reaches the slots of the KV pool are
    partitioned: each is free, in one node of the radix tree, or owned by one request of
    the running batch or the chunked one, and none is lost. *)
Theorem server_slots_partition x :
  server_ok se → reachable se x → ∃ b last,
    merge_last (chunked_req x) (last_batch x) (running_batch x) = Ok (b, last) ∧
    all_slots (cache (sys x)) ++
      concat (run_owned (sys x) <$> (bkv <$> filter running (reqs b) ++ option_list (chunked_req x))) ≡ₚ
    torch_arange 1 (max_total_num_tokens (se_sc se) + 1).
Proof.
  intros Hok Hr. destruct (reachable_inv se Hok x Hr) as (b & last & Hm & Hi & _). exists b, last. split; [done|].
  pose proof (sv_slots _ _ _ _ _ (dr_core _ _ _ _ _ _ (mi_ready _ _ _ _ _ _ Hi))) as Hs. cbn in Hs.
  by rewrite app_nil_r, <-fmap_app in Hs.
Qed.

(** C6: In every state that a server as in [server_ok] reaches when only generation requests
    arrive, each with a non-empty input and an identity that is not held, the state is well
    formed.  (An embedding request is queued unchecked, see [handle_embedding_request].)  No
    two of the requests that wait, decode or are between
    two chunks are the same, the columns of the batch that decodes agree with its requests,
    and a request that waits holds no row, is not finished, and its prompt and the tokens it
    may still produce fit a row of the request pool and the KV pool. *)
Theorem server_state_typed x :
  server_ok se → reachable se x →
  NoDup (held_rids x) ∧
  (∃ b last, merge_last (chunked_req x) (last_batch x) (running_batch x) = Ok (b, last) ∧ batch_cols_ok b) ∧
  Forall (λ r, req_pool_idx (bkv r) = None ∧ is_finished (sreq r) = false ∧ output_len (sreq r) ≤ max_new_tokens (sreq r) ∧
    Z.of_nat (length (origin_input_ids (bkv r))) + max_new_tokens (sreq r) ≤ Z.of_nat (se_context_len se) ∧
    Z.of_nat (length (origin_input_ids (bkv r))) + max_new_tokens (sreq r) + 1 < max_total_num_tokens (se_sc se))
    (waiting_queue x).
Proof.
  intros Hok Hr. destruct (reachable_inv se Hok x Hr) as (b & last & Hm & Hi & _). split_and!.
  - unfold held_rids. rewrite Hm. exact (mi_ids _ _ _ _ _ _ Hi).
  - exists b, last. split; [done|]. exact (dr_cols _ _ _ _ _ _ (mi_ready _ _ _ _ _ _ Hi)).
  - eapply Forall_impl; [exact (mi_queue _ _ _ _ _ _ Hi)|]. intros r [[_ Hf Ho _ _ Hp] [Hw _ _ _] Hn]. by split_and!.
Qed.

(** C3: A server as in [server_ok], so with pages of one token and without preemption, that
    has no prefill delayer gets to the end of its work.  From any state it reaches by arrivals
    of generation requests with a non-empty input and an identity that is not held, aborts and
    iterations, every sequence of iterations in which no request arrives leads, after
    finitely many of them and without an exception, to a state in which the server holds no
    request: nothing waits forever, no chunked prefill stalls, and retraction does not go
    round in circles.  The number of iterations is bounded by the tokens the requests may
    still produce (with one for the end of each) and the length of a row of the pool. *)
Theorem server_drains x evs :
  server_ok se → se_delayer se = None → reachable se x → (∀ i, iteration (evs i)) →
  ∃ n x', run_events se (evs <$> seq 0 n) x = Ok x' ∧ held_rids x' = [] ∧
    Z.of_nat n ≤ iterations_for se (held_load x).1.
Proof.
  intros Hok Hd Hr. exact (drains se Hok x (reachable_inv se Hok x Hr) (reachable_no_delayer se x Hd Hr) evs).
Qed.

(** C4: Every request is answered by a server as in [server_drains]: [server_ok], no
    prefill delayer, arrivals of generation requests only.  A request the server holds
    finishes in the last batch of some later iteration, or the tokenizer is told that it
    is aborted, within the same number of iterations. *)
Theorem every_request_answered x evs id :
  server_ok se → se_delayer se = None → reachable se x → (∀ i, iteration (evs i)) → id ∈ held_rids x →
  ∃ k y, 0 < Z.of_nat k ≤ iterations_for se (held_load x).1 ∧ run_events se (evs <$> seq 0 k) x = Ok y ∧
    (id ∈ sent_aborts y ∨ id ∈ finished_rids y).
Proof.
  intros Hok Hd Hr Hev Hid. pose proof (reachable_inv se Hok x Hr) as Hi. pose proof (reachable_no_delayer se x Hd Hr) as Hx.
  destruct (drains se Hok x Hi Hx evs Hev) as (n & x' & Hrun & Hh & Hn).
  destruct (answered se Hok x n Hi Hx evs x' Hev Hrun Hh id Hid) as (k & y & Hk & Hy & Ha). exists k, y. split_and!; [lia|lia|done..].
Qed.
End server.

(** ** Where the promises end *)

(** C7: With preemption by priority a request can get lost: a request that runs is preempted
    for one that arrives, the admission of that one fails for want of tokens, and the
    preempted request is neither run nor queued again, nor reported to the tokenizer. *)
Theorem preempted_request_is_lost :
  ∃ x x', reachable preempt_env x ∧ event_ok x tick ∧ run_event preempt_env tick x = Ok x' ∧
    "a"%string ∈ held_rids x ∧ "a"%string ∉ held_rids x' ++ sent_aborts x' ++ finished_rids x'.
Proof.
  exists preempt_three, (go preempt_env tick preempt_three). split_and!.
  - exact preempt_three_reach.
  - apply tick_ok.
  - apply ok_or_eq. by vm_compute.
  - decide_vm.
  - decide_vm.
Qed.

(** The delayer changes nothing but its own state. *)
Lemma delayed_exec {S : Type} gather perf_counter a b c d (ad ad' : Adder S) x :
  delayed gather perf_counter a b c d ad = Ok (x, ad') → ad' = set_exec (ad_exec ad') ad.
Proof. unfold delayed. destruct ad as [? [?|] ? ? ? ? ? ?]; cbn; intros Hd; inv_ok; [destruct ra; by inv_ok|done]. Qed.

(** What is left next to a locked prefix. *)
Lemma locked_remainder {A : Type} `{KVPool A} `{KVAlloc A} `{Env} `{HeapQ} cfg strip spec steps ac (ad : Adder (Sys A))
    st' L n w total :
  let st := cache (ad_cache ad) in let P := radix_prefix_cache cfg strip spec steps in
  disable cfg = false → cache_wf cfg st' (n :: L) → walk_to (tree st') n w → allocator st' = allocator st →
  evictable_size_ (tree st') + protected_size_ (tree st') = evictable_size_ (tree st) + protected_size_ (tree st) →
  0 ≤ kv_available_size (allocator st) → (0 <= rem_total_token_offset (ad_budget ad))%Q →
  kv_available_size (allocator st) + evictable_size_ (tree st) + protected_size_ (tree st) ≤ total →
  (rem_total_tokens ac (set_cache (mkSys st' (req_to_token_pool (ad_cache ad))) ad)
    <= inject_Z (total - Z.of_nat (length w)))%Q.
Proof.
  intros st P Hdis Hw Hwalk Hal Hsum Hav Hoff Hpool.
  pose proof (walk_protected _ _ (cw_tree _ _ _ Hw) n w ltac:(set_solver) Hwalk) as Hlen.
  pose proof (evictable_nonneg cfg _ _ Hw) as Hev.
  unfold rem_total_tokens. cbn [ad_cache ad_budget set_cache].
  set (avail := available_and_evictable ac _).
  assert (avail ≤ total - Z.of_nat (length w)).
  { unfold avail, available_and_evictable. cbn. rewrite Hal. repeat case_match; lia. }
  apply Qle_trans with (inject_Z avail); [lra|by rewrite <-Zle_Qle].
Qed.

(** C8: An input within a page of the size of the KV pool is accepted when the pages are large,
    although no admission can ever take it: the bound that [init_req_max_new_tokens] puts on
    the new tokens ends at zero, and the admission asks for a page on top.  With the radix
    cache on and no more tokens free or cached than the pool has, [add_one_req] refuses it
    whatever prefix of it is cached, whatever was admitted before and whatever the delayer
    says (only a delayer can raise), and leaves the pass as it was but for the delayer. *)
Theorem long_input_never_admitted {A : Type} `{KVPool A} `{KVAlloc A} `{Env} `{HeapQ} cfg strip spec steps
    ac sc gather perf_counter al wanted (r : BReq) (y : SReq) (ad : Adder (Sys A)) L n :
  let len := Z.of_nat (length (origin_input_ids (bkv r))) in
  let st := cache (ad_cache ad) in
  max_total_num_tokens sc - ac_page_size ac ≤ len < max_req_input_len sc → len ≤ fill_len y →
  0 ≤ clip_max_new_tokens ac → 0 ≤ mamba_slot_cost ac → (0 <= rem_total_token_offset (ad_budget ad))%Q →
  disable cfg = false → cache_wf cfg st L → last_node (kv y) = Some n →
  is_Some (nodes (tree st) !! n) → walk_to (tree st) n (prefix_indices (kv y)) →
  0 ≤ kv_available_size (allocator st) →
  kv_available_size (allocator st) + evictable_size_ (tree st) + protected_size_ (tree st) ≤ max_total_num_tokens sc →
  let r' := init_req_max_new_tokens sc (ac_page_size ac) wanted r in
  validate_input_length sc r' = (None, r') ∧
  match @add_one_req _ (radix_prefix_cache cfg strip spec steps) ac gather perf_counter al y ad with
  | Ok (res, y', ad') => res ≠ CONTINUE ∧ y' = y ∧ ad' = set_exec (ad_exec ad') ad
  | Raise _ => ad_exec ad ≠ None
  end.
Proof.
  intros len st Hlen Hfill Hclip Hgap Hoff Hdis Hw Hnode Hn Hwalk Hav Hpool. cbv zeta. split.
  { unfold validate_input_length. cbn [init_req_max_new_tokens set_max_new with_sreq bkv kv sreq].
    rewrite (proj2 (Z.leb_gt _ _)); [done|]. apply Hlen. }
  unfold add_one_req. destruct (match ad_exec ad, ad_running ad with None, _ => _ | _, _ => _ end) as [bs|] eqn:Hbs;
    [|by intros E; rewrite E in Hbs]. cbn [rbind].
  destruct (delayed _ _ _ _ _ _ ad) as [[d ad1]|] eqn:Hd; [|unfold delayed in Hd; by intros E; rewrite E in Hd].
  cbn [rbind]. apply delayed_exec in Hd. generalize dependent (ad_exec ad1). intros e ->. clear Hbs.
  destruct d; [done|]. destruct (dsa_prefill_cp_in_seq_split ac && _); [done|].
  destruct (match prefill_max_requests ac with Some _ => _ | None => _ end); [done|].
  cbn [pc_disable radix_prefix_cache]. rewrite Hdis, andb_false_r.
  match goal with |- context [no_token _ ?t _ _] => set (total := t) end.
  destruct (no_token ac total y (set_exec e ad)); [done|]. destruct (input_exhausted _ _); [done|].
  destruct (inc_lock_ref_ok cfg st L n Hw Hdis Hn) as (dl & st' & Hinc & Hw' & Hs).
  destruct (inc_dec_id cfg st L n Hw Hdis Hn) as (d1 & st1 & d2 & Hinc1 & Hdec). rewrite Hinc in Hinc1. injection Hinc1 as <- <-.
  cbn [pc_inc_lock_ref pc_dec_lock_ref radix_prefix_cache]. unfold radix_inc_lock_ref at 1. rewrite Hdis, Hnode. cbn [of_option rbind].
  cbn [ad_cache set_exec]. fold st. rewrite Hinc. cbn [rbind]. unfold add_one_req_locked.
  match goal with |- context [no_token _ _ _ ?a] => set (ad2 := a) end.
  assert (no_token ac total y ad2 = true) as ->.
  { unfold no_token. apply orb_true_iff. left. apply Qle_bool_iff.
    eapply Qle_trans; [apply (locked_remainder cfg strip spec steps ac (set_exec e ad) st' L n (prefix_indices (kv y)) (max_total_num_tokens sc)); try done|].
    - destruct Hwalk as (e0 & us & Hd0). exists e0, us. rewrite (lk_root _ _ _ _ Hs). by apply (lk_down _ _ _ _ Hs).
    - by destruct (lk_frame _ _ _ _ Hs).
    - rewrite (lk_free _ _ _ _ Hs), (lk_held _ _ _ _ Hs). cbn [ad_cache set_exec]. fold st. lia.
    - rewrite <-Zle_Qle. unfold total, cand_extend_input_len, prefix_len, mamba_gap_budget_for_req. repeat case_match; lia. }
  cbn [rbind ad_cache ad2 set_cache]. unfold radix_dec_lock_ref. rewrite Hdis. cbn [of_option rbind cache req_to_token_pool]. rewrite Hdec.
  cbn [rbind]. split_and!; [done|done|]. unfold st. by destruct ad as [[] ? ? ? ? ? ? ?].
Qed.

(** The concrete instances *)

Lemma serving_never_raises_witness : ∃ x', run_event twelve_env tick twelve_decoded = Ok x'.
Proof.
  exact (serving_never_raises twelve_env twelve_decoded tick twelve_ok twelve_decoded_reach (tick_ok _)).
Defined.

Lemma no_request_is_lost_witness : "b"%string ∈ held_rids twelve_chunk ++ sent_aborts twelve_chunk ++ finished_rids twelve_chunk.
Proof.
  apply (no_request_is_lost twelve_env twelve_two tick twelve_chunk "b" twelve_ok twelve_two_reach (tick_ok _)).
  - apply ok_or_eq. by vm_compute.
  - decide_vm.
Defined.

Lemma server_slots_partition_witness : ∃ b last,
  merge_last (chunked_req twelve_decoded) (last_batch twelve_decoded) (running_batch twelve_decoded) = Ok (b, last) ∧
  all_slots (cache (sys twelve_decoded)) ++
    concat (run_owned (sys twelve_decoded) <$> (bkv <$> filter running (reqs b) ++ option_list (chunked_req twelve_decoded))) ≡ₚ
  torch_arange 1 13.
Proof. exact (server_slots_partition twelve_env twelve_decoded twelve_ok twelve_decoded_reach). Defined.

Lemma server_state_typed_witness : NoDup (held_rids twelve_decoded).
Proof. exact (proj1 (server_state_typed twelve_env twelve_decoded twelve_ok twelve_decoded_reach)). Defined.

Lemma tick_iteration (i : nat) : iteration ((λ _, tick) i).
Proof. intros b. by rewrite length_fmap. Qed.

Lemma server_drains_witness :
  ∃ n x', run_events twelve_env ((λ _, tick) <$> seq 0 n) twelve_two = Ok x' ∧ held_rids x' = [] ∧
    Z.of_nat n ≤ iterations_for twelve_env (held_load twelve_two).1.
Proof. exact (server_drains twelve_env twelve_two (λ _, tick) twelve_ok eq_refl twelve_two_reach tick_iteration). Defined.

Lemma every_request_answered_witness : ∃ k y, 0 < Z.of_nat k ≤ iterations_for twelve_env (held_load twelve_two).1 ∧
  run_events twelve_env ((λ _, tick) <$> seq 0 k) twelve_two = Ok y ∧ ("b"%string ∈ sent_aborts y ∨ "b"%string ∈ finished_rids y).
Proof.
  apply (every_request_answered twelve_env twelve_two (λ _, tick) "b" twelve_ok eq_refl twelve_two_reach tick_iteration). decide_vm.
Defined.

(** The same run, evaluated: twelve iterations answer both requests. *)
Example twelve_run :
  ((λ x, (held_rids x, sent_aborts x)) <$> [ok_or twelve_two (run_events twelve_env ((λ _, tick) <$> seq 0 12) twelve_two)]) = [([], [])].
Proof. by vm_compute. Qed.

(** Sixty-four slots in pages of sixteen, and an input of fifty tokens whose first page is
    cached: the first test of the admission passes, the one under the lock refuses. *)
Definition paged_sc : SchedCfg :=
  mkSchedCfg 100 None false false 2 2 None None 63 58 64 false 4096 10 false false false false None None None 20 9 no_spec.
Definition paged_cfg : Config := mkConfig false 16 true true false false LRUStrategy.
Definition paged_ac : AdderCfg := mkAdderCfg 16 4096 (1 # 2) false false false 0 10 false 2 None 0 1 None.
Definition fifty : BReq := new_req "a" (Z.of_nat <$> seq 0 50).

Section paged.
Local Instance paged_kvpool : KVPool Allocator := paged_free.
Local Instance paged_kvalloc : KVAlloc Allocator :=
  {| kv_available_size := base_available_size; kv_alloc a n := ok_or (None, a) (paged_alloc a n) |}.

Definition first_page : option (list Z) * Allocator := ok_or (None, paged_init 64 16 false false) (paged_alloc (paged_init 64 16 false false) 16).
Definition first_key : RadixKey := sample_key (Z.of_nat <$> seq 0 16).
Definition paged_empty : RadixCache Allocator := init_cache paged_cfg first_page.2 0.
Definition paged_insert : nat * option nat * RadixCache Allocator :=
  ok_or (0%nat, None, paged_empty) (insert paged_cfg first_key first_page.1 (Some 0) false paged_empty).
Definition paged_sys : Sys Allocator := mkSys paged_insert.2 (pool_init 3 80).
Definition paged_adder : Adder (Sys Allocator) := mkAdder paged_sys None None (mkBudget 100 None 0 0 0 0 None 0 0 0 0) None [] [] None.
Definition fifty_ready : SReq :=
  with_kv (with_prefix (torch_arange 16 32) 16 paged_insert.1.2 (refreshed (bkv fifty))) (sreq fifty).

Lemma paged_wf : cache_wf paged_cfg paged_insert.2 [].
Proof.
  destruct (insert_ok paged_cfg paged_empty [] first_key first_page.1 (Some 0) false) as (old & plen & x & st' & Hrun & Hs).
  - apply reset_wf. cbn. lia.
  - done.
  - intros [=].
  - intros v [= <-]. vm_compute. lia.
  - unfold paged_insert. rewrite Hrun. apply Hs.
Qed.

Example fifty_tests :
  let P := radix_prefix_cache paged_cfg false false 20 in
  no_token paged_ac 50 fifty_ready paged_adder = false ∧
  (λ s, no_token paged_ac 50 fifty_ready (set_cache s paged_adder)) <$>
    match pc_inc_lock_ref (Some 1%nat) paged_sys with Ok s => Some s | Raise _ => None end = Some true.
Proof. split; vm_compute; reflexivity. Qed.

Lemma long_input_never_admitted_witness :
  validate_input_length paged_sc (init_req_max_new_tokens paged_sc 16 (Some 4) fifty) =
    (None, init_req_max_new_tokens paged_sc 16 (Some 4) fifty) ∧
  match @add_one_req _ (radix_prefix_cache paged_cfg false false 20) paged_ac (λ i, [i]) (λ _, 0%Q) None fifty_ready paged_adder with
  | Ok (res, y', ad') => res ≠ CONTINUE ∧ y' = fifty_ready ∧ ad' = set_exec (ad_exec ad') paged_adder
  | Raise _ => ad_exec paged_adder ≠ None
  end.
Proof.
  apply (long_input_never_admitted paged_cfg false false 20 paged_ac paged_sc (λ i, [i]) (λ _, 0%Q) None (Some 4)
    fifty fifty_ready paged_adder [] 1).
  - vm_compute. split; [discriminate|reflexivity].
  - vm_compute. discriminate.
  - vm_compute. discriminate.
  - vm_compute. discriminate.
  - vm_compute. discriminate.
  - reflexivity.
  - exact paged_wf.
  - vm_compute. reflexivity.
  - vm_compute. eexists. reflexivity.
  - replace (prefix_indices (kv fifty_ready)) with (torch_arange 16 32 ++ []) by (vm_compute; reflexivity).
    exists None. eexists. eapply (down_cons _ _ _ 1); [vm_compute; reflexivity|vm_compute; reflexivity..|apply down_nil].
  - vm_compute. discriminate.
  - vm_compute. discriminate.
Defined.
End paged.

(** The client aborts the request between two chunks and the one that waits; the next
    iteration gives the slots of the chunk back. *)
Definition twelve_aborted : Scheduler Allocator := go twelve_env tick (go twelve_env (Abort "" true) twelve_chunk).
Example twelve_abort :
  (held_rids twelve_chunk, held_rids twelve_aborted, sent_aborts twelve_aborted,
   length (free_pages (allocator (cache (sys twelve_chunk)))), length (free_pages (allocator (cache (sys twelve_aborted))))) =
  (["b"; "a"], [], ["b"; "a"], 9%nat, 12%nat).
Proof. by vm_compute. Qed.
